(* ===== verification/_CoqProject ===== *)
-Q . S2P
Prelude.v
Types.v
State.v
Events.v
Logic.v
Log.v
Scheduler.v
Record.v
Replay.v
Signal.v
IoUring.v
Uthread.v
Wrappers.v
Lifecycle.v
Machine.v
Invariant.v
Safety.v
ThreadSafety.v
SchedSafety.v
ColdSafety.v
LifecycleSafety.v
MachineSafety.v
Endings.v
SimOS.v
LogTheorems.v
ReplayTheorems.v
SchedulerTheorems.v
ThreadTheorems.v
WrapperTheorems.v
LifecycleTheorems.v
MachineTheorems.v
Twin.v
TwinOps.v
TwinCalls.v
TwinMachine.v
TwinStart.v
TwinBoot.v
TwinReplay.v
DeterminismTheorems.v
