(* ===== verification/Prelude.v ===== *)
(** * librr: a record/replay runtime for user-level threads

    The program (src/librr) is a shared library that is preloaded into an
    application.  It runs the application's threads as user-level threads on one
    kernel thread, makes their blocking calls through io_uring, and in recording
    mode (RR_MODE=record) logs every interposed call, every signal and every switch
    between threads; in replay mode (RR_MODE=replay) it answers the calls from the
    log and checks the switches against it.  This library models all of its
    functions and proves the properties below.  Names are the source's names.

    ** How the model corresponds to the code

    - Prelude.v: machine-width integers ([u32], [u64], [s32]), little-endian fields,
      byte memory, tactics and hint databases.
    - Types.v: include/rr_internal.h: [uthread], [rr_config_t], constants, error and
      system call numbers.
    - State.v: every static or global variable of the library as a [glob] (getter and
      setter) on one record [rr_state]; [heap] holds the allocated [uthread_t]
      objects by address, [mem] the application's bytes.  libc, the kernel and
      liburing are not part of src/: they are the class [OS], a function from
      requests to responses over a world [W] that the theorems quantify over.
      [M] is the monad of functions that return ([Ok]) or end the process
      ([Halted]); undefined behaviour of C (a NULL or dangling dereference, a double
      free, a store outside an array) is the outcome [HUndef].  [C] is the monad of
      functions that may call swapcontext: a tree ([co]) whose [CSwap] node leaves
      to the scheduler and waits to be resumed with the state of that time.
    - Events.v: the log header and the events as byte images at their struct offsets.
    - Logic.v: weakest preconditions for [M] ([wp]) and, with an interference
      relation for what other threads do during a swap, for [C] ([cwp]).
    - Log.v (log.c), Scheduler.v (scheduler.c but the loop), Record.v (record.c),
      Replay.v (replay.c), Signal.v (signal.c), IoUring.v (io_uring.c), Uthread.v
      (uthread.c), Wrappers.v (syscall_wrappers.c), Lifecycle.v (init.c and the start-up
      and shutdown functions of record.c, replay.c and signal.c): one definition per
      function.
    - Machine.v: [scheduler_loop], thread entry, and the process: application code is
      [prog], an arbitrary tree of stores and calls; [mstep] is one step of the
      process (a slice of a thread up to its next swapcontext, or an iteration of
      the scheduler's loop).
    - Invariant.v, Safety.v, ThreadSafety.v, SchedSafety.v, ColdSafety.v,
      LifecycleSafety.v, MachineSafety.v: the invariant of the runtime ([ginv]) and
      its preservation by every function, before start-up ([cold]), while running,
      and in shutdown.
    - Endings.v: which functions can end the process, and how.
    - Twin.v, TwinOps.v, TwinCalls.v, TwinMachine.v, TwinStart.v, TwinBoot.v,
      TwinReplay.v: a recording and a replaying process side by side.  [twin] relates
      their states (the same threads, queue and memory; the rest of the log of the
      one is what the other has left to read), [mirror] and [cmirror] are functions
      that preserve it, and the files go through the runtime bottom-up, from the
      queue over calls and the scheduler's loop to start-up and whole runs.
    - SimOS.v: a small deterministic kernel, an instance of all the classes below, on
      which programs run by computation; it shows that the assumptions can hold.

    ** What is assumed of the environment

    Nothing is assumed of [OS] itself: a theorem without one of these classes holds
    for every answer the system may give.
    - [LogSink] (Record.v), [LogSource] (Replay.v): write(2) and read(2) on the log file
      transfer any number of bytes up to the request or are interrupted, boundedly
      often, and do not fail otherwise.  The branches for a failing write (record.c:75
      and 90) are in the model; the theorems that assume [LogSink] exclude them.
    - [Libc] (Invariant.v): realloc of the tables succeeds below PTRDIFF_MAX.  The
      branches for its failure are in the model; [out_of_memory_use_after_free]
      shows that the invariant does not survive them.
    - [Scarce] (ThreadTheorems.v): only the memory for tables is limited.
    - [StillSink] (MachineTheorems.v): only log writes change the log file.
    - [Steady], [RecordKernel], [ReplayKernel] (Twin.v): resources are there when asked
      for, no signal arrives, clock calls fill their buffer or fail, and the log
      file holds what was written to it.

    ** What the theorems show

    - DeterminismTheorems.v: a program without blocking calls that was recorded to its
      normal end is replayed to its normal end, and computes the same, on any kernel.
    - MachineTheorems.v: for every program, environment and kernel behaviour the
      process never runs into undefined behaviour; the run queue always holds exactly
      the runnable threads; dispatch is first in, first out (all three as long as
      tables can grow).  A blocking call during which another thread runs is not
      replayed: replay takes the recorded switch for the answer of the call.
    - LogTheorems.v: what is logged is in the file or the buffer, in order, once,
      consecutively numbered, and read back event for event; shutdown persists it.
    - ReplayTheorems.v: exactly which logs are accepted at a switch and at a call, and
      that a recorded call is delivered with its result and data.
    - SchedulerTheorems.v, ThreadTheorems.v: the linked run queue refines a FIFO list;
      the outcome of wake-up, yield, exit, join and create on every branch; running
      out of memory between the two table growths of a creation leaves a freed
      thread in the scheduler's table, which a later join dereferences.
    - WrapperTheorems.v: while the library neither records nor replays the interposed
      functions are the libc functions; in replay they return what the log says, make
      no system call but reading the log and write only the caller's buffer, whatever
      the log contains; with RR_REPLAY_TIME=real the clock functions ask the system.
    - LifecycleTheorems.v: option parsing, opening a log, start-up, signals and the
      guard page handler.

    ** Bounds

    The loops that restart interrupted calls ([write_loop], [read_loop]) take fuel:
    the number of bytes plus [os_patience w] + 1, where [os_patience] bounds how often
    world [w] interrupts; [LogSink] and [LogSource] state that an interruption
    decreases it, so the fuel suffices, which the theorems about these loops prove (they
    return a result).  No other function needs fuel.  [mrun n] takes [n] steps of
    the process; theorems about it hold for every [n].

    ** What is not modelled

    Register contents and stacks of threads (a saved context is a continuation),
    the kernel and liburing (class [OS]), SIGSEGV delivery (the handler is a function
    of the faulting address), overlap of the library's own objects with the
    application's memory, a call of exit() by the application (the process ends when
    its main function returns, a thread function calls uthread_exit without a
    runtime, or a signal is handled), addresses reused after a free (which makes use
    after free visible), and the test and sample programs. *)
From Stdlib Require Strings.Byte.
From stdpp Require Import gmap strings list fin_maps.
From coqutil Require Import Byte Word.LittleEndianList.

Open Scope Z_scope.

(** ** Notations and hint databases *)

Declare Scope rr_scope.
Delimit Scope rr_scope with rr.

Create HintDb rr.
Create HintDb rrlen.

Notation bytes := (list byte).
(** Byte-addressed memory; an address that was never written reads as 0. *)
Notation memory := (gmap Z byte).
(** Pointers are addresses; the null pointer is 0. *)
Notation ptr := Z (only parsing).
Notation NULL := 0%Z (only parsing).

#[export] Instance byte_eq_dec : EqDecision byte := Strings.Byte.byte_eq_dec.

(** ** Ltac of the development *)

(** Turn boolean tests of the code into the propositions they decide. *)
Ltac bool_prop :=
  repeat match goal with
  | H : (_ && _)%bool = true |- _ => apply andb_true_iff in H as [? ?]
  | H : (_ || _)%bool = false |- _ => apply orb_false_iff in H as [? ?]
  | H : negb _ = true |- _ => apply negb_true_iff in H
  | H : negb _ = false |- _ => apply negb_false_iff in H
  | H : (_ =? _)%Z = true |- _ => apply Z.eqb_eq in H
  | H : (_ =? _)%Z = false |- _ => apply Z.eqb_neq in H
  | H : (_ <? _)%Z = true |- _ => apply Z.ltb_lt in H
  | H : (_ <? _)%Z = false |- _ => apply Z.ltb_ge in H
  | H : (_ <=? _)%Z = true |- _ => apply Z.leb_le in H
  | H : (_ <=? _)%Z = false |- _ => apply Z.leb_gt in H
  end.

(** Case on the innermost [if] or [match] of the goal, keeping the equation. *)
Ltac split_match :=
  match goal with
  | |- context [match ?x with _ => _ end] =>
      lazymatch x with
      | context [match _ with _ => _ end] => fail
      | _ => let E := fresh "E" in destruct x eqn:E; bool_prop
      end
  end.

Ltac lens_lia :=
  repeat rewrite ?length_app, ?length_cons, ?length_nil, ?length_take, ?length_drop,
    ?length_replicate, ?length_le_split in *; try lia.

(** ** Machine integers: the wrap-around of the C types the code casts to *)

Definition u32 (z : Z) : Z := z mod 2 ^ 32.
Definition u64 (z : Z) : Z := z mod 2 ^ 64.
Definition s32 (z : Z) : Z := (z + 2 ^ 31) mod 2 ^ 32 - 2 ^ 31.

Definition in_u32 (z : Z) : Prop := 0 <= z < 2 ^ 32.
Definition in_u64 (z : Z) : Prop := 0 <= z < 2 ^ 64.
Definition in_s32 (z : Z) : Prop := - 2 ^ 31 <= z < 2 ^ 31.

Arguments u32 : simpl never.
Arguments u64 : simpl never.
Arguments s32 : simpl never.

Lemma u32_id z : in_u32 z -> u32 z = z.
Proof. intros H. apply Z.mod_small, H. Qed.
Lemma u64_id z : in_u64 z -> u64 z = z.
Proof. intros H. apply Z.mod_small, H. Qed.
Lemma s32_id z : in_s32 z -> s32 z = z.
Proof. unfold s32, in_s32. intros H. rewrite Z.mod_small; lia. Qed.
Lemma u32_range z : in_u32 (u32 z).
Proof. apply Z.mod_pos_bound. lia. Qed.
Lemma u64_range z : in_u64 (u64 z).
Proof. apply Z.mod_pos_bound. lia. Qed.
Lemma s32_range z : in_s32 (s32 z).
Proof. unfold s32, in_s32. pose proof (Z.mod_pos_bound (z + 2 ^ 31) (2 ^ 32)). lia. Qed.
(** Reading back as signed what was stored as an unsigned 32-bit word. *)
Lemma s32_u32 z : s32 (u32 z) = s32 z.
Proof. unfold s32, u32. by rewrite Zplus_mod_idemp_l. Qed.

#[export] Hint Resolve u32_range u64_range s32_range : rr.
#[export] Hint Rewrite u32_id u64_id s32_id using (auto with rr) : rr.

(** ** Little-endian fields (the byte image of a C integer on x86-64) *)

(** The image of an integer of [n] bytes; negative numbers in two's complement. *)
Definition le (n : nat) (z : Z) : bytes := le_split n z.
(** The unsigned integer at offset [off] of a structure image, [n] bytes wide. *)
Definition field (bs : bytes) (off n : nat) : Z := le_combine (take n (drop off bs)).

Arguments le : simpl never.
Arguments field : simpl never.

Lemma length_le n z : length (le n z) = n.
Proof. apply length_le_split. Qed.
#[export] Hint Rewrite length_le : rrlen.

Lemma le_combine_le n z : le_combine (le n z) = z mod 2 ^ (Z.of_nat n * 8).
Proof. apply le_combine_split. Qed.

Lemma le_of_combine bs n : length bs = n -> le n (le_combine bs) = bs.
Proof. apply split_le_combine'. Qed.
#[global] Opaque le.

Lemma field_skip (a b : bytes) off n :
  (length a <= off)%nat -> field (a ++ b) off n = field b (off - length a) n.
Proof. intros H. unfold field. by rewrite drop_app_ge. Qed.

Lemma field_le n z rest : field (le n z ++ rest) 0 n = z mod 2 ^ (Z.of_nat n * 8).
Proof.
  unfold field. rewrite drop_0, take_app_le, take_ge; try (rewrite length_le; lia).
  apply le_combine_le.
Qed.

Lemma field_le_4 z rest : field (le 4 z ++ rest) 0 4 = u32 z.
Proof. apply field_le. Qed.
Lemma field_le_8 z rest : field (le 8 z ++ rest) 0 8 = u64 z.
Proof. apply field_le. Qed.

(** Peel the leading fields of an image until the one asked for is in front. *)
Ltac field_crush :=
  rewrite ?field_skip by (rewrite ?length_le; lia);
  rewrite ?length_le; cbn [Nat.sub];
  rewrite ?field_le_4, ?field_le_8.

(** ** Byte memory *)

Fixpoint load (m : memory) (a : Z) (n : nat) : bytes :=
  match n with
  | O => []
  | S n => default Byte.x00 (m !! a) :: load m (a + 1) n
  end.

(** [memcpy(a, bs, length bs)]. *)
Fixpoint store (m : memory) (a : Z) (bs : bytes) : memory :=
  match bs with
  | [] => m
  | b :: bs => store (<[a:=b]> m) (a + 1) bs
  end.

Lemma length_load m a n : length (load m a n) = n.
Proof. revert a; induction n; intros; simpl; auto. Qed.
#[export] Hint Rewrite length_load : rrlen.

Lemma store_lookup_out m a bs x :
  x < a \/ a + Z.of_nat (length bs) <= x -> store m a bs !! x = m !! x.
Proof.
  revert m a; induction bs as [|b bs IH]; intros m a H; [done|].
  simpl in *. rewrite IH by lia. apply lookup_insert_ne. lia.
Qed.

Lemma store_lookup_in m a bs i b :
  bs !! i = Some b -> store m a bs !! (a + Z.of_nat i) = Some b.
Proof.
  revert m a i; induction bs as [|c bs IH]; intros m a i Hi; [done|].
  destruct i as [|i]; simpl in *.
  - simplify_eq. rewrite store_lookup_out by lia.
    rewrite Z.add_0_r. apply lookup_insert_eq.
  - replace (a + Z.of_nat (S i)) with (a + 1 + Z.of_nat i) by lia. by apply IH.
Qed.

Lemma load_lookup m a n i :
  (i < n)%nat -> load m a n !! i = Some (default Byte.x00 (m !! (a + Z.of_nat i))).
Proof.
  revert a i; induction n as [|n IH]; intros a i H; [lia|].
  destruct i as [|i]; simpl.
  - by rewrite Z.add_0_r.
  - rewrite IH by lia. by replace (a + 1 + Z.of_nat i) with (a + Z.of_nat (S i)) by lia.
Qed.

Lemma load_ext m m' a n :
  (forall x, a <= x < a + Z.of_nat n -> m !! x = m' !! x) -> load m a n = load m' a n.
Proof.
  revert a; induction n as [|n IH]; intros a H; [done|]. simpl. f_equal.
  - by rewrite H by lia.
  - apply IH. intros x Hx. apply H. lia.
Qed.

Lemma load_app m a n k : load m a (n + k) = load m a n ++ load m (a + Z.of_nat n) k.
Proof.
  revert a; induction n as [|n IH]; intros a; simpl.
  - by rewrite Z.add_0_r.
  - f_equal. rewrite IH. f_equal. f_equal. lia.
Qed.

Lemma load_store_same m a bs : load (store m a bs) a (length bs) = bs.
Proof.
  apply list_eq_same_length with (length bs); [done| by rewrite length_load|].
  intros i x y Hi Hx Hy. rewrite load_lookup in Hx by done.
  rewrite (store_lookup_in _ _ _ _ _ Hy) in Hx. by simplify_eq/=.
Qed.

Lemma load_store_disjoint m a bs b n :
  b + Z.of_nat n <= a \/ a + Z.of_nat (length bs) <= b ->
  load (store m a bs) b n = load m b n.
Proof. intros H. apply load_ext. intros x Hx. apply store_lookup_out. lia. Qed.

(** Appending at the end of a loaded prefix: the shape of a buffer that fills up. *)
Lemma load_store_append m a n bs :
  load (store m (a + Z.of_nat n) bs) a (n + length bs) = load m a n ++ bs.
Proof. rewrite load_app, load_store_same, load_store_disjoint by lia. done. Qed.

(** ** Growable arrays: [items] are the first [len] slots of [cap] allocated ones *)

Record vec (A : Type) := Vec { v_items : list A; v_cap : Z }.
Arguments Vec {A}. Arguments v_items {A}. Arguments v_cap {A}.

Definition v_len {A} (v : vec A) : Z := Z.of_nat (length (v_items v)).
Definition v_empty {A} : vec A := Vec [] 0.
(** [arr\[len++\] = x]; [None] when the slot is outside the allocation. *)
Definition v_store_next {A} (v : vec A) (x : A) : option (vec A) :=
  if v_len v <? v_cap v then Some (Vec (v_items v ++ [x]) (v_cap v)) else None.

(** The array never holds more elements than slots. *)
Definition v_ok {A} (v : vec A) : Prop := v_len v <= v_cap v.

(** ** Generic list lemmas *)

Lemma take_min_length {A} (l : list A) n :
  take (Nat.min n (length l)) l = take n l.
Proof.
  destruct (Nat.le_ge_cases n (length l)).
  - by rewrite Nat.min_l.
  - by rewrite Nat.min_r, firstn_all, take_ge by done.
Qed.
