(* ===== verification/Types.v ===== *)
(** The data types and constants of [include/rr_internal.h], and the numeric
    constants of the C library and the x86-64 Linux ABI the sources use. *)
From stdpp Require Import gmap strings list.
From coqutil Require Import Byte.
From S2P Require Import Prelude.

(** ** Threads *)

Inductive ut_state_t := UT_RUNNABLE | UT_RUNNING | UT_BLOCKED | UT_DONE.
#[export] Instance ut_state_t_eq_dec : EqDecision ut_state_t.
Proof. solve_decision. Defined.

(** [struct uthread]. The machine registers saved in [ctx] are the thread's
    continuation, kept by the machine model (file Machine); of [ctx] the record
    keeps the stack that [makecontext] installs ([None] before it runs).
    [start_fn] and the pointers are addresses, 0 for NULL. *)
Record uthread := Uthread {
  id : Z;
  state : ut_state_t;
  ctx : option (Z * Z);
  stack : ptr;
  stack_size : Z;
  tls_block : ptr;
  join_waiter : ptr;
  retval : Z;
  next : ptr;
  io_result : Z;
  io_data_len : Z;
  io_data : bytes;
  start_fn : ptr;
  start_arg : Z;
  stack_map : ptr;
  stack_map_size : Z
}.

(** [calloc(1, sizeof(uthread_t))]: every field zero; state 0 is [UT_RUNNABLE]. *)
Definition uthread_zero : uthread :=
  Uthread 0 UT_RUNNABLE None 0 0 0 0 0 0 0 0 (replicate 64 Byte.x00) 0 0 0 0.

Definition set_state (x : ut_state_t) (u : uthread) : uthread :=
  Uthread (id u) x (ctx u) (stack u) (stack_size u) (tls_block u) (join_waiter u) (retval u)
    (next u) (io_result u) (io_data_len u) (io_data u) (start_fn u) (start_arg u)
    (stack_map u) (stack_map_size u).
Definition set_next (x : ptr) (u : uthread) : uthread :=
  Uthread (id u) (state u) (ctx u) (stack u) (stack_size u) (tls_block u) (join_waiter u)
    (retval u) x (io_result u) (io_data_len u) (io_data u) (start_fn u) (start_arg u)
    (stack_map u) (stack_map_size u).
Definition set_join_waiter (x : ptr) (u : uthread) : uthread :=
  Uthread (id u) (state u) (ctx u) (stack u) (stack_size u) (tls_block u) x (retval u)
    (next u) (io_result u) (io_data_len u) (io_data u) (start_fn u) (start_arg u)
    (stack_map u) (stack_map_size u).
Definition set_retval (x : Z) (u : uthread) : uthread :=
  Uthread (id u) (state u) (ctx u) (stack u) (stack_size u) (tls_block u) (join_waiter u) x
    (next u) (io_result u) (io_data_len u) (io_data u) (start_fn u) (start_arg u)
    (stack_map u) (stack_map_size u).
(** The three fields a completion writes. *)
Definition set_io (r n : Z) (d : bytes) (u : uthread) : uthread :=
  Uthread (id u) (state u) (ctx u) (stack u) (stack_size u) (tls_block u) (join_waiter u)
    (retval u) (next u) r n d (start_fn u) (start_arg u) (stack_map u) (stack_map_size u).
Definition set_tls_block (x : ptr) (u : uthread) : uthread :=
  Uthread (id u) (state u) (ctx u) (stack u) (stack_size u) x (join_waiter u) (retval u)
    (next u) (io_result u) (io_data_len u) (io_data u) (start_fn u) (start_arg u)
    (stack_map u) (stack_map_size u).
Definition set_ctx (x : option (Z * Z)) (u : uthread) : uthread :=
  Uthread (id u) (state u) x (stack u) (stack_size u) (tls_block u) (join_waiter u) (retval u)
    (next u) (io_result u) (io_data_len u) (io_data u) (start_fn u) (start_arg u)
    (stack_map u) (stack_map_size u).
Definition set_id (x : Z) (u : uthread) : uthread :=
  Uthread x (state u) (ctx u) (stack u) (stack_size u) (tls_block u) (join_waiter u) (retval u)
    (next u) (io_result u) (io_data_len u) (io_data u) (start_fn u) (start_arg u)
    (stack_map u) (stack_map_size u).

(** ** Configuration *)

Record rr_config_t := Config {
  mode_record : bool;
  mode_replay : bool;
  replay_time_virtual : bool;
  runtime_ready : bool;
  debug : bool;
  cfg_stack_size : Z;
  log_path : string
}.

Definition RR_DEFAULT_STACK_SIZE : Z := 2 * 1024 * 1024.
Definition RR_LOG_MAGIC : Z := 0x52524C47.
Definition RR_LOG_VERSION : Z := 1.
Definition RR_SIGNAL_SENTINEL : Z := 2 ^ 64 - 1.
Definition RR_LOG_RING_SIZE : Z := 4 * 1024 * 1024.
Definition RR_SCHED_STACK_SIZE : Z := 1 * 1024 * 1024.

(** The initializer of [g_rr_config] in record.c. *)
Definition g_rr_config_init : rr_config_t :=
  Config false false true false false RR_DEFAULT_STACK_SIZE "rr.log".

(** ** Guard pages (signal.c) *)

Record guard_page_t := GuardPage { gp_start : Z; gp_size : Z; gp_utid : Z }.

(** ** Submission queue entries: what the [io_uring_prep_*] calls store *)

Inductive sqe_op :=
| OpRead (fd : Z) (buf : ptr) (nbytes off : Z)
| OpWrite (fd : Z) (buf : ptr) (nbytes off : Z)
| OpRecv (fd : Z) (buf : ptr) (len flags : Z)
| OpSend (fd : Z) (buf : ptr) (len flags : Z)
| OpAccept (fd : Z) (addr addrlen : ptr) (flags : Z)
| OpConnect (fd : Z) (addr : ptr) (addrlen : Z)
| OpOpenat (dirfd : Z) (path : ptr) (flags mode : Z)
| OpClose (fd : Z).
#[export] Instance sqe_op_eq_dec : EqDecision sqe_op.
Proof. solve_decision. Defined.

(** ** errno values, signals, system call numbers and sizes (x86-64 Linux) *)

Definition EPERM : Z := 1.
Definition ESRCH : Z := 3.
Definition EINTR : Z := 4.
Definition EAGAIN : Z := 11.
Definition EBUSY : Z := 16.
Definition EINVAL : Z := 22.
Definition ERANGE : Z := 34.
Definition EDEADLK : Z := 35.
Definition ENOSYS : Z := 38.
Definition ENODATA : Z := 61.
Definition EPROTO : Z := 71.

Definition SIGINT : Z := 2.
Definition SIGSEGV : Z := 11.
Definition SIGTERM : Z := 15.

Definition NR_read : Z := 0.
Definition NR_write : Z := 1.
Definition NR_close : Z := 3.
Definition NR_stat : Z := 4.
Definition NR_fstat : Z := 5.
Definition NR_lstat : Z := 6.
Definition NR_nanosleep : Z := 35.
Definition NR_getpid : Z := 39.
Definition NR_connect : Z := 42.
Definition NR_accept : Z := 43.
Definition NR_sendto : Z := 44.
Definition NR_recvfrom : Z := 45.
Definition NR_uname : Z := 63.
Definition NR_getcwd : Z := 79.
Definition NR_gettimeofday : Z := 96.
Definition NR_getuid : Z := 102.
Definition NR_clock_gettime : Z := 228.
Definition NR_openat : Z := 257.

Definition sizeof_timespec : Z := 16.
Definition sizeof_timeval : Z := 16.
Definition sizeof_utsname : Z := 390.
Definition sizeof_stat : Z := 144.
Definition sizeof_signalfd_siginfo : Z := 128.

Definition O_RDONLY : Z := 0.
Definition O_WRONLY : Z := 1.
Definition O_CREAT : Z := 64.
Definition O_TRUNC : Z := 512.

Definition PROT_NONE : Z := 0.
Definition PROT_READ : Z := 1.
Definition PROT_WRITE : Z := 2.
Definition MAP_FAILED : Z := -1.
