(* ===== verification/State.v ===== *)
(** The global state of the runtime, the environment it runs on, and the monads
    its functions are written in.

    Every [static] or [extern] variable of the sources is a [glob]: a getter
    and a setter on the one state record.  The C library, the kernel and
    liburing are the class [OS]: a function from requests to responses over a
    world of its own, about which nothing is assumed here.  [M] is the monad of
    functions that return to their caller; [C] that of functions that may switch
    to the scheduler's context in between. *)
From stdpp Require Import gmap strings list.
From coqutil Require Import Byte.
From S2P Require Import Prelude Types.

(** ** The environment *)

(** A request to code outside the library: a libc, kernel or liburing call.
    [Rcall f args] is the call [f(args)] with its integer and pointer arguments;
    the calls whose arguments point into the library's own objects carry the
    bytes of the object instead. *)
Inductive os_req :=
| Rdlsym (name : string)
| Rcall (name : string) (args : list Z)
| Ropen (path : string) (flags mode : Z)
| Rlog_write (fd : Z) (bs : bytes)
| Rlog_read (fd : Z) (n : Z)
| Rlog_close (fd : Z)
| Rstderr_write (bs : bytes)
| Rtimerfd_settime (fd : Z) (it_value : bytes)
| Rget_sqe
| Rprep (op : sqe_op) (user_data : Z)
| Rsubmit
| Rwait_cqe
| Rcqe_seen.

(** The response: the return value, the value [errno] is set to (if it is set),
    data returned by value, an out-parameter, the memory the kernel writes, and
    the completion entry ([user_data], [res]). *)
Record os_resp := Resp {
  rp_rc : Z;
  rp_errno : option Z;
  rp_data : bytes;
  rp_out : Z;
  rp_writes : list (Z * bytes);
  rp_cqe : option (Z * Z)
}.

Definition resp_rc (rc : Z) : os_resp := Resp rc None [] 0 [] None.
Definition resp_err (rc e : Z) : os_resp := Resp rc (Some e) [] 0 [] None.

(** [os_patience w] bounds the retries of the loops that restart an interrupted
    call; it is the fuel of those loops (see [Record.rr_write_direct]).
    [os_addr x] is where the loader or the stack frame placed the library's
    object [x], for the few objects the kernel is given a pointer to. *)
Class OS (W : Type) := {
  os_call : os_req -> memory -> W -> W * os_resp;
  os_patience : W -> nat;
  os_addr : string -> ptr
}.

(** ** Global variables, by source file *)

Record record_globals := RecordG {
  f_log_fd : Z;
  f_ring : option memory;   (* [None] is the NULL mapping *)
  f_ring_used : Z
}.
Record replay_globals := ReplayG {
  f_replay_fd : Z;
  f_expected_seq : Z;
  f_replay_header_ok : bool
}.
Record scheduler_globals := SchedG {
  f_runq_head : ptr;
  f_runq_tail : ptr;
  f_current : ptr;
  f_sched_stack : ptr;
  f_sched_running : bool;
  f_threads : vec ptr
}.
Record uthread_globals := UthreadG {
  f_next_id : Z;
  f_scheduler_tls : ptr;
  f_allocated : vec ptr
}.
Record signal_globals := SignalG {
  f_altstack_sp : ptr;
  f_altstack_size : Z;
  f_signalfd : Z;
  f_guard_pages : vec guard_page_t
}.
Record io_globals := IoG {
  f_ring_ready : bool;
  f_signal_fd : Z
}.
(** What the process has besides the library's own variables: [errno] (one cell:
    all threads share one TLS block, see [init_tls_copy]), the function pointers
    the wrappers and the log code resolve with [dlsym], the heap of [uthread_t]
    objects with its allocation mark, the application's memory, the environment
    variables.  [trace] is ghost: the requests made so far, newest first. *)
Record process_globals := ProcessG {
  f_errno : Z;
  f_statics : gmap string Z;
  f_heap : gmap Z uthread;
  f_brk : Z;
  f_mem : memory;
  f_environ : list (string * string);
  f_trace : list os_req
}.

Record rr_state (W : Type) := RRState {
  st_config : rr_config_t;
  st_seq : Z;
  st_record : record_globals;
  st_replay : replay_globals;
  st_sched : scheduler_globals;
  st_uthread : uthread_globals;
  st_signal : signal_globals;
  st_io : io_globals;
  st_proc : process_globals;
  st_world : W
}.
Arguments RRState {W}.
Arguments st_config {W}. Arguments st_seq {W}. Arguments st_record {W}.
Arguments st_replay {W}. Arguments st_sched {W}. Arguments st_uthread {W}.
Arguments st_signal {W}. Arguments st_io {W}. Arguments st_proc {W}.
Arguments st_world {W}.

Record glob (W T : Type) := Glob { rd : rr_state W -> T; wr : T -> rr_state W -> rr_state W }.
Arguments Glob {W T}. Arguments rd {W T} _ _ : simpl never. Arguments wr {W T} _ _ _ : simpl never.

Section Globals.
Context {W : Type}.
Implicit Types s : rr_state W.

Definition on_config (f : rr_config_t -> rr_config_t) s :=
  RRState (f (st_config s)) (st_seq s) (st_record s) (st_replay s) (st_sched s)
    (st_uthread s) (st_signal s) (st_io s) (st_proc s) (st_world s).
Definition on_record (f : record_globals -> record_globals) s :=
  RRState (st_config s) (st_seq s) (f (st_record s)) (st_replay s) (st_sched s)
    (st_uthread s) (st_signal s) (st_io s) (st_proc s) (st_world s).
Definition on_replay (f : replay_globals -> replay_globals) s :=
  RRState (st_config s) (st_seq s) (st_record s) (f (st_replay s)) (st_sched s)
    (st_uthread s) (st_signal s) (st_io s) (st_proc s) (st_world s).
Definition on_sched (f : scheduler_globals -> scheduler_globals) s :=
  RRState (st_config s) (st_seq s) (st_record s) (st_replay s) (f (st_sched s))
    (st_uthread s) (st_signal s) (st_io s) (st_proc s) (st_world s).
Definition on_uthread (f : uthread_globals -> uthread_globals) s :=
  RRState (st_config s) (st_seq s) (st_record s) (st_replay s) (st_sched s)
    (f (st_uthread s)) (st_signal s) (st_io s) (st_proc s) (st_world s).
Definition on_signal (f : signal_globals -> signal_globals) s :=
  RRState (st_config s) (st_seq s) (st_record s) (st_replay s) (st_sched s)
    (st_uthread s) (f (st_signal s)) (st_io s) (st_proc s) (st_world s).
Definition on_io (f : io_globals -> io_globals) s :=
  RRState (st_config s) (st_seq s) (st_record s) (st_replay s) (st_sched s)
    (st_uthread s) (st_signal s) (f (st_io s)) (st_proc s) (st_world s).
Definition on_proc (f : process_globals -> process_globals) s :=
  RRState (st_config s) (st_seq s) (st_record s) (st_replay s) (st_sched s)
    (st_uthread s) (st_signal s) (st_io s) (f (st_proc s)) (st_world s).

Definition g_rr_config : glob W rr_config_t :=
  Glob st_config (fun v => on_config (fun _ => v)).
Definition g_runtime_ready : glob W bool :=
  Glob (fun s => runtime_ready (st_config s))
    (fun v => on_config (fun c => Config (mode_record c) (mode_replay c)
       (replay_time_virtual c) v (debug c) (cfg_stack_size c) (log_path c))).
Definition g_rr_seq : glob W Z :=
  Glob st_seq (fun v s => RRState (st_config s) v (st_record s) (st_replay s) (st_sched s)
    (st_uthread s) (st_signal s) (st_io s) (st_proc s) (st_world s)).

Definition g_log_fd : glob W Z :=
  Glob (fun s => f_log_fd (st_record s))
    (fun v => on_record (fun g => RecordG v (f_ring g) (f_ring_used g))).
Definition g_ring : glob W (option memory) :=
  Glob (fun s => f_ring (st_record s))
    (fun v => on_record (fun g => RecordG (f_log_fd g) v (f_ring_used g))).
Definition g_ring_used : glob W Z :=
  Glob (fun s => f_ring_used (st_record s))
    (fun v => on_record (fun g => RecordG (f_log_fd g) (f_ring g) v)).

Definition g_replay_fd : glob W Z :=
  Glob (fun s => f_replay_fd (st_replay s))
    (fun v => on_replay (fun g => ReplayG v (f_expected_seq g) (f_replay_header_ok g))).
Definition g_expected_seq : glob W Z :=
  Glob (fun s => f_expected_seq (st_replay s))
    (fun v => on_replay (fun g => ReplayG (f_replay_fd g) v (f_replay_header_ok g))).
Definition g_replay_header_ok : glob W bool :=
  Glob (fun s => f_replay_header_ok (st_replay s))
    (fun v => on_replay (fun g => ReplayG (f_replay_fd g) (f_expected_seq g) v)).

Definition g_runq_head : glob W ptr :=
  Glob (fun s => f_runq_head (st_sched s))
    (fun v => on_sched (fun g => SchedG v (f_runq_tail g) (f_current g) (f_sched_stack g)
       (f_sched_running g) (f_threads g))).
Definition g_runq_tail : glob W ptr :=
  Glob (fun s => f_runq_tail (st_sched s))
    (fun v => on_sched (fun g => SchedG (f_runq_head g) v (f_current g) (f_sched_stack g)
       (f_sched_running g) (f_threads g))).
Definition g_current : glob W ptr :=
  Glob (fun s => f_current (st_sched s))
    (fun v => on_sched (fun g => SchedG (f_runq_head g) (f_runq_tail g) v (f_sched_stack g)
       (f_sched_running g) (f_threads g))).
Definition g_sched_stack : glob W ptr :=
  Glob (fun s => f_sched_stack (st_sched s))
    (fun v => on_sched (fun g => SchedG (f_runq_head g) (f_runq_tail g) (f_current g) v
       (f_sched_running g) (f_threads g))).
Definition g_sched_running : glob W bool :=
  Glob (fun s => f_sched_running (st_sched s))
    (fun v => on_sched (fun g => SchedG (f_runq_head g) (f_runq_tail g) (f_current g)
       (f_sched_stack g) v (f_threads g))).
Definition g_threads : glob W (vec ptr) :=
  Glob (fun s => f_threads (st_sched s))
    (fun v => on_sched (fun g => SchedG (f_runq_head g) (f_runq_tail g) (f_current g)
       (f_sched_stack g) (f_sched_running g) v)).

Definition g_next_id : glob W Z :=
  Glob (fun s => f_next_id (st_uthread s))
    (fun v => on_uthread (fun g => UthreadG v (f_scheduler_tls g) (f_allocated g))).
Definition g_scheduler_tls : glob W ptr :=
  Glob (fun s => f_scheduler_tls (st_uthread s))
    (fun v => on_uthread (fun g => UthreadG (f_next_id g) v (f_allocated g))).
Definition g_allocated : glob W (vec ptr) :=
  Glob (fun s => f_allocated (st_uthread s))
    (fun v => on_uthread (fun g => UthreadG (f_next_id g) (f_scheduler_tls g) v)).

Definition g_altstack_sp : glob W ptr :=
  Glob (fun s => f_altstack_sp (st_signal s))
    (fun v => on_signal (fun g => SignalG v (f_altstack_size g) (f_signalfd g) (f_guard_pages g))).
Definition g_altstack_size : glob W Z :=
  Glob (fun s => f_altstack_size (st_signal s))
    (fun v => on_signal (fun g => SignalG (f_altstack_sp g) v (f_signalfd g) (f_guard_pages g))).
Definition g_signalfd : glob W Z :=
  Glob (fun s => f_signalfd (st_signal s))
    (fun v => on_signal (fun g => SignalG (f_altstack_sp g) (f_altstack_size g) v
       (f_guard_pages g))).
Definition g_guard_pages : glob W (vec guard_page_t) :=
  Glob (fun s => f_guard_pages (st_signal s))
    (fun v => on_signal (fun g => SignalG (f_altstack_sp g) (f_altstack_size g)
       (f_signalfd g) v)).

Definition g_ring_ready : glob W bool :=
  Glob (fun s => f_ring_ready (st_io s)) (fun v => on_io (fun g => IoG v (f_signal_fd g))).
Definition g_signal_fd : glob W Z :=
  Glob (fun s => f_signal_fd (st_io s)) (fun v => on_io (fun g => IoG (f_ring_ready g) v)).

Definition errno : glob W Z :=
  Glob (fun s => f_errno (st_proc s))
    (fun v => on_proc (fun g => ProcessG v (f_statics g) (f_heap g) (f_brk g) (f_mem g)
       (f_environ g) (f_trace g))).
Definition statics : glob W (gmap string Z) :=
  Glob (fun s => f_statics (st_proc s))
    (fun v => on_proc (fun g => ProcessG (f_errno g) v (f_heap g) (f_brk g) (f_mem g)
       (f_environ g) (f_trace g))).
Definition heap : glob W (gmap Z uthread) :=
  Glob (fun s => f_heap (st_proc s))
    (fun v => on_proc (fun g => ProcessG (f_errno g) (f_statics g) v (f_brk g) (f_mem g)
       (f_environ g) (f_trace g))).
Definition brk : glob W Z :=
  Glob (fun s => f_brk (st_proc s))
    (fun v => on_proc (fun g => ProcessG (f_errno g) (f_statics g) (f_heap g) v (f_mem g)
       (f_environ g) (f_trace g))).
Definition mem : glob W memory :=
  Glob (fun s => f_mem (st_proc s))
    (fun v => on_proc (fun g => ProcessG (f_errno g) (f_statics g) (f_heap g) (f_brk g) v
       (f_environ g) (f_trace g))).
Definition environ : glob W (list (string * string)) :=
  Glob (fun s => f_environ (st_proc s))
    (fun v => on_proc (fun g => ProcessG (f_errno g) (f_statics g) (f_heap g) (f_brk g)
       (f_mem g) v (f_trace g))).
Definition trace : glob W (list os_req) :=
  Glob (fun s => f_trace (st_proc s))
    (fun v => on_proc (fun g => ProcessG (f_errno g) (f_statics g) (f_heap g) (f_brk g)
       (f_mem g) (f_environ g) v)).
Definition world : glob W W :=
  Glob st_world (fun v s => RRState (st_config s) (st_seq s) (st_record s) (st_replay s)
    (st_sched s) (st_uthread s) (st_signal s) (st_io s) (st_proc s) v).
End Globals.

(** Normalise reads of updated states: [rd g (wr g v s)] is [v], and a read of
    another variable looks through the write. *)
Ltac glob_simpl :=
  repeat match goal with
  | |- context [rd ?g (wr ?g ?v ?s)] => change (rd g (wr g v s)) with v
  | |- context [rd ?g (wr ?h ?v ?s)] => change (rd g (wr h v s)) with (rd g s)
  end.
Ltac glob_simpl_in H :=
  repeat match type of H with
  | context [rd ?g (wr ?g ?v ?s)] => change (rd g (wr g v s)) with v in H
  | context [rd ?g (wr ?h ?v ?s)] => change (rd g (wr h v s)) with (rd g s) in H
  end.

(** The state of the process before the library's constructor runs. *)
Definition boot_state {W} (env : list (string * string)) (m : memory) (w : W) : rr_state W :=
  RRState g_rr_config_init 0 (RecordG (-1) None 0) (ReplayG (-1) 1 false)
    (SchedG 0 0 0 0 false v_empty) (UthreadG 1 0 v_empty) (SignalG 0 0 (-1) v_empty)
    (IoG false (-1)) (ProcessG 0 ∅ ∅ 1 m env []) w.

(** ** The monad of functions that return to their caller *)

(** How the process can end inside a call: [abort()], [_exit(n)], a use of freed
    or NULL memory or an out-of-bounds store, a call of a NULL function pointer,
    or a retry loop that the bound [os_patience] did not cover. *)
Inductive halt := HAbort | HExit (code : Z) | HUndef | HNullCall | HFuel.
#[export] Instance halt_eq_dec : EqDecision halt.
Proof. solve_decision. Defined.

Inductive res (W A : Type) :=
| Ok (a : A) (s : rr_state W)
| Halted (h : halt) (s : rr_state W).
Arguments Ok {W A}. Arguments Halted {W A}.

Definition M (W A : Type) : Type := rr_state W -> res W A.

#[export] Instance M_ret {W} : MRet (M W) := fun A a s => Ok a s.
#[export] Instance M_bind {W} : MBind (M W) := fun A B f m s =>
  match m s with
  | Ok a s' => f a s'
  | Halted h s' => Halted h s'
  end.

Section Prims.
Context {W : Type}.

Definition get {T} (g : glob W T) : M W T := fun s => Ok (rd g s) s.
Definition put {T} (g : glob W T) (v : T) : M W () := fun s => Ok tt (wr g v s).
Definition halted {A} (h : halt) : M W A := fun s => Halted h s.
Definition abort {A} : M W A := halted HAbort.

(** [when b m]: a C [if] without an else whose body has no [return]. *)
Definition when (b : bool) (m : M W ()) : M W () := if b then m else mret tt.

(** The object a pointer points to; a dangling or NULL pointer is undefined. *)
Definition deref (p : ptr) : M W uthread := fun s =>
  match rd heap s !! p with
  | Some u => Ok u s
  | None => Halted HUndef s
  end.
Definition update (p : ptr) (f : uthread -> uthread) : M W () := fun s =>
  match rd heap s !! p with
  | Some u => Ok tt (wr heap (<[p := f u]> (rd heap s)) s)
  | None => Halted HUndef s
  end.
(** [free(p)]: freeing what is not allocated is undefined. *)
Definition free_ut (p : ptr) : M W () := fun s =>
  match rd heap s !! p with
  | Some _ => Ok tt (wr heap (delete p (rd heap s)) s)
  | None => Halted HUndef s
  end.
(** [arr\[len++\] = x] on a global array. *)
Definition vec_store {A} (g : glob W (vec A)) (x : A) : M W () := fun s =>
  match v_store_next (rd g s) x with
  | Some v => Ok tt (wr g v s)
  | None => Halted HUndef s
  end.

Context `{!OS W}.

Definition apply_writes (ws : list (Z * bytes)) (m : memory) : memory :=
  foldl (fun m w => store m w.1 w.2) m ws.

(** Make a request: the kernel may write application memory and set [errno]. *)
Definition os (r : os_req) : M W os_resp := fun s =>
  let '(w, rp) := os_call r (rd mem s) (rd world s) in
  let s1 := wr world w (wr trace (r :: rd trace s) s) in
  let s2 := wr mem (apply_writes (rp_writes rp) (rd mem s1)) s1 in
  Ok rp (match rp_errno rp with Some e => wr errno e s2 | None => s2 end).

(** The common case: only the return value matters. *)
Definition os_rc (r : os_req) : M W Z := rp ← os r; mret (rp_rc rp).
Definition call (f : string) (args : list Z) : M W Z := os_rc (Rcall f args).

(** [calloc] of a zeroed [uthread_t]: the C library decides whether there is
    memory; the address is one that was never used before. *)
Definition calloc_ut : M W ptr :=
  ok ← call "calloc" [1];
  if ok =? 0 then mret NULL
  else p ← get brk;
       h ← get heap;
       put brk (p + 1);;
       put heap (<[p := uthread_zero]> h);;
       mret p.
End Prims.

Arguments halted : simpl never.

(** ** The monad of functions that may switch context *)

(** The result of running such a function: it returns, the process ends, or it
    reaches [swapcontext(&cur->ctx, &g_sched_ctx)] with [k] left to run. *)
Inductive co (W A : Type) :=
| CDone (a : A) (s : rr_state W)
| CHalted (h : halt) (s : rr_state W)
| CSwap (cur : ptr) (s : rr_state W) (k : rr_state W -> co W A).
Arguments CDone {W A}. Arguments CHalted {W A}. Arguments CSwap {W A}.

Fixpoint co_bind {W A B} (f : A -> rr_state W -> co W B) (c : co W A) : co W B :=
  match c with
  | CDone a s => f a s
  | CHalted h s => CHalted h s
  | CSwap cur s k => CSwap cur s (fun s' => co_bind f (k s'))
  end.

Definition C (W A : Type) : Type := rr_state W -> co W A.
#[export] Instance C_ret {W} : MRet (C W) := fun A a s => CDone a s.
#[export] Instance C_bind {W} : MBind (C W) := fun A B f m s => co_bind f (m s).

Definition lift {W A} (m : M W A) : C W A := fun s =>
  match m s with
  | Ok a s' => CDone a s'
  | Halted h s' => CHalted h s'
  end.

(** [swapcontext(&cur->ctx, &g_sched_ctx)]. *)
Definition swap_to_sched {W} (cur : ptr) : C W () := fun s => CSwap cur s (fun s' => CDone tt s').
