(* ===== verification/Events.v ===== *)
(** The on-disk image of the log: [rr_log_header_t] and [rr_event_t] of
    rr_internal.h as the compiler lays them out on x86-64, the payload union as
    the bytes it occupies, and the round trips between values and images. *)
From stdpp Require Import gmap strings list.
From coqutil Require Import Byte Word.LittleEndianList.
From S2P Require Import Prelude Types.

(** ** Overwriting part of an image *)

Definition slice (bs : bytes) (off n : nat) : bytes := take n (drop off bs).
Definition patch (bs : bytes) (off : nat) (d : bytes) : bytes :=
  take off bs ++ d ++ drop (off + length d) bs.

Arguments slice : simpl never.
Arguments patch : simpl never.

Lemma field_slice bs off n : field bs off n = le_combine (slice bs off n).
Proof. done. Qed.

Lemma field_bound bs off n : 0 <= field bs off n < 2 ^ (8 * Z.of_nat n).
Proof.
  rewrite field_slice. pose proof (le_combine_bound (slice bs off n)) as Hc.
  assert (length (slice bs off n) <= n)%nat by (unfold slice; rewrite length_take; lia).
  split; [lia|]. eapply Z.lt_le_trans; [apply Hc|]. apply Z.pow_le_mono_r; lia.
Qed.

Lemma slice_app_l (a b : bytes) off n :
  (off + n <= length a)%nat -> slice (a ++ b) off n = slice a off n.
Proof.
  intros H. unfold slice. rewrite drop_app_le by lia.
  rewrite take_app_le; [done|]. rewrite length_drop. lia.
Qed.
Lemma slice_app_r (a b : bytes) off n :
  (length a <= off)%nat -> slice (a ++ b) off n = slice b (off - length a) n.
Proof. intros H. unfold slice. by rewrite drop_app_ge by lia. Qed.
Lemma slice_full (bs : bytes) n : n = length bs -> slice bs 0 n = bs.
Proof. intros ->. unfold slice. rewrite drop_0. by apply firstn_all. Qed.

Lemma length_patch bs off d :
  (off + length d <= length bs)%nat -> length (patch bs off d) = length bs.
Proof. intros H. unfold patch. lens_lia. Qed.

Lemma slice_patch_prefix bs off d n :
  (off + length d <= length bs)%nat -> (n <= length d)%nat ->
  slice (patch bs off d) off n = take n d.
Proof.
  intros H Hn. unfold patch. rewrite slice_app_r; rewrite length_take; [|lia].
  rewrite slice_app_l by lia. unfold slice.
  by replace (off - off `min` length bs)%nat with 0%nat by lia.
Qed.
Lemma slice_patch_same bs off d :
  (off + length d <= length bs)%nat -> slice (patch bs off d) off (length d) = d.
Proof. intros H. rewrite slice_patch_prefix by lia. apply firstn_all. Qed.
Lemma slice_patch_before bs off d o n :
  (o + n <= off)%nat -> (off <= length bs)%nat -> slice (patch bs off d) o n = slice bs o n.
Proof.
  intros H Ho. unfold patch. rewrite slice_app_l by lens_lia.
  unfold slice. rewrite !take_drop_commute, take_take. f_equal. f_equal. lia.
Qed.
Lemma slice_patch_after bs off d o n :
  (off + length d <= o)%nat -> (off + length d <= length bs)%nat ->
  slice (patch bs off d) o n = slice bs o n.
Proof.
  intros H Ho. unfold patch, slice. rewrite app_assoc, drop_app_ge by lens_lia.
  rewrite drop_drop. f_equal. f_equal. lens_lia.
Qed.

Lemma field_patch_same bs off n v :
  (off + n <= length bs)%nat ->
  field (patch bs off (le n v)) off n = v mod 2 ^ (Z.of_nat n * 8).
Proof.
  intros H. rewrite field_slice.
  rewrite slice_patch_prefix, take_ge by (rewrite ?length_le; lia).
  apply le_combine_le.
Qed.
Lemma field_patch_before bs off d o n :
  (o + n <= off)%nat -> (off <= length bs)%nat -> field (patch bs off d) o n = field bs o n.
Proof. intros. rewrite !field_slice. by rewrite slice_patch_before. Qed.
Lemma field_patch_after bs off d o n :
  (off + length d <= o)%nat -> (off + length d <= length bs)%nat ->
  field (patch bs off d) o n = field bs o n.
Proof. intros. rewrite !field_slice. by rewrite slice_patch_after. Qed.

(** ** The header *)

Record rr_log_header_t := Header {
  magic : Z; version : Z; start_time : Z; hdr_pid : Z; hdr_reserved : Z
}.
Definition sizeof_header : nat := 24.

Definition encode_header (h : rr_log_header_t) : bytes :=
  le 4 (magic h) ++ le 4 (version h) ++ le 8 (start_time h) ++ le 4 (hdr_pid h)
    ++ le 4 (hdr_reserved h).
Definition decode_header (bs : bytes) : rr_log_header_t :=
  Header (field bs 0 4) (field bs 4 4) (field bs 8 8) (field bs 16 4) (field bs 20 4).

Definition header_wf (h : rr_log_header_t) : Prop :=
  in_u32 (magic h) /\ in_u32 (version h) /\ in_u64 (start_time h) /\ in_u32 (hdr_pid h)
    /\ in_u32 (hdr_reserved h).

(** ** Events *)

Definition EV_SYSCALL : Z := 1.
Definition EV_SIGNAL : Z := 2.
Definition EV_SCHED : Z := 3.
Definition EV_RDTSC : Z := 4.

(** [rr_event_t]: the union [payload] is the 88 bytes it occupies. *)
Record rr_event_t := Event {
  seq : Z; uthread_id : Z; type : Z; ev_reserved : Z; payload : bytes
}.
Definition sizeof_payload : nat := 88.
Definition sizeof_event : nat := 112.

Definition encode_event (e : rr_event_t) : bytes :=
  le 8 (seq e) ++ le 8 (uthread_id e) ++ le 4 (type e) ++ le 4 (ev_reserved e) ++ payload e.
Definition decode_event (bs : bytes) : rr_event_t :=
  Event (field bs 0 8) (field bs 8 8) (field bs 16 4) (field bs 20 4) (slice bs 24 88).

Definition event_wf (e : rr_event_t) : Prop :=
  in_u64 (seq e) /\ in_u64 (uthread_id e) /\ in_u32 (type e) /\ in_u32 (ev_reserved e)
    /\ length (payload e) = sizeof_payload.

(** The members of the union, as the offsets the compiler assigns. *)
Definition sc_nr (p : bytes) : Z := s32 (field p 0 4).
Definition sc_retval (p : bytes) : Z := s32 (field p 4 4).
Definition sc_arg0 (p : bytes) : Z := field p 8 8.
Definition sc_data (p : bytes) : bytes := slice p 16 64.
Definition sc_data_len (p : bytes) : Z := field p 80 4.
Definition sg_signo (p : bytes) : Z := field p 0 4.
Definition sg_active_uthread (p : bytes) : Z := field p 4 4.
Definition sd_from_id (p : bytes) : Z := field p 0 8.
Definition sd_to_id (p : bytes) : Z := field p 8 8.

Definition set_sc_nr (v : Z) (p : bytes) : bytes := patch p 0 (le 4 v).
Definition set_sc_retval (v : Z) (p : bytes) : bytes := patch p 4 (le 4 v).
Definition set_sc_arg0 (v : Z) (p : bytes) : bytes := patch p 8 (le 8 v).
(** [memcpy(ev.payload.syscall.data, d, length d)]. *)
Definition set_sc_data (d : bytes) (p : bytes) : bytes := patch p 16 d.
Definition set_sc_data_len (v : Z) (p : bytes) : bytes := patch p 80 (le 4 v).
Definition set_sg_signo (v : Z) (p : bytes) : bytes := patch p 0 (le 4 v).
Definition set_sg_active (v : Z) (p : bytes) : bytes := patch p 4 (le 4 v).
Definition set_sd_from (v : Z) (p : bytes) : bytes := patch p 0 (le 8 v).
Definition set_sd_to (v : Z) (p : bytes) : bytes := patch p 8 (le 8 v).

(** [memset(&ev, 0, sizeof(ev))]. *)
Definition payload_zero : bytes := replicate sizeof_payload Byte.x00.

(** ** Lengths *)

Lemma length_encode_header h : length (encode_header h) = sizeof_header.
Proof. unfold encode_header. rewrite !length_app, !length_le. done. Qed.
Lemma length_encode_event e :
  length (payload e) = sizeof_payload -> length (encode_event e) = sizeof_event.
Proof. intros H. unfold encode_event. rewrite !length_app, !length_le, H. done. Qed.

Lemma length_payload_zero : length payload_zero = sizeof_payload.
Proof. done. Qed.
Lemma length_slice bs off n : (off + n <= length bs)%nat -> length (slice bs off n) = n.
Proof. intros H. unfold slice. lens_lia. Qed.

Lemma take_slice bs off n k : (n <= k)%nat -> take n (slice bs off k) = slice bs off n.
Proof. intros H. unfold slice. rewrite take_take. by rewrite Nat.min_l. Qed.

(** Arithmetic on the lengths of patched payloads. *)
Ltac plen :=
  rewrite ?length_le; repeat rewrite length_patch by plen;
  rewrite ?length_le, ?length_payload_zero; unfold sizeof_payload in *; lia.
Ltac payload_len :=
  unfold set_sc_nr, set_sc_retval, set_sc_arg0, set_sc_data_len, set_sg_signo, set_sg_active,
    set_sd_from, set_sd_to, set_sc_data in *; plen.

(** ** Round trips *)

Lemma decode_encode_header h : header_wf h -> decode_header (encode_header h) = h.
Proof.
  intros (? & ? & ? & ? & ?). destruct h as [mg vr st pd rs]; unfold decode_header, encode_header; simpl in *.
  rewrite <-(app_nil_r (le 4 rs)).
  f_equal; field_crush; auto using u32_id, u64_id.
Qed.

Lemma decode_encode_event e : event_wf e -> decode_event (encode_event e) = e.
Proof.
  intros (? & ? & ? & ? & Hp). destruct e; unfold decode_event, encode_event; simpl in *.
  f_equal; field_crush; auto using u32_id, u64_id.
  rewrite !slice_app_r; rewrite ?length_le; try lia. by apply slice_full.
Qed.
