(* ===== verification/Logic.v ===== *)
(** Program logic for the two monads: weakest preconditions for [M], a
    rely-guarantee version for [C], and the frame of a request to the
    environment. *)
From stdpp Require Import gmap strings list.
From coqutil Require Import Byte.
From S2P Require Import Prelude Types State.

(** ** Weakest preconditions for functions that return *)

Section Wp.
Context {W : Type}.
Implicit Types s : rr_state W.

(** [m] run in [s] ends in a state and value satisfying [Q], or ends the
    process in a way [E] allows. *)
Definition wp {A} (m : M W A) (Q : A -> rr_state W -> Prop)
    (E : halt -> rr_state W -> Prop) s : Prop :=
  match m s with
  | Ok a s' => Q a s'
  | Halted h s' => E h s'
  end.

(** No way of ending the process is allowed: [m] returns. *)
Definition no_halt : halt -> rr_state W -> Prop := fun _ _ => False.

Lemma wp_bind {A B} (m : M W A) (f : A -> M W B) Q E s :
  wp m (fun a s' => wp (f a) Q E s') E s -> wp (m ≫= f) Q E s.
Proof. unfold wp, mbind, M_bind. by destruct (m s). Qed.
Lemma wp_ret {A} (a : A) Q E s : Q a s -> wp (mret a) Q E s.
Proof. done. Qed.
Lemma wp_get {T} (g : glob W T) Q E s : Q (rd g s) s -> wp (get g) Q E s.
Proof. done. Qed.
Lemma wp_put {T} (g : glob W T) v Q E s : Q tt (wr g v s) -> wp (put g v) Q E s.
Proof. done. Qed.
Lemma wp_halted {A} h (Q : A -> _) E s : E h s -> wp (halted h) Q E s.
Proof. done. Qed.
Lemma wp_when b (m : M W ()) Q E s :
  (b = true -> wp m Q E s) -> (b = false -> Q tt s) -> wp (when b m) Q E s.
Proof. intros H1 H2. destruct b; [by apply H1 | by apply H2]. Qed.
Lemma wp_mono {A} (m : M W A) (Q Q' : A -> _) (E E' : halt -> _) s :
  wp m Q E s -> (forall a s', Q a s' -> Q' a s') -> (forall h s', E h s' -> E' h s') ->
  wp m Q' E' s.
Proof. unfold wp. destruct (m s); auto. Qed.
Lemma wp_post {A} (m : M W A) (Q Q' : A -> _) E s :
  wp m Q E s -> (forall a s', Q a s' -> Q' a s') -> wp m Q' E s.
Proof. eauto using wp_mono. Qed.
Lemma wp_ok {A} (m : M W A) Q E s a s' : m s = Ok a s' -> Q a s' -> wp m Q E s.
Proof. unfold wp. by intros ->. Qed.
Lemma bind_ok {A B} (m : M W A) (f : A -> M W B) s a s' : m s = Ok a s' -> (m ≫= f) s = f a s'.
Proof. unfold mbind, M_bind. by intros ->. Qed.
(** A function that returns has a result. *)
Lemma wp_returns {A} (m : M W A) Q s :
  wp m Q no_halt s -> exists a s', m s = Ok a s' /\ Q a s'.
Proof. unfold wp. destruct (m s); [eauto | done]. Qed.
(** Two facts about the same run. *)
Lemma wp_and {A} (m : M W A) (Q1 Q2 : A -> rr_state W -> Prop) E1 E2 s :
  wp m Q1 E1 s -> wp m Q2 E2 s -> wp m (fun a s' => Q1 a s' /\ Q2 a s') E1 s.
Proof. unfold wp. by destruct (m s). Qed.
Lemma wp_deref p u Q E s : rd heap s !! p = Some u -> Q u s -> wp (deref p) Q E s.
Proof. unfold wp, deref. by intros ->. Qed.
Lemma deref_ok p u s : rd heap s !! p = Some u -> deref p s = Ok u s.
Proof. unfold deref. by intros ->. Qed.
Lemma update_ok p f u s :
  rd heap s !! p = Some u -> update p f s = Ok tt (wr heap (<[p := f u]> (rd heap s)) s).
Proof. unfold update. by intros ->. Qed.
Lemma wp_update p f u Q E s :
  rd heap s !! p = Some u -> Q tt (wr heap (<[p := f u]> (rd heap s)) s) ->
  wp (update p f) Q E s.
Proof. unfold wp, update. by intros ->. Qed.
Lemma wp_vec_store {A} (g : glob W (vec A)) x Q E s :
  v_len (rd g s) < v_cap (rd g s) ->
  Q tt (wr g (Vec (v_items (rd g s) ++ [x]) (v_cap (rd g s))) s) ->
  wp (vec_store g x) Q E s.
Proof.
  unfold wp, vec_store, v_store_next. intros H.
  by rewrite (proj2 (Z.ltb_lt _ _) H).
Qed.
End Wp.

(** One step of symbolic execution. *)
Ltac wp_step :=
  lazymatch goal with
  | |- wp (_ ≫= _) _ _ _ => apply wp_bind
  | |- wp (mret _) _ _ _ => apply wp_ret
  | |- wp (get _) _ _ _ => apply wp_get
  | |- wp (put _ _) _ _ _ => apply wp_put
  | |- wp (halted _) _ _ _ => apply wp_halted
  | |- wp (when _ _) _ _ _ => apply wp_when
  | |- wp (if ?b then _ else _) _ _ _ =>
      let E := fresh "E" in destruct b eqn:E; bool_prop
  end; cbn beta; glob_simpl.
Ltac wp_steps := repeat wp_step.

(** ** Requests to the environment change only what the environment owns *)

Section Env.
Context {W : Type} `{!OS W}.
Implicit Types s : rr_state W.

(** [s'] is [s] but for [errno], the application's memory, the trace and the world. *)
Definition env_only s s' : Prop :=
  exists e m t w, s' = wr world w (wr trace t (wr mem m (wr errno e s))).

Lemma env_only_refl s : env_only s s.
Proof. exists (rd errno s), (rd mem s), (rd trace s), (rd world s). by destruct s as [???????? [] ?]. Qed.
Lemma env_only_trans s1 s2 s3 : env_only s1 s2 -> env_only s2 s3 -> env_only s1 s3.
Proof.
  intros (e & m & t & w & ->) (e' & m' & t' & w' & ->). exists e', m', t', w'. done.
Qed.
Lemma env_only_errno s s' e : env_only s s' -> env_only s (wr errno e s').
Proof. intros (e' & m & t & w & ->). exists e, m, t, w. done. Qed.

(** A request: the environment's answer, and the state it leaves. *)
Lemma wp_os r Q E s :
  (forall w rp s', os_call r (rd mem s) (rd world s) = (w, rp) ->
     env_only s s' -> rd world s' = w ->
     rd mem s' = apply_writes (rp_writes rp) (rd mem s) ->
     rd errno s' = default (rd errno s) (rp_errno rp) ->
     rd trace s' = r :: rd trace s -> Q rp s') ->
  wp (os r) Q E s.
Proof.
  intros H. unfold wp, os. destruct (os_call r (rd mem s) (rd world s)) as [w rp] eqn:Ec.
  apply (H w); try by destruct (rp_errno rp).
  destruct (rp_errno rp) as [e|].
  - exists e, (apply_writes (rp_writes rp) (rd mem s)), (r :: rd trace s), w. done.
  - exists (rd errno s), (apply_writes (rp_writes rp) (rd mem s)), (r :: rd trace s), w.
    by destruct s as [???????? [] ?].
Qed.
Lemma wp_os_rc r Q E s :
  (forall w rp s', os_call r (rd mem s) (rd world s) = (w, rp) ->
     env_only s s' -> rd world s' = w ->
     rd mem s' = apply_writes (rp_writes rp) (rd mem s) ->
     rd errno s' = default (rd errno s) (rp_errno rp) ->
     rd trace s' = r :: rd trace s -> Q (rp_rc rp) s') ->
  wp (os_rc r) Q E s.
Proof. intros H. unfold os_rc. wp_step. apply wp_os. intros. wp_step. eauto. Qed.
End Env.

(** Rewrite reads of variables the environment does not own. *)
Ltac env_simpl :=
  cbv beta in *;
  repeat match goal with
  | H : env_only _ _ |- _ => destruct H as (? & ? & ? & ? & ->)
  end; glob_simpl.

(** ** The requests a function makes *)

Section Asks.
Context {W : Type} `{!OS W} (P : os_req -> Prop).
Implicit Types s : rr_state W.

(** The requests made between [s] and [s'] all satisfy [P]. *)
Definition asked s s' : Prop := exists ts, rd trace s' = ts ++ rd trace s /\ Forall P ts.
Definition asks {A} (m : M W A) : Prop := forall s, wp m (fun _ s' => asked s s') (fun _ _ => True) s.

Lemma asked_refl s : asked s s.
Proof. exists []. by split. Qed.
Lemma asked_trans s1 s2 s3 : asked s1 s2 -> asked s2 s3 -> asked s1 s3.
Proof.
  intros (t1 & H1 & F1) (t2 & H2 & F2). exists (t2 ++ t1). rewrite H2, H1, app_assoc.
  split; [done|]. by apply Forall_app.
Qed.
Lemma asks_bind {A B} (m : M W A) (f : A -> M W B) : asks m -> (forall a, asks (f a)) -> asks (m ≫= f).
Proof.
  intros Hm Hf s. wp_step. eapply wp_post; [apply Hm|]. intros a s1 H1.
  eapply wp_post; [apply Hf|]. intros b s2 H2. exact (asked_trans _ _ _ H1 H2).
Qed.
Lemma asks_ret {A} (a : A) : asks (mret a).
Proof. intros s. wp_step. apply asked_refl. Qed.
Lemma asks_get {T} (g : glob W T) : asks (get g).
Proof. intros s. wp_step. apply asked_refl. Qed.
Lemma asks_put {T} (g : glob W T) v : (forall s, rd trace (wr g v s) = rd trace s) -> asks (put g v).
Proof. intros H s. wp_step. unfold asked. rewrite H. apply asked_refl. Qed.
Lemma asks_halted {A} h : asks (@halted W A h).
Proof. intros s. by wp_step. Qed.
Lemma asks_deref p : asks (deref p).
Proof. intros s. unfold wp, deref. destruct (rd heap s !! p); [apply asked_refl|done]. Qed.
Lemma asks_os r : P r -> asks (os r).
Proof.
  intros Hr s. apply wp_os. intros w rp s' _ _ _ _ _ Ht. exists [r]. rewrite Ht. split; [done|].
  by repeat constructor.
Qed.
End Asks.
Lemma asks_mono {W} `{!OS W} {A} (P Q : os_req -> Prop) (m : M W A) :
  asks P m -> (forall r, P r -> Q r) -> asks Q m.
Proof.
  intros Hm HPQ s. eapply wp_post; [apply Hm|]. intros a s' (ts & Ht & Hts). exists ts. split; [done|].
  by eapply Forall_impl.
Qed.
Ltac asks_tac :=
  repeat lazymatch goal with
  | |- asks _ (_ ≫= _) => apply asks_bind; [|intros ?]
  | |- asks _ (mret _) => apply asks_ret
  | |- asks _ (get _) => apply asks_get
  | |- asks _ (put _ _) => apply asks_put; by intros ?
  | |- asks _ (halted _) => apply asks_halted
  | |- asks _ (deref _) => apply asks_deref
  | |- asks _ (os _) => apply asks_os; exact I
  | |- asks _ (when ?b _) => destruct b; cbn [when]
  | |- asks _ (let _ := _ in _) => cbv zeta
  | |- asks _ (match ?o with _ => _ end) => destruct o
  end.

(** ** Rely-guarantee for functions that switch context *)

Section Cwp.
Context {W : Type}.
Implicit Types s : rr_state W.

(** [c] was resumed (or started) in [s0].  [G s0 cur s] must hold when it gives
    the processor away in [s]; in return it may assume [R cur s s'] of the state
    [s'] it resumes in.  [Q s1 a s] is its result when it was last resumed in [s1]. *)
Fixpoint cwp {A} (c : co W A) (s0 : rr_state W) (Q : rr_state W -> A -> rr_state W -> Prop)
    (E : halt -> rr_state W -> Prop) (G : rr_state W -> ptr -> rr_state W -> Prop)
    (R : ptr -> rr_state W -> rr_state W -> Prop) : Prop :=
  match c with
  | CDone a s => Q s0 a s
  | CHalted h s => E h s
  | CSwap cur s k => G s0 cur s /\ forall s', R cur s s' -> cwp (k s') s' Q E G R
  end.

Lemma cwp_co_bind {A B} (c : co W A) (f : A -> rr_state W -> co W B) s0 Q E G R :
  cwp c s0 (fun s1 a s => cwp (f a s) s1 Q E G R) E G R -> cwp (co_bind f c) s0 Q E G R.
Proof.
  revert s0. induction c as [| |cur s k IH]; intros s0; simpl; [done..|].
  intros [Hg Hk]. split; [done|]. intros s' Hs'. by apply IH, Hk.
Qed.
Lemma cwp_bind {A B} (m : C W A) (f : A -> C W B) s0 Q E G R s :
  cwp (m s) s0 (fun s1 a s' => cwp (f a s') s1 Q E G R) E G R -> cwp ((m ≫= f) s) s0 Q E G R.
Proof. apply cwp_co_bind. Qed.
Lemma cwp_lift {A} (m : M W A) s0 Q E G R s :
  wp m (Q s0) E s -> cwp (lift m s) s0 Q E G R.
Proof. unfold wp, lift. by destruct (m s). Qed.
Lemma cbind_ok {A B} (m : M W A) (f : A -> C W B) s a s' :
  m s = Ok a s' -> (lift m ≫= f) s = f a s'.
Proof. unfold mbind, C_bind, lift. by intros ->. Qed.
Lemma cbind_halted {A B} (m : M W A) (f : A -> C W B) s h s' :
  m s = Halted h s' -> (lift m ≫= f) s = CHalted h s'.
Proof. unfold mbind, C_bind, lift. by intros ->. Qed.
Lemma cwp_ret {A} (a : A) s0 Q E G R s : Q s0 a s -> cwp (mret (M:=C W) a s) s0 Q E G R.
Proof. done. Qed.
Lemma cwp_swap cur s0 Q E G R s :
  G s0 cur s -> (forall s', R cur s s' -> Q s' tt s') -> cwp (swap_to_sched cur s) s0 Q E G R.
Proof. by split. Qed.
Lemma cwp_mono {A} (c : co W A) s0 (Q Q' : _ -> A -> _) (E E' : halt -> _) G R :
  cwp c s0 Q E G R -> (forall s1 a s, Q s1 a s -> Q' s1 a s) -> (forall h s, E h s -> E' h s) ->
  cwp c s0 Q' E' G R.
Proof. revert s0. induction c; intros s0; simpl; [by auto..|]. intros [? ?] ? ?. split; eauto. Qed.
(** A function that never gives the processor away is still in its first slice. *)
Lemma cwp_no_swap {A} (c : co W A) s0 (Q : _ -> A -> _) E G R :
  cwp c s0 Q E (fun _ _ _ => False) R -> cwp c s0 (fun s1 a s => s1 = s0 /\ Q s1 a s) E G R.
Proof. destruct c; simpl; [done..|]. by intros [[] _]. Qed.
(** A function that neither returns nor ends the process switches. *)
Lemma cwp_switches {A} (c : co W A) s0 G R :
  cwp c s0 (fun _ _ _ => False) no_halt G R -> exists cur s k, c = CSwap cur s k /\ G s0 cur s.
Proof. destruct c as [| |cur s k]; simpl; [done..|]. intros [Hg _]. by exists cur, s, k. Qed.
(** A function that neither switches nor ends the process returns. *)
Lemma cwp_returns {A} (c : co W A) s0 Q R :
  cwp c s0 Q no_halt (fun _ _ _ => False) R -> exists a s, c = CDone a s /\ Q s0 a s.
Proof. destruct c as [a s| |]; simpl; [by exists a, s|done|by intros [[] _]]. Qed.
End Cwp.
