(* ===== verification/Log.v ===== *)
(** log.c: debug output. *)
From stdpp Require Import gmap strings list pretty.
From coqutil Require Import Byte.
From S2P Require Import Prelude Types State Logic.

(** The bytes of a string. *)
Definition string_bytes (x : string) : bytes := String.list_byte_of_string x.

(** The newline that ends every message. *)
Definition nl : string := String (Ascii.ascii_of_nat 10) EmptyString.

Section Log.
Context {W : Type} `{!OS W}.

(** [rr_debugf(fmt, ...)]; [text] is the output of the format. [vsnprintf] stores
    its first 511 bytes in [buf] and returns the full length (an int). *)
Definition rr_debugf (text : string) : M W () :=
  c ← get g_rr_config;
  if negb (debug c) then mret tt
  else
    let out := string_bytes text in
    let buf := take 511 out in
    let n := s32 (Z.of_nat (length out)) in
    if n <=? 0 then mret tt
    else
      let n := if 512 <=? n then 511 else n in
      os (Rstderr_write (take (Z.to_nat n) buf));;
      mret tt.

(** Debug output is at most one request, of at most 511 bytes. *)
Lemma wp_rr_debugf text Q E s :
  (forall s', env_only s s' ->
     (s' = s \/ exists bs w rp, (length bs <= 511)%nat /\
        os_call (Rstderr_write bs) (rd mem s) (rd world s) = (w, rp) /\ rd world s' = w /\
        rd mem s' = apply_writes (rp_writes rp) (rd mem s)) -> Q tt s') ->
  wp (rr_debugf text) Q E s.
Proof.
  intros H. unfold rr_debugf. wp_steps; auto using env_only_refl.
  apply wp_os. intros w rp s' Hc He Hw Hm _ _. apply wp_ret. apply H; [done|]. right.
  do 3 eexists. split; [|split; [exact Hc | by split]]. rewrite !length_take. lia.
Qed.
End Log.
