(* ===== verification/Scheduler.v ===== *)
(** scheduler.c without its main loop: the run queue (a singly linked list
    threaded through the [next] fields of the threads), the table of threads,
    wake-ups and the operations of the running thread.  The run queue refines a
    FIFO list ([runq_rep]). *)
From stdpp Require Import gmap strings list.
From coqutil Require Import Byte.
From S2P Require Import Prelude Types State Events Logic.

Section Scheduler.
Context {W : Type} `{!OS W}.
Implicit Types s : rr_state W.

(** ** The run queue *)

Definition runq_pop_front : M W ptr :=
  ut ← get g_runq_head;
  if ut =? NULL then mret NULL
  else
    u ← deref ut;
    put g_runq_head (next u);;
    head ← get g_runq_head;
    when (head =? NULL) (put g_runq_tail NULL);;
    update ut (set_next NULL);;
    mret ut.

Definition rr_scheduler_enqueue (ut : ptr) : M W () :=
  if ut =? NULL then mret tt
  else
    update ut (set_next NULL);;
    tail ← get g_runq_tail;
    if tail =? NULL then
      put g_runq_head ut;;
      put g_runq_tail ut
    else
      update tail (set_next ut);;
      put g_runq_tail ut.

Definition rr_scheduler_current : M W ptr := get g_current.
Definition rr_scheduler_set_current (ut : ptr) : M W () := put g_current ut.

(** [rr_scheduler_current() ? rr_scheduler_current()->id : 0]. *)
Definition current_id : M W Z :=
  cur ← rr_scheduler_current;
  if cur =? NULL then mret 0 else (u ← deref cur; mret (id u)).

(** ** The table of threads *)

Fixpoint find_loop (items : list ptr) (i : Z) : M W ptr :=
  match items with
  | [] => mret NULL
  | p :: items =>
      if p =? NULL then find_loop items i
      else
        u ← deref p;
        if id u =? i then mret p else find_loop items i
  end.

Definition rr_scheduler_find (i : Z) : M W ptr :=
  v ← get g_threads;
  find_loop (v_items v) i.

(** The growth step shared by the three growable arrays of the library: double
    the capacity (16 at first) with [realloc]; [false] when there is no memory. *)
Definition grow_if_full {A} (g : glob W (vec A)) (elem_size : Z) : M W bool :=
  v ← get g;
  if v_len v =? v_cap v then
    let new_cap := if v_cap v =? 0 then 16 else u64 (v_cap v * 2) in
    p ← call "realloc" [u64 (new_cap * elem_size)];
    if p =? NULL then mret false
    else put g (Vec (v_items v) new_cap);; mret true
  else mret true.

Definition rr_scheduler_register_thread (ut : ptr) : M W Z :=
  if ut =? NULL then mret (-1)
  else
    ok ← grow_if_full g_threads 8;
    if negb ok then mret (-1)
    else vec_store g_threads ut;; mret 0.

Definition rr_scheduler_unregister_all : M W () := put g_threads v_empty.

(** ** Wake-ups *)

Definition rr_scheduler_wake_by_id (i result : Z) (data : ptr) (data_len : Z) : M W () :=
  ut ← rr_scheduler_find i;
  if ut =? NULL then mret tt
  else
    u ← deref ut;
    if negb (bool_decide (state u = UT_BLOCKED)) then mret tt
    else
      update ut (set_io result 0 (io_data u));;
      when (negb (data =? NULL) && (0 <? data_len))
        (let copy_len := if 64 <? data_len then 64 else data_len in
         m ← get mem;
         update ut (set_io result copy_len
           (patch (io_data u) 0 (load m data (Z.to_nat copy_len)))));;
      update ut (set_state UT_RUNNABLE);;
      rr_scheduler_enqueue ut.

(** ** Operations of the running thread; [swapcontext] leaves to the scheduler *)

Definition rr_scheduler_yield_current : C W () :=
  cur ← lift (get g_current);
  running ← lift (get g_sched_running);
  if (cur =? NULL) || negb running then mret tt
  else
    lift (update cur (set_state UT_RUNNABLE);;
          rr_scheduler_enqueue cur);;
    swap_to_sched cur.

Definition rr_scheduler_block_current : C W () :=
  cur ← lift (get g_current);
  running ← lift (get g_sched_running);
  if (cur =? NULL) || negb running then mret tt
  else
    lift (update cur (set_state UT_BLOCKED));;
    swap_to_sched cur.

(** The wake-up of the joining thread when [cur] ends. *)
Definition wake_join_waiter (cur : ptr) : M W () :=
  u ← deref cur;
  if join_waiter u =? NULL then mret tt
  else
    w ← deref (join_waiter u);
    when (bool_decide (state w = UT_BLOCKED))
      (update (join_waiter u) (set_state UT_RUNNABLE);;
       rr_scheduler_enqueue (join_waiter u)).

Definition rr_scheduler_exit_current (v : Z) : C W () :=
  cur ← lift (get g_current);
  running ← lift (get g_sched_running);
  if (cur =? NULL) || negb running then mret tt
  else
    lift (update cur (set_retval v);;
          update cur (set_state UT_DONE);;
          wake_join_waiter cur);;
    swap_to_sched cur.

(** ** Setting up and tearing down *)

(** [rr_scheduler_init]; the stack and entry point installed in [g_sched_ctx] are
    the state [SchedIn] of the machine. *)
Definition rr_scheduler_init : M W Z :=
  p ← call "mmap" [0; RR_SCHED_STACK_SIZE; Z.lor PROT_READ PROT_WRITE];
  put g_sched_stack p;;
  if p =? MAP_FAILED then put g_sched_stack NULL;; mret (-1)
  else
    rc ← call "getcontext" [];
    if negb (rc =? 0) then
      call "munmap" [p; RR_SCHED_STACK_SIZE];;
      put g_sched_stack NULL;;
      mret (-1)
    else
      put g_sched_running true;;
      mret 0.

Definition rr_scheduler_shutdown : M W () :=
  put g_sched_running false;;
  put g_runq_head NULL;;
  put g_runq_tail NULL;;
  p ← get g_sched_stack;
  when (negb (p =? NULL))
    (call "munmap" [p; RR_SCHED_STACK_SIZE];;
     put g_sched_stack NULL);;
  rr_scheduler_unregister_all.

(** ** The run queue as a list *)

(** The chain of [next] fields from [hd] visits exactly [l]. *)
Fixpoint links (h : gmap Z uthread) (hd : ptr) (l : list ptr) : Prop :=
  match l with
  | [] => hd = NULL
  | p :: l => hd = p /\ p <> NULL /\ exists u, h !! p = Some u /\ links h (next u) l
  end.

Definition runq_rep (h : gmap Z uthread) (hd tl : ptr) (l : list ptr) : Prop :=
  links h hd l /\ tl = default NULL (last l) /\ NoDup l.

(** The queue of state [s] holds [l]. *)
Definition runq s (l : list ptr) : Prop :=
  runq_rep (rd heap s) (rd g_runq_head s) (rd g_runq_tail s) l.

(** The chain depends on the [next] fields of its members only. *)
Lemma links_ext h h' hd l :
  links h hd l ->
  (forall p u, p ∈ l -> h !! p = Some u -> exists u', h' !! p = Some u' /\ next u' = next u) ->
  links h' hd l.
Proof.
  revert hd; induction l as [|p l IH]; intros hd; simpl; [done|].
  intros (-> & Hn & u & Hu & Hl) Hext.
  destruct (Hext p u) as (u' & Hu' & Hnx); [set_solver|done|].
  split; [done|]. split; [done|]. exists u'. split; [done|]. rewrite Hnx.
  apply IH; [done|]. intros q v Hq. apply Hext. set_solver.
Qed.

Lemma links_update h hd l p f u :
  links h hd l -> h !! p = Some u -> next (f u) = next u -> links (<[p := f u]> h) hd l.
Proof.
  intros Hl Hp Hn. apply (links_ext h); [done|]. intros q v Hq Hv.
  destruct (decide (p = q)) as [<-|Hne].
  - exists (f u). rewrite lookup_insert_eq. by simplify_eq.
  - exists v. by rewrite lookup_insert_ne.
Qed.
Lemma links_other h hd l p u :
  links h hd l -> p ∉ l -> links (<[p := u]> h) hd l.
Proof.
  intros Hl Hp. apply (links_ext h); [done|]. intros q v Hq Hv.
  exists v. split; [|done]. rewrite lookup_insert_ne; [done|]. by intros ->.
Qed.

Lemma links_in_heap h hd l p : links h hd l -> p ∈ l -> is_Some (h !! p) /\ p <> NULL.
Proof.
  revert hd; induction l as [|q l IH]; intros hd; simpl; [set_solver|].
  intros (-> & Hn & u & Hu & Hl) [->|Hp]%elem_of_cons; [by eauto|]. eauto.
Qed.

(** Linking a new element behind the last one. *)
Lemma links_snoc h hd l t u p v :
  links h hd (l ++ [t]) -> h !! t = Some u -> p ∉ l ++ [t] -> p <> NULL -> NoDup (l ++ [t]) ->
  h !! p = Some v -> next v = NULL ->
  links (<[t := set_next p u]> h) hd ((l ++ [t]) ++ [p]).
Proof.
  revert hd; induction l as [|q l IH]; intros hd; simpl.
  - intros (-> & Hn & u' & Hu & Hnx) Ht Hp Hp0 Hnd Hv Hnv. assert (u' = u) as -> by congruence.
    split; [done|]. split; [done|]. exists (set_next p u).
    rewrite lookup_insert_eq. split; [done|]. split; [done|]. split; [done|].
    exists v. rewrite lookup_insert_ne by set_solver. by split.
  - intros (-> & Hn & u' & Hu & Hl) Ht Hp Hp0 [Hq Hnd]%NoDup_cons Hv Hnv.
    split; [done|]. split; [done|]. exists u'.
    rewrite lookup_insert_ne by (intros ->; apply Hq; set_solver). split; [done|].
    apply IH; try done. set_solver.
Qed.

Lemma runq_in_heap s l p : runq s l -> p ∈ l -> is_Some (rd heap s !! p) /\ p <> NULL.
Proof. intros (Hl & _ & _). eapply links_in_heap; eauto. Qed.

Lemma runq_nonempty_tail s l t :
  runq s (l ++ [t]) -> rd g_runq_tail s = t /\ t <> NULL /\ is_Some (rd heap s !! t).
Proof.
  intros Hq. pose proof Hq as (Hl & Ht & _). rewrite last_snoc in Ht.
  destruct (runq_in_heap s (l ++ [t]) t Hq) as [? ?]; [set_solver|]. done.
Qed.

(** Writing a field of a thread other than [next] leaves the queue alone. *)
Lemma runq_update s l p f u :
  runq s l -> rd heap s !! p = Some u -> next (f u) = next u ->
  runq (wr heap (<[p := f u]> (rd heap s)) s) l.
Proof. intros (Hl & Ht & Hn) Hp Hf. split; [|done]. by apply links_update. Qed.

(** The queue determines the list. *)
Lemma links_unique h hd l l' : links h hd l -> links h hd l' -> l = l'.
Proof.
  revert hd l'; induction l as [|p l IH]; intros hd [|q l']; simpl; [done| | |].
  - intros -> (? & ? & _). congruence.
  - intros (-> & ? & _) ?. congruence.
  - intros (-> & _ & u & Hu & Hl) (<- & _ & u' & Hu' & Hl'). f_equal.
    assert (u' = u) as -> by congruence. by apply (IH (next u)).
Qed.
Lemma runq_unique s l l' : runq s l -> runq s l' -> l = l'.
Proof. intros (H & _) (H' & _). by eapply links_unique. Qed.

(** *** The two queue operations refine the list *)

Lemma wp_pop_nil E s (Q : ptr -> rr_state W -> Prop) :
  runq s [] -> Q NULL s -> wp runq_pop_front Q E s.
Proof.
  intros (Hl & _) HQ. simpl in Hl. unfold runq_pop_front. wp_step. wp_step.
  rewrite Hl. simpl. by wp_step.
Qed.

Lemma wp_pop_cons E s p l (Q : ptr -> rr_state W -> Prop) :
  runq s (p :: l) ->
  (forall u s', rd heap s !! p = Some u -> runq s' l ->
     s' = wr heap (<[p := set_next NULL u]> (rd heap s))
            (wr g_runq_tail (rd g_runq_tail s') (wr g_runq_head (next u) s)) -> Q p s') ->
  wp runq_pop_front Q E s.
Proof.
  intros (Hl & Ht & Hnd) HQ. destruct Hl as (Hhd & Hp0 & u & Hu & Hl).
  apply NoDup_cons in Hnd as [Hpl Hnd].
  unfold runq_pop_front. wp_step. wp_step. rewrite Hhd. apply Z.eqb_neq in Hp0 as Hp0'.
  rewrite Hp0'. wp_step. apply (wp_deref p u); [done|].
  do 4 wp_step. wp_step. wp_step.
  - intros Hn. bool_prop. wp_step. wp_step. apply (wp_update p _ u); [done|]. wp_step.
    apply (HQ u); [done| |done].
    assert (l = []) as ->.
    { destruct l as [|q l]; [done|]. destruct Hl as (Hq & Hq0 & _). congruence. }
    by split.
  - intros Hn. bool_prop. wp_step. apply (wp_update p _ u); [done|]. wp_step.
    apply (HQ u); [done| |by destruct s as [????[]?????]].
    split; [by apply links_other|]. split; [|done]. cbn -[last].
    change (rd g_runq_tail s = default NULL (last l)). rewrite Ht.
    destruct l as [|q l]; [by destruct Hn|]. done.
Qed.

(** Relinking keeps every thread but for its [next] field. *)
Definition only_next (h h' : gmap Z uthread) : Prop :=
  (forall q u, h !! q = Some u -> exists n, h' !! q = Some (set_next n u)) /\
  (forall q, h !! q = None -> h' !! q = None).

Lemma only_next_refl h : only_next h h.
Proof. split; [|done]. intros q u Hq. exists (next u). rewrite Hq. by destruct u. Qed.
Lemma only_next_insert h h' p n u :
  only_next h h' -> h' !! p = Some u -> only_next h (<[p := set_next n u]> h').
Proof.
  intros [H1 H2] Hp. split.
  - intros q v Hq. destruct (decide (p = q)) as [<-|Hne].
    + destruct (H1 p v Hq) as [k Hk]. simplify_eq. exists n. by rewrite lookup_insert_eq.
    + rewrite lookup_insert_ne by done. by apply H1.
  - intros q Hq. destruct (decide (p = q)) as [<-|Hne].
    + rewrite H2 in Hp by done. done.
    + rewrite lookup_insert_ne by done. by apply H2.
Qed.

Lemma wp_enqueue E s p l v (Q : () -> rr_state W -> Prop) :
  runq s l -> p ∉ l -> p <> NULL -> rd heap s !! p = Some v ->
  (forall s', runq s' (l ++ [p]) -> only_next (rd heap s) (rd heap s') ->
     s' = wr g_runq_tail p (wr g_runq_head (rd g_runq_head s') (wr heap (rd heap s') s)) ->
     Q tt s') ->
  wp (rr_scheduler_enqueue p) Q E s.
Proof.
  intros Hq Hpl Hp0 Hv HQ. unfold rr_scheduler_enqueue.
  rewrite (proj2 (Z.eqb_neq _ _) Hp0). wp_step. apply (wp_update p _ v); [done|].
  wp_step. wp_step.
  destruct l as [|t l _] using rev_ind.
  - pose proof Hq as (_ & -> & _). simpl. wp_step. wp_step. wp_step. apply HQ; [|..|done].
    + split; [|split; [done|apply NoDup_singleton]]. simpl. split; [done|]. split; [done|].
      exists (set_next NULL v). split; [apply lookup_insert_eq|done].
    + apply only_next_insert; [apply only_next_refl|done].
  - destruct (runq_nonempty_tail _ _ _ Hq) as (-> & Ht0 & u & Hu).
    rewrite (proj2 (Z.eqb_neq _ _) Ht0). assert (p <> t) by set_solver.
    wp_step. apply (wp_update t _ u); glob_simpl; [by rewrite lookup_insert_ne|]. wp_step.
    destruct Hq as (Hl & _ & Hnd). apply HQ; [..|by destruct s as [????[]?????]].
    + split; [|split; [by rewrite last_snoc|]].
      * apply (links_snoc _ _ _ _ _ _ (set_next NULL v)); try done.
        -- by apply links_other.
        -- by rewrite lookup_insert_ne.
        -- apply lookup_insert_eq.
      * apply NoDup_app. split; [done|]. split; [set_solver|apply NoDup_singleton].
    + repeat apply only_next_insert; [apply only_next_refl|done|].
      by rewrite lookup_insert_ne.
Qed.

(** *** Lookup in the thread table *)

Lemma wp_find_loop E s items i (Q : ptr -> rr_state W -> Prop) :
  (forall p, p ∈ items -> p <> NULL /\ is_Some (rd heap s !! p)) ->
  (forall p u, p ∈ items -> rd heap s !! p = Some u -> id u = i -> Q p s) ->
  ((forall p u, p ∈ items -> rd heap s !! p = Some u -> id u <> i) -> Q NULL s) ->
  wp (find_loop items i) Q E s.
Proof.
  induction items as [|p items IH]; intros Hin Hyes Hno; simpl.
  - wp_step. apply Hno. set_solver.
  - destruct (Hin p) as [Hp0 [u Hu]]; [set_solver|].
    rewrite (proj2 (Z.eqb_neq _ _) Hp0). wp_step. apply (wp_deref p u); [done|].
    destruct (id u =? i) eqn:Ei; bool_prop.
    + wp_step. apply (Hyes p u); [set_solver|done..].
    + apply IH; [intros; apply Hin; set_solver | intros; eapply Hyes; eauto; set_solver |].
      intros Hnone. apply Hno. intros q v [->|Hq]%elem_of_cons Hv; [congruence|].
      by apply Hnone with q.
Qed.

(** *** Growth of the arrays: the store that follows is inside the allocation *)

Lemma wp_grow_if_full {A} (g : glob W (vec A)) sz (Q : bool -> rr_state W -> Prop) E s :
  v_ok (rd g s) -> 2 * v_cap (rd g s) < 2 ^ 64 -> 0 <= v_cap (rd g s) ->
  (forall s1 v, env_only s s1 -> v_items v = v_items (rd g s) -> v_cap (rd g s) <= v_cap v ->
     v_len v < v_cap v -> v_cap v <= Z.max 16 (2 * v_cap (rd g s)) ->
     (forall s', s' = s1 /\ v = rd g s \/ s' = wr g v s1 -> Q true s')) ->
  (forall s1, env_only s s1 -> Q false s1) ->
  wp (grow_if_full g sz) Q E s.
Proof.
  intros Hok Hbig Hpos Hyes Hno. unfold v_ok in Hok. unfold grow_if_full.
  wp_step. wp_step. wp_step.
  - wp_step. apply wp_os_rc. intros w rp s1 _ Henv _ _ _ _. cbn beta.
    wp_step; [wp_step; by apply Hno|]. wp_step. wp_step. wp_step.
    set (cap := if v_cap (rd g s) =? 0 then _ else _).
    assert (v_cap (rd g s) < cap <= Z.max 16 (2 * v_cap (rd g s))) as Hc.
    { unfold cap. destruct (v_cap (rd g s) =? 0) eqn:Ez; bool_prop; [lia|].
      unfold u64. rewrite Z.mod_small; lia. }
    apply (Hyes s1 (Vec (v_items (rd g s)) cap)); simpl; try done; unfold v_len in *; simpl; try lia.
    by right.
  - wp_step. apply (Hyes s (rd g s)); [apply env_only_refl|done|lia|lia|lia|by left].
Qed.
End Scheduler.
