(* ===== verification/Record.v ===== *)
(** record.c without its start-up: the mode tests, the 4 MB buffer in front of
    the log file, sequence numbers and the three event writers.  Against a log
    file that obeys [LogSink] the buffer is invisible: what is on disk followed
    by what is pending ([log_view]) grows by exactly the entry appended. *)
From stdpp Require Import gmap strings list.
From coqutil Require Import Byte.
From S2P Require Import Prelude Types State Events Logic Log Scheduler.

Section Record.
Context {W : Type} `{!OS W}.
Implicit Types s : rr_state W.

Definition rr_active : M W bool :=
  c ← get g_rr_config; mret (mode_record c && runtime_ready c).
Definition rr_replay_active : M W bool :=
  c ← get g_rr_config; mret (mode_replay c && runtime_ready c).
Definition rr_mark_runtime_ready : M W () := put g_runtime_ready true.

(** ** Function pointers resolved with [dlsym(RTLD_NEXT, name)] *)

(** [if (slot == NULL) slot = dlsym(RTLD_NEXT, name)]; the value of the slot. *)
Definition resolve (slot name : string) : M W Z :=
  m ← get statics;
  if default 0 (m !! slot) =? NULL then
    p ← os_rc (Rdlsym name);
    m ← get statics;
    put statics (<[slot := p]> m);;
    mret p
  else mret (default 0 (m !! slot)).

(** Call through a resolved pointer; a NULL pointer is fatal. *)
Definition call_real (slot : string) (r : os_req) : M W os_resp :=
  m ← get statics;
  if default 0 (m !! slot) =? NULL then halted HNullCall else os r.

Definition rr_resolve_real_io : M W Z :=
  w ← resolve "record:write" "write";
  o ← resolve "record:open" "open";
  c ← resolve "record:close" "close";
  mret (if negb (w =? 0) && negb (o =? 0) && negb (c =? 0) then 0 else -1).

(** ** Writing to the log file *)

(** The loop of [rr_write_direct]: [written] bytes of [p] are out. *)
Fixpoint write_loop (fuel : nat) (p : bytes) (written : Z) : M W Z :=
  match fuel with
  | O => halted HFuel
  | S fuel =>
      if written <? Z.of_nat (length p) then
        fd ← get g_log_fd;
        rp ← call_real "record:write" (Rlog_write fd (drop (Z.to_nat written) p));
        let rc := rp_rc rp in
        if rc <? 0 then
          e ← get errno;
          if e =? EINTR then write_loop fuel p written else mret (-1)
        else if rc =? 0 then mret (-1)
        else write_loop fuel p (u64 (written + rc))
      else mret 0
  end.

Definition rr_write_direct (p : bytes) : M W Z :=
  w ← get world;
  write_loop (S (os_patience w + length p)) p 0.

Definition rr_record_flush : M W () :=
  fd ← get g_log_fd;
  ring ← get g_ring;
  used ← get g_ring_used;
  match ring with
  | None => mret tt
  | Some r =>
      if (fd <? 0) || (used =? 0) then mret tt
      else
        rc ← rr_write_direct (load r 0 (Z.to_nat used));
        when (negb (rc =? 0)) (rr_debugf ("[rr] failed flushing log buffer" +:+ nl));;
        put g_ring_used 0
  end.

(** [memcpy(g_ring + off, entry, len)]; outside the mapping it is undefined. *)
Definition ring_memcpy (off : Z) (entry : bytes) : M W () :=
  ring ← get g_ring;
  match ring with
  | None => halted HUndef
  | Some r =>
      if (0 <=? off) && (off + Z.of_nat (length entry) <=? RR_LOG_RING_SIZE)
      then put g_ring (Some (store r off entry))
      else halted HUndef
  end.

Definition rr_record_append (entry : bytes) : M W () :=
  ring ← get g_ring;
  let len := Z.of_nat (length entry) in
  match ring with
  | None => mret tt
  | Some _ =>
      if RR_LOG_RING_SIZE <? len then
        rr_record_flush;;
        rr_write_direct entry;;
        mret tt
      else
        used ← get g_ring_used;
        when (RR_LOG_RING_SIZE <? used + len) rr_record_flush;;
        used ← get g_ring_used;
        ring_memcpy used entry;;
        put g_ring_used (used + len)
  end.

(** ** Events *)

Definition rr_next_seq : M W Z :=
  n ← get g_rr_seq;
  put g_rr_seq (u64 (n + 1));;
  get g_rr_seq.

(** The event [rr_log_syscall] builds; [data] holds the bytes behind its [data]
    argument ([None] for NULL). *)
Definition syscall_event (sq utid nr rv arg0 : Z) (data : option bytes) : rr_event_t :=
  let p := set_sc_arg0 arg0 (set_sc_retval rv (set_sc_nr nr payload_zero)) in
  Event sq utid EV_SYSCALL 0
    match data with
    | None => p
    | Some d => set_sc_data_len (Z.of_nat (length d)) (set_sc_data d p)
    end.

Definition rr_log_syscall (nr rv arg0 : Z) (data : ptr) (data_len : Z) : M W () :=
  act ← rr_active;
  if negb act then mret tt
  else
    sq ← rr_next_seq;
    utid ← current_id;
    m ← get mem;
    let d :=
      if negb (data =? NULL) && (0 <? data_len) then
        let capped := if 64 <? data_len then 64 else data_len in
        Some (load m data (Z.to_nat capped))
      else None in
    rr_record_append (encode_event (syscall_event sq utid nr rv arg0 d)).

Definition signal_event (sq utid signo active : Z) : rr_event_t :=
  Event sq utid EV_SIGNAL 0 (set_sg_active active (set_sg_signo signo payload_zero)).

Definition rr_log_signal (signo active : Z) : M W () :=
  act ← rr_active;
  if negb act then mret tt
  else
    sq ← rr_next_seq;
    utid ← current_id;
    rr_record_append (encode_event (signal_event sq utid signo active)).

Definition sched_event (sq from_id to_id : Z) : rr_event_t :=
  Event sq to_id EV_SCHED 0 (set_sd_to to_id (set_sd_from from_id payload_zero)).

(** Not guarded by [runtime_ready]: start-up logs the switch to the main thread. *)
Definition rr_log_sched (from_id to_id : Z) : M W () :=
  c ← get g_rr_config;
  if negb (mode_record c) then mret tt
  else
    sq ← rr_next_seq;
    rr_record_append (encode_event (sched_event sq from_id to_id)).

Definition rr_record_shutdown : M W () :=
  rr_record_flush;;
  fd ← get g_log_fd;
  m ← get statics;
  when ((0 <=? fd) && negb (default 0 (m !! "record:close") =? NULL))
    (call_real "record:close" (Rlog_close fd);;
     put g_log_fd (-1));;
  ring ← get g_ring;
  match ring with
  | None => mret tt
  | Some _ =>
      call "munmap" [RR_LOG_RING_SIZE];;
      put g_ring None
  end.

End Record.

(** ** The log file as the code relies on it *)

(** [sink fd w] is the content of the file open at [fd].  The laws are those of
    [write(2)] on a regular file of a disk with room: a call is interrupted
    before it transfers anything, a bounded number of times ([os_patience]), or
    it appends a non-empty prefix of the buffer.  Closing the file and unmapping
    memory leave its content. *)
Class LogSink (W : Type) `{!OS W} := {
  sink : Z -> W -> bytes;
  sink_write fd bs m w w' rp :
    bs <> [] -> os_call (Rlog_write fd bs) m w = (w', rp) ->
    rp_writes rp = [] /\
    ((rp_rc rp < 0 /\ rp_errno rp = Some EINTR /\ sink fd w' = sink fd w /\
      (os_patience w' < os_patience w)%nat) \/
     (0 < rp_rc rp <= Z.of_nat (length bs) /\
      sink fd w' = sink fd w ++ take (Z.to_nat (rp_rc rp)) bs /\
      (os_patience w' <= os_patience w)%nat));
  sink_close fd m w w' rp :
    os_call (Rlog_close fd) m w = (w', rp) -> sink fd w' = sink fd w;
  sink_munmap fd args m w w' rp :
    os_call (Rcall "munmap" args) m w = (w', rp) -> sink fd w' = sink fd w
}.

Section RecordProofs.
Context {W : Type} `{!OS W} `{!LogSink W}.
Implicit Types s : rr_state W.

(** The buffer is mapped exactly while the file is open, and holds [used] bytes. *)
Definition rec_ok s : Prop :=
  0 <= rd g_log_fd s /\ is_Some (rd g_ring s) /\
  0 <= rd g_ring_used s <= RR_LOG_RING_SIZE /\
  default 0 (rd statics s !! "record:write") <> NULL.

Definition pending s : bytes :=
  match rd g_ring s with
  | Some r => load r 0 (Z.to_nat (rd g_ring_used s))
  | None => []
  end.
(** What the log will contain once the buffer is flushed. *)
Definition log_view s : bytes := sink (rd g_log_fd s) (rd world s) ++ pending s.

(** [s'] differs from [s] in the buffer's fill level and in what the environment
    owns, application memory excepted. *)
Definition log_only s s' : Prop :=
  exists r u, rd mem s' = rd mem s /\ env_only (wr g_ring_used u (wr g_ring r s)) s'.

Lemma wp_write_loop fuel p written s (Q : Z -> rr_state W -> Prop) :
  default 0 (rd statics s !! "record:write") <> NULL ->
  0 <= written <= Z.of_nat (length p) -> Z.of_nat (length p) < 2 ^ 64 ->
  (os_patience (rd world s) + (length p - Z.to_nat written) < fuel)%nat ->
  (forall s', env_only s s' -> rd mem s' = rd mem s ->
     sink (rd g_log_fd s) (rd world s') =
       sink (rd g_log_fd s) (rd world s) ++ drop (Z.to_nat written) p -> Q 0 s') ->
  wp (write_loop fuel p written) Q no_halt s.
Proof.
  revert s written. induction fuel as [|fuel IH]; intros s written Hst Hw Hlen Hf HQ; [lia|].
  simpl. wp_step.
  - wp_step. wp_step. wp_step. unfold call_real. wp_step. wp_step.
    rewrite (proj2 (Z.eqb_neq _ _) Hst).
    apply wp_os. intros w rp s1 Hc He Hw1 Hm Herr _.
    assert (drop (Z.to_nat written) p <> []) as Hne.
    { intros Hd%(f_equal length). rewrite length_drop in Hd. simpl in Hd. lia. }
    destruct (sink_write _ _ _ _ _ _ Hne Hc) as [Hwr [(Hrc & Hei & Hsk & Hpat)|(Hrc & Hsk & Hpat)]].
    + rewrite Hwr in Hm. simpl in Hm. rewrite (proj2 (Z.ltb_lt _ _) Hrc). wp_step. wp_step.
      rewrite Hei in Herr. rewrite Herr. simpl.
      apply IH; [env_simpl; done|done|done|rewrite Hw1; lia|].
      intros s2 He2 Hm2 Hs2. apply HQ; [by eapply env_only_trans|congruence|].
      assert (Hfd : rd g_log_fd s1 = rd g_log_fd s) by (by env_simpl).
      rewrite <-Hfd in Hsk |- *. by rewrite Hs2, Hw1, Hsk.
    + rewrite Hwr in Hm. simpl in Hm. rewrite length_drop in Hrc.
      rewrite (proj2 (Z.ltb_ge _ _)) by lia. rewrite (proj2 (Z.eqb_neq _ _)) by lia.
      rewrite u64_id by (unfold in_u64; lia).
      assert (Hfd : rd g_log_fd s1 = rd g_log_fd s) by (by env_simpl).
      apply IH; [env_simpl; done|lia|done|rewrite Hw1; lia|].
      intros s2 He2 Hm2 Hs2. apply HQ; [by eapply env_only_trans|congruence|].
      rewrite Hfd in Hs2. rewrite Hs2, Hw1, Hsk, <-app_assoc. f_equal.
      rewrite Z2Nat.inj_add, <-drop_drop by lia. apply take_drop.
  - wp_step. apply HQ; [apply env_only_refl|done|]. rewrite drop_ge by lia. by rewrite app_nil_r.
Qed.

Lemma wp_write_direct p s (Q : Z -> rr_state W -> Prop) :
  default 0 (rd statics s !! "record:write") <> NULL -> Z.of_nat (length p) < 2 ^ 64 ->
  (forall s', env_only s s' -> rd mem s' = rd mem s ->
     sink (rd g_log_fd s) (rd world s') = sink (rd g_log_fd s) (rd world s) ++ p -> Q 0 s') ->
  wp (rr_write_direct p) Q no_halt s.
Proof.
  intros Hst Hlen HQ. unfold rr_write_direct. wp_step. wp_step.
  apply wp_write_loop; try done; lia.
Qed.

(** Flushing moves the pending bytes to the file and empties the buffer. *)
Lemma wp_flush s (Q : () -> rr_state W -> Prop) :
  rec_ok s ->
  (forall s', log_only s s' -> rd g_ring s' = rd g_ring s -> rd g_ring_used s' = 0 ->
     log_view s' = log_view s -> Q tt s') ->
  wp rr_record_flush Q no_halt s.
Proof.
  intros (Hfd & [r Hr] & Hu & Hst) HQ. unfold rr_record_flush. wp_steps. rewrite Hr.
  rewrite (proj2 (Z.ltb_ge _ _)) by done. simpl.
  destruct (rd g_ring_used s =? 0) eqn:Eu; bool_prop.
  - wp_step. apply HQ; try done. exists (rd g_ring s), (rd g_ring_used s). split; [done|].
    replace (wr _ _ _) with s by (by destruct s as [??[]???????]). apply env_only_refl.
  - wp_step. apply wp_write_direct; [done|rewrite length_load; unfold RR_LOG_RING_SIZE in Hu; lia|].
    intros s1 He Hm Hs. wp_step. simpl. wp_step. wp_step.
    apply HQ; [..|done|].
    + exists (rd g_ring s), 0. split; [done|]. destruct He as (e & m & t & w & ->).
      exists e, m, t, w. by destruct s as [??[]?????[]?].
    + by env_simpl.
    + unfold log_view, pending. env_simpl. glob_simpl_in Hs. rewrite Hr. simpl.
      by rewrite app_nil_r.
Qed.

Lemma log_only_rec_ok s s' :
  rec_ok s -> log_only s s' -> is_Some (rd g_ring s') -> 0 <= rd g_ring_used s' <= RR_LOG_RING_SIZE ->
  rec_ok s'.
Proof.
  intros (Hfd & _ & _ & Hst) (r & u & _ & He) H1 H2. split; [|split; [done|split; [done|]]]; by env_simpl.
Qed.

Lemma log_only_trans s1 s2 s3 : log_only s1 s2 -> log_only s2 s3 -> log_only s1 s3.
Proof.
  intros (r & u & Hm & He) (r' & u' & Hm' & He'). exists r', u'. split; [congruence|].
  destruct He as (e & m & t & w & ->), He' as (e' & m' & t' & w' & ->).
  exists e', m', t', w'. by destruct s1 as [??[]?????[]?].
Qed.

(** The environment's part alone. *)
Lemma log_only_env s s' : env_only s s' -> rd mem s' = rd mem s -> log_only s s'.
Proof.
  intros He Hm. exists (rd g_ring s), (rd g_ring_used s). split; [done|].
  by replace (wr g_ring_used _ _) with s by (by destruct s as [??[]???????]).
Qed.

Lemma log_only_refl s : log_only s s.
Proof. apply log_only_env; [apply env_only_refl|done]. Qed.

(** The last two lines of [rr_record_append], when the entry fits. *)
Lemma wp_ring_push entry s (Q : () -> rr_state W -> Prop) :
  rec_ok s -> rd g_ring_used s + Z.of_nat (length entry) <= RR_LOG_RING_SIZE ->
  (forall s', log_only s s' -> rec_ok s' -> log_view s' = log_view s ++ entry -> Q tt s') ->
  wp (used ← get g_ring_used; ring_memcpy used entry;;
      put g_ring_used (used + Z.of_nat (length entry))) Q no_halt s.
Proof.
  intros Hok Hfit HQ. pose proof Hok as (Hfd & [r Hr] & Hu & Hst).
  wp_step. wp_step. wp_step. unfold ring_memcpy. wp_step. wp_step. rewrite Hr.
  rewrite (proj2 (Z.leb_le _ _)), (proj2 (Z.leb_le _ _)) by lia. simpl. wp_step. wp_step.
  set (s2 := wr g_ring_used _ _).
  assert (log_only s s2) as Hl2.
  { do 2 eexists. split; [done|]. apply env_only_refl. }
  apply HQ; [done|..].
  - apply (log_only_rec_ok s); [done|done|done|unfold s2; glob_simpl; lia].
  - unfold log_view, pending, s2. glob_simpl. rewrite Hr, <-app_assoc. f_equal.
    rewrite Z2Nat.inj_add, Nat2Z.id by lia.
    rewrite <-(Z2Nat.id (rd g_ring_used s)) at 1 by lia. apply (load_store_append r 0).
Qed.

(** Writing through, when the entry is larger than the buffer. *)
Lemma wp_write_through entry s (Q : Z -> rr_state W -> Prop) :
  rec_ok s -> rd g_ring_used s = 0 -> Z.of_nat (length entry) < 2 ^ 64 ->
  (forall s', log_only s s' -> rec_ok s' -> log_view s' = log_view s ++ entry -> Q 0 s') ->
  wp (rr_write_direct entry) Q no_halt s.
Proof.
  intros Hok Hu Hlen HQ. pose proof Hok as (Hfd & Hr & _ & Hst).
  apply wp_write_direct; [done|done|]. intros s2 He2 Hm2 Hs2.
  assert (rd g_ring s2 = rd g_ring s /\ rd g_ring_used s2 = rd g_ring_used s
    /\ rd g_log_fd s2 = rd g_log_fd s) as (Hr2 & Hu2 & Hf2) by (by env_simpl).
  pose proof (log_only_env _ _ He2 Hm2) as Hl.
  apply HQ; [done|..].
  - apply (log_only_rec_ok s); [done|done|by rewrite Hr2|].
    rewrite Hu2, Hu. unfold RR_LOG_RING_SIZE. lia.
  - unfold log_view, pending. rewrite Hf2, Hs2, Hr2, Hu2, Hu.
    destruct (rd g_ring s); simpl; by rewrite !app_nil_r.
Qed.

Lemma wp_append entry s (Q : () -> rr_state W -> Prop) :
  rec_ok s -> Z.of_nat (length entry) < 2 ^ 64 ->
  (forall s', log_only s s' -> rec_ok s' -> log_view s' = log_view s ++ entry -> Q tt s') ->
  wp (rr_record_append entry) Q no_halt s.
Proof.
  intros Hok Hlen HQ. pose proof Hok as (Hfd & [r Hr] & Hu & Hst).
  assert (Hflush : forall s1, log_only s s1 -> rd g_ring s1 = rd g_ring s ->
    rd g_ring_used s1 = 0 -> rec_ok s1).
  { intros s1 Hl1 Hr1 Hu1. apply (log_only_rec_ok s); [done|done|by rewrite Hr1|].
    rewrite Hu1. unfold RR_LOG_RING_SIZE. lia. }
  unfold rr_record_append. wp_step. wp_step. rewrite Hr. wp_step.
  - wp_step. apply wp_flush; [done|]. intros s1 Hl1 Hr1 Hu1 Hv1. wp_step.
    apply wp_write_through; auto. intros s2 Hl2 Hok2 Hv2. wp_step.
    apply HQ; [by eapply log_only_trans|done|congruence].
  - wp_step. wp_step. wp_step. wp_step.
    + intros Hov. bool_prop. apply wp_flush; [done|]. intros s1 Hl1 Hr1 Hu1 Hv1.
      apply wp_ring_push; [auto|lia|]. intros s2 Hl2 Hok2 Hv2.
      apply HQ; [by eapply log_only_trans|done|congruence].
    + intros Hov. bool_prop. by apply wp_ring_push.
Qed.

(** What a flush asks of the system. *)
Definition flush_req (r : os_req) : Prop :=
  match r with Rlog_write _ _ | Rstderr_write _ => True | _ => False end.
Lemma asks_write_loop fuel p n : asks flush_req (write_loop fuel p n).
Proof. revert n. induction fuel; intros n; simpl; unfold call_real; asks_tac; auto. Qed.
Lemma asks_flush : asks flush_req rr_record_flush.
Proof. unfold rr_record_flush, rr_write_direct, rr_debugf. asks_tac. apply asks_write_loop. Qed.

(** Shutdown: everything logged is in the file, the file is closed and the buffer
    given back. *)
Lemma wp_record_shutdown s (Q : () -> rr_state W -> Prop) :
  rec_ok s -> default 0 (rd statics s !! "record:close") <> NULL ->
  (forall s', sink (rd g_log_fd s) (rd world s') = log_view s -> rd g_log_fd s' = -1 ->
     rd g_ring s' = None ->
     (exists ts, Forall flush_req ts /\ rd trace s' =
        Rcall "munmap" [RR_LOG_RING_SIZE] :: Rlog_close (rd g_log_fd s) :: ts ++ rd trace s) ->
     Q tt s') ->
  wp rr_record_shutdown Q no_halt s.
Proof.
  intros Hok Hcl HQ. pose proof Hok as (Hfd & [r Hr] & _). unfold rr_record_shutdown. wp_step.
  eapply wp_post; [eapply wp_and; [apply (wp_flush s (fun _ s1 => log_only s s1 /\
    rd g_ring s1 = rd g_ring s /\ rd g_ring_used s1 = 0 /\ log_view s1 = log_view s)); auto|apply asks_flush]|].
  intros [] s1 [((r1 & u1 & Hm1 & He1) & Hr1 & Hu1 & Hv1) (ts & Ht1 & Hts)].
  assert (rd g_log_fd s1 = rd g_log_fd s /\ rd statics s1 = rd statics s) as [Hf1 Hs1] by (by env_simpl).
  assert (sink (rd g_log_fd s) (rd world s1) = log_view s) as Hk1.
  { rewrite <-Hv1. unfold log_view, pending. rewrite Hr1, Hr, Hu1, Hf1. simpl. by rewrite app_nil_r. }
  wp_step. wp_step. wp_step. wp_step. wp_step. rewrite Hf1, Hs1, (proj2 (Z.leb_le _ _) Hfd).
  rewrite (proj2 (Z.eqb_neq _ _) Hcl). cbn [andb negb]. wp_step; [intros _|done]. wp_step.
  unfold call_real. wp_step. wp_step. rewrite Hs1, (proj2 (Z.eqb_neq _ _) Hcl).
  apply wp_os. intros w2 rp2 s2 Hc2 He2 Hw2 _ _ Ht2. wp_step. wp_step. wp_step.
  assert (rd g_ring s2 = Some r) as Hr2 by (rewrite <-Hr, <-Hr1; by env_simpl). rewrite Hr2.
  wp_step. unfold call. apply wp_os_rc. intros w3 rp3 s3 Hc3 He3 Hw3 _ _ Ht3. wp_step.
  apply HQ; [|destruct He3 as (? & ? & ? & ? & ->); reflexivity|reflexivity|].
  2:{ exists ts. split; [done|]. glob_simpl. rewrite Ht3. glob_simpl. by rewrite Ht2, Ht1. }
  glob_simpl. rewrite Hw3. rewrite (sink_munmap _ _ _ _ _ _ Hc3). glob_simpl.
  by rewrite Hw2, (sink_close _ _ _ _ _ Hc2).
Qed.

(** *** The event writers *)

(** [e] was appended to the log and took the next sequence number. *)
Definition logged s (e : rr_event_t) s' : Prop :=
  log_only (wr g_rr_seq (u64 (rd g_rr_seq s + 1)) s) s' /\ rec_ok s' /\
  seq e = u64 (rd g_rr_seq s + 1) /\ log_view s' = log_view s ++ encode_event e.

(** The running thread's id as the log records it. *)
Definition cur_id s : Z :=
  if rd g_current s =? NULL then 0 else from_option id 0 (rd heap s !! rd g_current s).
Definition cur_valid s : Prop :=
  rd g_current s = NULL \/ is_Some (rd heap s !! rd g_current s).

Lemma wp_current_id E s (Q : Z -> rr_state W -> Prop) :
  cur_valid s -> Q (cur_id s) s -> wp current_id Q E s.
Proof.
  intros Hv HQ. unfold current_id, rr_scheduler_current. wp_step. wp_step. unfold cur_id in HQ.
  destruct (rd g_current s =? NULL) eqn:Hc; [by wp_step|]. bool_prop.
  destruct Hv as [?|[u Hu]]; [done|]. wp_step. apply (wp_deref _ u); [done|]. wp_step.
  by rewrite Hu in HQ.
Qed.

Lemma length_syscall_payload sq utid nr rv arg0 d :
  match d with Some d => (length d <= 64)%nat | None => True end ->
  length (payload (syscall_event sq utid nr rv arg0 d)) = sizeof_payload.
Proof. intros Hd. destruct d; simpl; payload_len. Qed.

Lemma wp_append_event sq e s (Q : () -> rr_state W -> Prop) :
  rec_ok s -> length (payload e) = sizeof_payload -> sq = u64 (rd g_rr_seq s + 1) ->
  seq e = sq -> (forall s', logged s e s' -> Q tt s') ->
  wp (rr_record_append (encode_event e)) Q no_halt (wr g_rr_seq sq s).
Proof.
  intros Hok Hp Hsq He HQ. apply wp_append; [done|by rewrite length_encode_event|].
  intros s' Hl Hok' Hv. apply HQ. subst sq. by split.
Qed.

(** The bytes [rr_log_syscall] stores: at most 64 of those at [data]. *)
Definition logged_data s (data : ptr) (data_len : Z) : option bytes :=
  if negb (data =? NULL) && (0 <? data_len)
  then Some (load (rd mem s) data (Z.to_nat (Z.min 64 data_len))) else None.

Lemma wp_log_syscall nr rv arg0 data data_len s (Q : () -> rr_state W -> Prop) :
  rec_ok s -> cur_valid s -> mode_record (rd g_rr_config s) = true ->
  runtime_ready (rd g_rr_config s) = true ->
  (forall s', logged s (syscall_event (u64 (rd g_rr_seq s + 1)) (cur_id s) nr rv arg0
       (logged_data s data data_len)) s' -> Q tt s') ->
  wp (rr_log_syscall nr rv arg0 data data_len) Q no_halt s.
Proof.
  intros Hok Hv Hr Hy HQ. unfold rr_log_syscall, rr_active, rr_next_seq. wp_steps.
  { by rewrite Hr, Hy in E. }
  apply wp_current_id; [done|]. wp_steps. cbv zeta.
  replace (if _ && _ then _ else _) with (logged_data s data data_len).
  2:{ unfold logged_data. destruct (_ && _); [|done]. do 3 f_equal.
      destruct (64 <? data_len) eqn:?; bool_prop; lia. }
  apply wp_append_event; auto. apply length_syscall_payload. unfold logged_data.
  destruct (_ && _); [|done]. rewrite length_load. lia.
Qed.

Lemma wp_log_signal signo active s (Q : () -> rr_state W -> Prop) :
  rec_ok s -> cur_valid s -> mode_record (rd g_rr_config s) = true ->
  runtime_ready (rd g_rr_config s) = true ->
  (forall s', logged s (signal_event (u64 (rd g_rr_seq s + 1)) (cur_id s) signo active) s' ->
     Q tt s') ->
  wp (rr_log_signal signo active) Q no_halt s.
Proof.
  intros Hok Hv Hr Hy HQ. unfold rr_log_signal, rr_active, rr_next_seq. wp_steps.
  { by rewrite Hr, Hy in E. }
  apply wp_current_id; [done|]. wp_steps.
  by apply wp_append_event.
Qed.

Lemma wp_log_sched from to s (Q : () -> rr_state W -> Prop) :
  rec_ok s -> mode_record (rd g_rr_config s) = true ->
  (forall s', logged s (sched_event (u64 (rd g_rr_seq s + 1)) from to) s' -> Q tt s') ->
  wp (rr_log_sched from to) Q no_halt s.
Proof.
  intros Hok Hr HQ. unfold rr_log_sched, rr_next_seq. wp_steps; [congruence|].
  by apply wp_append_event.
Qed.
End RecordProofs.
