(* ===== verification/Replay.v ===== *)
(** replay.c without its start-up: reading the log back event by event and
    checking each event against what the replayed program does.  Against a log
    file that obeys [LogSource], the event functions accept exactly the expected
    event, deliver what was recorded, and report every deviation. *)
From stdpp Require Import gmap strings list pretty.
From coqutil Require Import Byte.
From S2P Require Import Prelude Types State Events Logic Log Scheduler Record.

(** [rr_replay_syscall_event_t]. *)
Record rr_replay_syscall_event_t := ReplayEvent {
  rs_seq : Z; rs_nr : Z; rs_retval : Z; rs_arg0 : Z; rs_data : bytes; rs_data_len : Z
}.

Section Replay.
Context {W : Type} `{!OS W}.
Implicit Types s : rr_state W.

Definition rr_replay_resolve_real_io : M W Z :=
  r ← resolve "replay:read" "read";
  o ← resolve "replay:open" "open";
  c ← resolve "replay:close" "close";
  mret (if negb (r =? 0) && negb (o =? 0) && negb (c =? 0) then 0 else -1).

(** The loop of [rr_read_full]: [done_] bytes of [len] are in [buf]. *)
Fixpoint read_loop (fuel : nat) (fd len done_ : Z) (buf : bytes) : M W (Z * bytes) :=
  match fuel with
  | O => halted HFuel
  | S fuel =>
      if done_ <? len then
        rp ← call_real "replay:read" (Rlog_read fd (len - done_));
        let rc := rp_rc rp in
        if rc <? 0 then
          e ← get errno;
          if e =? EINTR then read_loop fuel fd len done_ buf else mret (-1, buf)
        else if rc =? 0 then mret (-1, buf)
        else read_loop fuel fd len (u64 (done_ + rc)) (buf ++ take (Z.to_nat rc) (rp_data rp))
      else mret (0, buf)
  end.

Definition rr_read_full (fd len : Z) : M W (Z * bytes) :=
  w ← get world;
  read_loop (S (os_patience w + Z.to_nat len)) fd len 0 [].

(** [fail e]: [errno = e; return -1]. *)
Definition fail {A} (e : Z) : M W (option A) := put errno e;; mret None.

(** The [int] result and the event behind [out_ev] in one: [None] is -1.
    [out] says that [out_ev] is not NULL. *)
Definition rr_replay_next_event (out : bool) : M W (option rr_event_t) :=
  ok ← get g_replay_header_ok;
  fd ← get g_replay_fd;
  if negb ok || (fd <? 0) || negb out then fail EINVAL
  else
    r ← rr_read_full fd (Z.of_nat sizeof_event);
    if negb (r.1 =? 0) then fail ENODATA
    else
      let ev := decode_event r.2 in
      expected ← get g_expected_seq;
      if negb (seq ev =? expected) then
        rr_debugf ("[rr-replay] sequence mismatch expected=" +:+ pretty expected +:+ " got="
          +:+ pretty (seq ev) +:+ nl);;
        fail EPROTO
      else
        put g_expected_seq (u64 (expected + 1));;
        mret (Some ev).

Definition rr_replay_expect_sched (expected_from_id expected_to_id : Z) : M W Z :=
  r ← rr_replay_next_event true;
  match r with
  | None => mret (-1)
  | Some ev =>
      if negb (type ev =? EV_SCHED) then
        rr_debugf ("[rr-replay] expected EV_SCHED at seq=" +:+ pretty (seq ev) +:+ " got type="
          +:+ pretty (type ev) +:+ nl);;
        put errno EPROTO;;
        mret (-1)
      else if negb (sd_from_id (payload ev) =? expected_from_id)
              || negb (sd_to_id (payload ev) =? expected_to_id) then
        rr_debugf ("[rr-replay] sched mismatch seq=" +:+ pretty (seq ev) +:+ " expected=("
          +:+ pretty expected_from_id +:+ "->" +:+ pretty expected_to_id +:+ ") got=("
          +:+ pretty (sd_from_id (payload ev)) +:+ "->" +:+ pretty (sd_to_id (payload ev))
          +:+ ")" +:+ nl);;
        put errno EPROTO;;
        mret (-1)
      else mret 0
  end.

(** The copy into [*out_ev] at the end of [rr_replay_next_syscall]. *)
Definition replay_event_of (ev : rr_event_t) : rr_replay_syscall_event_t :=
  let p := payload ev in
  let data_len := if 64 <? sc_data_len p then 64 else sc_data_len p in
  ReplayEvent (seq ev) (sc_nr p) (sc_retval p) (sc_arg0 p)
    (patch (replicate 64 Byte.x00) 0 (take (Z.to_nat data_len) (sc_data p))) data_len.

Definition rr_replay_next_syscall (expected_nr expected_uthread_id : Z) (out : bool)
    : M W (option rr_replay_syscall_event_t) :=
  ok ← get g_replay_header_ok;
  fd ← get g_replay_fd;
  if negb ok || (fd <? 0) || negb out then fail EINVAL
  else
    r ← rr_replay_next_event true;
    match r with
    | None => mret None
    | Some ev =>
        if negb (type ev =? EV_SYSCALL) then
          rr_debugf ("[rr-replay] expected EV_SYSCALL at seq=" +:+ pretty (seq ev)
            +:+ " got type=" +:+ pretty (type ev) +:+ nl);;
          fail EPROTO
        else if negb (sc_nr (payload ev) =? expected_nr) then
          rr_debugf ("[rr-replay] syscall mismatch expected=" +:+ pretty expected_nr +:+ " got="
            +:+ pretty (sc_nr (payload ev)) +:+ " seq=" +:+ pretty (seq ev) +:+ nl);;
          fail EPROTO
        else if negb (uthread_id ev =? expected_uthread_id) then
          rr_debugf ("[rr-replay] uthread mismatch for syscall seq=" +:+ pretty (seq ev)
            +:+ " expected=" +:+ pretty expected_uthread_id +:+ " got="
            +:+ pretty (uthread_id ev) +:+ nl);;
          fail EPROTO
        else mret (Some (replay_event_of ev))
    end.

Definition rr_replay_shutdown : M W () :=
  fd ← get g_replay_fd;
  m ← get statics;
  when ((0 <=? fd) && negb (default 0 (m !! "replay:close") =? NULL))
    (call_real "replay:close" (Rlog_close fd);; mret tt);;
  put g_replay_fd (-1);;
  put g_replay_header_ok false;;
  put g_expected_seq 1.
End Replay.

(** ** The log file as the code relies on it *)

(** [source fd w] is what is left to read at [fd].  The laws are those of
    [read(2)] on a regular file: interrupted a bounded number of times, or a
    non-empty prefix of at most the size asked for, or 0 at the end; standard
    error is another file. *)
Class LogSource (W : Type) `{!OS W} := {
  source : Z -> W -> bytes;
  source_read fd n m w w' rp :
    0 < n -> os_call (Rlog_read fd n) m w = (w', rp) ->
    rp_writes rp = [] /\
    ((rp_rc rp < 0 /\ rp_errno rp = Some EINTR /\ source fd w' = source fd w /\
      (os_patience w' < os_patience w)%nat) \/
     (0 <= rp_rc rp <= n /\ (rp_rc rp = 0 <-> source fd w = []) /\
      rp_data rp = take (Z.to_nat (rp_rc rp)) (source fd w) /\
      (Z.to_nat (rp_rc rp) <= length (source fd w))%nat /\
      source fd w' = drop (Z.to_nat (rp_rc rp)) (source fd w) /\
      (os_patience w' <= os_patience w)%nat));
  source_stderr fd bs m w w' rp :
    os_call (Rstderr_write bs) m w = (w', rp) ->
    rp_writes rp = [] /\ source fd w' = source fd w
}.

Section ReplayProofs.
Context {W : Type} `{!OS W} `{!LogSource W}.
Implicit Types s : rr_state W.

(** An open log whose header was accepted. *)
Definition rep_ok s : Prop :=
  rd g_replay_header_ok s = true /\ 0 <= rd g_replay_fd s /\
  default 0 (rd statics s !! "replay:read") <> NULL.

(** What is left of the log. *)
Definition rest s : bytes := source (rd g_replay_fd s) (rd world s).

Lemma wp_read_loop fuel fd len dn buf s (Q : Z * bytes -> rr_state W -> Prop) :
  default 0 (rd statics s !! "replay:read") <> NULL ->
  0 <= dn <= len -> len < 2 ^ 64 ->
  (os_patience (rd world s) + Z.to_nat (len - dn) < fuel)%nat ->
  (forall s', env_only s s' -> rd mem s' = rd mem s ->
     let k := Z.to_nat (len - dn) in
     source fd (rd world s') = drop k (source fd (rd world s)) ->
     if (k <=? length (source fd (rd world s)))%nat
     then Q (0, buf ++ take k (source fd (rd world s))) s'
     else forall b, Q (-1, b) s') ->
  wp (read_loop fuel fd len dn buf) Q no_halt s.
Proof.
  revert s dn buf. induction fuel as [|fuel IH]; intros s dn buf Hst Hd Hlen Hf HQ; [lia|].
  simpl. wp_step.
  - wp_step. unfold call_real. wp_step. wp_step. rewrite (proj2 (Z.eqb_neq _ _) Hst).
    apply wp_os. intros w rp s1 Hc He Hw1 Hm Herr _.
    destruct (source_read fd (len - dn) _ _ _ _ ltac:(lia) Hc)
      as [Hwr [(Hrc & Hei & Hsk & Hpat)|(Hrc & Hz & Hdat & Hle & Hsk & Hpat)]];
      rewrite Hwr in Hm; simpl in Hm.
    + rewrite (proj2 (Z.ltb_lt _ _) Hrc). wp_step. wp_step. rewrite Herr, Hei. simpl.
      apply IH; [env_simpl; done|done|done|rewrite Hw1; lia|].
      intros s2 He2 Hm2. rewrite Hw1, Hsk. apply HQ; [by eapply env_only_trans|congruence].
    + rewrite (proj2 (Z.ltb_ge _ _)) by lia. destruct (rp_rc rp =? 0) eqn:Ez; bool_prop.
      * wp_step. apply Hz in Ez as Hnil. specialize (HQ s1 He Hm). simpl in HQ.
        rewrite Hw1, Hsk, Hnil, !drop_nil in HQ. specialize (HQ eq_refl). simpl in HQ.
        destruct (Z.to_nat (len - dn)) eqn:Ek; [lia|]. apply HQ.
      * rewrite u64_id by (unfold in_u64; lia).
        apply IH; [env_simpl; done|lia|done|rewrite Hw1; lia|].
        intros s2 He2 Hm2 k. unfold k. clear k. rewrite Hw1, Hsk. intros Hs2.
        specialize (HQ s2 (env_only_trans _ _ _ He He2) ltac:(congruence)). simpl in HQ.
        rewrite drop_drop in Hs2.
        replace (Z.to_nat (rp_rc rp) + Z.to_nat (len - (dn + rp_rc rp)))%nat
          with (Z.to_nat (len - dn)) in Hs2 by lia.
        specialize (HQ Hs2). rewrite Hdat, take_take, Nat.min_id, length_drop.
        destruct (Z.to_nat (len - dn) <=? _)%nat eqn:Ek.
        -- apply Nat.leb_le in Ek. rewrite (proj2 (Nat.leb_le _ _)) by lia.
           rewrite <-app_assoc, take_take_drop.
           by replace (Z.to_nat (rp_rc rp) + Z.to_nat (len - (dn + rp_rc rp)))%nat
             with (Z.to_nat (len - dn)) by lia.
        -- apply Nat.leb_gt in Ek. rewrite (proj2 (Nat.leb_gt _ _)) by lia. done.
  - wp_step. specialize (HQ s (env_only_refl s) eq_refl). simpl in HQ.
    replace (Z.to_nat (len - dn)) with 0%nat in HQ by lia. specialize (HQ eq_refl).
    simpl in HQ. by rewrite app_nil_r in HQ.
Qed.

Lemma wp_read_full fd len s (Q : Z * bytes -> rr_state W -> Prop) :
  default 0 (rd statics s !! "replay:read") <> NULL -> 0 <= len < 2 ^ 64 ->
  (forall s', env_only s s' -> rd mem s' = rd mem s ->
     let k := Z.to_nat len in
     source fd (rd world s') = drop k (source fd (rd world s)) ->
     if (k <=? length (source fd (rd world s)))%nat
     then Q (0, take k (source fd (rd world s))) s'
     else forall b, Q (-1, b) s') ->
  wp (rr_read_full fd len) Q no_halt s.
Proof.
  intros Hst Hlen HQ. unfold rr_read_full. wp_step. wp_step.
  apply wp_read_loop; try done; try lia. rewrite Z.sub_0_r. apply HQ.
Qed.

(** Reading asks for log data only. *)
Definition read_req (r : os_req) : Prop := match r with Rlog_read _ _ => True | _ => False end.
Lemma asks_read_loop fuel fd len dn buf : asks read_req (read_loop fuel fd len dn buf).
Proof. revert dn buf. induction fuel; intros dn buf; simpl; unfold call_real; asks_tac; auto. Qed.
Lemma asks_read_full fd len : asks read_req (rr_read_full fd len).
Proof. unfold rr_read_full. asks_tac. apply asks_read_loop. Qed.

(** [s'] differs from [s] in the expected sequence number [n] and in what the
    environment owns, application memory excepted; [r] is left to read. *)
Definition consumed s (n : Z) (r : bytes) s' : Prop :=
  env_only (wr g_expected_seq n s) s' /\ rd mem s' = rd mem s /\ rest s' = r.

Lemma consumed_errno s n r s' e : consumed s n r s' -> consumed s n r (wr errno e s').
Proof. intros (He & Hm & Hr). split; [by apply env_only_errno|done]. Qed.

Lemma consumed_expected s n r s' : consumed s n r s' -> rd g_expected_seq s' = n.
Proof. intros (He & _). by env_simpl. Qed.

(** Debug output leaves the log alone. *)
Lemma wp_debugf_consumed text s n r s0 (Q : () -> rr_state W -> Prop) E :
  consumed s0 n r s -> (forall s', consumed s0 n r s' -> Q tt s') -> wp (rr_debugf text) Q E s.
Proof.
  intros (He & Hm & Hr) HQ. apply wp_rr_debugf. intros s' He' Hs. apply HQ.
  split; [by eapply env_only_trans|]. destruct Hs as [->|(bs & w & rp & _ & Hc & Hw & Hm')]; [done|].
  destruct (source_stderr (rd g_replay_fd s') _ _ _ _ _ Hc) as [Hn Hsk].
  rewrite Hn in Hm'. simpl in Hm'. split; [congruence|]. rewrite <-Hr. unfold rest.
  rewrite Hw, Hsk. by env_simpl.
Qed.

(** The ways [errno = e; return -1] is reached after some debug output. *)
Lemma wp_debugf_fail {A} text e s n r s0 (Q : option A -> rr_state W -> Prop) E :
  consumed s0 n r s -> (forall s', consumed s0 n r s' -> rd errno s' = e -> Q None s') ->
  wp (rr_debugf text;; fail e) Q E s.
Proof.
  intros Hc HQ. wp_step. eapply wp_debugf_consumed; [done|]. intros s' Hc'.
  unfold fail. wp_step. wp_step. wp_step. apply HQ; [by apply consumed_errno|done].
Qed.

(** The three outcomes on an open log. *)
Lemma wp_next_event s (Q : option rr_event_t -> rr_state W -> Prop) :
  rep_ok s ->
  let e := decode_event (take sizeof_event (rest s)) in
  let r := drop sizeof_event (rest s) in
  ((sizeof_event <= length (rest s))%nat -> seq e = rd g_expected_seq s ->
     forall s', consumed s (u64 (rd g_expected_seq s + 1)) r s' -> Q (Some e) s') ->
  ((sizeof_event <= length (rest s))%nat -> seq e <> rd g_expected_seq s ->
     forall s', consumed s (rd g_expected_seq s) r s' -> rd errno s' = EPROTO -> Q None s') ->
  ((length (rest s) < sizeof_event)%nat ->
     forall s', consumed s (rd g_expected_seq s) r s' -> rd errno s' = ENODATA -> Q None s') ->
  wp (rr_replay_next_event true) Q no_halt s.
Proof.
  intros (Hok & Hfd & Hst) e r Hyes Hseq Hshort. unfold rr_replay_next_event.
  wp_step. wp_step. wp_step. wp_step. rewrite Hok, (proj2 (Z.ltb_ge _ _) Hfd). simpl.
  wp_step. apply wp_read_full; [done|done|]. intros s1 He Hm k Hs.
  assert (consumed s (rd g_expected_seq s) r s1) as Hc.
  { split; [|split; [done|]].
    - by replace (wr g_expected_seq _ s) with s by (by destruct s as [???[]??????]).
    - unfold r, rest. etransitivity; [|exact Hs]. by env_simpl. }
  assert (rd g_expected_seq s1 = rd g_expected_seq s) as Hx by (by env_simpl).
  destruct (k <=? _)%nat eqn:Ek.
  - apply Nat.leb_le in Ek. simpl. wp_step. wp_step. fold (rest s). unfold k. simpl.
    rewrite Hx. destruct (negb _) eqn:En; bool_prop.
    + eapply wp_debugf_fail; [done|]. intros. by apply Hseq.
    + wp_step. wp_step. wp_step. apply Hyes; [done..|]. destruct Hc as (He' & Hm' & Hr').
      split; [|done]. destruct He as (e' & m' & t' & w' & ->). exists e', m', t', w'.
      by destruct s as [???[]????[]?].
  - apply Nat.leb_gt in Ek. intros b. simpl. unfold fail. wp_step. wp_step. wp_step.
    apply Hshort; [done|by apply consumed_errno|done].
Qed.

(** A log that is closed or whose header was refused is never read. *)
Lemma next_event_closed s :
  rd g_replay_header_ok s = false \/ rd g_replay_fd s < 0 ->
  rr_replay_next_event true s = Ok None (wr errno EINVAL s).
Proof.
  intros H. unfold rr_replay_next_event, mbind, M_bind, get; simpl.
  replace (_ || _ || _) with true; [done|]. destruct H as [->|H]; [done|].
  rewrite (proj2 (Z.ltb_lt _ _) H). by destruct (rd g_replay_header_ok s).
Qed.

Lemma wp_expect_sched s from to (Q : Z -> rr_state W -> Prop) :
  rep_ok s ->
  let e := decode_event (take sizeof_event (rest s)) in
  let r := drop sizeof_event (rest s) in
  let n := rd g_expected_seq s in
  let good := (sizeof_event <= length (rest s))%nat /\ seq e = n /\ type e = EV_SCHED /\
              sd_from_id (payload e) = from /\ sd_to_id (payload e) = to in
  (good -> forall s', consumed s (u64 (n + 1)) r s' -> Q 0 s') ->
  (~ good -> forall s' n', consumed s n' r s' -> rd errno s' ∈ [EPROTO; ENODATA] ->
     Q (-1) s') ->
  wp (rr_replay_expect_sched from to) Q no_halt s.
Proof.
  intros Hok e r n good Hyes Hno. unfold rr_replay_expect_sched. wp_step.
  apply wp_next_event; [done|..].
  - intros Hl Hs s1 Hc. fold e. cbn beta.
    assert (Hbad : forall text, ~ good ->
      wp (rr_debugf text;; put errno EPROTO;; mret (-1)) Q no_halt s1).
    { intros text Hb. wp_step. eapply wp_debugf_consumed; [done|]. intros s2 Hc2.
      wp_step. wp_step. wp_step. eapply Hno; [done|by apply consumed_errno|set_solver]. }
    destruct (negb (type e =? EV_SCHED)) eqn:Et; bool_prop.
    { apply Hbad. intros (_ & _ & ? & _). congruence. }
    destruct (negb _ || negb _) eqn:Eid.
    { apply Hbad. intros (_ & _ & _ & <- & <-). by rewrite !Z.eqb_refl in Eid. }
    wp_step. bool_prop. by apply Hyes.
  - intros Hl Hs s1 Hc Herr. wp_step. eapply Hno; [intros (_ & Hse & _); by apply Hs|done|set_solver].
  - intros Hl s1 Hc Herr. wp_step. eapply Hno; [intros (? & _); lia|done|set_solver].
Qed.

Lemma wp_next_syscall s nr utid (Q : option rr_replay_syscall_event_t -> rr_state W -> Prop) :
  rep_ok s ->
  let e := decode_event (take sizeof_event (rest s)) in
  let r := drop sizeof_event (rest s) in
  let n := rd g_expected_seq s in
  let good := (sizeof_event <= length (rest s))%nat /\ seq e = n /\ type e = EV_SYSCALL /\
              sc_nr (payload e) = nr /\ uthread_id e = utid in
  (good -> forall s', consumed s (u64 (n + 1)) r s' -> Q (Some (replay_event_of e)) s') ->
  (~ good -> forall s' n', consumed s n' r s' -> rd errno s' ∈ [EPROTO; ENODATA] ->
     Q None s') ->
  wp (rr_replay_next_syscall nr utid true) Q no_halt s.
Proof.
  intros Hok e r n good Hyes Hno. pose proof Hok as (Hh & Hfd & Hst).
  unfold rr_replay_next_syscall. wp_step. wp_step. wp_step. wp_step.
  rewrite Hh, (proj2 (Z.ltb_ge _ _) Hfd). simpl. wp_step. apply wp_next_event; [done|..].
  - intros Hl Hs s1 Hc. fold e. cbn beta.
    assert (Hbad : forall text, ~ good -> wp (rr_debugf text;; fail EPROTO) Q no_halt s1).
    { intros text Hb. eapply wp_debugf_fail; [done|]. intros. eapply Hno; eauto. set_solver. }
    destruct (negb (type e =? EV_SYSCALL)) eqn:Et; bool_prop.
    { apply Hbad. intros (_ & _ & ? & _). congruence. }
    destruct (negb (sc_nr _ =? nr)) eqn:En; bool_prop.
    { apply Hbad. intros (_ & _ & _ & ? & _). congruence. }
    destruct (negb (uthread_id e =? utid)) eqn:Eu; bool_prop.
    { apply Hbad. intros (_ & _ & _ & _ & ?). congruence. }
    wp_step. by apply Hyes.
  - intros Hl Hs s1 Hc Herr. wp_step. eapply Hno; [intros (_ & Hse & _); by apply Hs|done|set_solver].
  - intros Hl s1 Hc Herr. wp_step. eapply Hno; [intros (? & _); lia|done|set_solver].
Qed.

(** When an event is in front of the log, it is the one decoded. *)
Lemma front_event s e r :
  event_wf e -> rest s = encode_event e ++ r ->
  decode_event (take sizeof_event (rest s)) = e /\ drop sizeof_event (rest s) = r /\
  (sizeof_event <= length (rest s))%nat.
Proof.
  intros Hwf ->. pose proof Hwf as (_ & _ & _ & _ & Hp).
  pose proof (length_encode_event e Hp) as Hl. split; [|split].
  - rewrite take_app_le, take_ge by lia. by apply decode_encode_event.
  - by rewrite drop_app_length' by done.
  - rewrite length_app. lia.
Qed.
End ReplayProofs.

(** ** What the replayed program sees of a recorded system call *)

Ltac payload_field :=
  cbn [payload syscall_event sched_event signal_event];
  unfold sc_nr, sc_retval, sc_arg0, sc_data, sc_data_len, sd_from_id, sd_to_id,
    sg_signo, sg_active_uthread, set_sc_nr, set_sc_retval, set_sc_arg0, set_sc_data,
    set_sc_data_len, set_sd_from, set_sd_to, set_sg_signo, set_sg_active;
  repeat first
    [ rewrite field_patch_same by plen
    | rewrite field_patch_before by plen
    | rewrite field_patch_after by plen ].

(** The data as it is delivered: padded with zeros to the size of the buffer. *)
Definition pad64 (d : bytes) : bytes := d ++ replicate (64 - length d) Byte.x00.

Lemma patch_zeros d :
  (length d <= 64)%nat -> patch (replicate 64 Byte.x00) 0 d = pad64 d.
Proof.
  intros H. unfold patch, pad64. rewrite take_0, Nat.add_0_l, app_nil_l.
  by rewrite drop_replicate.
Qed.

Definition data_ok (d : option bytes) : Prop :=
  match d with Some d => (0 < length d <= 64)%nat | None => True end.

Lemma syscall_event_wf sq utid nr rv arg0 d :
  in_u64 sq -> in_u64 utid -> data_ok d -> event_wf (syscall_event sq utid nr rv arg0 d).
Proof.
  intros H1 H2 Hd. do 2 (split; [done|]). split; [by split|]. split; [by split|].
  apply length_syscall_payload. by destruct d; [apply Hd|].
Qed.
Lemma sched_event_wf sq from to : in_u64 sq -> in_u64 to -> event_wf (sched_event sq from to).
Proof. intros H1 H2. do 2 (split; [done|]). split; [by split|]. by split; [split|]. Qed.
Lemma signal_event_wf sq utid signo act :
  in_u64 sq -> in_u64 utid -> event_wf (signal_event sq utid signo act).
Proof. intros H1 H2. do 2 (split; [done|]). split; [by split|]. by split; [split|]. Qed.

Lemma sched_event_ids sq from to :
  in_u64 from -> in_u64 to ->
  sd_from_id (payload (sched_event sq from to)) = from /\
  sd_to_id (payload (sched_event sq from to)) = to.
Proof. intros Hf Ht. payload_field. split; by apply u64_id. Qed.

Lemma syscall_event_fields sq utid nr rv arg0 d :
  in_s32 nr -> in_s32 rv -> in_u64 arg0 -> data_ok d ->
  let p := payload (syscall_event sq utid nr rv arg0 d) in
  sc_nr p = nr /\ sc_retval p = rv /\ sc_arg0 p = arg0.
Proof.
  intros Hn Hr Ha Hd. simpl. destruct d as [d|]; simpl in Hd; payload_field;
    (split; [|split]; [| |by apply u64_id]);
    change (2 ^ (Z.of_nat 4 * 8)) with (2 ^ 32); fold (u32 nr) (u32 rv);
    rewrite s32_u32; by apply s32_id.
Qed.

Lemma syscall_event_data sq utid nr rv arg0 d :
  data_ok d ->
  let p := payload (syscall_event sq utid nr rv arg0 d) in
  let dd := default [] d in
  sc_data_len p = Z.of_nat (length dd) /\ take (length dd) (sc_data p) = dd.
Proof.
  intros Hd. simpl. destruct d as [d|]; simpl in Hd |- *; payload_field.
  - split; [apply Z.mod_small; lia|].
    rewrite take_slice by lia.
    rewrite slice_patch_before by plen. apply slice_patch_same. plen.
  - by split.
Qed.

(** ** An event in front of the log is accepted and delivered *)

Section Delivered.
Context {W : Type} `{!OS W} `{!LogSource W}.
Implicit Types s : rr_state W.

Lemma wp_call_delivered s utid nr rv arg0 d tl
    (Q : option rr_replay_syscall_event_t -> rr_state W -> Prop) :
  rep_ok s -> in_u64 utid -> in_s32 nr -> in_s32 rv -> in_u64 arg0 -> data_ok d ->
  in_u64 (rd g_expected_seq s) ->
  rest s = encode_event (syscall_event (rd g_expected_seq s) utid nr rv arg0 d) ++ tl ->
  (forall ev s', consumed s (u64 (rd g_expected_seq s + 1)) tl s' ->
     rs_retval ev = rv -> rs_arg0 ev = arg0 -> rs_data_len ev = Z.of_nat (length (default [] d)) ->
     take (length (default [] d)) (rs_data ev) = default [] d -> Q (Some ev) s') ->
  wp (rr_replay_next_syscall nr utid true) Q no_halt s.
Proof.
  intros Hok Hu Hn Hrv Ha Hd Hx Hr HQ. set (e := syscall_event _ _ _ _ _ _) in Hr.
  assert (event_wf e) as Hwf by (by apply syscall_event_wf).
  destruct (front_event s e tl Hwf Hr) as (He & Hdr & Hlen).
  destruct (syscall_event_fields (rd g_expected_seq s) utid nr rv arg0 d) as (Hf1 & Hf2 & Hf3); try done.
  destruct (syscall_event_data (rd g_expected_seq s) utid nr rv arg0 d Hd) as [Hd1 Hd2].
  apply wp_next_syscall; [done|..]; rewrite He, Hdr; [|intros Hg; by destruct Hg].
  intros _ s' Hc. apply HQ; [done|..]; unfold replay_event_of; fold e in Hf2, Hf3, Hd1, Hd2;
    cbn [rs_retval rs_arg0 rs_data_len rs_data]; [done|done|..];
    rewrite Hd1; assert (length (default [] d) <= 64)%nat as Hle by (destruct d; simpl in *; lia);
    rewrite (proj2 (Z.ltb_ge _ _)) by lia; [done|].
  rewrite Nat2Z.id, Hd2, patch_zeros by done. unfold pad64. by rewrite take_app_length.
Qed.

Lemma wp_switch_delivered s from to tl (Q : Z -> rr_state W -> Prop) :
  rep_ok s -> in_u64 from -> in_u64 to -> in_u64 (rd g_expected_seq s) ->
  rest s = encode_event (sched_event (rd g_expected_seq s) from to) ++ tl ->
  (forall s', consumed s (u64 (rd g_expected_seq s + 1)) tl s' -> Q 0 s') ->
  wp (rr_replay_expect_sched from to) Q no_halt s.
Proof.
  intros Hok Hf Ht Hx Hr HQ.
  destruct (front_event s _ tl (sched_event_wf _ from to Hx Ht) Hr) as (He & Hdr & Hlen).
  apply wp_expect_sched; [done|..]; rewrite He, Hdr; [by auto|]. intros Hg. exfalso. apply Hg.
  split; [done|]. split; [done|]. split; [done|]. by apply sched_event_ids.
Qed.
End Delivered.
