(* ===== verification/Signal.v ===== *)
(** signal.c: the table of stack guard pages, the SIGSEGV handler, start-up of
    signal delivery through a signalfd, and the processing of one signal. *)
From stdpp Require Import gmap strings list pretty.
From coqutil Require Import Byte.
From S2P Require Import Prelude Types State Events Logic Log Scheduler Record.

Section Signal.
Context {W : Type} `{!OS W}.
Implicit Types s : rr_state W.

Definition rr_register_guard_page (guard_start guard_size utid : Z) : M W Z :=
  ok ← grow_if_full g_guard_pages 24;
  if negb ok then mret (-1)
  else
    vec_store g_guard_pages (GuardPage guard_start guard_size utid);;
    mret 0.

(** The loop over the table; the first page that contains the address wins. *)
Fixpoint guard_scan (pages : list guard_page_t) (fault : Z) : option Z :=
  match pages with
  | [] => None
  | g :: pages =>
      let end_ := u64 (gp_start g + gp_size g) in
      if (gp_start g <=? fault) && (fault <? end_) then Some (gp_utid g)
      else guard_scan pages fault
  end.

(** The [bool] result and the id behind [uthread_id_out] in one. *)
Definition rr_is_guard_page_fault (addr : Z) : M W (option Z) :=
  v ← get g_guard_pages;
  mret (guard_scan (v_items v) addr).

(** [snprintf] into 256 bytes never truncates this message. *)
Definition segv_handler (si_addr : Z) : M W () :=
  r ← rr_is_guard_page_fault si_addr;
  match r with
  | Some utid =>
      os (Rstderr_write (string_bytes
        ("[rr] stack overflow detected in uthread " +:+ pretty utid +:+ nl)));;
      abort
  | None =>
      call "signal" [SIGSEGV; 0];;
      call "raise" [SIGSEGV];;
      mret tt
  end.

Definition rr_signal_init : M W Z :=
  stksz ← call "SIGSTKSZ" [];
  put g_altstack_size (2 * stksz);;
  sp ← call "mmap" [0; 2 * stksz; Z.lor PROT_READ PROT_WRITE];
  put g_altstack_sp sp;;
  if sp =? MAP_FAILED then put g_altstack_sp NULL;; mret (-1)
  else
    rc ← call "sigaltstack" [sp; 2 * stksz];
    if negb (rc =? 0) then
      call "munmap" [sp; 2 * stksz];;
      put g_altstack_sp NULL;;
      mret (-1)
    else
      rc ← call "sigaction" [SIGSEGV];
      if negb (rc =? 0) then mret (-1)
      else
        rc ← call "sigprocmask" []; (* SIG_BLOCK of every signal *)
        if negb (rc =? 0) then mret (-1)
        else
          fd ← call "signalfd" [-1];
          put g_signalfd fd;;
          if fd <? 0 then mret (-1) else mret 0.

Definition rr_signal_fd : M W Z := get g_signalfd.

(** [info->ssi_signo] is the first word of the structure the kernel filled in. *)
Definition rr_signal_process (info : ptr) : M W () :=
  if info =? NULL then mret tt
  else
    cur ← current_id;
    m ← get mem;
    let signo := field (load m info 4) 0 4 in
    rr_log_signal signo (u32 cur);;
    if (signo =? SIGINT) || (signo =? SIGTERM) then
      rr_record_shutdown;;
      halted (HExit 0)
    else mret tt.

(** ** Guard pages *)

Lemma guard_scan_spec pages fault utid :
  guard_scan pages fault = Some utid <->
  exists i g, pages !! i = Some g /\ gp_utid g = utid /\
    gp_start g <= fault < u64 (gp_start g + gp_size g) /\
    forall j g', (j < i)%nat -> pages !! j = Some g' ->
      ~ gp_start g' <= fault < u64 (gp_start g' + gp_size g').
Proof.
  induction pages as [|g pages IH]; simpl.
  - split; [done|]. intros (i & g & Hi & _). done.
  - destruct (_ && _) eqn:Eb.
    + bool_prop. split.
      * intros [= <-]. exists 0%nat, g. split; [done|]. split; [done|]. split; [done|lia].
      * intros ([|i] & g' & Hi & Hu & _ & Hmin); simpl in Hi; [by simplify_eq|].
        exfalso. apply (Hmin 0%nat g); [lia|done|done].
    + assert (~ gp_start g <= fault < u64 (gp_start g + gp_size g)) as Hno.
      { intros [H1 H2]. apply andb_false_iff in Eb as [E|E]; bool_prop; lia. }
      rewrite IH. split.
      * intros (i & g' & Hi & Hu & Hin & Hmin). exists (S i), g'.
        split; [done|]. split; [done|]. split; [done|].
        intros [|j] g'' Hj Hg; simpl in Hg; [by simplify_eq|]. apply (Hmin j); [lia|done].
      * intros ([|i] & g' & Hi & Hu & Hin & Hmin); simpl in Hi; [by simplify_eq|].
        exists i, g'. split; [done|]. split; [done|]. split; [done|].
        intros j g'' Hj Hg. apply (Hmin (S j)); [lia|done].
Qed.
(** Some page is found whenever one contains the address. *)
Lemma guard_scan_first pages fault i g :
  pages !! i = Some g -> gp_start g <= fault < u64 (gp_start g + gp_size g) ->
  is_Some (guard_scan pages fault).
Proof.
  revert i. induction pages as [|g' pages IH]; intros i Hi Hin; [done|]. simpl.
  destruct (_ && _) eqn:E; [by eexists|]. destruct i as [|i]; simpl in Hi; [|by eapply IH].
  simplify_eq. apply andb_false_iff in E as [E|E]; bool_prop; lia.
Qed.
End Signal.
