(* ===== verification/IoUring.v ===== *)
(** io_uring.c: submitting an operation tagged with the thread's id and blocking
    until it completes, and handling one completion. *)
From stdpp Require Import gmap strings list.
From coqutil Require Import Byte.
From S2P Require Import Prelude Types State Events Logic Log Scheduler Record Signal.

Section IoUring.
Context {W : Type} `{!OS W}.
Implicit Types s : rr_state W.

Definition submit_and_block (ut : ptr) : C W Z :=
  rc ← lift (os_rc Rsubmit);
  if rc <? 0 then mret (-1)
  else
    rr_scheduler_block_current;;
    u ← lift (deref ut);
    mret (io_result u).

Definition rr_io_init (entries : Z) : M W Z :=
  rc ← call "io_uring_queue_init" [entries];
  if rc <? 0 then mret (-1)
  else put g_ring_ready true;; mret 0.

Definition rr_io_shutdown : M W () :=
  ready ← get g_ring_ready;
  when ready
    (call "io_uring_queue_exit" [];;
     put g_ring_ready false).

Definition rr_io_submit_signal_read (signalfd_fd : Z) : M W Z :=
  ready ← get g_ring_ready;
  if negb ready then put errno EINVAL;; mret (-1)
  else
    put g_signal_fd signalfd_fd;;
    sqe ← os_rc Rget_sqe;
    if sqe =? NULL then put errno EAGAIN;; mret (-1)
    else
      os (Rprep (OpRead signalfd_fd (os_addr "g_signal_info") sizeof_signalfd_siginfo 0)
            RR_SIGNAL_SENTINEL);;
      rc ← os_rc Rsubmit;
      mret (if rc <? 0 then -1 else 0).

Definition rr_io_wait : M W Z :=
  ready ← get g_ring_ready;
  if negb ready then put errno EINVAL;; mret (-1)
  else
    rp ← os Rwait_cqe;
    match rp_cqe rp with
    | None => put errno (- rp_rc rp);; mret (-1)
    | Some (user_data, res_) =>
        if rp_rc rp <? 0 then put errno (- rp_rc rp);; mret (-1)
        else
          (if user_data =? RR_SIGNAL_SENTINEL then
             when (sizeof_signalfd_siginfo <=? res_)
               (rr_signal_process (os_addr "g_signal_info"));;
             fd ← get g_signal_fd;
             when (0 <=? fd) (rr_io_submit_signal_read fd;; mret tt)
           else rr_scheduler_wake_by_id user_data res_ NULL 0);;
          os Rcqe_seen;;
          mret 0
    end.

(** The body the nine [rr_io_submit_*_and_wait] functions share: they differ in
    the [io_uring_prep_*] call only. *)
Definition submit_op (op : sqe_op) : C W Z :=
  ut ← lift rr_scheduler_current;
  sqe ← lift (os_rc Rget_sqe);
  if (ut =? NULL) || (sqe =? NULL) then lift (put errno EAGAIN;; mret (-1))
  else
    u ← lift (deref ut);
    lift (os (Rprep op (id u)));;
    submit_and_block ut.

(** [io_uring_prep_rw] stores lengths in 32 bits; reads and writes are at offset 0. *)
Definition rr_io_submit_read_and_wait (fd : Z) (buf : ptr) (count : Z) : C W Z :=
  submit_op (OpRead fd buf (u32 count) 0).
Definition rr_io_submit_write_and_wait (fd : Z) (buf : ptr) (count : Z) : C W Z :=
  submit_op (OpWrite fd buf (u32 count) 0).
Definition rr_io_submit_recv_and_wait (sockfd : Z) (buf : ptr) (len flags : Z) : C W Z :=
  submit_op (OpRecv sockfd buf (u32 len) flags).
Definition rr_io_submit_send_and_wait (sockfd : Z) (buf : ptr) (len flags : Z) : C W Z :=
  submit_op (OpSend sockfd buf (u32 len) flags).
Definition rr_io_submit_accept_and_wait (sockfd : Z) (addr addrlen : ptr) : C W Z :=
  submit_op (OpAccept sockfd addr addrlen 0).
Definition rr_io_submit_connect_and_wait (sockfd : Z) (addr : ptr) (addrlen : Z) : C W Z :=
  submit_op (OpConnect sockfd addr addrlen).
Definition rr_io_submit_openat_and_wait (dirfd : Z) (pathname : ptr) (flags mode : Z) : C W Z :=
  submit_op (OpOpenat dirfd pathname flags mode).
Definition rr_io_submit_close_and_wait (fd : Z) : C W Z :=
  submit_op (OpClose fd).
Definition rr_io_submit_timerfd_read_and_wait (fd : Z) (expirations : ptr) : C W Z :=
  submit_op (OpRead fd expirations 8 0).
End IoUring.
