(* ===== verification/Uthread.v ===== *)
(** uthread.c: creating threads with guarded stacks, joining them, the table of
    allocated threads and the public API of rr.h. *)
From stdpp Require Import gmap strings list.
From coqutil Require Import Byte.
From S2P Require Import Prelude Types State Events Logic Log Scheduler Record Signal.

Section Uthread.
Context {W : Type} `{!OS W}.
Implicit Types s : rr_state W.

Definition remember_thread (ut : ptr) : M W Z :=
  ok ← grow_if_full g_allocated 8;
  if negb ok then mret (-1)
  else vec_store g_allocated ut;; mret 0.

Definition ARCH_SET_FS : Z := 0x1002.
Definition ARCH_GET_FS : Z := 0x1003.

Definition rr_set_fs_base (base : ptr) : M W Z := call "arch_prctl" [ARCH_SET_FS; base].
(** The [int] result and [*base_out] in one: [None] is a failure. *)
Definition rr_get_fs_base : M W (option ptr) :=
  rp ← os (Rcall "arch_prctl" [ARCH_GET_FS]);
  mret (if rp_rc rp =? 0 then Some (rp_out rp) else None).

Definition rr_set_scheduler_tls_base (base : ptr) : M W () := put g_scheduler_tls base.
Definition rr_scheduler_tls_base : M W ptr := get g_scheduler_tls.

Definition rr_uthread_init_main : M W Z :=
  main_ut ← calloc_ut;
  if main_ut =? NULL then mret (-1)
  else
    update main_ut (set_id 1);;
    update main_ut (set_state UT_RUNNING);;
    rc ← call "getcontext" [];
    if negb (rc =? 0) then free_ut main_ut;; mret (-1)
    else
      fs ← rr_get_fs_base;
      match fs with
      | None => free_ut main_ut;; mret (-1)
      | Some fs_base =>
          update main_ut (set_tls_block fs_base);;
          rr_scheduler_set_current main_ut;;
          rr_set_scheduler_tls_base fs_base;;
          r1 ← rr_scheduler_register_thread main_ut;
          r2 ← (if negb (r1 =? 0) then mret (-1) else remember_thread main_ut);
          if negb (r2 =? 0) then free_ut main_ut;; mret (-1)
          else
            put g_next_id 2;;
            mret 0
      end.

Definition init_tls_copy (ut : ptr) : M W Z :=
  fs ← rr_get_fs_base;
  match fs with
  | None => mret (-1)
  | Some fs_base => update ut (set_tls_block fs_base);; mret 0
  end.

(** The fields [rr_uthread_create] fills in once the stack is mapped. *)
Definition created_thread (i mem_ pagesz sz map_size fn arg : Z) : uthread :=
  Uthread i UT_RUNNABLE None (mem_ + pagesz) sz 0 0 0 0 0 0 (replicate 64 Byte.x00) fn arg
    mem_ map_size.

(** The error exits after the stack is mapped: [munmap; free; return -1]. *)
Definition create_undo (mem_ map_size : Z) (ut : ptr) : M W (option Z) :=
  call "munmap" [mem_; map_size];;
  free_ut ut;;
  mret None.

(** The [int] result and [*id_out] in one; [id_out] is true when it is not NULL. *)
Definition rr_uthread_create (fn : ptr) (arg : Z) (id_out : bool) : M W (option Z) :=
  if (fn =? NULL) || negb id_out then put errno EINVAL;; mret None
  else
    ut ← calloc_ut;
    if ut =? NULL then mret None
    else
      pagesz ← call "sysconf(_SC_PAGESIZE)" [];
      c ← get g_rr_config;
      let sz := cfg_stack_size c in
      let map_size := u64 (pagesz + sz) in
      mem_ ← call "mmap" [0; map_size; PROT_NONE];
      if mem_ =? MAP_FAILED then free_ut ut;; mret None
      else
        rc ← call "mprotect" [mem_ + pagesz; sz; Z.lor PROT_READ PROT_WRITE];
        if negb (rc =? 0) then create_undo mem_ map_size ut
        else
          i ← get g_next_id;
          put g_next_id (u64 (i + 1));;
          update ut (fun _ => created_thread i mem_ pagesz sz map_size fn arg);;
          r ← init_tls_copy ut;
          if negb (r =? 0) then create_undo mem_ map_size ut
          else
            rc ← call "getcontext" [];
            if negb (rc =? 0) then create_undo mem_ map_size ut
            else
              update ut (set_ctx (Some (mem_ + pagesz, sz)));;
              r1 ← rr_register_guard_page mem_ pagesz i;
              r2 ← (if negb (r1 =? 0) then mret (-1) else rr_scheduler_register_thread ut);
              r3 ← (if negb (r2 =? 0) then mret (-1) else remember_thread ut);
              if negb (r3 =? 0) then create_undo mem_ map_size ut
              else
                rr_scheduler_enqueue ut;;
                mret (Some i).

(** [errno = e; return -1]. *)
Definition fail_int (e : Z) : M W Z := put errno e;; mret (-1).

(** [self != NULL && target->id == self->id]. *)
Definition same_thread (self : ptr) (t : uthread) : M W bool :=
  if self =? NULL then mret false else (u ← deref self; mret (id t =? id u)).

Definition rr_uthread_join (i : Z) (out : ptr) : C W Z :=
  target ← lift (rr_scheduler_find i);
  self ← lift rr_scheduler_current;
  if target =? NULL then lift (fail_int ESRCH)
  else
    t ← lift (deref target);
    same ← lift (same_thread self t);
    if (same : bool) then lift (fail_int EDEADLK)
    else
      let finish : C W Z := lift (
        t ← deref target;
        when (negb (out =? NULL))
          (m ← get mem; put mem (store m out (le 8 (retval t))));;
        mret 0) in
      if bool_decide (state t = UT_DONE) then finish
      else if self =? NULL then lift (fail_int EINVAL)
      else if negb (join_waiter t =? NULL) && negb (join_waiter t =? self) then
        lift (fail_int EBUSY)
      else
        lift (update target (set_join_waiter self));;
        rr_scheduler_block_current;;
        finish.

Fixpoint shutdown_loop (items : list ptr) : M W () :=
  match items with
  | [] => mret tt
  | ut :: items =>
      if ut =? NULL then shutdown_loop items
      else
        u ← deref ut;
        when (negb (stack_map u =? NULL) && (0 <? stack_map_size u))
          (call "munmap" [stack_map u; stack_map_size u];; mret tt);;
        free_ut ut;;
        shutdown_loop items
  end.

Definition rr_uthread_shutdown : M W () :=
  v ← get g_allocated;
  shutdown_loop (v_items v);;
  put g_allocated v_empty.

(** ** The public API *)

Definition uthread_create (fn : ptr) (arg : Z) : M W Z :=
  c ← get g_rr_config;
  if negb (runtime_ready c) then put errno ENOSYS;; mret 0
  else
    r ← rr_uthread_create fn arg true;
    mret (default 0 r).

Definition uthread_yield : C W () :=
  c ← lift (get g_rr_config);
  if negb (runtime_ready c) then mret tt else rr_scheduler_yield_current.

(** The call does not return: what follows it is [__builtin_unreachable()]. *)
Definition uthread_exit (v : Z) : C W () :=
  c ← lift (get g_rr_config);
  if negb (runtime_ready c) then lift (halted (HExit 0))
  else
    rr_scheduler_exit_current v;;
    lift (halted HUndef).

Definition uthread_join (i : Z) (out : ptr) : C W Z :=
  c ← lift (get g_rr_config);
  if negb (runtime_ready c) then lift (put errno ENOSYS;; mret (-1))
  else rr_uthread_join i out.
End Uthread.
