(* ===== verification/Wrappers.v ===== *)
(** syscall_wrappers.c: the interposed libc functions.  Each has a recording, a
    replaying and a pass-through mode.  The functions that block in recording
    mode are in the monad [C]; the others return at once. *)
From stdpp Require Import gmap strings list.
From coqutil Require Import Byte.
From S2P Require Import Prelude Types State Events Logic Log Scheduler Record Replay Signal IoUring.

Section Wrappers.
Context {W : Type} `{!OS W}.
Implicit Types s : rr_state W.

(** ** Return value conventions *)

Definition to_log_int (rc : Z) : M W Z :=
  if rc =? -1 then (e ← get errno; mret (- e)) else mret rc.

Definition raw_to_ssize (raw : Z) : M W Z :=
  if raw <? 0 then put errno (- raw);; mret (-1) else mret raw.
Definition raw_to_int (raw : Z) : M W Z :=
  if raw <? 0 then put errno (- raw);; mret (-1) else mret raw.

Definition replay_get_event (nr : Z) : M W (option rr_replay_syscall_event_t) :=
  utid ← current_id;
  rr_replay_next_syscall nr utid true.

(** [memcpy(buf, ev.data, n)]. *)
Definition copy_data (buf : ptr) (ev : rr_replay_syscall_event_t) (n : Z) : M W () :=
  m ← get mem;
  put mem (store m buf (take (Z.to_nat n) (rs_data ev))).

(** [min]s as the code writes them. *)
Definition clamp (n limit : Z) : Z := if limit <? n then limit else n.

(** The call of the real function, through the pointer the wrapper resolved. *)
Definition real (f : string) (args : list Z) : M W Z :=
  rp ← call_real f (Rcall f args);
  mret (rp_rc rp).

(** Replaying a call that returns a count or an int and no data. *)
Definition replay_result (nr : Z) : M W Z :=
  r ← replay_get_event nr;
  match r with
  | None => mret (-1)
  | Some ev => raw_to_int (rs_retval ev)
  end.

(** Replaying [read] and [recv]: copy what was recorded, at most [count] bytes. *)
Definition replay_input (nr : Z) (buf : ptr) (count : Z) : M W Z :=
  r ← replay_get_event nr;
  match r with
  | None => mret (-1)
  | Some ev =>
      when ((0 <? rs_retval ev) && negb (buf =? NULL))
        (copy_data buf ev (clamp (clamp (rs_retval ev) count) (rs_data_len ev)));;
      raw_to_ssize (rs_retval ev)
  end.

(** The end of a recorded blocking call: set [errno], log, return. *)
Definition finish_logged (nr raw arg0 : Z) (data : ptr) (data_len : Z) : M W Z :=
  ret ← raw_to_int raw;
  rr_log_syscall nr raw arg0 data data_len;;
  mret ret.

(** The [count == 0] path of [read] and [write]: call through and log. *)
Definition zero_count (nr : Z) (f : string) (fd buf count : Z) : M W Z :=
  ret ← real f [fd; buf; count];
  e ← get errno;
  rr_log_syscall nr (if ret =? -1 then - e else s32 ret) (u64 fd) NULL 0;;
  mret ret.

(** ** Functions that block in recording mode *)

Definition read (fd : Z) (buf : ptr) (count : Z) : C W Z :=
  lift (resolve "read" "read");;
  act ← lift rr_active;
  if negb act then
    rep ← lift rr_replay_active;
    if (rep : bool) then lift (replay_input NR_read buf count)
    else lift (real "read" [fd; buf; count])
  else if count =? 0 then lift (zero_count NR_read "read" fd buf count)
  else
    raw ← rr_io_submit_read_and_wait fd buf count;
    lift (finish_logged NR_read raw (u64 fd) buf (if 0 <? raw then raw else 0)).

Definition write (fd : Z) (buf : ptr) (count : Z) : C W Z :=
  lift (resolve "write" "write");;
  act ← lift rr_active;
  if negb act then
    rep ← lift rr_replay_active;
    if (rep : bool) then lift (replay_result NR_write)
    else lift (real "write" [fd; buf; count])
  else if count =? 0 then lift (zero_count NR_write "write" fd buf count)
  else
    raw ← rr_io_submit_write_and_wait fd buf count;
    lift (finish_logged NR_write raw (u64 fd) NULL 0).

Definition recv (sockfd : Z) (buf : ptr) (len flags : Z) : C W Z :=
  lift (resolve "recv" "recv");;
  act ← lift rr_active;
  if negb act then
    rep ← lift rr_replay_active;
    if (rep : bool) then lift (replay_input NR_recvfrom buf len)
    else lift (real "recv" [sockfd; buf; len; flags])
  else
    raw ← rr_io_submit_recv_and_wait sockfd buf len flags;
    lift (finish_logged NR_recvfrom raw (u64 sockfd) buf (if 0 <? raw then raw else 0)).

Definition send (sockfd : Z) (buf : ptr) (len flags : Z) : C W Z :=
  lift (resolve "send" "send");;
  act ← lift rr_active;
  if negb act then
    rep ← lift rr_replay_active;
    if (rep : bool) then lift (replay_result NR_sendto)
    else lift (real "send" [sockfd; buf; len; flags])
  else
    raw ← rr_io_submit_send_and_wait sockfd buf len flags;
    lift (finish_logged NR_sendto raw (u64 sockfd) NULL 0).

Definition accept (sockfd : Z) (addr addrlen : ptr) : C W Z :=
  lift (resolve "accept" "accept");;
  act ← lift rr_active;
  if negb act then
    rep ← lift rr_replay_active;
    if (rep : bool) then lift (replay_result NR_accept)
    else lift (real "accept" [sockfd; addr; addrlen])
  else
    raw ← rr_io_submit_accept_and_wait sockfd addr addrlen;
    lift (finish_logged NR_accept raw (u64 sockfd) NULL 0).

Definition connect (sockfd : Z) (addr : ptr) (addrlen : Z) : C W Z :=
  lift (resolve "connect" "connect");;
  act ← lift rr_active;
  if negb act then
    rep ← lift rr_replay_active;
    if (rep : bool) then lift (replay_result NR_connect)
    else lift (real "connect" [sockfd; addr; addrlen])
  else
    raw ← rr_io_submit_connect_and_wait sockfd addr addrlen;
    lift (finish_logged NR_connect raw (u64 sockfd) NULL 0).

(** [vmode] is the variadic argument, read only under [O_CREAT]. *)
Definition openat (dirfd : Z) (pathname : ptr) (flags vmode : Z) : C W Z :=
  lift (resolve "openat" "openat");;
  let creat := negb (Z.land flags O_CREAT =? 0) in
  let mode := if creat then u32 vmode else 0 in
  act ← lift rr_active;
  if negb act then
    rep ← lift rr_replay_active;
    if (rep : bool) then lift (replay_result NR_openat)
    else if (creat : bool) then lift (real "openat" [dirfd; pathname; flags; mode])
    else lift (real "openat" [dirfd; pathname; flags])
  else
    raw ← rr_io_submit_openat_and_wait dirfd pathname flags mode;
    lift (finish_logged NR_openat raw (u64 dirfd) NULL 0).

Definition close (fd : Z) : C W Z :=
  lift (resolve "close" "close");;
  act ← lift rr_active;
  if negb act then
    rep ← lift rr_replay_active;
    if (rep : bool) then lift (replay_result NR_close)
    else lift (real "close" [fd])
  else
    raw ← rr_io_submit_close_and_wait fd;
    lift (finish_logged NR_close raw (u64 fd) NULL 0).

(** [CLOCK_MONOTONIC] is 1, [TFD_CLOEXEC] 0x80000. *)
Definition nanosleep (req rem : ptr) : C W Z :=
  lift (resolve "nanosleep" "nanosleep");;
  act ← lift rr_active;
  if negb act then
    rep ← lift rr_replay_active;
    if (rep : bool) then lift (replay_result NR_nanosleep)
    else lift (real "nanosleep" [req; rem])
  else
    tfd ← lift (call "timerfd_create" [1; 0x80000]);
    if tfd <? 0 then lift (
      e ← get errno;
      rr_log_syscall NR_nanosleep (- e) 0 NULL 0;;
      mret (-1))
    else
      m ← lift (get mem);
      rc ← lift (os_rc (Rtimerfd_settime tfd (load m req (Z.to_nat sizeof_timespec))));
      if rc <? 0 then lift (
        err ← get errno;
        call "close" [tfd];;
        put errno err;;
        rr_log_syscall NR_nanosleep (- err) 0 NULL 0;;
        mret (-1))
      else
        raw ← rr_io_submit_timerfd_read_and_wait tfd (os_addr "expirations");
        lift (call "close" [tfd]);;
        if raw <? 0 then lift (
          put errno (- raw);;
          rr_log_syscall NR_nanosleep raw 0 NULL 0;;
          mret (-1))
        else lift (
          when (negb (rem =? NULL))
            (m ← get mem; put mem (store m rem (le 8 0 ++ le 8 0)));;
          rr_log_syscall NR_nanosleep 0 0 NULL 0;;
          mret 0).

(** ** Functions that never block *)

(** The replay of a call that fills a structure of [size] bytes at [p]; [guard]
    is the wrapper's extra condition on the copy. *)
Definition replay_struct (nr : Z) (p : ptr) (size : Z) (guard : bool) : M W Z :=
  r ← replay_get_event nr;
  match r with
  | None => mret (-1)
  | Some ev =>
      when ((0 <=? rs_retval ev) && guard) (copy_data p ev (clamp (rs_data_len ev) size));;
      raw_to_int (rs_retval ev)
  end.

(** The recording of such a call. *)
Definition record_struct (nr : Z) (f : string) (args : list Z) (arg0 p size : Z) : M W Z :=
  rc ← real f args;
  act ← rr_active;
  when act
    (lg ← to_log_int rc;
     rr_log_syscall nr lg arg0 p (if rc =? 0 then size else 0));;
  mret rc.

Definition clock_gettime (clock_id tp : Z) : M W Z :=
  resolve "clock_gettime" "clock_gettime";;
  rep ← rr_replay_active;
  if (rep : bool) then
    r ← replay_get_event NR_clock_gettime;
    match r with
    | None => mret (-1)
    | Some ev =>
        c ← get g_rr_config;
        if negb (replay_time_virtual c) then real "clock_gettime" [clock_id; tp]
        else
          when (0 <=? rs_retval ev)
            (copy_data tp ev (clamp (rs_data_len ev) sizeof_timespec));;
          raw_to_int (rs_retval ev)
    end
  else record_struct NR_clock_gettime "clock_gettime" [clock_id; tp] (u64 clock_id) tp
         sizeof_timespec.

Definition gettimeofday (tv tz : ptr) : M W Z :=
  resolve "gettimeofday" "gettimeofday";;
  rep ← rr_replay_active;
  if (rep : bool) then
    r ← replay_get_event NR_gettimeofday;
    match r with
    | None => mret (-1)
    | Some ev =>
        c ← get g_rr_config;
        if negb (replay_time_virtual c) then real "gettimeofday" [tv; tz]
        else
          when (0 <=? rs_retval ev)
            (copy_data tv ev (clamp (rs_data_len ev) sizeof_timeval));;
          raw_to_int (rs_retval ev)
    end
  else record_struct NR_gettimeofday "gettimeofday" [tv; tz] 0 tv sizeof_timeval.

Definition getpid : M W Z :=
  resolve "getpid" "getpid";;
  rep ← rr_replay_active;
  if (rep : bool) then replay_result NR_getpid
  else
    rc ← real "getpid" [];
    act ← rr_active;
    when act (rr_log_syscall NR_getpid (s32 rc) 0 NULL 0);;
    mret rc.

(** The result is unsigned: -1 is [(uid_t)-1]. *)
Definition getuid : M W Z :=
  resolve "getuid" "getuid";;
  rep ← rr_replay_active;
  if (rep : bool) then r ← replay_result NR_getuid; mret (u32 r)
  else
    rc ← real "getuid" [];
    act ← rr_active;
    when act (rr_log_syscall NR_getuid (s32 rc) 0 NULL 0);;
    mret rc.

Definition uname (buf : ptr) : M W Z :=
  resolve "uname" "uname";;
  rep ← rr_replay_active;
  if (rep : bool) then replay_struct NR_uname buf sizeof_utsname (negb (buf =? NULL))
  else record_struct NR_uname "uname" [buf] 0 buf sizeof_utsname.

Definition stat (path st : ptr) : M W Z :=
  resolve "stat" "stat";;
  rep ← rr_replay_active;
  if (rep : bool) then replay_struct NR_stat st sizeof_stat true
  else record_struct NR_stat "stat" [path; st] (u64 path) st sizeof_stat.

Definition fstat (fd : Z) (st : ptr) : M W Z :=
  resolve "fstat" "fstat";;
  rep ← rr_replay_active;
  if (rep : bool) then replay_struct NR_fstat st sizeof_stat true
  else record_struct NR_fstat "fstat" [fd; st] (u64 fd) st sizeof_stat.

Definition lstat (path st : ptr) : M W Z :=
  resolve "lstat" "lstat";;
  rep ← rr_replay_active;
  if (rep : bool) then replay_struct NR_lstat st sizeof_stat true
  else record_struct NR_lstat "lstat" [path; st] (u64 path) st sizeof_stat.

(** [strnlen(a, n)]. *)
Fixpoint strnlen (m : memory) (a : ptr) (n : nat) : Z :=
  match n with
  | O => 0
  | S n => if bool_decide (default Byte.x00 (m !! a) = Byte.x00) then 0
           else 1 + strnlen m (a + 1) n
  end.

(** The result is a pointer, 0 for NULL. *)
Definition getcwd (buf : ptr) (size : Z) : M W ptr :=
  resolve "getcwd" "getcwd";;
  rep ← rr_replay_active;
  if (rep : bool) then
    r ← replay_get_event NR_getcwd;
    match r with
    | None => mret NULL
    | Some ev =>
        if rs_retval ev <? 0 then put errno (- rs_retval ev);; mret NULL
        else if negb (buf =? NULL) && (0 <? size) then
          let to_copy := if size <=? rs_data_len ev then size - 1 else rs_data_len ev in
          copy_data buf ev to_copy;;
          m ← get mem;
          put mem (store m (buf + to_copy) [Byte.x00]);;
          mret buf
        else mret NULL
    end
  else
    rc ← real "getcwd" [buf; size];
    act ← rr_active;
    when act
      (e ← get errno;
       m ← get mem;
       let rv := if rc =? NULL then - e else 0 in
       rr_log_syscall NR_getcwd rv size rc
         (if rc =? NULL then 0 else u32 (strnlen m rc (Z.to_nat size))));;
    mret rc.
End Wrappers.
