(* ===== verification/Lifecycle.v ===== *)
(** init.c, and the start-up and shutdown functions of record.c, replay.c and
    signal.c: reading the environment variables, bringing the subsystems up in
    order with the unwinding of each failure, and taking them down. *)
From Stdlib Require Import Ascii.
From stdpp Require Import gmap strings list.
From coqutil Require Import Byte.
From S2P Require Import Prelude Types State Events Logic Log Scheduler Record Replay Signal IoUring Uthread Wrappers.

(** ** [strtoul(x, &end, 10)] *)

Definition is_space (c : ascii) : bool :=
  let n := nat_of_ascii c in (n =? 32)%nat || ((9 <=? n)%nat && (n <=? 13)%nat).
Definition digit (c : ascii) : option Z :=
  let n := Z.of_nat (nat_of_ascii c) in
  if (48 <=? n) && (n <=? 57) then Some (n - 48) else None.

Fixpoint skip_spaces (x : string) : string :=
  match x with
  | String c x' => if is_space c then skip_spaces x' else x
  | EmptyString => x
  end.
(** The value of the leading digits ([acc] so far), whether there was one, and the rest. *)
Fixpoint digits (x : string) (acc : Z) (any : bool) : Z * bool * string :=
  match x with
  | String c x' =>
      match digit c with
      | Some d => digits x' (acc * 10 + d) true
      | None => (acc, any, x)
      end
  | EmptyString => (acc, any, x)
  end.

Record strtoul_result := StrtoulResult {
  sr_value : Z;      (* the value returned *)
  sr_converted : bool;   (* [end != x] *)
  sr_rest : string;  (* what [end] points to *)
  sr_erange : bool   (* [errno] was set to [ERANGE] *)
}.

Definition ULONG_MAX : Z := 2 ^ 64 - 1.
Definition strtoul (x : string) : strtoul_result :=
  let y := skip_spaces x in
  let '(neg, z) :=
    match y with
    | String c y' =>
        if Ascii.eqb c "-"%char then (true, y') else if Ascii.eqb c "+"%char then (false, y')
        else (false, y)
    | EmptyString => (false, y)
    end in
  let '(v, any, r) := digits z 0 false in
  if negb any then StrtoulResult 0 false x false
  else if ULONG_MAX <? v then StrtoulResult ULONG_MAX true r true
  else StrtoulResult (if neg then u64 (- v) else v) true r false.

Section Lifecycle.
Context {W : Type} `{!OS W}.
Implicit Types s : rr_state W.

(** ** Environment variables *)

Fixpoint getenv_in (env : list (string * string)) (name : string) : option string :=
  match env with
  | [] => None
  | (k, v) :: env => if String.eqb k name then Some v else getenv_in env name
  end.
Definition getenv (name : string) : M W (option string) :=
  env ← get environ; mret (getenv_in env name).

(** [v != NULL && strcmp(v, x) == 0]. *)
Definition env_is (v : option string) (x : string) : bool :=
  match v with Some v => String.eqb v x | None => false end.

(** The stack size: the value of RR_STACK_SIZE if it is a positive number. *)
Definition parse_stack_size (stack : option string) : Z :=
  match stack with
  | Some x =>
      if String.eqb x "" then RR_DEFAULT_STACK_SIZE
      else
        let r := strtoul x in
        if negb (sr_erange r) && sr_converted r && String.eqb (sr_rest r) "" && (0 <? sr_value r)
        then sr_value r else RR_DEFAULT_STACK_SIZE
  | None => RR_DEFAULT_STACK_SIZE
  end.

Definition rr_parse_env : M W () :=
  mode ← getenv "RR_MODE";
  path ← getenv "RR_LOG";
  dbg ← getenv "RR_DEBUG";
  replay_time ← getenv "RR_REPLAY_TIME";
  stack ← getenv "RR_STACK_SIZE";
  c ← get g_rr_config;
  (match stack with
   | Some x => if String.eqb x "" then mret tt
               else put errno (if sr_erange (strtoul x) then ERANGE else 0)
   | None => mret tt
   end);;
  put g_rr_config (Config
    (env_is mode "record")
    (env_is mode "replay")
    (negb (env_is replay_time "real"))
    (runtime_ready c)
    (env_is dbg "1")
    (parse_stack_size stack)
    (match path with
     | Some p => if String.eqb p "" then "rr.log" else p
     | None => "rr.log"
     end)).

(** ** Start-up of the subsystems *)

Definition CLOCK_MONOTONIC : Z := 1.

Definition rr_now_mono_ns : M W Z :=
  let ts := os_addr "ts" in
  rc ← clock_gettime CLOCK_MONOTONIC ts;
  if negb (rc =? 0) then mret 0
  else
    m ← get mem;
    mret (u64 (u64 (field (load m ts 16) 0 8 * 1000000000) + field (load m ts 16) 8 8)).

(** Undo the mapping of the buffer: [munmap(g_ring, ...); g_ring = NULL]. *)
Definition unmap_ring : M W () :=
  call "munmap" [RR_LOG_RING_SIZE];;
  put g_ring None.

Definition rr_record_init (path : string) : M W Z :=
  r ← rr_resolve_real_io;
  if negb (r =? 0) then mret (-1)
  else
    p ← call "mmap" [0; RR_LOG_RING_SIZE; Z.lor PROT_READ PROT_WRITE];
    if p =? MAP_FAILED then put g_ring None;; mret (-1)
    else
      put g_ring (Some ∅);;
      rp ← call_real "record:open" (Ropen path (Z.lor (Z.lor O_WRONLY O_CREAT) O_TRUNC) 420);
      put g_log_fd (rp_rc rp);;
      if rp_rc rp <? 0 then unmap_ring;; mret (-1)
      else
        now ← rr_now_mono_ns;
        pid ← getpid;
        w ← rr_write_direct (encode_header
               (Header RR_LOG_MAGIC RR_LOG_VERSION now (u32 pid) 0));
        if negb (w =? 0) then
          call_real "record:close" (Rlog_close (rp_rc rp));;
          put g_log_fd (-1);;
          unmap_ring;;
          mret (-1)
        else mret 0.

(** [g_real_close(g_replay_fd); g_replay_fd = -1]. *)
Definition replay_close_fd : M W () :=
  fd ← get g_replay_fd;
  call_real "replay:close" (Rlog_close fd);;
  put g_replay_fd (-1).

Definition rr_replay_init (path : string) : M W Z :=
  r ← rr_replay_resolve_real_io;
  if negb (r =? 0) then mret (-1)
  else
    rp ← call_real "replay:open" (Ropen path O_RDONLY 0);
    put g_replay_fd (rp_rc rp);;
    if rp_rc rp <? 0 then mret (-1)
    else
      h ← rr_read_full (rp_rc rp) (Z.of_nat sizeof_header);
      if negb (h.1 =? 0) then replay_close_fd;; mret (-1)
      else
        let header := decode_header h.2 in
        if negb (magic header =? RR_LOG_MAGIC) || negb (version header =? RR_LOG_VERSION) then
          replay_close_fd;;
          put errno EINVAL;;
          mret (-1)
        else
          put g_expected_seq 1;;
          put g_replay_header_ok true;;
          mret 0.

(** The [close] here is the interposed one. *)
Definition rr_signal_shutdown : C W () :=
  fd ← lift (get g_signalfd);
  (if 0 <=? fd then
     close fd;;
     lift (put g_signalfd (-1))
   else mret tt);;
  lift (
    sp ← get g_altstack_sp;
    sz ← get g_altstack_size;
    when (negb (sp =? NULL))
      (call "munmap" [sp; sz];;
       put g_altstack_sp NULL);;
    put g_guard_pages v_empty).

(** ** Constructor and destructor *)

(** [rr_io_shutdown(); rr_signal_shutdown(); rr_record_shutdown();] *)
Definition record_side_shutdown : C W () :=
  lift rr_io_shutdown;;
  rr_signal_shutdown;;
  lift rr_record_shutdown.

(** The unwinding used when the scheduler or the main thread cannot start. *)
Definition unwind_modes (c : rr_config_t) : C W () :=
  (if mode_record c then record_side_shutdown else mret tt);;
  (if mode_replay c then lift rr_replay_shutdown else mret tt).

(** The recording part of [rr_init]; [false] when start-up stops. *)
Definition init_record_side (path : string) : C W bool :=
  rc ← lift (rr_record_init path);
  if negb (rc =? 0) then mret false
  else
    rc ← lift rr_signal_init;
    if negb (rc =? 0) then lift rr_record_shutdown;; mret false
    else
      rc ← lift (rr_io_init 256);
      if negb (rc =? 0) then
        rr_signal_shutdown;;
        lift rr_record_shutdown;;
        mret false
      else
        fd ← lift rr_signal_fd;
        rc ← lift (rr_io_submit_signal_read fd);
        if negb (rc =? 0) then record_side_shutdown;; mret false
        else mret true.

(** The part of [rr_init] after both modes are set up. *)
Definition init_threads (c : rr_config_t) : C W () :=
  rc ← lift rr_scheduler_init;
  if negb (rc =? 0) then unwind_modes c
  else
    rc ← lift rr_uthread_init_main;
    if negb (rc =? 0) then
      lift rr_scheduler_shutdown;;
      unwind_modes c
    else
      lift (put g_rr_seq 0);;
      lift (when (mode_record c) (rr_log_sched 0 1));;
      rc ← lift (if mode_replay c then rr_replay_expect_sched 0 1 else mret 0);
      if negb (rc =? 0) then
        lift (rr_uthread_shutdown;;
              rr_scheduler_shutdown;;
              rr_replay_shutdown)
      else
        lift (rr_mark_runtime_ready;;
              rr_debugf ("[rr] initialized (record=" +:+ (if mode_record c then "1" else "0")
                +:+ " replay=" +:+ (if mode_replay c then "1" else "0") +:+ " replay_time="
                +:+ (if replay_time_virtual c then "virtual" else "real") +:+ ")" +:+ nl)).

Definition rr_init : C W () :=
  lift rr_parse_env;;
  c ← lift (get g_rr_config);
  ok ← (if mode_record c then init_record_side (log_path c) else mret true);
  if negb ok then mret tt
  else
    rc ← lift (if mode_replay c then rr_replay_init (log_path c) else mret 0);
    if negb (rc =? 0) then mret tt
    else init_threads c.

Definition rr_shutdown : C W () :=
  c ← lift (get g_rr_config);
  if negb (runtime_ready c) then mret tt
  else
    lift (put g_runtime_ready false);;
    lift rr_uthread_shutdown;;
    lift rr_scheduler_shutdown;;
    (if mode_record c then record_side_shutdown else mret tt);;
    (if mode_replay c then lift rr_replay_shutdown else mret tt).
End Lifecycle.
