(* ===== verification/Machine.v ===== *)
(** The running process: the scheduler's loop, the threads as coroutines and the
    switches between them.  A thread runs application code ([prog]) that calls
    the interposed functions and the uthread API; its saved machine context is
    the continuation at its last [swapcontext]. *)
From stdpp Require Import gmap strings list.
From coqutil Require Import Byte.
From S2P Require Import Prelude Types State Events Logic Log Scheduler Record Replay Signal IoUring Uthread Wrappers Lifecycle.

(** ** Application code *)

(** The calls an application makes into the library. *)
Inductive api :=
| Aread (fd : Z) (buf : ptr) (count : Z)
| Awrite (fd : Z) (buf : ptr) (count : Z)
| Arecv (fd : Z) (buf : ptr) (len flags : Z)
| Asend (fd : Z) (buf : ptr) (len flags : Z)
| Aaccept (fd : Z) (addr addrlen : ptr)
| Aconnect (fd : Z) (addr : ptr) (addrlen : Z)
| Aopenat (dirfd : Z) (path : ptr) (flags mode : Z)
| Aclose (fd : Z)
| Ananosleep (req rem : ptr)
| Aclock_gettime (clk : Z) (tp : ptr)
| Agettimeofday (tv tz : ptr)
| Agetpid
| Agetuid
| Auname (buf : ptr)
| Astat (path st : ptr)
| Afstat (fd : Z) (st : ptr)
| Alstat (path st : ptr)
| Agetcwd (buf : ptr) (size : Z)
| Acreate (fn : ptr) (arg : Z)
| Ayield
| Aexit (v : Z)
| Ajoin (i : Z) (out : ptr).

(** Application code between two calls is a function of the last result and of
    memory; it may read [errno] and store to memory. *)
Inductive prog :=
| PReturn
| PStore (a : ptr) (bs : bytes) (p : prog)
| PErrno (k : Z -> prog)
| PCall (c : api) (k : Z -> memory -> prog).

Section Machine.
Context {W : Type} `{!OS W}.
(** The application's thread functions, by address and argument. *)
Context (app : ptr -> Z -> prog).
Implicit Types s : rr_state W.

Definition unit_call (m : C W ()) : C W Z := m;; mret 0.

Definition api_call (c : api) : C W Z :=
  match c with
  | Aread fd buf count => read fd buf count
  | Awrite fd buf count => write fd buf count
  | Arecv fd buf len flags => recv fd buf len flags
  | Asend fd buf len flags => send fd buf len flags
  | Aaccept fd addr addrlen => accept fd addr addrlen
  | Aconnect fd addr addrlen => connect fd addr addrlen
  | Aopenat dirfd path flags mode => openat dirfd path flags mode
  | Aclose fd => close fd
  | Ananosleep req rem => nanosleep req rem
  | Aclock_gettime clk tp => lift (clock_gettime clk tp)
  | Agettimeofday tv tz => lift (gettimeofday tv tz)
  | Agetpid => lift getpid
  | Agetuid => lift getuid
  | Auname buf => lift (uname buf)
  | Astat path st => lift (stat path st)
  | Afstat fd st => lift (fstat fd st)
  | Alstat path st => lift (lstat path st)
  | Agetcwd buf size => lift (getcwd buf size)
  | Acreate fn arg => lift (uthread_create fn arg)
  | Ayield => unit_call uthread_yield
  | Aexit v => unit_call (uthread_exit v)
  | Ajoin i out => uthread_join i out
  end.

Fixpoint run_prog (p : prog) : C W () :=
  match p with
  | PReturn => mret tt
  | PStore a bs p => fun s => run_prog p (wr mem (store (rd mem s) a bs) s)
  | PErrno k => fun s => run_prog (k (rd errno s)) s
  | PCall c k => fun s => co_bind (fun v s' => run_prog (k v (rd mem s')) s') (api_call c s)
  end.

(** The entry point [makecontext] installs for a new thread. *)
Definition uthread_entry (ut : ptr) : C W () :=
  (if ut =? NULL then mret tt
   else
     u ← lift (deref ut);
     if start_fn u =? NULL then mret tt
     else run_prog (app (start_fn u) (start_arg u)));;
  uthread_exit NULL.

(** The process: the library's constructor, [main], and [exit] with the
    library's destructor. *)
Definition process_main (p : prog) : C W () :=
  rr_init;;
  run_prog p;;
  rr_shutdown;;
  lift (halted (HExit 0)).

(** ** The scheduler's loop *)

(** The switch is checked against the log in replay and logged otherwise. *)
Definition sched_decision (from_id to_id : Z) : M W () :=
  when (negb (from_id =? to_id))
    (rep ← rr_replay_active;
     if (rep : bool) then
       rc ← rr_replay_expect_sched from_id to_id;
       if negb (rc =? 0) then
         rr_debugf ("[rr-replay] failed to validate sched event" +:+ nl);;
         abort
       else mret tt
     else rr_log_sched from_id to_id).

(** One iteration of [scheduler_loop], up to [swapcontext]: [Some p] switches to
    thread [p], [None] is a [continue].  Both branches after [rr_io_wait] continue. *)
Definition sched_iter : M W (option ptr) :=
  nxt ← runq_pop_front;
  if nxt =? NULL then rr_io_wait;; mret None
  else
    u ← deref nxt;
    if negb (bool_decide (state u = UT_RUNNABLE)) then mret None
    else
      from_id ← current_id;
      sched_decision from_id (id u);;
      put g_current nxt;;
      update nxt (set_state UT_RUNNING);;
      u ← deref nxt;
      rr_set_fs_base (tls_block u);;
      mret (Some nxt).

(** The call before the loop and the one after [swapcontext] returns. *)
Definition sched_enter : M W () :=
  tls ← rr_scheduler_tls_base;
  rr_set_fs_base tls;;
  mret tt.

(** ** The machine *)

Notation context := (rr_state W -> co W ()).

(** A thread is executing with [c] to come; the scheduler was just entered; it is
    at the head of its loop; the process has ended. *)
Inductive machine :=
| Thread (c : co W ()) (ctxs : gmap Z context)
| SchedIn (s : rr_state W) (ctxs : gmap Z context)
| SchedLoop (s : rr_state W) (ctxs : gmap Z context)
| Ended (h : halt) (s : rr_state W).

(** Resume [p]: its saved continuation, or its entry point if it never ran. *)
Definition resume (ctxs : gmap Z context) (p : ptr) : context :=
  match ctxs !! p with
  | Some k => k
  | None => uthread_entry p
  end.

Definition mstep (m : machine) : machine :=
  match m with
  | Thread (CDone _ s) _ => Ended (HExit 0) s
  | Thread (CHalted h s) _ => Ended h s
  | Thread (CSwap cur s k) ctxs => SchedIn s (<[cur := k]> ctxs)
  | SchedIn s ctxs =>
      match sched_enter s with
      | Ok _ s' => SchedLoop s' ctxs
      | Halted h s' => Ended h s'
      end
  | SchedLoop s ctxs =>
      if rd g_sched_running s then
        match sched_iter s with
        | Ok None s' => SchedLoop s' ctxs
        | Ok (Some p) s' => Thread (resume ctxs p s') ctxs
        | Halted h s' => Ended h s'
        end
      else Ended (HExit 0) s
  | Ended h s => Ended h s
  end.

Definition mrun (n : nat) (m : machine) : machine := Nat.iter n mstep m.

(** The process started with environment variables [env] on world [w]. *)
Definition mboot (env : list (string * string)) (m : memory) (w : W) (p : prog) : machine :=
  Thread (process_main p (boot_state env m w)) ∅.
End Machine.
Arguments Thread {W}. Arguments SchedIn {W}. Arguments SchedLoop {W}. Arguments Ended {W}.
