(* ===== verification/Invariant.v ===== *)
(** The invariant of the runtime and the proof obligations it reduces to: the
    run queue holds exactly the runnable threads, at most one thread runs and it
    is the current one, the tables list exactly the allocated threads, and the log buffer stays inside its mapping.  [safe] and [csafe]
    say of a function that it keeps the invariant and never touches memory that
    is not there; they compose along the code. *)
From stdpp Require Import gmap strings list.
From coqutil Require Import Byte.
From S2P Require Import Prelude Types State Events Logic Log Scheduler Record Replay.

(** ** The C library as the tables rely on it *)

(** [realloc] succeeds exactly below PTRDIFF_MAX while the world satisfies
    [lib_ok], which every call preserves: memory does not run out. *)
Class Libc (W : Type) `{!OS W} := {
  lib_ok : W -> Prop;
  lib_ok_call r m w w' rp : lib_ok w -> os_call r m w = (w', rp) -> lib_ok w';
  lib_realloc n m w w' rp :
    lib_ok w -> os_call (Rcall "realloc" [n]) m w = (w', rp) -> (rp_rc rp <> 0 <-> n < 2 ^ 63)
}.

Section Invariant.
Context {W : Type} `{!OS W} `{!Libc W}.
Implicit Types s : rr_state W.

(** ** Threads persist, and what a finished thread returned is final *)

Definition later (h h' : gmap Z uthread) : Prop :=
  forall p u, h !! p = Some u -> exists u', h' !! p = Some u' /\ id u' = id u /\
    (state u = UT_DONE -> state u' = UT_DONE /\ retval u' = retval u).

Lemma later_refl h : later h h.
Proof. intros p u Hp. by exists u. Qed.
Lemma later_trans h1 h2 h3 : later h1 h2 -> later h2 h3 -> later h1 h3.
Proof.
  intros H12 H23 p u Hp. destruct (H12 p u Hp) as (u' & Hp' & Hi & Hd).
  destruct (H23 p u' Hp') as (u'' & Hp'' & Hi' & Hd'). exists u''. split; [done|].
  split; [congruence|]. intros Hs. destruct (Hd Hs) as [Hs' Hr]. destruct (Hd' Hs') as [? ?].
  split; [done|congruence].
Qed.
Lemma later_insert h p u u' :
  h !! p = Some u -> id u' = id u ->
  (state u = UT_DONE -> state u' = UT_DONE /\ retval u' = retval u) ->
  later h (<[p := u']> h).
Proof.
  intros Hp Hi Hd q v Hq. destruct (decide (p = q)) as [<-|Hne].
  - simplify_eq. exists u'. by rewrite lookup_insert_eq.
  - exists v. by rewrite lookup_insert_ne.
Qed.
Lemma later_fresh h p u : h !! p = None -> later h (<[p := u]> h).
Proof.
  intros Hp q v Hq. exists v. split; [|done]. rewrite lookup_insert_ne; [done|]. congruence.
Qed.

(** ** The invariant *)

(** A table of [n] byte elements whose next growth cannot overflow. *)
Definition table_ok {A} (n : Z) (v : vec A) : Prop :=
  v_ok v /\ 0 <= v_cap v /\ v_cap v * n < 2 ^ 63.

(** The threads [h] allocated below [brk_], the current one, the two tables that
    list them and the guard pages.  [run] is the thread that is executing, [None]
    while the scheduler is. *)
Record tinv (h : gmap Z uthread) (brk_ : Z) (cur : ptr) (thr alloc : vec ptr)
    (gp : vec guard_page_t) (run : option ptr) : Prop := {
  t_heap : forall p, is_Some (h !! p) -> 0 < p < brk_;
  t_brk : 0 < brk_;
  t_running : forall p u, h !! p = Some u -> (state u = UT_RUNNING <-> run = Some p);
  t_run : forall p, run = Some p -> cur = p /\ is_Some (h !! p);
  t_cur : cur = NULL \/ is_Some (h !! cur);
  t_lockstep : v_items thr = v_items alloc /\ v_cap thr = v_cap alloc;
  t_items : forall p, p ∈ v_items thr <-> is_Some (h !! p);
  t_nodup : NoDup (v_items thr);
  t_tables : table_ok 8 thr /\ table_ok 24 gp;
  t_join : forall p u, h !! p = Some u ->
    join_waiter u = NULL \/ is_Some (h !! join_waiter u)
}.

(** The run queue is a list of exactly the runnable threads. *)
Definition qinv (h : gmap Z uthread) (hd tl : ptr) : Prop :=
  exists l, runq_rep h hd tl l /\
    forall p, p ∈ l <-> exists u, h !! p = Some u /\ state u = UT_RUNNABLE.

Record winv s (run : option ptr) : Prop := {
  w_t : tinv (rd heap s) (rd brk s) (rd g_current s) (rd g_threads s) (rd g_allocated s)
          (rd g_guard_pages s) run;
  w_q : qinv (rd heap s) (rd g_runq_head s) (rd g_runq_tail s)
}.

(** The buffer is mapped only while the log is open, and is not overfull. *)
Definition rec_inv s : Prop :=
  is_Some (rd g_ring s) -> 0 <= rd g_log_fd s /\ 0 <= rd g_ring_used s <= RR_LOG_RING_SIZE.

Record ginv s (run : option ptr) : Prop := {
  g_winv : winv s run;
  g_rec : rec_inv s;
  g_ready : rd g_runtime_ready s = true;
  g_sched : rd g_sched_running s = true;
  g_lib : lib_ok (rd world s)
}.

(** What the invariant of the threads depends on. *)
Definition core_eq s s' : Prop :=
  rd heap s' = rd heap s /\ rd brk s' = rd brk s /\ st_sched s' = st_sched s /\
  st_uthread s' = st_uthread s /\ rd g_guard_pages s' = rd g_guard_pages s /\
  st_config s' = st_config s.

Lemma core_eq_refl s : core_eq s s.
Proof. done. Qed.
Lemma core_eq_trans s1 s2 s3 : core_eq s1 s2 -> core_eq s2 s3 -> core_eq s1 s3.
Proof.
  intros (?&?&?&?&?&?) (?&?&?&?&?&?). repeat split; congruence.
Qed.
Lemma core_eq_env s s' : env_only s s' -> core_eq s s'.
Proof. intros He. by env_simpl. Qed.

Lemma winv_core s s' run : core_eq s s' -> winv s run -> winv s' run.
Proof.
  intros (Hh & Hb & Hs & Hu & Hg & Hc) [].
  assert (rd g_current s' = rd g_current s) as Hcu by (unfold rd; simpl; by rewrite Hs).
  assert (rd g_threads s' = rd g_threads s) as Hth by (unfold rd; simpl; by rewrite Hs).
  assert (rd g_allocated s' = rd g_allocated s) as Hal by (unfold rd; simpl; by rewrite Hu).
  assert (rd g_runq_head s' = rd g_runq_head s) as Hhd by (unfold rd; simpl; by rewrite Hs).
  assert (rd g_runq_tail s' = rd g_runq_tail s) as Htl by (unfold rd; simpl; by rewrite Hs).
  constructor; by rewrite ?Hh, ?Hb, ?Hg, ?Hcu, ?Hth, ?Hal, ?Hhd, ?Htl.
Qed.

(** Rewriting threads in place: ids, the running thread and valid joiners. *)
Lemma tinv_heap h brk_ cur thr alloc gp run h' run' :
  tinv h brk_ cur thr alloc gp run ->
  (forall p u', h' !! p = Some u' -> exists u, h !! p = Some u /\ id u' = id u /\
     (state u' = UT_RUNNING <-> run' = Some p) /\
     (join_waiter u' = join_waiter u \/ is_Some (h !! join_waiter u'))) ->
  (forall p, is_Some (h !! p) -> is_Some (h' !! p)) ->
  (forall p, run' = Some p -> run = Some p) ->
  tinv h' brk_ cur thr alloc gp run'.
Proof.
  intros [] Hb Hf Hr.
  assert (Hdom : forall p, is_Some (h' !! p) <-> is_Some (h !! p)).
  { intros p. split; [|by apply Hf]. intros [u' Hu']. destruct (Hb p u' Hu') as (u & Hu & _). eauto. }
  constructor; try done.
  - intros p. rewrite Hdom. auto.
  - intros p u' Hu'. destruct (Hb p u' Hu') as (u & _ & _ & H & _). done.
  - intros p Hp. destruct (t_run0 p (Hr p Hp)) as [? ?]. rewrite Hdom. done.
  - by rewrite Hdom.
  - intros p. by rewrite Hdom.
  - intros p u' Hu'. destruct (Hb p u' Hu') as (u & Hu & _ & _ & [->|Hj]); rewrite Hdom; eauto.
Qed.

(** [only_next] relinks the queue and nothing else. *)
Lemma only_next_dom h h' p : only_next h h' -> is_Some (h' !! p) <-> is_Some (h !! p).
Proof.
  intros [H1 H2]. split; intros [u Hu].
  - destruct (h !! p) eqn:E; [eauto|]. rewrite H2 in Hu by done. done.
  - destruct (H1 p u Hu). eauto.
Qed.
Lemma only_next_back h h' p u' :
  only_next h h' -> h' !! p = Some u' ->
  exists u n, h !! p = Some u /\ u' = set_next n u.
Proof.
  intros Ho Hu'. destruct (proj1 (only_next_dom h h' p Ho) ltac:(eauto)) as [u Hu].
  destruct Ho as [H1 _]. destruct (H1 p u Hu) as [n Hn]. exists u, n. split; [done|].
  congruence.
Qed.
Lemma only_next_later h h' : only_next h h' -> later h h'.
Proof. intros [H1 _] p u Hu. destruct (H1 p u Hu) as [n Hn]. eexists. by split. Qed.
Lemma tinv_only_next h brk_ cur thr alloc gp run h' :
  tinv h brk_ cur thr alloc gp run -> only_next h h' -> tinv h' brk_ cur thr alloc gp run.
Proof.
  intros Ht Ho. eapply tinv_heap; [done|..|done].
  - intros p u' Hu'. destruct (only_next_back _ _ _ _ Ho Hu') as (u & n & Hu & ->). exists u.
    split; [done|]. split; [done|]. split; [apply (t_running _ _ _ _ _ _ _ Ht _ _ Hu)|by left].
  - intros p. by rewrite (only_next_dom h h').
Qed.

(** A thread that becomes runnable is put in the queue. [run'] is who runs then. *)
Lemma wp_make_runnable s run run' p u u' E (Q : () -> rr_state W -> Prop) :
  winv s run -> rd heap s !! p = Some u -> state u <> UT_RUNNABLE ->
  state u' = UT_RUNNABLE -> id u' = id u ->
  (join_waiter u' = join_waiter u \/ is_Some (rd heap s !! join_waiter u')) ->
  state u <> UT_DONE ->
  (forall q, run' = Some q <-> run = Some q /\ q <> p) ->
  (forall s', winv s' run' -> later (rd heap s) (rd heap s') ->
     s' = wr g_runq_tail p (wr g_runq_head (rd g_runq_head s') (wr heap (rd heap s') s)) ->
     Q tt s') ->
  wp (rr_scheduler_enqueue p) Q E (wr heap (<[p := u']> (rd heap s)) s).
Proof.
  intros [Ht (l & Hl & Hin)] Hp Hns Hs' Hid Hj Hnd Hrun HQ.
  assert (p ∉ l) as Hpl. { rewrite Hin. intros (v & Hv & Hsv). congruence. }
  assert (0 < p) by (apply (t_heap _ _ _ _ _ _ _ Ht); eauto).
  destruct Hl as (Hlk & Htl & Hno).
  apply (wp_enqueue _ _ _ l u'); [split; [by apply links_other|done]|done|lia|apply lookup_insert_eq|].
  intros s2 Hq2 Ho Heq. glob_simpl_in Ho. apply HQ.
  - constructor.
    + assert (tinv (rd heap s2) (rd brk s) (rd g_current s) (rd g_threads s) (rd g_allocated s)
        (rd g_guard_pages s) run') as Ht2.
      { eapply tinv_only_next; [|done]. eapply tinv_heap; [done|..].
        - intros q v Hv. destruct (decide (p = q)) as [<-|Hne].
          + rewrite lookup_insert_eq in Hv. simplify_eq. exists u. rewrite Hrun, Hs'.
            repeat split; try done. by intros [_ ?].
          + rewrite lookup_insert_ne in Hv by done. exists v. rewrite Hrun.
            rewrite (t_running _ _ _ _ _ _ _ Ht _ _ Hv). do 2 (split; [done|]).
            split; [naive_solver|by left].
        - intros q Hq. destruct (decide (p = q)) as [<-|Hne];
            [by rewrite lookup_insert_eq|by rewrite lookup_insert_ne].
        - intros q Hq. by apply Hrun. }
      rewrite Heq. glob_simpl. done.
    + exists (l ++ [p]). split; [done|]. intros q. rewrite elem_of_app, list_elem_of_singleton, Hin.
      destruct Ho as [Ho1 Ho2]. split.
      * intros [(v & Hv & Hsv)| ->].
        -- assert (p <> q) by congruence.
           destruct (Ho1 q v) as [n Hn]; [by rewrite lookup_insert_ne|]. by eexists.
        -- destruct (Ho1 p u') as [n Hn]; [apply lookup_insert_eq|]. by eexists.
      * intros (v & Hv & Hsv). destruct (decide (p = q)) as [<-|Hne]; [by right|left].
        destruct (only_next_back _ _ _ _ (conj Ho1 Ho2) Hv) as (v' & n & Hv' & ->).
        rewrite lookup_insert_ne in Hv' by done. eauto.
  - eapply later_trans; [|by apply only_next_later]. eapply later_insert; eauto. done.
  - rewrite Heq at 1. by destruct s.
Qed.

(** ** Safe functions *)

(** The process may end, but not by touching memory that is not there. *)
Definition sane (h : halt) (_ : rr_state W) : Prop := h <> HUndef.

(** What a function that leaves the threads alone needs and keeps. *)
Record base s : Prop := {
  b_rec : rec_inv s;
  b_lib : lib_ok (rd world s);
  b_cur : cur_valid s
}.

(** [m] leaves the threads, their tables and the configuration alone, keeps the
    log buffer in its bounds, and touches no memory that is not there. *)
Definition safe {A} (m : M W A) : Prop := forall s,
  base s -> wp m (fun _ s' => core_eq s s' /\ base s') sane s.

Lemma cur_valid_core s s' : core_eq s s' -> cur_valid s -> cur_valid s'.
Proof.
  intros (Hh & _ & Hs & _). unfold cur_valid. rewrite Hh.
  replace (rd g_current s') with (rd g_current s); [done|]. unfold rd. simpl. by rewrite Hs.
Qed.
Lemma ginv_base s run : ginv s run -> base s.
Proof. intros [[Ht _] Hr _ _ Hl]. constructor; try done. apply (t_cur _ _ _ _ _ _ _ Ht). Qed.
Lemma ginv_core s s' run : core_eq s s' -> ginv s run -> base s' -> ginv s' run.
Proof.
  intros Hc [Hw Hr Hy Hk Hl] []. constructor; try done; [by eapply winv_core|..];
    destruct Hc as (_ & _ & Hs & _ & _ & Hcf); unfold rd in *; simpl in *; congruence.
Qed.

Lemma safe_bind {A B} (m : M W A) (f : A -> M W B) :
  safe m -> (forall a, safe (f a)) -> safe (m ≫= f).
Proof.
  intros Hm Hf s Hb. wp_step. eapply wp_post; [by apply Hm|]. intros a s1 [Hc1 Hb1].
  eapply wp_post; [by apply Hf|]. intros b s2 [Hc2 Hb2]. split; [|done].
  exact (core_eq_trans _ _ _ Hc1 Hc2).
Qed.
Lemma safe_ret {A} (a : A) : safe (mret a).
Proof. intros s Hb. by wp_step. Qed.
Lemma safe_get {T} (g : glob W T) : safe (get g).
Proof. intros s Hb. by wp_step. Qed.
Lemma safe_if {A} (b : bool) (m1 m2 : M W A) : safe m1 -> safe m2 -> safe (if b then m1 else m2).
Proof. by destruct b. Qed.
Lemma safe_when b (m : M W ()) : safe m -> safe (when b m).
Proof. intros H. destruct b; [done|apply safe_ret]. Qed.
Lemma safe_halted {A} h : h <> HUndef -> safe (@halted W A h).
Proof. intros H s Hb. by wp_step. Qed.
Lemma safe_option {A B} (o : option A) (f : A -> M W B) (m : M W B) :
  (forall a, safe (f a)) -> safe m -> safe (match o with Some a => f a | None => m end).
Proof. destruct o; auto. Qed.

(** Storing [v] in [g] does not concern the invariant. *)
Definition core_glob {T} (g : glob W T) (v : T) : Prop := forall s,
  core_eq s (wr g v s) /\ rd world (wr g v s) = rd world s /\ (rec_inv s -> rec_inv (wr g v s)).

Lemma safe_put {T} (g : glob W T) v : core_glob g v -> safe (put g v).
Proof.
  intros Hc s []. wp_step. destruct (Hc s) as (H1 & H2 & H3). split; [done|].
  constructor; [auto|by rewrite H2|by eapply cur_valid_core].
Qed.

Lemma base_env s s' : base s -> env_only s s' -> lib_ok (rd world s') -> base s'.
Proof.
  intros [Hr Hl Hc] He Hl'. constructor; [|done|eapply cur_valid_core; [by apply core_eq_env|done]].
  unfold rec_inv in *. by env_simpl.
Qed.
Lemma wp_os_env r s (Q : os_resp -> rr_state W -> Prop) E :
  lib_ok (rd world s) ->
  (forall rp s', env_only s s' -> lib_ok (rd world s') -> Q rp s') -> wp (os r) Q E s.
Proof.
  intros Hl HQ. apply wp_os. intros w rp s' Hc He Hw _ _ _. apply HQ; [done|].
  rewrite Hw. by eapply lib_ok_call.
Qed.
Lemma safe_os r : safe (os r).
Proof.
  intros s Hb. apply wp_os_env; [apply Hb|]. intros rp s' He Hl.
  split; [by apply core_eq_env|by eapply base_env].
Qed.
Lemma safe_os_rc r : safe (os_rc r).
Proof. apply safe_bind; [apply safe_os|intros; apply safe_ret]. Qed.
Lemma safe_call f args : safe (call f args).
Proof. apply safe_os_rc. Qed.

(** ** Functions that work on the threads *)

(** [m] keeps the invariant, and finished threads stay finished. *)
Definition keeps {A} (m : M W A) : Prop := forall s run,
  ginv s run -> wp m (fun _ s' => ginv s' run /\ later (rd heap s) (rd heap s')) sane s.

Lemma safe_keeps {A} (m : M W A) : safe m -> keeps m.
Proof.
  intros Hm s run Hg. eapply wp_post; [apply Hm; by eapply ginv_base|]. intros a s' [Hc Hb].
  split; [by eapply ginv_core|]. destruct Hc as (-> & _). apply later_refl.
Qed.
Lemma keeps_bind {A B} (m : M W A) (f : A -> M W B) :
  keeps m -> (forall a, keeps (f a)) -> keeps (m ≫= f).
Proof.
  intros Hm Hf s run Hg. wp_step. eapply wp_post; [by apply Hm|]. intros a s1 [Hg1 Hl1].
  eapply wp_post; [by apply Hf|]. intros b s2 [Hg2 Hl2]. split; [done|].
  by eapply later_trans.
Qed.
Lemma keeps_if {A} (b : bool) (m1 m2 : M W A) :
  keeps m1 -> keeps m2 -> keeps (if b then m1 else m2).
Proof. by destruct b. Qed.

(** ** Functions whose only effect is on the environment *)

Definition quiet {A} (m : M W A) : Prop := forall s, wp m (fun _ s' => env_only s s') sane s.

Lemma quiet_bind {A B} (m : M W A) (f : A -> M W B) :
  quiet m -> (forall a, quiet (f a)) -> quiet (m ≫= f).
Proof.
  intros Hm Hf s. wp_step. eapply wp_post; [apply Hm|]. intros a s1 H1.
  eapply wp_post; [apply Hf|]. intros b s2 H2. exact (env_only_trans _ _ _ H1 H2).
Qed.
Lemma quiet_ret {A} (a : A) : quiet (mret a).
Proof. intros s. wp_step. apply env_only_refl. Qed.
Lemma quiet_get {T} (g : glob W T) : quiet (get g).
Proof. intros s. wp_step. apply env_only_refl. Qed.
Lemma quiet_os r : quiet (os r).
Proof. intros s. apply wp_os. by intros. Qed.
Lemma quiet_errno v : quiet (put errno v).
Proof. intros s. wp_step. apply env_only_errno, env_only_refl. Qed.
Lemma quiet_mem v : quiet (put mem v).
Proof. intros s. wp_step. exists (rd errno s), v, (rd trace s), (rd world s).
  by destruct s as [???????? [] ?]. Qed.
Lemma quiet_halted {A} h : h <> HUndef -> quiet (@halted W A h).
Proof. intros H s. by wp_step. Qed.
Lemma quiet_if {A} (b : bool) (m1 m2 : M W A) :
  quiet m1 -> quiet m2 -> quiet (if b then m1 else m2).
Proof. by destruct b. Qed.
Lemma quiet_when b (m : M W ()) : quiet m -> quiet (when b m).
Proof. intros H. destruct b; [done|apply quiet_ret]. Qed.
Lemma quiet_os_rc r : quiet (os_rc r).
Proof. apply quiet_bind; [apply quiet_os|intros; apply quiet_ret]. Qed.

Lemma core_errno v : core_glob errno v.
Proof. by intros s. Qed.
Lemma core_mem v : core_glob mem v.
Proof. by intros s. Qed.
Lemma core_statics v : core_glob statics v.
Proof. by intros s. Qed.
Lemma core_seq v : core_glob g_rr_seq v.
Proof. by intros s. Qed.
Lemma core_expected v : core_glob g_expected_seq v.
Proof. by intros s. Qed.
Lemma core_signal_fd v : core_glob g_signal_fd v.
Proof. by intros s. Qed.
Lemma core_used_0 : core_glob g_ring_used 0.
Proof.
  intros s. split; [done|]. split; [done|]. unfold rec_inv, RR_LOG_RING_SIZE. glob_simpl.
  intros H Hr. destruct (H Hr). lia.
Qed.
Lemma core_ring_none : core_glob g_ring None.
Proof. intros s. split; [done|]. split; [done|]. intros _ [? ?]. done. Qed.
End Invariant.

Create HintDb safe discriminated.
#[export] Hint Constants Opaque : safe.
#[export] Hint Resolve safe_ret safe_get safe_os safe_os_rc safe_call safe_put core_errno core_mem
  core_statics core_seq core_expected core_signal_fd core_used_0 core_ring_none : safe.
#[export] Hint Extern 5 (safe (halted _)) => apply safe_halted; discriminate : safe.

Create HintDb quiet discriminated.
#[export] Hint Constants Opaque : quiet.
#[export] Hint Resolve quiet_ret quiet_get quiet_os quiet_os_rc quiet_errno quiet_mem : quiet.
#[export] Hint Extern 5 (quiet (halted _)) => apply quiet_halted; discriminate : quiet.
Ltac quiet_tac :=
  repeat lazymatch goal with
  | |- quiet (_ ≫= _) => apply quiet_bind; [|intros ?]
  | |- quiet (if _ then _ else _) => apply quiet_if
  | |- quiet (when _ _) => apply quiet_when
  | |- quiet (let _ := _ in _) => cbv zeta
  | |- _ => solve [auto with quiet]
  end.

(** Decompose a function along its structure and close the leaves with the lemmas
    of the database. *)
Ltac safe_step :=
  lazymatch goal with
  | |- safe (_ ≫= _) => apply safe_bind; [|intros ?]
  | |- safe (if _ then _ else _) => apply safe_if
  | |- safe (when _ _) => apply safe_when
  | |- safe (match ?o with Some _ => _ | None => _ end) => apply safe_option; [intros ?|]
  | |- safe (let _ := _ in _) => cbv zeta
  | |- _ => solve [auto with safe]
  end.
Ltac safe_tac := repeat safe_step.
