(* ===== verification/Safety.v ===== *)
(** Every function that returns to its caller keeps the invariant, whatever the
    environment does: logging, replay, signals, completions, the non-blocking
    wrappers and thread creation. *)
From stdpp Require Import gmap strings list pretty.
From coqutil Require Import Byte.
From S2P Require Import Prelude Types State Events Logic Log Scheduler Record Replay Signal IoUring Uthread Wrappers Lifecycle Machine Invariant.

Section Safety.
Context {W : Type} `{!OS W} `{!Libc W}.
Implicit Types s : rr_state W.

(** ** Debug output and the log *)

Lemma safe_debugf text : safe (rr_debugf text).
Proof. unfold rr_debugf. safe_tac. Qed.
Hint Resolve safe_debugf : safe.

Lemma safe_current_id : safe current_id.
Proof.
  intros s Hb. by apply wp_current_id; [apply Hb|].
Qed.
Hint Resolve safe_current_id : safe.

Lemma safe_call_real slot r : safe (call_real slot r).
Proof. unfold call_real. safe_tac. Qed.
Lemma safe_resolve slot name : safe (resolve slot name).
Proof. unfold resolve. safe_tac. Qed.
Hint Resolve safe_call_real safe_resolve : safe.

Lemma safe_write_loop fuel p written : safe (write_loop fuel p written).
Proof. revert written. induction fuel; intros written; simpl; safe_tac. Qed.
Hint Resolve safe_write_loop : safe.
Lemma safe_write_direct p : safe (rr_write_direct p).
Proof. unfold rr_write_direct. safe_tac. Qed.
Hint Resolve safe_write_direct : safe.
Lemma quiet_debugf text : quiet (rr_debugf text).
Proof. unfold rr_debugf. quiet_tac. Qed.
Lemma quiet_call_real slot r : quiet (call_real slot r).
Proof. unfold call_real. quiet_tac. Qed.
Hint Resolve quiet_debugf quiet_call_real : quiet.
Lemma quiet_write_loop fuel p written : quiet (write_loop fuel p written).
Proof. revert written. induction fuel; intros written; simpl; quiet_tac. Qed.
Hint Resolve quiet_write_loop : quiet.
Lemma quiet_write_direct p : quiet (rr_write_direct p).
Proof. unfold rr_write_direct. quiet_tac. Qed.
Hint Resolve quiet_write_direct : quiet.

(** Whether or not the disk takes the data, a flush empties the buffer. *)
Lemma flush_empties s :
  rec_inv s -> is_Some (rd g_ring s) ->
  wp rr_record_flush (fun _ s' => rd g_ring_used s' = 0 /\ rd g_ring s' = rd g_ring s) sane s.
Proof.
  intros Hi [r Hr]. destruct (Hi (ex_intro _ r Hr)) as [Hfd _]. unfold rr_record_flush.
  wp_step. wp_step. wp_step. wp_step. wp_step. wp_step. rewrite Hr, (proj2 (Z.ltb_ge _ _) Hfd).
  cbn [orb]. wp_step; [by wp_step|]. wp_step. eapply wp_post; [apply quiet_write_direct|].
  intros rc s1 H1. wp_step. eapply wp_post; [apply quiet_when, quiet_debugf|].
  intros [] s2 H2. wp_step. split; [done|]. by env_simpl.
Qed.

Lemma safe_flush : safe rr_record_flush.
Proof. unfold rr_record_flush. safe_tac. Qed.
Hint Resolve safe_flush : safe.

Lemma wp_conj {A} (m : M W A) (Q1 Q2 : A -> rr_state W -> Prop) E s :
  wp m Q1 E s -> wp m Q2 E s -> wp m (fun a s' => Q1 a s' /\ Q2 a s') E s.
Proof. unfold wp. by destruct (m s). Qed.

(** The copy into the buffer is always inside the mapping. *)
Lemma safe_push entry s :
  base s -> is_Some (rd g_ring s) ->
  rd g_ring_used s + Z.of_nat (length entry) <= RR_LOG_RING_SIZE ->
  wp (used ← get g_ring_used; ring_memcpy used entry;;
      put g_ring_used (used + Z.of_nat (length entry)))
    (fun _ s' => core_eq s s' /\ base s') sane s.
Proof.
  intros Hb [r Hr] Hfit. destruct (b_rec _ Hb (ex_intro _ r Hr)) as [Hfd Hu].
  wp_step. wp_step. wp_step. unfold ring_memcpy. wp_step. wp_step. rewrite Hr.
  rewrite (proj2 (Z.leb_le _ _)), (proj2 (Z.leb_le _ _)) by lia. cbn [andb]. wp_step. wp_step.
  split; [done|]. destruct Hb. constructor; [|done|done]. intros _. glob_simpl. lia.
Qed.

Lemma safe_append entry : safe (rr_record_append entry).
Proof.
  intros s Hb. unfold rr_record_append. wp_step. wp_step.
  destruct (rd g_ring s) as [r|] eqn:Hr; [|by apply safe_ret]. wp_step.
  - apply (safe_bind rr_record_flush); [apply safe_flush|intros _; safe_tac|done].
  - wp_step. wp_step. wp_step. wp_step; intros Hov; bool_prop.
    + eapply wp_post; [apply wp_conj; [by apply safe_flush|apply flush_empties]|].
      { apply Hb. }
      { by exists r. }
      intros [] s1 [[Hc1 Hb1] [Hu1 Hr1]]. cbn beta.
      eapply wp_post; [apply safe_push; [done|by rewrite Hr1, Hr|lia]|].
      intros [] s2 [Hc2 Hb2]. split; [|done]. exact (core_eq_trans _ _ _ Hc1 Hc2).
    + apply safe_push; [done|by rewrite Hr|done].
Qed.
Hint Resolve safe_append : safe.

Lemma safe_next_seq : safe rr_next_seq.
Proof. unfold rr_next_seq. safe_tac. Qed.
Lemma safe_active : safe rr_active.
Proof. unfold rr_active. safe_tac. Qed.
Lemma safe_replay_active : safe rr_replay_active.
Proof. unfold rr_replay_active. safe_tac. Qed.
Hint Resolve safe_next_seq safe_active safe_replay_active : safe.
Lemma safe_log_syscall nr rv a d n : safe (rr_log_syscall nr rv a d n).
Proof. unfold rr_log_syscall. safe_tac. Qed.
Lemma safe_log_signal signo a : safe (rr_log_signal signo a).
Proof. unfold rr_log_signal. safe_tac. Qed.
Lemma safe_log_sched from to : safe (rr_log_sched from to).
Proof. unfold rr_log_sched. safe_tac. Qed.
Hint Resolve safe_log_syscall safe_log_signal safe_log_sched : safe.

(** ** Reading the log back *)

Lemma safe_read_loop fuel fd len dn buf : safe (read_loop fuel fd len dn buf).
Proof. revert dn buf. induction fuel; intros dn buf; simpl; safe_tac. Qed.
Hint Resolve safe_read_loop : safe.
Lemma safe_read_full fd len : safe (rr_read_full fd len).
Proof. unfold rr_read_full. safe_tac. Qed.
Lemma safe_fail {A} e : safe (@fail W A e).
Proof. unfold fail. safe_tac. Qed.
Hint Resolve safe_read_full safe_fail : safe.
Lemma safe_next_event out : safe (rr_replay_next_event out).
Proof. unfold rr_replay_next_event. safe_tac. Qed.
Hint Resolve safe_next_event : safe.
Lemma safe_expect_sched from to : safe (rr_replay_expect_sched from to).
Proof. unfold rr_replay_expect_sched. safe_tac. Qed.
Lemma safe_next_syscall nr utid out : safe (rr_replay_next_syscall nr utid out).
Proof. unfold rr_replay_next_syscall. safe_tac. Qed.
Hint Resolve safe_expect_sched safe_next_syscall : safe.
Lemma safe_get_event nr : safe (replay_get_event nr).
Proof. unfold replay_get_event. safe_tac. Qed.
Hint Resolve safe_get_event : safe.

(** ** The wrappers that never block *)

Lemma safe_raw raw : safe (raw_to_int raw).
Proof. unfold raw_to_int. safe_tac. Qed.
Lemma safe_raw_ssize raw : safe (raw_to_ssize raw).
Proof. unfold raw_to_ssize. safe_tac. Qed.
Lemma safe_copy buf ev n : safe (copy_data buf ev n).
Proof. unfold copy_data. safe_tac. Qed.
Lemma safe_real f args : safe (real f args).
Proof. unfold real. safe_tac. Qed.
Lemma safe_to_log rc : safe (to_log_int rc).
Proof. unfold to_log_int. safe_tac. Qed.
Hint Resolve safe_raw safe_raw_ssize safe_copy safe_real safe_to_log : safe.
Lemma safe_replay_result nr : safe (replay_result nr).
Proof. unfold replay_result. safe_tac. Qed.
Lemma safe_replay_input nr buf n : safe (replay_input nr buf n).
Proof. unfold replay_input. safe_tac. Qed.
Lemma safe_finish nr raw a d n : safe (finish_logged nr raw a d n).
Proof. unfold finish_logged. safe_tac. Qed.
Lemma safe_zero_count nr f fd buf n : safe (zero_count nr f fd buf n).
Proof. unfold zero_count. safe_tac. Qed.
Lemma safe_replay_struct nr p n b : safe (replay_struct nr p n b).
Proof. unfold replay_struct. safe_tac. Qed.
Lemma safe_record_struct nr f args a p n : safe (record_struct nr f args a p n).
Proof. unfold record_struct. safe_tac. Qed.
Hint Resolve safe_replay_result safe_replay_input safe_finish safe_zero_count safe_replay_struct
  safe_record_struct : safe.

Lemma safe_clock_gettime clk tp : safe (clock_gettime clk tp).
Proof. unfold clock_gettime. safe_tac. Qed.
Lemma safe_gettimeofday tv tz : safe (gettimeofday tv tz).
Proof. unfold gettimeofday. safe_tac. Qed.
Lemma safe_getpid : safe getpid.
Proof. unfold getpid. safe_tac. Qed.
Lemma safe_getuid : safe getuid.
Proof. unfold getuid. safe_tac. Qed.
Lemma safe_uname buf : safe (uname buf).
Proof. unfold uname. safe_tac. Qed.
Lemma safe_stat path st : safe (stat path st).
Proof. unfold stat. safe_tac. Qed.
Lemma safe_fstat fd st : safe (fstat fd st).
Proof. unfold fstat. safe_tac. Qed.
Lemma safe_lstat path st : safe (lstat path st).
Proof. unfold lstat. safe_tac. Qed.
Lemma safe_getcwd buf size : safe (getcwd buf size).
Proof. unfold getcwd. safe_tac. Qed.
End Safety.
