(* ===== verification/ThreadSafety.v ===== *)
(** The functions that work on the threads keep the invariant: wake-ups,
    completions, creation, and the scheduler's iteration. *)
From stdpp Require Import gmap strings list pretty.
From coqutil Require Import Byte.
From S2P Require Import Prelude Types State Events Logic Log Scheduler Record Replay Signal IoUring Uthread Wrappers Lifecycle Machine Invariant Safety.

#[export] Hint Resolve safe_debugf safe_current_id safe_call_real safe_resolve safe_write_direct
  safe_flush safe_append safe_log_syscall safe_log_signal safe_log_sched safe_active
  safe_replay_active safe_expect_sched safe_get_event safe_raw safe_real safe_replay_result
  safe_replay_input safe_finish safe_zero_count safe_clock_gettime safe_gettimeofday safe_getpid
  safe_getuid safe_uname safe_stat safe_fstat safe_lstat safe_getcwd : safe.
#[export] Hint Resolve quiet_debugf quiet_call_real quiet_write_direct : quiet.

Section ThreadSafety.
Context {W : Type} `{!OS W} `{!Libc W}.
Implicit Types s : rr_state W.

(** ** Signals *)

Lemma safe_record_shutdown : safe rr_record_shutdown.
Proof.
  intros s Hb. unfold rr_record_shutdown. wp_step.
  eapply wp_post; [by apply safe_flush|]. intros [] s1 [Hc1 Hb1]. wp_step. wp_step. wp_step. wp_step.
  wp_step.
  (* closing the file and unmapping the buffer happen together *)
  assert (Hfin : forall s2, core_eq s s2 -> lib_ok (rd world s2) ->
    (rd g_ring s2 = None \/ is_Some (rd g_ring s2)) ->
    wp (ring ← get g_ring; match ring with None => mret tt | Some _ =>
          call "munmap" [RR_LOG_RING_SIZE];; put g_ring None end)
       (fun _ s' => core_eq s s' /\ base s') sane s2).
  { intros s2 Hc2 Hl2 _. wp_step. wp_step.
    assert (cur_valid s2) as Hcv by (eapply cur_valid_core; [exact Hc2|apply Hb]).
    destruct (rd g_ring s2) eqn:Er.
    - wp_step. unfold call, os_rc. wp_step. apply wp_os_env; [done|]. intros rp s3 He3 Hl3.
      wp_step. wp_step. pose proof (core_eq_env _ _ He3) as Hc3.
      assert (core_eq s (wr g_ring None s3)) as Hc4 by exact (core_eq_trans _ _ _ Hc2 Hc3).
      split; [done|]. constructor; [by intros [? ?]|done|].
      eapply cur_valid_core; [exact Hc4|apply Hb].
    - wp_step. split; [done|]. constructor; [|done|done]. intros [x Hx]. congruence. }
  wp_step; intros Hcl.
  - wp_step. unfold call_real. wp_step. wp_step. wp_step; [by apply wp_halted|].
    apply wp_os_env; [apply Hb1|]. intros rp s2 He2 Hl2. wp_step.
    apply Hfin; [|done|destruct (rd g_ring _); eauto].
    exact (core_eq_trans _ _ _ Hc1 (core_eq_env _ _ He2)).
  - apply Hfin; [done|apply Hb1|destruct (rd g_ring _); eauto].
Qed.
Hint Resolve safe_record_shutdown : safe.

Lemma safe_signal_process info : safe (rr_signal_process info).
Proof. unfold rr_signal_process. safe_tac. Qed.
Lemma safe_submit_signal fd : safe (rr_io_submit_signal_read fd).
Proof. unfold rr_io_submit_signal_read. safe_tac. Qed.
Hint Resolve safe_signal_process safe_submit_signal : safe.

(** ** Wake-ups and completions *)

(** A thread found in the table is allocated. *)
Lemma wp_find s run i (Q : ptr -> rr_state W -> Prop) E :
  winv s run -> Q NULL s ->
  (forall p u, p <> NULL -> rd heap s !! p = Some u -> id u = i -> Q p s) ->
  wp (rr_scheduler_find i) Q E s.
Proof.
  intros [Ht _] Hno Hyes. unfold rr_scheduler_find. wp_step. wp_step.
  apply wp_find_loop; [|intros p u Hp Hu Hi|done].
  - intros p Hp%(t_items _ _ _ _ _ _ _ Ht). split; [|done].
    pose proof (t_heap _ _ _ _ _ _ _ Ht p Hp). lia.
  - apply (Hyes p u); try done. pose proof (t_heap _ _ _ _ _ _ _ Ht p ltac:(eauto)). lia.
Qed.

Lemma keeps_wake i r data n : keeps (rr_scheduler_wake_by_id i r data n).
Proof.
  intros s run Hg. unfold rr_scheduler_wake_by_id. wp_step.
  apply (wp_find s run); [apply Hg|cbn [Z.eqb]; wp_step; split; [done|apply later_refl]|].
  intros p u Hp Hu _. rewrite (proj2 (Z.eqb_neq _ _) Hp). wp_step. apply (wp_deref _ u); [done|].
  destruct (negb _) eqn:Eb; [wp_step; split; [done|apply later_refl]|].
  apply negb_false_iff, bool_decide_eq_true in Eb. wp_step. apply (wp_update _ _ u); [done|].
  assert (Hfin : forall v, state v = UT_BLOCKED -> id v = id u -> join_waiter v = join_waiter u ->
    wp (update p (set_state UT_RUNNABLE);; rr_scheduler_enqueue p)
       (fun _ s' => ginv s' run /\ later (rd heap s) (rd heap s')) sane
       (wr heap (<[p := v]> (rd heap s)) s)).
  { intros v Hv Hi Hj. wp_step. apply (wp_update _ _ v); glob_simpl; [apply lookup_insert_eq|].
    rewrite insert_insert_eq.
    apply (wp_make_runnable s run run p u (set_state UT_RUNNABLE v)); try done;
      try congruence; [apply Hg|left; done| |].
    - intros q. split; [|by intros [? _]]. intros Hq. split; [done|]. intros ->.
      pose proof (t_running _ _ _ _ _ _ _ (w_t _ _ (g_winv _ _ Hg)) _ _ Hu) as [_ Hx].
      rewrite (Hx Hq) in Eb. done.
    - intros s' Hw Hl Heq. split; [|done]. destruct Hg as [_ Hr Hy Hk Hlb].
      rewrite Heq in *. constructor; done. }
  wp_step. wp_step; intros Hb; [|by apply Hfin].
  wp_step. wp_step. apply (wp_update _ _ (set_io r 0 (io_data u) u)); glob_simpl;
    [apply lookup_insert_eq|]. rewrite insert_insert_eq. by apply (Hfin (set_io _ _ _ _)).
Qed.

Lemma keeps_io_wait : keeps rr_io_wait.
Proof.
  unfold rr_io_wait. apply keeps_bind; [apply safe_keeps; safe_tac|intros ready].
  apply keeps_if; [apply safe_keeps; safe_tac|].
  apply keeps_bind; [apply safe_keeps; safe_tac|intros rp].
  destruct (rp_cqe rp) as [[ud r]|]; [|apply safe_keeps; safe_tac].
  apply keeps_if; [apply safe_keeps; safe_tac|].
  apply keeps_bind; [|intros []; apply safe_keeps; safe_tac].
  apply keeps_if; [apply safe_keeps; safe_tac|apply keeps_wake].
Qed.

(** ** The tables *)

(** The capacity after the growth step; [None] when [realloc] refuses. *)
Definition next_cap {A} (n : Z) (v : vec A) : option Z :=
  if v_len v =? v_cap v then
    let c := if v_cap v =? 0 then 16 else 2 * v_cap v in
    if c * n <? 2 ^ 63 then Some c else None
  else Some (v_cap v).

Lemma next_cap_ok {A} n (v : vec A) c x :
  0 < n -> table_ok n v -> next_cap n v = Some c ->
  v_len v < c /\ table_ok n (Vec (v_items v ++ [x]) c).
Proof.
  unfold next_cap, table_ok, v_ok, v_len. intros Hn (Hk & Hp & Hb) Hc. simpl.
  rewrite length_app. simpl.
  destruct (_ =? v_cap v) eqn:E1; bool_prop; [|simplify_eq; lia].
  destruct (v_cap v =? 0) eqn:E2; bool_prop;
    (destruct (_ <? _) eqn:E3; [|done]); bool_prop; simplify_eq; lia.
Qed.

Lemma wp_grow_lib {A} (g : glob W (vec A)) n s (Q : bool -> rr_state W -> Prop) E :
  0 < n <= 64 -> table_ok n (rd g s) -> wr g (rd g s) s = s -> lib_ok (rd world s) ->
  (forall s1, env_only s s1 -> lib_ok (rd world s1) ->
     match next_cap n (rd g s) with
     | Some c => Q true (wr g (Vec (v_items (rd g s)) c) s1)
     | None => Q false s1
     end) ->
  wp (grow_if_full g n) Q E s.
Proof.
  intros Hn (Hk & Hp & Hb) Hid Hl HQ. unfold grow_if_full, next_cap in *. wp_step. wp_step.
  destruct (v_len (rd g s) =? v_cap (rd g s)) eqn:Ef; bool_prop.
  - set (c := if v_cap (rd g s) =? 0 then 16 else 2 * v_cap (rd g s)) in HQ.
    replace (if v_cap (rd g s) =? 0 then 16 else u64 (v_cap (rd g s) * 2)) with c.
    2:{ unfold c. destruct (_ =? 0) eqn:Ez; bool_prop; [done|]. rewrite u64_id; [lia|].
        unfold in_u64. nia. }
    assert (0 <= c * n < 2 ^ 64) as Hc.
    { unfold c. destruct (_ =? 0) eqn:Ez; bool_prop; nia. }
    wp_step. rewrite u64_id by done. unfold call. apply wp_os_rc.
    intros w rp s1 Hcall He Hw _ _ _.
    pose proof (lib_realloc _ _ _ _ _ Hl Hcall) as Hre.
    assert (lib_ok (rd world s1)) as Hl1 by (rewrite Hw; by eapply lib_ok_call).
    specialize (HQ s1 He Hl1). destruct (c * n <? 2 ^ 63) eqn:Ec; bool_prop.
    + rewrite (proj2 (Z.eqb_neq _ _)) by (by apply Hre). wp_step. wp_step. by wp_step.
    + destruct (rp_rc rp =? 0) eqn:Er; bool_prop; [by wp_step|]. apply Hre in Er. lia.
  - wp_step. specialize (HQ s (env_only_refl s) Hl).
    replace (Vec (v_items (rd g s)) (v_cap (rd g s))) with (rd g s) in HQ by (by destruct (rd g s)).
    by rewrite Hid in HQ.
Qed.

(** A table whose growth step was just done takes one more element. *)
Lemma wp_store_grown {A} (g : glob W (vec A)) x s (Q : () -> rr_state W -> Prop) E items c :
  rd g s = Vec items c -> Z.of_nat (length items) < c ->
  Q tt (wr g (Vec (items ++ [x]) c) s) -> wp (vec_store g x) Q E s.
Proof. intros Hg Hc HQ. apply wp_vec_store; by rewrite Hg. Qed.

(** ** Thread creation *)

(** The state while [p], now [u], is being created from [s0]: allocated, not yet
    in the queue, the tables as given. *)
Record newborn s0 (p : ptr) (u : uthread) (thr al : vec ptr) s : Prop := {
  nb_heap : rd heap s = <[p := u]> (rd heap s0);
  nb_brk : rd brk s = p + 1;
  nb_head : rd g_runq_head s = rd g_runq_head s0;
  nb_tail : rd g_runq_tail s = rd g_runq_tail s0;
  nb_cur : rd g_current s = rd g_current s0;
  nb_thr : rd g_threads s = thr;
  nb_al : rd g_allocated s = al;
  nb_nid : rd g_next_id s = rd g_next_id s0;
  nb_gp : table_ok 24 (rd g_guard_pages s);
  nb_base : base s;
  nb_ready : rd g_runtime_ready s = true;
  nb_sched : rd g_sched_running s = true
}.

Lemma newborn_core s0 p u thr al s s' :
  newborn s0 p u thr al s -> core_eq s s' -> base s' -> newborn s0 p u thr al s'.
Proof.
  intros [] (Hh & Hb & Hs & Hu & Hg & Hc) Hb'.
  unfold rd in *; simpl in *. constructor; unfold rd; simpl; congruence || by rewrite Hg.
Qed.

(** Steps that leave the threads alone. *)
Lemma wp_newborn_safe {A} (m : M W A) s0 p u thr al s (Q : A -> rr_state W -> Prop) :
  safe m -> newborn s0 p u thr al s ->
  (forall a s', newborn s0 p u thr al s' -> Q a s') -> wp m Q sane s.
Proof.
  intros Hm Hn HQ. eapply wp_post; [apply Hm, Hn|]. intros a s' [Hc Hb]. apply HQ.
  by eapply newborn_core.
Qed.
Lemma wp_newborn_update f s0 p u thr al s (Q : () -> rr_state W -> Prop) :
  newborn s0 p u thr al s -> (forall s', newborn s0 p (f u) thr al s' -> Q tt s') ->
  wp (update p f) Q sane s.
Proof.
  intros Hn HQ. pose proof Hn as [Hh]. apply (wp_update _ _ u); [rewrite Hh; apply lookup_insert_eq|].
  apply HQ. destruct nb_base0 as [Hr Hl Hc]. constructor; try done.
  - glob_simpl. by rewrite Hh, insert_insert_eq.
  - constructor; try done. unfold cur_valid in *. glob_simpl. rewrite Hh in *.
    destruct Hc as [?|Hc]; [by left|right]. rewrite insert_insert_eq.
    destruct (decide (p = rd g_current s)) as [<-|Hne]; [by rewrite lookup_insert_eq|].
    by rewrite !lookup_insert_ne in *.
Qed.

Section Create.
Context (s0 : rr_state W) (run : option ptr) (Hg0 : ginv s0 run).

Lemma fresh_brk : rd heap s0 !! rd brk s0 = None.
Proof.
  destruct (rd heap s0 !! rd brk s0) eqn:E; [|done].
  pose proof (t_heap _ _ _ _ _ _ _ (w_t _ _ (g_winv _ _ Hg0)) _ ltac:(eauto)). lia.
Qed.

(** Freeing the newborn leaves the invariant, one address poorer. *)
Lemma wp_newborn_free u s (Q : option Z -> rr_state W -> Prop) :
  newborn s0 (rd brk s0) u (rd g_threads s0) (rd g_allocated s0) s ->
  (forall s', ginv s' run -> rd heap s' = rd heap s0 -> Q None s') ->
  wp (free_ut (rd brk s0);; mret None) Q sane s.
Proof.
  intros Hn HQ. wp_step. pose proof Hn as []. unfold wp at 1, free_ut.
  rewrite nb_heap0, lookup_insert_eq.
  wp_step. rewrite delete_insert_id by apply fresh_brk. apply HQ; [|done].
  destruct Hg0 as [[Ht Hq] Hr Hy Hk Hl]. destruct nb_base0. constructor; try done.
  constructor; glob_simpl; rewrite ?nb_brk0, ?nb_head0, ?nb_tail0, ?nb_cur0, ?nb_thr0, ?nb_al0; [|done].
  destruct Ht. constructor; try done; [|lia|by destruct t_tables].
  intros q Hq'. apply t_heap in Hq'. lia.
Qed.

Lemma wp_create_undo u mem_ sz s (Q : option Z -> rr_state W -> Prop) :
  newborn s0 (rd brk s0) u (rd g_threads s0) (rd g_allocated s0) s ->
  (forall s', ginv s' run -> rd heap s' = rd heap s0 -> Q None s') ->
  wp (create_undo mem_ sz (rd brk s0)) Q sane s.
Proof.
  intros Hn HQ. unfold create_undo. wp_step.
  eapply wp_newborn_safe; [apply safe_call|done|]. intros _ s1 Hn1. by eapply wp_newborn_free.
Qed.

(** Registration in the three tables. *)
Lemma wp_newborn_guard p u thr al s a b c (Q : Z -> rr_state W -> Prop) :
  newborn s0 p u thr al s -> (forall r s', newborn s0 p u thr al s' -> Q r s') ->
  wp (rr_register_guard_page a b c) Q sane s.
Proof.
  intros Hn HQ. pose proof Hn as []. unfold rr_register_guard_page. wp_step.
  apply wp_grow_lib; [lia|done|by destruct s as [??????[]???]|apply nb_base0|].
  intros s1 He Hl.
  assert (newborn s0 p u thr al s1) as Hn1.
  { eapply newborn_core; [done|by apply core_eq_env|by eapply base_env]. }
  destruct (next_cap 24 (rd g_guard_pages s)) as [cp|] eqn:Ec; cbn [negb]; [|wp_step; by apply HQ].
  destruct (next_cap_ok 24 (rd g_guard_pages s) cp (GuardPage a b c)) as [Hlt Hok]; [lia|done..|].
  wp_step. eapply wp_store_grown; [by glob_simpl|done|]. wp_step. apply HQ.
  destruct Hn1 as []. constructor; try done. destruct nb_base1. by constructor.
Qed.

Lemma wp_newborn_register p u al s (Q : Z -> rr_state W -> Prop) :
  p <> NULL -> newborn s0 p u (rd g_threads s0) al s ->
  match next_cap 8 (rd g_threads s0) with
  | Some c => forall s', newborn s0 p u (Vec (v_items (rd g_threads s0) ++ [p]) c) al s' -> Q 0 s'
  | None => forall s', newborn s0 p u (rd g_threads s0) al s' -> Q (-1) s'
  end -> wp (rr_scheduler_register_thread p) Q sane s.
Proof.
  intros Hp Hn HQ. pose proof Hn as []. unfold rr_scheduler_register_thread.
  pose proof (t_tables _ _ _ _ _ _ _ (w_t _ _ (g_winv _ _ Hg0))) as [Hok _].
  rewrite (proj2 (Z.eqb_neq _ _) Hp). wp_step.
  apply wp_grow_lib; [lia|by rewrite nb_thr0|by destruct s as [????[]?????]|apply nb_base0|].
  intros s1 He Hl. rewrite nb_thr0.
  assert (newborn s0 p u (rd g_threads s0) al s1) as Hn1.
  { eapply newborn_core; [done|by apply core_eq_env|by eapply base_env]. }
  destruct (next_cap 8 (rd g_threads s0)) as [cp|] eqn:Ec; cbn [negb]; [|wp_step; by apply HQ].
  destruct (next_cap_ok 8 (rd g_threads s0) cp p) as [Hlt _]; [lia|done..|].
  wp_step. eapply wp_store_grown; [by glob_simpl|done|]. wp_step. apply HQ.
  destruct Hn1 as []. constructor; try done. destruct nb_base1. by constructor.
Qed.

Lemma wp_newborn_remember p u thr s (Q : Z -> rr_state W -> Prop) :
  newborn s0 p u thr (rd g_allocated s0) s ->
  match next_cap 8 (rd g_threads s0) with
  | Some c => forall s', newborn s0 p u thr (Vec (v_items (rd g_threads s0) ++ [p]) c) s' -> Q 0 s'
  | None => forall s', newborn s0 p u thr (rd g_allocated s0) s' -> Q (-1) s'
  end -> wp (remember_thread p) Q sane s.
Proof.
  intros Hn HQ. pose proof Hn as []. unfold remember_thread.
  pose proof (w_t _ _ (g_winv _ _ Hg0)) as [].
  assert (rd g_allocated s0 = rd g_threads s0) as Heq.
  { destruct t_lockstep as [H1 H2], (rd g_allocated s0), (rd g_threads s0). simpl in *. congruence. }
  rewrite Heq in nb_al0. destruct t_tables as [Hok _]. wp_step.
  apply wp_grow_lib; [lia|by rewrite nb_al0|by destruct s as [?????[]????]|apply nb_base0|].
  intros s1 He Hl. rewrite nb_al0.
  assert (newborn s0 p u thr (rd g_allocated s0) s1) as Hn1.
  { eapply newborn_core; [done|by apply core_eq_env|by eapply base_env]. }
  destruct (next_cap 8 (rd g_threads s0)) as [cp|] eqn:Ec; cbn [negb]; [|wp_step; by apply HQ].
  destruct (next_cap_ok 8 (rd g_threads s0) cp p) as [Hlt _]; [lia|done..|].
  wp_step. eapply wp_store_grown; [by glob_simpl|done|]. wp_step. apply HQ.
  destruct Hn1 as []. constructor; try done. destruct nb_base1. by constructor.
Qed.

(** The tables with the new thread in them are well-formed. *)
Lemma newborn_tinv u c s :
  let v := Vec (v_items (rd g_threads s0) ++ [rd brk s0]) c in
  newborn s0 (rd brk s0) u v v s -> table_ok 8 v -> state u = UT_RUNNABLE -> join_waiter u = NULL ->
  tinv (<[rd brk s0 := u]> (rd heap s0)) (rd brk s0 + 1) (rd g_current s0) v v (rd g_guard_pages s) run.
Proof.
  intros v Hn Hv Hs Hj. pose proof Hn as []. pose proof (fresh_brk) as Hfr.
  pose proof Hg0 as [[Ht _] _ _ _ _]. pose proof Ht as []. set (p := rd brk s0) in *.
  constructor; try done.
  - intros q [x Hx]. destruct (decide (p = q)) as [<-|Hne]; [lia|].
    rewrite lookup_insert_ne in Hx by done. pose proof (t_heap q ltac:(eauto)). lia.
  - lia.
  - intros q x Hx. destruct (decide (p = q)) as [<-|Hne].
    + rewrite lookup_insert_eq in Hx. simplify_eq. rewrite Hs. split; [done|].
      intros Hrp. destruct (t_run p Hrp) as [_ [y Hy']]. congruence.
    + rewrite lookup_insert_ne in Hx by done. eauto.
  - intros q Hq. destruct (t_run q Hq) as [? ?]. split; [done|].
    rewrite lookup_insert_is_Some. destruct (decide (p = q)); auto.
  - destruct t_cur as [?|?]; [by left|right]. rewrite lookup_insert_is_Some.
    destruct (decide (p = rd g_current s0)); auto.
  - intros q. simpl. rewrite elem_of_app, list_elem_of_singleton, t_items, lookup_insert_is_Some.
    destruct (decide (p = q)); naive_solver.
  - simpl. apply NoDup_app. split; [done|]. split; [|apply NoDup_singleton].
    intros x Hx%t_items ->%list_elem_of_singleton. destruct Hx. congruence.
  - intros q x Hx. destruct (decide (p = q)) as [<-|Hne].
    + rewrite lookup_insert_eq in Hx. simplify_eq. by left.
    + rewrite lookup_insert_ne in Hx by done. destruct (t_join q x Hx) as [?|?]; [by left|right].
      rewrite lookup_insert_is_Some. destruct (decide (p = join_waiter x)); auto.
Qed.
(** The new thread enters the queue: the invariant holds again. *)
Lemma wp_newborn_enqueue u c s (Q : () -> rr_state W -> Prop) :
  let v := Vec (v_items (rd g_threads s0) ++ [rd brk s0]) c in
  newborn s0 (rd brk s0) u v v s -> table_ok 8 v -> state u = UT_RUNNABLE -> join_waiter u = NULL ->
  (forall s' l, ginv s' run -> runq s0 l -> runq s' (l ++ [rd brk s0]) ->
     only_next (<[rd brk s0 := u]> (rd heap s0)) (rd heap s') -> rd g_threads s' = v ->
     rd g_next_id s' = rd g_next_id s0 -> Q tt s') ->
  wp (rr_scheduler_enqueue (rd brk s0)) Q sane s.
Proof.
  intros v Hn Hv Hs Hj HQ. pose proof Hn as [].
  pose proof (fresh_brk) as Hfr. pose proof Hg0 as [[Ht (l & (Hlk & Htl & Hnd) & Hin)] Hr Hy Hk Hl].
  pose proof Ht as []. set (p := rd brk s0) in *.
  assert (p ∉ l) as Hpl. { rewrite Hin. intros (x & Hx & _). congruence. }
  apply (wp_enqueue _ _ _ l u); [|done|lia|rewrite nb_heap0; apply lookup_insert_eq|].
  { split; [|by rewrite nb_tail0]. rewrite nb_heap0, nb_head0. by apply links_other. }
  intros s1 Hq1 Ho Heq. pose proof (newborn_tinv u c s Hn Hv Hs Hj) as Ht1. fold p v in Ht1.
  rewrite nb_heap0 in Ho. apply (HQ s1 l); try done;
    [|rewrite Heq; glob_simpl; by rewrite nb_thr0|rewrite Heq; glob_simpl; by rewrite nb_nid0].
  assert (winv s1 run) as Hw1.
  { constructor.
    - eapply tinv_only_next in Ht1; [|done]. rewrite Heq. glob_simpl.
      by rewrite nb_brk0, nb_cur0, nb_thr0, nb_al0.
    - exists (l ++ [p]). split; [done|]. intros q. rewrite elem_of_app, list_elem_of_singleton, Hin.
      split.
      + intros [(x & Hx & Hsx)| ->].
        * destruct Ho as [Ho1 _]. destruct (Ho1 q x) as [n Hn']; [|by eexists].
          rewrite lookup_insert_ne; [done|congruence].
        * destruct Ho as [Ho1 _]. destruct (Ho1 p u) as [n Hn']; [apply lookup_insert_eq|by eexists].
      + intros (x & Hx & Hsx). destruct (only_next_back _ _ _ _ Ho Hx) as (y & n & Hy' & ->).
        destruct (decide (p = q)) as [<-|Hne]; [by right|left].
        rewrite lookup_insert_ne in Hy' by done. eauto. }
  destruct nb_base0. rewrite Heq in *. by constructor.
Qed.

(** The object [calloc] returned. *)
Lemma newborn_calloc :
  newborn s0 (rd brk s0) uthread_zero (rd g_threads s0) (rd g_allocated s0)
    (wr heap (<[rd brk s0 := uthread_zero]> (rd heap s0)) (wr brk (rd brk s0 + 1) s0)).
Proof.
  pose proof Hg0 as [[Ht _] Hr Hy Hk Hl]. destruct (t_tables _ _ _ _ _ _ _ Ht).
  constructor; try done. constructor; try done.
  destruct (t_cur _ _ _ _ _ _ _ Ht) as [?|Hc]; [by left|right]. glob_simpl.
  rewrite lookup_insert_is_Some. destruct (decide (rd brk s0 = rd g_current s0)); auto.
Qed.

(** What creating thread [i] to run [fn(arg)] achieves: a new thread at the end of
    the queue and of the tables, or nothing. *)
Definition create_post (i fn arg : Z) (r : option Z) s' : Prop :=
  ginv s' run /\
  match r with
  | Some j => j = i /\ exists p u l, rd heap s0 !! p = None /\ runq s0 l /\ runq s' (l ++ [p]) /\
      only_next (<[p := u]> (rd heap s0)) (rd heap s') /\
      id u = i /\ state u = UT_RUNNABLE /\ start_fn u = fn /\ start_arg u = arg /\
      v_items (rd g_threads s') = v_items (rd g_threads s0) ++ [p] /\
      rd g_next_id s' = rd g_next_id s0
  | None => rd heap s' = rd heap s0
  end.

(** From the first table on. *)
Lemma wp_create_register u mem_ pagesz sz i fn arg s (Q : option Z -> rr_state W -> Prop) :
  newborn s0 (rd brk s0) u (rd g_threads s0) (rd g_allocated s0) s ->
  id u = i -> start_fn u = fn -> start_arg u = arg ->
  state u = UT_RUNNABLE -> join_waiter u = NULL ->
  (forall r s', create_post i fn arg r s' -> Q r s') ->
  wp (r1 ← rr_register_guard_page mem_ pagesz i;
      r2 ← (if negb (r1 =? 0) then mret (-1) else rr_scheduler_register_thread (rd brk s0));
      r3 ← (if negb (r2 =? 0) then mret (-1) else remember_thread (rd brk s0));
      if negb (r3 =? 0) then create_undo mem_ sz (rd brk s0)
      else rr_scheduler_enqueue (rd brk s0);; mret (Some i)) Q sane s.
Proof.
  intros Hn Hid Hfn Harg Hs Hj HQ.
  pose proof (t_brk _ _ _ _ _ _ _ (w_t _ _ (g_winv _ _ Hg0))) as Hb.
  pose proof (t_tables _ _ _ _ _ _ _ (w_t _ _ (g_winv _ _ Hg0))) as [Hok _].
  assert (Hnone : forall s', ginv s' run -> rd heap s' = rd heap s0 -> Q None s')
    by (intros; by apply HQ).
  wp_step. eapply wp_newborn_guard; [done|]. intros r1 s1 Hn1. wp_step.
  destruct (negb (r1 =? 0)).
  { wp_step. wp_step. cbn [Z.eqb negb]. wp_step. cbn [Z.eqb negb]. by eapply wp_create_undo. }
  apply (wp_newborn_register _ u (rd g_allocated s0)); [lia|done|].
  destruct (next_cap 8 (rd g_threads s0)) as [c|] eqn:Ec; intros s2 Hn2; wp_step; cbn [Z.eqb negb].
  - eapply wp_newborn_remember; [done|]. rewrite Ec. intros s3 Hn3. cbn [Z.eqb negb].
    destruct (next_cap_ok 8 (rd g_threads s0) c (rd brk s0)) as [_ Hok']; [lia|done..|].
    wp_step. eapply wp_newborn_enqueue; [done..|]. intros s4 l Hg4 Hq0 Hq4 Ho Ht4 Hi4. wp_step.
    apply HQ. split; [done|]. split; [done|]. exists (rd brk s0), u, l.
    split; [apply fresh_brk|]. rewrite Ht4. done.
  - wp_step. cbn [Z.eqb negb]. by eapply wp_create_undo.
Qed.
End Create.

Lemma safe_get_fs_base : safe rr_get_fs_base.
Proof. unfold rr_get_fs_base. safe_tac. Qed.
Lemma safe_set_fs_base p : safe (rr_set_fs_base p).
Proof. unfold rr_set_fs_base. safe_tac. Qed.

(** The body of [rr_uthread_create]: either it fails and no thread is added, or it
    takes the next id and adds one. *)
Lemma wp_create fn arg s run (Q : option Z -> rr_state W -> Prop) :
  fn <> NULL -> ginv s run ->
  (forall s0 r s', core_eq s s0 -> ginv s0 run ->
     create_post (match r with Some _ => wr g_next_id (u64 (rd g_next_id s + 1)) s0 | None => s0 end)
       run (rd g_next_id s) fn arg r s' -> Q r s') ->
  wp (rr_uthread_create fn arg true) Q sane s.
Proof.
  intros Hfn Hg HQ. unfold rr_uthread_create. rewrite (proj2 (Z.eqb_neq _ _) Hfn). cbn [orb negb].
  unfold calloc_ut. wp_step. wp_step.
  eapply wp_post; [apply (safe_call "calloc" [1]); by eapply ginv_base|].
  intros ok s0 [Hc0 Hb0]. assert (ginv s0 run) as Hg0 by (by eapply ginv_core).
  assert (HQn : forall s', ginv s' run -> rd heap s' = rd heap s0 -> Q None s').
  { intros s' Hg' Hh. apply (HQ s0); [done|done|]. by split. }
  assert (rd g_next_id s0 = rd g_next_id s) as Hid0.
  { destruct Hc0 as (_&_&_&Hu&_). unfold rd. simpl. by rewrite Hu. }
  destruct (ok =? 0).
  { wp_step. cbn [Z.eqb]. wp_step. by apply HQn. }
  wp_steps.
  { pose proof (t_brk _ _ _ _ _ _ _ (w_t _ _ (g_winv _ _ Hg0))). lia. }
  pose proof (newborn_calloc s0 run Hg0) as Hn.
  eapply wp_newborn_safe; [apply safe_call|done|]. intros pagesz s1 Hn1. wp_step. wp_step. wp_step.
  eapply wp_newborn_safe; [apply safe_call|done|]. intros mem_ s2 Hn2.
  destruct (mem_ =? MAP_FAILED).
  { eapply wp_newborn_free; eauto. }
  wp_step. eapply wp_newborn_safe; [apply safe_call|done|]. intros rc s3 Hn3.
  destruct (negb (rc =? 0)); [eapply wp_create_undo; eauto|].
  wp_step. wp_step. wp_step. wp_step. wp_step. rewrite (nb_nid _ _ _ _ _ _ Hn3), Hid0.
  set (i := rd g_next_id s). set (sz := cfg_stack_size _).
  set (s0' := wr g_next_id (u64 (i + 1)) s0).
  assert (Hg0' : ginv s0' run). { destruct Hg0 as [[? ?] ? ? ? ?]. by constructor. }
  assert (HQn' : forall s', ginv s' run -> rd heap s' = rd heap s0' -> Q None s') by done.
  change (rd brk s0) with (rd brk s0').
  eapply (wp_newborn_update _ s0' _ uthread_zero).
  { destruct Hn3 as []. destruct nb_base0. constructor; try done. }
  intros s4 Hn4. cbn beta in Hn4. wp_step. unfold init_tls_copy. wp_step.
  eapply wp_newborn_safe; [apply safe_get_fs_base|done|]. intros [fs|] s5 Hn5.
  2:{ wp_step. cbn [Z.eqb negb]. eapply (wp_create_undo s0'); eauto. }
  wp_step. eapply wp_newborn_update; [done|]. intros s6 Hn6. wp_step. cbn [Z.eqb negb].
  wp_step. eapply wp_newborn_safe; [apply safe_call|done|]. intros rc' s7 Hn7.
  destruct (negb (rc' =? 0)); [eapply (wp_create_undo s0'); eauto|].
  wp_step. eapply wp_newborn_update; [done|]. intros s8 Hn8.
  eapply (wp_create_register s0' run Hg0'); try done. intros r s' Hp.
  destruct r as [j|]; [by apply (HQ s0)|]. by apply HQn'; [apply Hp|apply Hp].
Qed.

Lemma create_post_later s0 run i fn arg r s' :
  create_post s0 run i fn arg r s' -> later (rd heap s0) (rd heap s').
Proof.
  intros [_ H]. destruct r as [j|].
  - destruct H as (_ & p & u & l & Hp & _ & _ & Ho & _).
    eapply later_trans; [by apply later_fresh|by apply only_next_later].
  - rewrite H. apply later_refl.
Qed.

Lemma keeps_create fn arg out : keeps (rr_uthread_create fn arg out).
Proof.
  intros s run Hg. destruct (fn =? NULL) eqn:Ef; [|destruct out].
  1,3: unfold rr_uthread_create; rewrite Ef; cbn [orb negb];
    by apply (safe_keeps (put errno EINVAL;; mret None)); [safe_tac|].
  bool_prop. apply (wp_create fn arg s run); [done..|]. intros s0 r s' Hc Hg0 Hp. split; [apply Hp|].
  destruct Hc as (<- & _). apply create_post_later in Hp. by destruct r.
Qed.
End ThreadSafety.
