(* ===== verification/SchedSafety.v ===== *)
(** The functions that switch context keep the invariant on both sides of the
    switch, and so does an iteration of the scheduler's loop. *)
From stdpp Require Import gmap strings list pretty.
From coqutil Require Import Byte.
From S2P Require Import Prelude Types State Events Logic Log Scheduler Record Replay Signal IoUring Uthread Wrappers Lifecycle Machine Invariant Safety ThreadSafety.

#[export] Hint Resolve safe_get_fs_base safe_set_fs_base safe_record_shutdown safe_signal_process
  safe_submit_signal : safe.

Section SchedSafety.
Context {W : Type} `{!OS W} `{!Libc W}.
Implicit Types s : rr_state W.

(** ** One iteration of the scheduler *)

Lemma safe_decision a b : safe (sched_decision a b).
Proof. unfold sched_decision, abort. safe_tac. Qed.

(** The thread taken from the queue becomes the running one. *)
Lemma winv_dispatch s s' p l u :
  winv s None -> runq s (p :: l) ->
  (forall q, q ∈ p :: l <-> exists v, rd heap s !! q = Some v /\ state v = UT_RUNNABLE) ->
  rd heap s !! p = Some u ->
  rd heap s' = <[p := set_state UT_RUNNING (set_next NULL u)]> (rd heap s) ->
  runq s' l -> rd g_current s' = p -> rd brk s' = rd brk s -> rd g_threads s' = rd g_threads s ->
  rd g_allocated s' = rd g_allocated s -> rd g_guard_pages s' = rd g_guard_pages s ->
  winv s' (Some p).
Proof.
  intros [Ht _] (_ & _ & Hnd) Hin Hu Hh Hq' Hc Hb Hth Hal Hgp.
  apply NoDup_cons in Hnd as [Hpl _]. constructor.
  - rewrite Hc, Hb, Hth, Hal, Hgp, Hh. destruct Ht. constructor; try done.
    + intros q. rewrite lookup_insert_is_Some. intros [<-|[_ ?]]; eauto.
    + intros q v Hv. destruct (decide (p = q)) as [<-|Hne].
      * rewrite lookup_insert_eq in Hv. by simplify_eq.
      * rewrite lookup_insert_ne in Hv by done. rewrite (t_running q v Hv). naive_solver.
    + intros q [= <-]. by rewrite lookup_insert_eq.
    + right. by rewrite lookup_insert_eq.
    + intros q. rewrite t_items, lookup_insert_is_Some. destruct (decide (p = q)); naive_solver.
    + intros q v Hv. rewrite lookup_insert_is_Some.
      destruct (decide (p = join_waiter v)) as [?|Hj]; [by auto|].
      assert (exists v', rd heap s !! q = Some v' /\ join_waiter v = join_waiter v') as (v' & Hv' & Hjj).
      { destruct (decide (p = q)) as [<-|Hne].
        - rewrite lookup_insert_eq in Hv. simplify_eq. by exists u.
        - rewrite lookup_insert_ne in Hv by done. by exists v. }
      rewrite Hjj. destruct (t_join q v' Hv'); [by left|]. rewrite Hjj in Hj. auto.
  - exists l. split; [done|]. intros q. rewrite Hh. destruct (decide (p = q)) as [<-|Hne].
    + rewrite lookup_insert_eq. split; [done|]. intros (v & [= <-] & Hv). done.
    + rewrite lookup_insert_ne by done. rewrite <- Hin, elem_of_cons. naive_solver.
Qed.

Lemma wp_dispatch s p l u s1 :
  ginv s None -> runq s (p :: l) ->
  (forall q, q ∈ p :: l <-> exists v, rd heap s !! q = Some v /\ state v = UT_RUNNABLE) ->
  rd heap s !! p = Some u -> runq s1 l ->
  s1 = wr heap (<[p := set_next NULL u]> (rd heap s))
         (wr g_runq_tail (rd g_runq_tail s1) (wr g_runq_head (next u) s)) ->
  wp (from_id ← current_id;
      sched_decision from_id (id u);;
      put g_current p;;
      update p (set_state UT_RUNNING);;
      u ← deref p;
      rr_set_fs_base (tls_block u);;
      mret (Some p))
    (fun r s' => r = Some p /\ ginv s' (Some p) /\ later (rd heap s) (rd heap s')) sane s1.
Proof.
  intros Hg Hq Hin Hu Hq1 Heq.
  assert (base s1) as Hb1.
  { destruct (ginv_base _ _ Hg) as [Hr Hl Hc]. rewrite Heq. constructor; try done.
    destruct Hc as [?|?]; [by left|right]. glob_simpl. rewrite lookup_insert_is_Some.
    destruct (decide (p = rd g_current s)); auto. }
  wp_step. eapply wp_post; [by apply safe_current_id|]. intros from s2 [Hc2 Hb2]. wp_step.
  eapply wp_post; [by apply safe_decision|]. intros [] s3 [Hc3 Hb3].
  pose proof (core_eq_trans _ _ _ Hc2 Hc3) as (Hh & Hbk & Hs & Hut & Hgp & Hcf).
  assert (rd heap s3 = <[p := set_next NULL u]> (rd heap s)) as Hh3 by (rewrite Hh, Heq; done).
  wp_step. wp_step. wp_step. apply (wp_update _ _ (set_next NULL u));
    [glob_simpl; rewrite Hh3; apply lookup_insert_eq|]. wp_step.
  eapply wp_deref; [glob_simpl; apply lookup_insert_eq|].
  set (s4 := wr heap _ _).
  assert (ginv s4 (Some p)) as Hg4.
  { destruct Hg as [Hw Hr Hy Hk Hl], Hb3 as [Hr3 Hl3 _]. constructor; try done.
    - apply (winv_dispatch s s4 p l u); try done; unfold s4; glob_simpl.
      + by rewrite Hh3, insert_insert_eq.
      + destruct Hq1 as (Hlk & Htl & Hnd). split; [|split; [|done]].
        * unfold rd; simpl. rewrite Hs. apply (links_update (rd heap s3) _ l p _ (set_next NULL u));
            [by rewrite Hh|rewrite Hh3; apply lookup_insert_eq|done].
        * unfold rd in *; simpl in *. by rewrite Hs.
      + rewrite Hbk, Heq. done.
      + unfold rd; simpl. rewrite Hs, Heq. done.
      + unfold rd; simpl. rewrite Hut, Heq. done.
      + rewrite Hgp, Heq. done.
    - unfold s4, rd; simpl. rewrite Hcf, Heq. exact Hy.
    - unfold s4, rd; simpl. rewrite Hs, Heq. exact Hk. }
  assert (later (rd heap s) (rd heap s4)) as Hl4.
  { unfold s4. glob_simpl. rewrite Hh3, insert_insert_eq. apply (later_insert _ _ u); try done.
    pose proof (proj1 (Hin p) ltac:(set_solver)) as (v & Hv & Hsv). simplify_eq. by rewrite Hsv. }
  wp_step. eapply wp_post; [by apply (safe_keeps _ (safe_set_fs_base _)) with (run := Some p)|].
  intros _ s5 [Hg5 Hl5]. wp_step. split; [done|]. split; [done|]. by eapply later_trans.
Qed.

(** The thread dispatched was the first of the queue; the rest stays. *)
Lemma sched_iter_head s s' p l :
  ginv s None -> runq s l -> sched_iter s = Ok (Some p) s' -> head l = Some p /\ runq s' (tail l).
Proof.
  intros Hg Hq Hit.
  cut (wp sched_iter (fun r s' => r = Some p -> head l = Some p /\ runq s' (tail l)) (fun _ _ => True) s).
  { unfold wp. rewrite Hit. auto. }
  pose proof (w_q _ _ (g_winv _ _ Hg)) as (l' & Hq' & Hin).
  rewrite <-(runq_unique _ _ _ Hq Hq') in Hin. unfold sched_iter. wp_step.
  destruct l as [|q l].
  { apply wp_pop_nil; [done|]. cbn [Z.eqb]. wp_step. unfold wp. destruct (rr_io_wait s); done. }
  apply (wp_pop_cons _ _ q l); [done|]. intros u s1 Hu Hq1 Heq.
  destruct (runq_in_heap s (q :: l) q Hq ltac:(set_solver)) as [_ Hp0].
  rewrite (proj2 (Z.eqb_neq _ _) Hp0). wp_step.
  apply (wp_deref _ (set_next NULL u)); [rewrite Heq; glob_simpl; apply lookup_insert_eq|].
  pose proof (proj1 (Hin q) ltac:(set_solver)) as (v & Hv & Hsv). simplify_eq.
  rewrite bool_decide_eq_true_2 by done. cbn [negb].
  assert (runq s1 l -> forall s2, core_eq s1 s2 -> runq s2 l) as Hcore.
  { intros Hr s2 (Hh & _ & Hs & _). unfold runq, rd in *. simpl in *. by rewrite Hs, Hh. }
  assert (base s1) as Hb1.
  { destruct (ginv_base _ _ Hg) as [Hr Hl Hc]. rewrite Heq. constructor; try done.
    destruct Hc as [?|?]; [by left|right]. glob_simpl. rewrite lookup_insert_is_Some.
    destruct (decide (q = rd g_current s)); auto. }
  assert (Hany : forall (m : M W (option ptr)) (Q : option ptr -> rr_state W -> Prop) x,
    wp m Q sane x -> wp m Q (fun _ _ => True) x) by (intros; by eapply wp_mono).
  apply Hany. wp_step. eapply wp_post; [by apply safe_current_id|]. intros from s2 [Hc2 Hb2].
  wp_step. eapply wp_post; [by apply safe_decision|]. intros [] s3 [Hc3 Hb3].
  pose proof (Hcore Hq1 s3 (core_eq_trans _ _ _ Hc2 Hc3)) as Hq3.
  assert (exists v, rd heap s3 !! q = Some v) as [v Hv3].
  { pose proof (core_eq_trans _ _ _ Hc2 Hc3) as (Hh & _). rewrite Hh, Heq. glob_simpl.
    eexists. apply lookup_insert_eq. }
  wp_step. wp_step. wp_step. apply (wp_update _ _ v); [done|]. wp_step.
  eapply wp_deref; [glob_simpl; apply lookup_insert_eq|]. wp_step. unfold rr_set_fs_base.
  eapply wp_post; [apply safe_call|].
  { destruct Hb3 as [Hr3 Hl3 _]. constructor; [done|done|]. right. glob_simpl.
    by rewrite lookup_insert_eq. }
  intros rc s5 [(Hh5 & _ & Hs5 & _) _]. wp_step. intros [= <-]. split; [done|].
  destruct Hq3 as (Hlk & Htl & Hnd). simpl. split; [|split; [|done]].
  - unfold rd in Hh5 |- *; simpl in Hh5 |- *. rewrite Hh5, Hs5. simpl.
    by apply (links_update _ _ _ _ (set_state UT_RUNNING) v).
  - unfold rd in *; simpl in *. by rewrite Hs5.
Qed.

Lemma wp_sched_iter s :
  ginv s None ->
  wp sched_iter (fun r s' => ginv s' r /\ later (rd heap s) (rd heap s')) sane s.
Proof.
  intros Hg. pose proof (w_q _ _ (g_winv _ _ Hg)) as ([|p l] & Hq & Hin); unfold sched_iter; wp_step.
  - apply wp_pop_nil; [done|]. cbn [Z.eqb]. wp_step.
    eapply wp_post; [by apply keeps_io_wait|]. intros rc s1 Hs1. by wp_step.
  - apply (wp_pop_cons _ _ p l); [done|]. intros u s1 Hu Hq1 Heq.
    destruct (runq_in_heap s (p :: l) p Hq ltac:(set_solver)) as [_ Hp0].
    rewrite (proj2 (Z.eqb_neq _ _) Hp0). wp_step.
    apply (wp_deref _ (set_next NULL u)); [rewrite Heq; glob_simpl; apply lookup_insert_eq|].
    pose proof (proj1 (Hin p) ltac:(set_solver)) as (v & Hv & Hsv). simplify_eq.
    rewrite bool_decide_eq_true_2 by done. cbn [negb].
    eapply wp_post; [eapply (wp_dispatch s p l u s1); eauto|]. by intros r s' (-> & ? & ?).
Qed.

Lemma safe_enter : safe sched_enter.
Proof. unfold sched_enter, rr_scheduler_tls_base. safe_tac. Qed.

(** ** Functions that switch context *)

(** When a thread gives the processor away no thread is running and the threads
    there were when it got it are still there; in return it resumes as the running
    thread, with every thread it knew still there. *)
Definition G_swap s0 (_ : ptr) s : Prop := ginv s None /\ later (rd heap s0) (rd heap s).
Definition R_swap (cur : ptr) s s' : Prop :=
  ginv s' (Some cur) /\ later (rd heap s) (rd heap s').

(** The result of a function that thread [p] started in [s] and that was last
    resumed in [s1]. *)
Definition Q_safe {A} s (p : ptr) s1 (_ : A) s' : Prop :=
  ginv s' (Some p) /\ later (rd heap s) (rd heap s') /\ later (rd heap s1) (rd heap s').

(** [m], run by any thread, keeps the invariant up to and across its switches. *)
Definition csafe {A} (m : C W A) : Prop := forall s0 s p,
  ginv s (Some p) -> later (rd heap s0) (rd heap s) ->
  cwp (m s) s0 (Q_safe s p) sane G_swap R_swap.

(** [m], started with the heap [h] known, then [f]. *)
Lemma cwp_seq {A B} (m : C W A) (f : A -> C W B) h s0 s p Q :
  csafe m -> ginv s (Some p) -> later h (rd heap s) -> later (rd heap s0) (rd heap s) ->
  (forall s1 a s', ginv s' (Some p) -> later h (rd heap s') -> later (rd heap s1) (rd heap s') ->
     cwp (f a s') s1 Q sane G_swap R_swap) ->
  cwp ((m ≫= f) s) s0 Q sane G_swap R_swap.
Proof.
  intros Hm Hg Hh H0 Hf. apply cwp_bind. eapply cwp_mono; [by apply (Hm s0 s p)| |done].
  intros s1 a s' (Hg' & Hl' & Hl1). apply Hf; [done| |done]. by eapply later_trans.
Qed.
(** The last function of a sequence. *)
Lemma cwp_last {A} (m : C W A) s00 s0 s p :
  csafe m -> ginv s (Some p) -> later (rd heap s00) (rd heap s) ->
  later (rd heap s0) (rd heap s) -> cwp (m s) s0 (Q_safe s00 p) sane G_swap R_swap.
Proof.
  intros Hm Hg Hh H0. eapply cwp_mono; [by apply (Hm s0 s p)| |done].
  intros s1 a s' (Hg' & Hl' & Hl1). split; [done|]. split; [|done]. by eapply later_trans.
Qed.

Lemma csafe_bind {A B} (m : C W A) (f : A -> C W B) :
  csafe m -> (forall a, csafe (f a)) -> csafe (m ≫= f).
Proof.
  intros Hm Hf s0 s p Hg H0. eapply (cwp_seq m f (rd heap s)); try done; [apply later_refl|].
  intros s1 a s' Hg' Hl' Hl1. by apply cwp_last.
Qed.
Lemma csafe_ret {A} (a : A) : csafe (mret a).
Proof. intros s0 s p Hg H0. split; [done|]. split; [apply later_refl|done]. Qed.
Lemma csafe_lift {A} (m : M W A) : keeps m -> csafe (lift m).
Proof.
  intros Hm s0 s p Hg H0. apply cwp_lift. eapply wp_post; [by apply Hm|]. intros a s' [Hg' Hl].
  split; [done|]. split; [done|]. by eapply later_trans.
Qed.
Lemma csafe_safe {A} (m : M W A) : safe m -> csafe (lift m).
Proof. intros Hm. by apply csafe_lift, safe_keeps. Qed.
Lemma csafe_if {A} (b : bool) (m1 m2 : C W A) :
  csafe m1 -> csafe m2 -> csafe (if b then m1 else m2).
Proof. by destruct b. Qed.

(** The running thread is allocated and is the current one. *)
Lemma ginv_running s p :
  ginv s (Some p) ->
  rd g_current s = p /\ p <> NULL /\ exists u, rd heap s !! p = Some u /\ state u = UT_RUNNING.
Proof.
  intros [[Ht _] _ _ _ _]. destruct (t_run _ _ _ _ _ _ _ Ht p eq_refl) as [Hc [u Hu]].
  split; [done|]. split; [pose proof (t_heap _ _ _ _ _ _ _ Ht p ltac:(eauto)); lia|].
  exists u. split; [done|]. by apply (t_running _ _ _ _ _ _ _ Ht p u Hu).
Qed.

(** The running thread stops without becoming runnable. *)
Lemma ginv_stop s p u u' :
  ginv s (Some p) -> rd heap s !! p = Some u -> id u' = id u -> next u' = next u ->
  join_waiter u' = join_waiter u -> state u' <> UT_RUNNING -> state u' <> UT_RUNNABLE ->
  let s' := wr heap (<[p := u']> (rd heap s)) s in
  ginv s' None /\ later (rd heap s) (rd heap s').
Proof.
  intros Hg Hu Hid Hnx Hj H1 H2 s'.
  destruct (ginv_running _ _ Hg) as (_ & _ & v & Hv & Hst). simplify_eq.
  destruct Hg as [[Ht (l & (Hlk & Htl & Hnd) & Hin)] Hr Hy Hk Hl].
  split; [|unfold s'; glob_simpl; apply (later_insert _ _ u); congruence].
  constructor; try done. constructor; unfold s'; glob_simpl.
  - eapply tinv_heap; [done|..|done].
    + intros q v Hq. destruct (decide (p = q)) as [<-|Hne].
      * rewrite lookup_insert_eq in Hq. simplify_eq. exists u. split; [done|]. split; [done|].
        split; [done|by left].
      * rewrite lookup_insert_ne in Hq by done. exists v.
        rewrite (t_running _ _ _ _ _ _ _ Ht q v Hq). split; [done|]. split; [done|].
        split; [naive_solver|by left].
    + intros q Hq. rewrite lookup_insert_is_Some. destruct (decide (p = q)); auto.
  - exists l. split.
    + split; [|done]. apply (links_update _ _ _ _ (fun _ => u') u); done.
    + intros q. rewrite Hin. destruct (decide (p = q)) as [<-|Hne].
      * rewrite lookup_insert_eq. split; intros (v & Hq & Hsv); congruence.
      * by rewrite lookup_insert_ne.
Qed.

Lemma csafe_block : csafe rr_scheduler_block_current.
Proof.
  intros s0 s p Hg H0. destruct (ginv_running _ _ Hg) as (Hc & Hp & u & Hu & Hst).
  unfold rr_scheduler_block_current. apply cwp_bind, cwp_lift, wp_get.
  apply cwp_bind, cwp_lift, wp_get. rewrite Hc, (g_sched _ _ Hg), (proj2 (Z.eqb_neq _ _) Hp).
  cbn [orb negb]. apply cwp_bind, cwp_lift. apply (wp_update _ _ u); [done|].
  destruct (ginv_stop s p u (set_state UT_BLOCKED u)) as [Hg1 Hl1]; [done..|].
  apply cwp_swap; [split; [done|by eapply later_trans]|]. intros s' [Hg' Hl'].
  split; [done|]. split; [by eapply later_trans|apply later_refl].
Qed.

Lemma csafe_yield : csafe rr_scheduler_yield_current.
Proof.
  intros s0 s p Hg H0. destruct (ginv_running _ _ Hg) as (Hc & Hp & u & Hu & Hst).
  unfold rr_scheduler_yield_current. apply cwp_bind, cwp_lift, wp_get.
  apply cwp_bind, cwp_lift, wp_get. rewrite Hc, (g_sched _ _ Hg), (proj2 (Z.eqb_neq _ _) Hp).
  cbn [orb negb]. apply cwp_bind, cwp_lift. wp_step. apply (wp_update _ _ u); [done|].
  apply (wp_make_runnable s (Some p) None p u (set_state UT_RUNNABLE u)); try done;
    [apply Hg|congruence|by left|congruence|naive_solver|].
  intros s1 Hw1 Hl1 Heq. apply cwp_swap.
  - split; [|by eapply later_trans]. destruct Hg as [_ Hr Hy Hk Hl]. rewrite Heq in *.
    by constructor.
  - intros s' [Hg' Hl']. split; [done|]. split; [by eapply later_trans|apply later_refl].
Qed.

Lemma keeps_wake_join p s :
  ginv s None -> is_Some (rd heap s !! p) ->
  wp (wake_join_waiter p) (fun _ s' => ginv s' None /\ later (rd heap s) (rd heap s')) sane s.
Proof.
  intros Hg [u Hu]. unfold wake_join_waiter. wp_step. apply (wp_deref _ u); [done|].
  destruct (join_waiter u =? NULL) eqn:Ej; [wp_step; split; [done|apply later_refl]|]. bool_prop.
  destruct (t_join _ _ _ _ _ _ _ (w_t _ _ (g_winv _ _ Hg)) _ _ Hu) as [?|[w Hw]]; [done|].
  wp_step. apply (wp_deref _ w); [done|]. wp_step; intros Hb.
  - apply bool_decide_eq_true in Hb. wp_step. apply (wp_update _ _ w); [done|].
    apply (wp_make_runnable s None None _ w (set_state UT_RUNNABLE w)); try done;
      [apply Hg|congruence|by left|congruence|naive_solver|].
    intros s1 Hw1 Hl1 Heq. split; [|done]. destruct Hg as [_ Hr Hy Hk Hl]. rewrite Heq in *.
    by constructor.
  - split; [done|apply later_refl].
Qed.

(** A thread that exits is not resumed: what follows never runs. *)
Lemma csafe_exit v : csafe (uthread_exit v).
Proof.
  intros s0 s p Hg H0. destruct (ginv_running _ _ Hg) as (Hc & Hp & u & Hu & Hst).
  unfold uthread_exit, rr_scheduler_exit_current. apply cwp_bind, cwp_lift, wp_get.
  rewrite (g_ready _ _ Hg : runtime_ready (rd g_rr_config s) = true). cbn [negb].
  apply cwp_bind, cwp_bind, cwp_lift, wp_get.
  apply cwp_bind, cwp_lift, wp_get. rewrite Hc, (g_sched _ _ Hg), (proj2 (Z.eqb_neq _ _) Hp).
  cbn [orb negb]. apply cwp_bind, cwp_lift. wp_step. apply (wp_update _ _ u); [done|].
  wp_step. apply (wp_update _ _ (set_retval v u)); [apply lookup_insert_eq|]. glob_simpl.
  rewrite insert_insert_eq.
  destruct (ginv_stop s p u (set_state UT_DONE (set_retval v u))) as [Hg1 Hl1]; [done..|].
  eapply wp_post; [by apply keeps_wake_join; [|glob_simpl; rewrite lookup_insert_eq]|].
  intros [] s2 [Hg2 Hl2].
  apply cwp_swap; [split; [done|exact (later_trans _ _ _ H0 (later_trans _ _ _ Hl1 Hl2))]|]. intros s' [Hg' Hl'].
  destruct (Hl2 p (set_state UT_DONE (set_retval v u))) as (u2 & Hu2 & _ & Hd);
    [glob_simpl; apply lookup_insert_eq|].
  destruct (Hd eq_refl) as [Hd2 _]. destruct (Hl' p u2 Hu2) as (u3 & Hu3 & _ & Hd').
  destruct (Hd' Hd2) as [Hd3 _]. destruct (ginv_running _ _ Hg') as (_ & _ & w & Hw & Hrun).
  simplify_eq. congruence.
Qed.

(** Reading an object that was there when the function started. *)
Lemma wp_deref_later h p u s (Q : uthread -> rr_state W -> Prop) E :
  h !! p = Some u -> later h (rd heap s) ->
  (forall u', rd heap s !! p = Some u' -> Q u' s) -> wp (deref p) Q E s.
Proof. intros Hp Hl HQ. destruct (Hl p u Hp) as (u' & Hu' & _). by apply (wp_deref _ u'); auto. Qed.

Lemma csafe_submit_and_block ut s00 s0 s p :
  ginv s (Some p) -> later (rd heap s00) (rd heap s) -> later (rd heap s0) (rd heap s) ->
  is_Some (rd heap s !! ut) ->
  cwp (submit_and_block ut s) s0 (Q_safe s00 p) sane G_swap R_swap.
Proof.
  intros Hg Hh H0 [u Hu]. unfold submit_and_block.
  eapply (cwp_seq _ _ (rd heap s)); try done; [apply csafe_safe; safe_tac|apply later_refl|].
  intros s1 rc s' Hg1 Hl1 H1. assert (later (rd heap s00) (rd heap s')) by (by eapply later_trans).
  destruct (rc <? 0); [by apply cwp_ret|].
  eapply (cwp_seq _ _ (rd heap s)); [apply csafe_block|done..|].
  intros s2 [] s2' Hg2 Hl2 H2. apply cwp_bind, cwp_lift.
  eapply wp_deref_later; [done..|]. intros u' Hu'. apply cwp_ret.
  split; [done|]. split; [|done]. exact (later_trans _ _ _ Hh Hl2).
Qed.

Lemma csafe_submit op : csafe (submit_op op).
Proof.
  intros s0 s p Hg H0. unfold submit_op, rr_scheduler_current. apply cwp_bind, cwp_lift, wp_get.
  destruct (ginv_running _ _ Hg) as (Hc & Hp & u & Hu & _). rewrite Hc.
  eapply (cwp_seq _ _ (rd heap s)); try done; [apply csafe_safe; safe_tac|apply later_refl|].
  intros s1 sqe s1' Hg1 Hl1 H1. destruct (_ || _).
  { apply cwp_last; [apply csafe_safe; safe_tac|done..]. }
  apply cwp_bind, cwp_lift. eapply wp_deref_later; [done..|]. intros u1 Hu1.
  eapply (cwp_seq _ _ (rd heap s)); try done; [apply csafe_safe; safe_tac|].
  intros s2 _ s2' Hg2 Hl2 H2. destruct (Hl2 p u Hu) as (u2 & Hu2 & _).
  apply csafe_submit_and_block; try done.
Qed.

(** ** Join *)

(** Rewriting a thread's joiner. *)
Lemma ginv_set_joiner s run p u w :
  ginv s run -> rd heap s !! p = Some u -> w = NULL \/ is_Some (rd heap s !! w) ->
  let s' := wr heap (<[p := set_join_waiter w u]> (rd heap s)) s in
  ginv s' run /\ later (rd heap s) (rd heap s').
Proof.
  intros [[Ht (l & (Hlk & Htl & Hnd) & Hin)] Hr Hy Hk Hl] Hu Hw s'.
  split; [|unfold s'; glob_simpl; by apply (later_insert _ _ u)].
  constructor; try done. unfold s'. constructor; glob_simpl.
  - destruct Ht. assert (Hd : forall q, is_Some (<[p := set_join_waiter w u]> (rd heap s) !! q) <->
      is_Some (rd heap s !! q)).
    { intros q. rewrite lookup_insert_is_Some. destruct (decide (p = q)); naive_solver. }
    assert (Hb : forall q v, <[p := set_join_waiter w u]> (rd heap s) !! q = Some v ->
      exists v', rd heap s !! q = Some v' /\ state v = state v' /\
        (join_waiter v = join_waiter v' \/ join_waiter v = w)).
    { intros q v Hq. destruct (decide (p = q)) as [<-|Hne].
      - rewrite lookup_insert_eq in Hq. simplify_eq. exists u. auto.
      - rewrite lookup_insert_ne in Hq by done. exists v. auto. }
    constructor; try done.
    + intros q. rewrite Hd. auto.
    + intros q v Hq. destruct (Hb q v Hq) as (v' & Hv' & -> & _). auto.
    + intros q Hq. rewrite Hd. auto.
    + by rewrite Hd.
    + intros q. rewrite Hd. auto.
    + intros q v Hq. rewrite Hd. destruct (Hb q v Hq) as (v' & Hv' & _ & [-> | ->]); eauto.
  - exists l. split; [split; [by apply (links_update _ _ _ _ (set_join_waiter w) u)|done]|].
    intros q. rewrite Hin. destruct (decide (p = q)) as [<-|Hne].
    + rewrite lookup_insert_eq. split; intros (v & Hq & Hsv); [|simplify_eq]; eexists; split; try done.
      by simplify_eq.
    + by rewrite lookup_insert_ne.
Qed.

Lemma csafe_join i out : csafe (rr_uthread_join i out).
Proof.
  intros s0 s p Hg H0. destruct (ginv_running _ _ Hg) as (Hc & Hp & v & Hv & _).
  assert (Hmem : forall tgt t s1 s', rd heap s !! tgt = Some t -> ginv s' (Some p) ->
    later (rd heap s) (rd heap s') -> later (rd heap s1) (rd heap s') ->
    cwp (lift (t ← deref tgt;
        when (negb (out =? NULL)) (m ← get mem; put mem (store m out (le 8 (retval t))));; mret 0) s')
      s1 (Q_safe s p) sane G_swap R_swap).
  { intros tgt t s1 s' Ht Hg1 Hl1 H1. apply cwp_lift. wp_step. eapply wp_deref_later; [done..|].
    intros t1 Ht1. eapply wp_post; [apply (safe_keeps (when _ _;; mret 0)); [safe_tac|exact Hg1]|].
    intros a s2 [Hg2 Hl2]. split; [done|]. split; by eapply later_trans. }
  assert (Herr : forall e, cwp (lift (fail_int e) s) s0 (Q_safe s p) sane G_swap R_swap).
  { intros e. apply csafe_safe; [|done..]. unfold fail_int. safe_tac. }
  unfold rr_uthread_join, rr_scheduler_current. apply cwp_bind, cwp_lift.
  apply (wp_find s (Some p)); [apply Hg|by apply cwp_bind, cwp_lift, wp_get; apply Herr|].
  intros tgt t Htn Ht _. apply cwp_bind, cwp_lift, wp_get. rewrite (proj2 (Z.eqb_neq _ _) Htn), Hc.
  apply cwp_bind, cwp_lift. apply (wp_deref _ t); [done|]. apply cwp_bind, cwp_lift.
  unfold same_thread. rewrite (proj2 (Z.eqb_neq _ _) Hp). wp_step. apply (wp_deref _ v); [done|].
  wp_step. destruct (id t =? id v); [apply Herr|].
  destruct (bool_decide _); [by eapply Hmem; [..|apply later_refl|]|].
  destruct (negb _ && _); [apply Herr|].
  apply cwp_bind, cwp_lift. apply (wp_update _ _ t); [done|].
  destruct (ginv_set_joiner s (Some p) tgt t p) as [Hg1 Hl1]; [done..|right; by exists v|].
  eapply (cwp_seq _ _ (rd heap s)); [apply csafe_block|done|done|by eapply later_trans|].
  intros s2 [] s2' Hg2 Hl2 H2. by eapply Hmem.
Qed.

(** ** The application's calls *)

Ltac csafe_tac :=
  repeat lazymatch goal with
  | |- csafe (_ ≫= _) => apply csafe_bind; [|intros ?]
  | |- csafe (if _ then _ else _) => apply csafe_if
  | |- csafe (mret _) => apply csafe_ret
  | |- csafe (lift _) => apply csafe_safe; solve [safe_tac]
  | |- csafe (submit_op _) => apply csafe_submit
  | |- csafe (let _ := _ in _) => cbv zeta
  end.

Lemma keeps_uthread_create fn arg : keeps (uthread_create fn arg).
Proof.
  unfold uthread_create. apply keeps_bind; [apply safe_keeps; safe_tac|intros c].
  apply keeps_if; [apply safe_keeps; safe_tac|]. apply keeps_bind; [apply keeps_create|].
  intros r. apply safe_keeps. safe_tac.
Qed.

Lemma csafe_close fd : csafe (close fd).
Proof. unfold close, rr_io_submit_close_and_wait. csafe_tac. Qed.

(** Every call of the application keeps the invariant. *)
Lemma csafe_api c : csafe (api_call c).
Proof.
  destruct c; simpl; unfold unit_call, read, write, recv, send, accept, connect, openat, nanosleep,
    uthread_yield, uthread_join, rr_io_submit_read_and_wait, rr_io_submit_write_and_wait,
    rr_io_submit_recv_and_wait, rr_io_submit_send_and_wait, rr_io_submit_accept_and_wait,
    rr_io_submit_connect_and_wait, rr_io_submit_openat_and_wait,
    rr_io_submit_timerfd_read_and_wait; csafe_tac.
  - apply csafe_close.
  - apply csafe_lift, keeps_uthread_create.
  - apply csafe_yield.
  - apply csafe_exit.
  - apply csafe_join.
Qed.

Lemma csafe_prog p : csafe (run_prog p).
Proof.
  induction p as [|a bs p IH|k IH|c k IH]; intros s0 s run Hg H0; simpl.
  - by apply (csafe_ret tt).
  - apply (csafe_bind (lift (put mem (store (rd mem s) a bs))) (fun _ => run_prog p));
      [csafe_tac|by intros|done..].
  - by apply IH.
  - eapply (cwp_seq (api_call c) (fun v s' => run_prog (k v (rd mem s')) s') (rd heap s));
      try done; [apply csafe_api|apply later_refl|].
    intros s1 v s' Hg' Hl' H1. by apply cwp_last.
Qed.

Lemma csafe_entry (app : ptr -> Z -> prog) s0 s p :
  ginv s (Some p) -> later (rd heap s0) (rd heap s) ->
  cwp (uthread_entry app p s) s0 (Q_safe s p) sane G_swap R_swap.
Proof.
  intros Hg H0. destruct (ginv_running _ _ Hg) as (_ & Hp & u & Hu & _). unfold uthread_entry.
  rewrite (proj2 (Z.eqb_neq _ _) Hp). apply cwp_bind, cwp_bind, cwp_lift, (wp_deref _ u); [done|].
  assert (csafe (if start_fn u =? NULL then mret () else run_prog (app (start_fn u) (start_arg u))))
    as Hm by (apply csafe_if; [apply (csafe_ret tt)|apply csafe_prog]).
  eapply cwp_mono; [by apply Hm| |done]. intros s1 [] s' (Hg' & Hl' & H1).
  apply cwp_last; [apply csafe_exit|done..].
Qed.
End SchedSafety.
