(* ===== verification/ColdSafety.v ===== *)
(** Before the runtime is ready and after it has shut down: the interposed
    functions pass through without touching the threads, and start-up either
    establishes the invariant or leaves the runtime unused. *)
From stdpp Require Import gmap strings list pretty.
From coqutil Require Import Byte.
From S2P Require Import Prelude Types State Events Logic Log Scheduler Record Replay Signal IoUring Uthread Wrappers Lifecycle Machine Invariant Safety ThreadSafety SchedSafety.

Section ColdSafety.
Context {W : Type} `{!OS W} `{!Libc W}.
Implicit Types s : rr_state W.

Definition cold s : Prop := rd g_runtime_ready s = false.

(** ** Functions that may touch anything but what is gone *)

Definition inert {A} (m : M W A) : Prop := forall s, cold s -> wp m (fun _ s' => cold s') sane s.

Lemma inert_bind {A B} (m : M W A) (f : A -> M W B) :
  inert m -> (forall a, inert (f a)) -> inert (m ≫= f).
Proof.
  intros Hm Hf s Hc. wp_step. eapply wp_post; [by apply Hm|]. intros a s1 Hc1. by apply Hf.
Qed.
Lemma inert_ret {A} (a : A) : inert (mret a).
Proof. intros s Hc. by wp_step. Qed.
Lemma inert_get {T} (g : glob W T) : inert (get g).
Proof. intros s Hc. by wp_step. Qed.
Lemma inert_when b (m : M W ()) : inert m -> inert (when b m).
Proof. intros H. destruct b; [done|apply inert_ret]. Qed.
Lemma inert_halted {A} h : h <> HUndef -> inert (@halted W A h).
Proof. intros H s Hc. by wp_step. Qed.
Lemma inert_put {T} (g : glob W T) v :
  (forall s, rd g_runtime_ready (wr g v s) = rd g_runtime_ready s) -> inert (put g v).
Proof. intros H s Hc. wp_step. unfold cold. by rewrite H. Qed.
Lemma inert_quiet {A} (m : M W A) : quiet m -> inert m.
Proof.
  intros Hm s Hc. eapply wp_post; [apply Hm|]. intros a s' He. unfold cold in *. by env_simpl.
Qed.
(** Both modes are off. *)
Lemma inert_active {A} (f : bool -> M W A) : inert (f false) -> inert (rr_active ≫= f).
Proof.
  intros Hf s Hc. unfold rr_active. wp_steps.
  replace (_ && _) with false; [by apply Hf|].
  change (runtime_ready (rd g_rr_config s)) with (rd g_runtime_ready s). by rewrite Hc, andb_false_r.
Qed.
Lemma inert_replay {A} (f : bool -> M W A) : inert (f false) -> inert (rr_replay_active ≫= f).
Proof.
  intros Hf s Hc. unfold rr_replay_active. wp_steps.
  replace (_ && _) with false; [by apply Hf|].
  change (runtime_ready (rd g_rr_config s)) with (rd g_runtime_ready s). by rewrite Hc, andb_false_r.
Qed.

(** ** Functions that leave the threads and the log buffer alone *)

(** What start-up relies on between its steps. *)
Definition soft s s' : Prop :=
  rd heap s' = rd heap s /\ rd brk s' = rd brk s /\
  (rd g_runq_head s' = rd g_runq_head s /\ rd g_runq_tail s' = rd g_runq_tail s) /\
  rd g_current s' = rd g_current s /\ rd g_threads s' = rd g_threads s /\
  st_uthread s' = st_uthread s /\ rd g_guard_pages s' = rd g_guard_pages s /\
  rd g_runtime_ready s' = rd g_runtime_ready s /\ (lib_ok (rd world s) -> lib_ok (rd world s')).

Lemma soft_refl s : soft s s.
Proof. by repeat split. Qed.
Lemma soft_trans s1 s2 s3 : soft s1 s2 -> soft s2 s3 -> soft s1 s3.
Proof.
  intros (?&?&[??]&?&?&?&?&?&?) (?&?&[??]&?&?&?&?&?&?). repeat split; try congruence. auto.
Qed.

Definition gentle {A} (m : M W A) : Prop := forall s, cold s ->
  wp m (fun _ s' => soft s s' /\ st_record s' = st_record s) sane s.

Lemma soft_cold s s' : soft s s' -> cold s -> cold s'.
Proof. intros (_&_&_&_&_&_&_&H&_). unfold cold. by rewrite H. Qed.
Lemma gentle_inert {A} (m : M W A) : gentle m -> inert m.
Proof.
  intros Hm s Hc. eapply wp_post; [by apply Hm|]. intros a s' [Hs _]. by eapply soft_cold.
Qed.
Lemma gentle_bind {A B} (m : M W A) (f : A -> M W B) :
  gentle m -> (forall a, gentle (f a)) -> gentle (m ≫= f).
Proof.
  intros Hm Hf s Hc. wp_step. eapply wp_post; [by apply Hm|]. intros a s1 [H1 H1'].
  eapply wp_post; [apply Hf; by eapply soft_cold|]. intros b s2 [H2 H2'].
  split; [by eapply soft_trans|congruence].
Qed.
Lemma gentle_ret {A} (a : A) : gentle (mret a).
Proof. intros s Hc. wp_step. split; [apply soft_refl|done]. Qed.
Lemma gentle_get {T} (g : glob W T) : gentle (get g).
Proof. intros s Hc. wp_step. split; [apply soft_refl|done]. Qed.
Lemma gentle_when b (m : M W ()) : gentle m -> gentle (when b m).
Proof. intros H. destruct b; [done|apply gentle_ret]. Qed.
Lemma gentle_halted {A} h : h <> HUndef -> gentle (@halted W A h).
Proof. intros H s Hc. by wp_step. Qed.
Lemma gentle_put {T} (g : glob W T) v :
  (forall s, soft s (wr g v s) /\ st_record (wr g v s) = st_record s) -> gentle (put g v).
Proof. intros H s Hc. wp_step. apply H. Qed.
Lemma gentle_os r : gentle (os r).
Proof.
  intros s Hc. apply wp_os. intros w rp s' Hcall He Hw _ _ _.
  assert (lib_ok (rd world s) -> lib_ok (rd world s')) as Hl.
  { intros Hl. rewrite Hw. by eapply lib_ok_call. }
  revert Hl. env_simpl. intros Hl. by repeat split.
Qed.
Lemma gentle_os_rc r : gentle (os_rc r).
Proof. apply gentle_bind; [apply gentle_os|intros; apply gentle_ret]. Qed.
Lemma gentle_active {A} (f : bool -> M W A) : gentle (f false) -> gentle (rr_active ≫= f).
Proof.
  intros Hf s Hc. unfold rr_active. wp_steps.
  replace (_ && _) with false; [by apply Hf|].
  change (runtime_ready (rd g_rr_config s)) with (rd g_runtime_ready s). by rewrite Hc, andb_false_r.
Qed.
Lemma gentle_replay {A} (f : bool -> M W A) : gentle (f false) -> gentle (rr_replay_active ≫= f).
Proof.
  intros Hf s Hc. unfold rr_replay_active. wp_steps.
  replace (_ && _) with false; [by apply Hf|].
  change (runtime_ready (rd g_rr_config s)) with (rd g_runtime_ready s). by rewrite Hc, andb_false_r.
Qed.
End ColdSafety.

Create HintDb cold discriminated.
#[export] Hint Constants Opaque : cold.
#[export] Hint Resolve inert_ret inert_get gentle_ret gentle_get gentle_os gentle_os_rc : cold.
#[export] Hint Extern 3 (gentle (put _ _)) => apply gentle_put; intros ?; by repeat split : cold.
#[export] Hint Extern 3 (inert (put _ _)) => apply inert_put; by intros ? : cold.
#[export] Hint Extern 3 (gentle (halted _)) => apply gentle_halted; discriminate : cold.
#[export] Hint Extern 3 (inert (halted _)) => apply inert_halted; discriminate : cold.
#[export] Hint Extern 8 (inert _) => apply gentle_inert : cold.

Ltac cold_tac :=
  repeat lazymatch goal with
  | |- ?P (when false _) => change (P (mret tt))
  | |- ?P (if false then _ else ?m) => change (P m)
  | |- ?P (if negb false then ?m else _) => change (P m)
  | |- inert (rr_active ≫= _) => apply inert_active
  | |- inert (rr_replay_active ≫= _) => apply inert_replay
  | |- inert (_ ≫= _) => apply inert_bind; [|intros ?]
  | |- inert (when _ _) => apply inert_when
  | |- inert (match ?o with _ => _ end) => destruct o
  | |- inert (let _ := _ in _) => cbv zeta
  | |- gentle (rr_active ≫= _) => apply gentle_active
  | |- gentle (rr_replay_active ≫= _) => apply gentle_replay
  | |- gentle (_ ≫= _) => apply gentle_bind; [|intros ?]
  | |- gentle (when _ _) => apply gentle_when
  | |- gentle (match ?o with _ => _ end) => destruct o
  | |- gentle (let _ := _ in _) => cbv zeta
  | |- _ => solve [auto with cold]
  end.

Section Functions.
Context {W : Type} `{!OS W} `{!Libc W}.
Implicit Types s : rr_state W.

Lemma gentle_call f args : gentle (call f args).
Proof. unfold call. cold_tac. Qed.
Lemma gentle_debugf text : gentle (rr_debugf text).
Proof. unfold rr_debugf. cold_tac. Qed.
Lemma gentle_call_real slot r : gentle (call_real slot r).
Proof. unfold call_real. cold_tac. Qed.
Hint Resolve gentle_call gentle_debugf gentle_call_real : cold.
Lemma gentle_resolve slot name : gentle (resolve slot name).
Proof. unfold resolve. cold_tac. Qed.
Lemma gentle_write_loop fuel p n : gentle (write_loop fuel p n).
Proof. revert n. induction fuel; intros n; simpl; cold_tac. Qed.
Lemma gentle_read_loop fuel fd len dn buf : gentle (read_loop fuel fd len dn buf).
Proof. revert dn buf. induction fuel; intros dn buf; simpl; cold_tac. Qed.
Hint Resolve gentle_resolve gentle_write_loop gentle_read_loop : cold.
Lemma gentle_real f args : gentle (real f args).
Proof. unfold real. cold_tac. Qed.
Lemma gentle_write_direct p : gentle (rr_write_direct p).
Proof. unfold rr_write_direct. cold_tac. Qed.
Lemma gentle_read_full fd n : gentle (rr_read_full fd n).
Proof. unfold rr_read_full. cold_tac. Qed.
Hint Resolve gentle_real gentle_write_direct gentle_read_full : cold.
Lemma gentle_record_struct nr f args a p n : gentle (record_struct nr f args a p n).
Proof. unfold record_struct. cold_tac. Qed.
Hint Resolve gentle_record_struct : cold.
Lemma gentle_clock_gettime clk tp : gentle (clock_gettime clk tp).
Proof. unfold clock_gettime. cold_tac. Qed.
Lemma gentle_getpid : gentle getpid.
Proof. unfold getpid. cold_tac. Qed.
Hint Resolve gentle_clock_gettime gentle_getpid : cold.
Lemma gentle_now : gentle rr_now_mono_ns.
Proof. unfold rr_now_mono_ns. cold_tac. Qed.
Lemma gentle_resolve_io : gentle rr_resolve_real_io.
Proof. unfold rr_resolve_real_io. cold_tac. Qed.
Lemma gentle_replay_init path : gentle (rr_replay_init path).
Proof.
  unfold rr_replay_init, rr_replay_resolve_real_io, replay_close_fd. cold_tac.
Qed.
Lemma gentle_signal_init : gentle rr_signal_init.
Proof. unfold rr_signal_init. cold_tac. Qed.
Lemma gentle_io_init n : gentle (rr_io_init n).
Proof. unfold rr_io_init. cold_tac. Qed.
Lemma gentle_submit_signal fd : gentle (rr_io_submit_signal_read fd).
Proof. unfold rr_io_submit_signal_read. cold_tac. Qed.
Lemma gentle_sched_init : gentle rr_scheduler_init.
Proof. unfold rr_scheduler_init. cold_tac. Qed.
Lemma gentle_parse_env : gentle rr_parse_env.
Proof.
  unfold rr_parse_env, getenv. do 5 (apply gentle_bind; [cold_tac|intros ?]).
  intros s Hc. wp_step. wp_step. wp_step.
  assert (forall v, soft s (wr errno v s) /\ st_record (wr errno v s) = st_record s) as Hv
    by (intros v; by repeat split).
  destruct a3 as [x|]; [destruct (String.eqb x "")|]; wp_steps; (split; [by repeat split|done]).
Qed.

(** Shutting down. *)
Lemma inert_flush : inert rr_record_flush.
Proof. unfold rr_record_flush. cold_tac. Qed.
Hint Resolve inert_flush : cold.
Lemma inert_record_shutdown : inert rr_record_shutdown.
Proof. unfold rr_record_shutdown. cold_tac. Qed.
Lemma inert_sched_shutdown : inert rr_scheduler_shutdown.
Proof. unfold rr_scheduler_shutdown, rr_scheduler_unregister_all. cold_tac. Qed.
Lemma inert_replay_shutdown : inert rr_replay_shutdown.
Proof. unfold rr_replay_shutdown. cold_tac. Qed.
Lemma inert_io_shutdown : inert rr_io_shutdown.
Proof. unfold rr_io_shutdown. cold_tac. Qed.
End Functions.
