(* ===== verification/LifecycleSafety.v ===== *)
(** Start-up establishes the invariant or leaves the runtime off, shutdown takes
    it down without touching what it freed, and a process whose runtime is off
    passes every call through. *)
From stdpp Require Import gmap strings list pretty.
From coqutil Require Import Byte.
From S2P Require Import Prelude Types State Events Logic Log Scheduler Record Replay Signal IoUring Uthread Wrappers Lifecycle Machine Invariant Safety ThreadSafety SchedSafety ColdSafety.

#[export] Hint Resolve gentle_call gentle_debugf gentle_call_real gentle_resolve gentle_real
  gentle_write_direct gentle_read_full gentle_record_struct gentle_clock_gettime gentle_getpid
  gentle_now gentle_resolve_io gentle_replay_init gentle_signal_init gentle_io_init
  gentle_submit_signal gentle_sched_init gentle_parse_env inert_flush inert_record_shutdown
  inert_sched_shutdown inert_replay_shutdown inert_io_shutdown : cold.

Section LifecycleSafety.
Context {W : Type} `{!OS W} `{!Libc W}.
Implicit Types s : rr_state W.

(** ** Calls while the runtime is off *)

(** [m] returns without switching. *)
Definition cinert {A} (m : C W A) : Prop := forall s0 s G R, cold s ->
  cwp (m s) s0 (fun _ _ s' => cold s') sane G R.

Lemma cinert_bind {A B} (m : C W A) (f : A -> C W B) :
  cinert m -> (forall a, cinert (f a)) -> cinert (m ≫= f).
Proof.
  intros Hm Hf s0 s G R Hc. apply cwp_bind. eapply cwp_mono; [by apply Hm| |done].
  intros s1 a s' Hc'. by apply Hf.
Qed.
Lemma cinert_ret {A} (a : A) : cinert (mret a).
Proof. by intros s0 s G R Hc. Qed.
Lemma cinert_lift {A} (m : M W A) : inert m -> cinert (lift m).
Proof. intros Hm s0 s G R Hc. by apply cwp_lift, Hm. Qed.
Lemma cinert_if {A} (b : bool) (m1 m2 : C W A) :
  cinert m1 -> cinert m2 -> cinert (if b then m1 else m2).
Proof. by destruct b. Qed.
Lemma cinert_active {A} (f : bool -> C W A) : cinert (f false) -> cinert (lift rr_active ≫= f).
Proof.
  intros Hf s0 s G R Hc. apply cwp_bind, cwp_lift. unfold rr_active. wp_steps.
  replace (_ && _) with false; [by apply Hf|].
  change (runtime_ready (rd g_rr_config s)) with (rd g_runtime_ready s). by rewrite Hc, andb_false_r.
Qed.
Lemma cinert_replay {A} (f : bool -> C W A) :
  cinert (f false) -> cinert (lift rr_replay_active ≫= f).
Proof.
  intros Hf s0 s G R Hc. apply cwp_bind, cwp_lift. unfold rr_replay_active. wp_steps.
  replace (_ && _) with false; [by apply Hf|].
  change (runtime_ready (rd g_rr_config s)) with (rd g_runtime_ready s). by rewrite Hc, andb_false_r.
Qed.
Lemma cinert_not_ready {A} (m1 m2 : C W A) :
  cinert m1 -> cinert (c ← lift (get g_rr_config); if negb (runtime_ready c) then m1 else m2).
Proof.
  intros Hm s0 s G R Hc. apply cwp_bind, cwp_lift, wp_get.
  change (runtime_ready (rd g_rr_config s)) with (rd g_runtime_ready s). rewrite Hc. by apply Hm.
Qed.

(** A silent function, then anything. *)
Lemma cinert_bind_then {A B} (m : C W A) (f : A -> C W B) s0 s Q G R :
  cinert m -> cold s -> (forall s1 s' a, cold s' -> cwp (f a s') s1 Q sane G R) ->
  cwp ((m ≫= f) s) s0 Q sane G R.
Proof.
  intros Hm Hc Hf. apply cwp_bind. eapply cwp_mono; [by apply Hm| |done]. intros. by apply Hf.
Qed.
(** Three liftings in a row are one. *)
Lemma cwp_assoc2 {A B D T} (m1 : M W A) (m2 : M W B) (m3 : M W D) (f : D -> C W T) s0 s Q E G R :
  wp (m1;; m2;; m3) (fun a s' => cwp (f a s') s0 Q E G R) E s ->
  cwp ((lift m1;; lift m2;; x ← lift m3; f x) s) s0 Q E G R.
Proof.
  unfold wp, mbind, M_bind, C_bind, lift. intros H. destruct (m1 s) as [a1 s1|]; simpl; [|done].
  destruct (m2 s1) as [a2 s2|]; simpl; [|done]. by destruct (m3 s2).
Qed.

Ltac cinert_tac :=
  repeat lazymatch goal with
  | |- cinert (if negb false then ?m else _) => change (cinert m)
  | |- cinert (if false then _ else ?m) => change (cinert m)
  | |- cinert (lift rr_active ≫= _) => apply cinert_active
  | |- cinert (lift rr_replay_active ≫= _) => apply cinert_replay
  | |- cinert (_ ≫= _) => apply cinert_bind; [|intros ?]
  | |- cinert (if _ then _ else _) => apply cinert_if
  | |- cinert (mret _) => apply cinert_ret
  | |- cinert (lift _) => apply cinert_lift; solve [cold_tac]
  | |- cinert (let _ := _ in _) => cbv zeta
  end.

Lemma cinert_close fd : cinert (close fd).
Proof. unfold close. cinert_tac. Qed.
Lemma inert_uthread_create fn arg : inert (uthread_create fn arg).
Proof.
  intros s Hc. unfold uthread_create. wp_step. wp_step.
  change (runtime_ready (rd g_rr_config s)) with (rd g_runtime_ready s). rewrite Hc. cbn [negb].
  by wp_steps.
Qed.

Lemma cinert_api c : cinert (api_call c).
Proof.
  destruct c; cbn [api_call]; lazymatch goal with
    | |- cinert (close _) => apply cinert_close
    | |- cinert (lift (uthread_create _ _)) => apply cinert_lift, inert_uthread_create
    | |- cinert (lift _) =>
        apply cinert_lift; unfold gettimeofday, getuid, uname, stat, fstat, lstat, getcwd; cold_tac
    | |- cinert (unit_call _) =>
        apply cinert_bind; [apply cinert_not_ready; cinert_tac|intros; apply cinert_ret]
    | |- cinert (uthread_join _ _) => apply cinert_not_ready; cinert_tac
    | |- _ => unfold read, write, recv, send, accept, connect, openat, nanosleep; cinert_tac
    end.
Qed.

Lemma cinert_prog p : cinert (run_prog p).
Proof.
  induction p as [|a bs p IH|k IH|c k IH]; intros s0 s G R Hc; simpl; [done|by apply IH..|].
  apply cwp_co_bind. eapply cwp_mono; [by apply cinert_api| |done]. intros s1 v s' Hc'. by apply IH.
Qed.

(** ** Shutdown *)

Lemma cinert_signal_shutdown : cinert rr_signal_shutdown.
Proof.
  unfold rr_signal_shutdown. apply cinert_bind; [cinert_tac|intros fd].
  apply cinert_bind; [|intros; cinert_tac].
  apply cinert_if; [|cinert_tac]. apply cinert_bind; [apply cinert_close|intros; cinert_tac].
Qed.
Lemma cinert_record_side : cinert record_side_shutdown.
Proof.
  unfold record_side_shutdown. apply cinert_bind; [cinert_tac|intros []].
  apply cinert_bind; [apply cinert_signal_shutdown|intros []; cinert_tac].
Qed.
Lemma cinert_unwind c : cinert (unwind_modes c).
Proof.
  unfold unwind_modes. apply cinert_bind; [|intros []; cinert_tac].
  apply cinert_if; [apply cinert_record_side|cinert_tac].
Qed.

(** Every allocated thread is freed once. *)
Lemma wp_shutdown_loop items s (Q : () -> rr_state W -> Prop) :
  cold s -> NoDup items -> (forall p, p ∈ items -> is_Some (rd heap s !! p)) ->
  (forall s', cold s' -> Q tt s') -> wp (shutdown_loop items) Q sane s.
Proof.
  revert s. induction items as [|p items IH]; intros s Hc Hnd Hin HQ; simpl; [wp_step; by apply HQ|].
  apply NoDup_cons in Hnd as [Hp Hnd].
  destruct (Hin p ltac:(set_solver)) as [u Hu].
  destruct (p =? NULL).
  { apply IH; try done. intros q Hq. apply Hin. set_solver. }
  wp_step. apply (wp_deref _ u); [done|]. wp_step.
  assert (quiet (when (negb (stack_map u =? NULL) && (0 <? stack_map_size u))
    (call "munmap" [stack_map u; stack_map_size u];; mret tt))) as Hq.
  { unfold call. quiet_tac. }
  eapply wp_post; [apply Hq|]. intros [] s1 He. wp_step. unfold wp at 1, free_ut.
  assert (rd heap s1 = rd heap s) as Hh by (by env_simpl). rewrite Hh, Hu.
  apply IH; [unfold cold in *; by env_simpl|done| |done].
  intros q Hq'. glob_simpl. rewrite lookup_delete_ne by congruence. apply Hin. set_solver.
Qed.

Lemma wp_uthread_shutdown s run (Q : () -> rr_state W -> Prop) :
  cold s -> tinv (rd heap s) (rd brk s) (rd g_current s) (rd g_threads s) (rd g_allocated s)
    (rd g_guard_pages s) run ->
  (forall s', cold s' -> Q tt s') -> wp rr_uthread_shutdown Q sane s.
Proof.
  intros Hc [] HQ. unfold rr_uthread_shutdown. wp_step. wp_step. wp_step.
  destruct t_lockstep as [Hi _]. rewrite Hi in *.
  apply wp_shutdown_loop; try done; [intros p; apply t_items|].
  intros s' Hc'. wp_step. by apply HQ.
Qed.

Lemma shutdown_ready s0 s p G R :
  ginv s (Some p) -> cwp (rr_shutdown s) s0 (fun _ _ _ => True) sane G R.
Proof.
  intros Hg. unfold rr_shutdown. apply cwp_bind, cwp_lift, wp_get.
  rewrite (g_ready _ _ Hg : runtime_ready (rd g_rr_config s) = true). cbn [negb].
  apply cwp_bind, cwp_lift, wp_put. apply cwp_bind, cwp_lift.
  apply (wp_uthread_shutdown _ (Some p)); [done|apply Hg|]. intros s1 Hc1.
  apply (cwp_mono _ _ (fun _ _ s' => cold s') _ sane); [|done..].
  revert s0 s1 G R Hc1. apply cinert_bind; [cinert_tac|intros []].
  apply cinert_bind; [|intros []; cinert_tac]. apply cinert_if; [apply cinert_record_side|cinert_tac].
Qed.
Lemma cinert_shutdown : cinert rr_shutdown.
Proof.
  intros s0 s G R Hc. unfold rr_shutdown. apply cwp_bind, cwp_lift, wp_get.
  change (runtime_ready (rd g_rr_config s)) with (rd g_runtime_ready s). by rewrite Hc.
Qed.

(** ** Start-up *)

(** After the log buffer is set up or given back, the invariant of the log holds. *)
Lemma wp_record_init path s :
  cold s -> rd g_ring_used s = 0 -> rd g_ring s = None ->
  wp (rr_record_init path) (fun _ s' => soft s s' /\ rec_inv s') sane s.
Proof.
  intros Hc Hu Hr0. unfold rr_record_init, unmap_ring.
  assert (Hstep : forall {A} (m : M W A) (Q : A -> rr_state W -> Prop) s1, gentle m -> soft s s1 ->
    (forall a s2, soft s s2 -> st_record s2 = st_record s1 -> Q a s2) -> wp m Q sane s1).
  { intros A m Q s1 Hm Hs1 HQ. eapply wp_post; [apply Hm; by eapply soft_cold|].
    intros a s2 [H2 H2']. apply HQ; [by eapply soft_trans|done]. }
  assert (Hnone : forall (rc : Z) s1, soft s s1 ->
    wp ((call "munmap" [RR_LOG_RING_SIZE];; put g_ring None);; mret rc)
      (fun _ s' => soft s s' /\ rec_inv s') sane s1).
  { intros rc s1 H1. wp_step. wp_step. apply Hstep; [cold_tac|done|]. intros _ s2 H2 _. wp_steps.
    split; [exact H2|by intros [? ?]]. }
  wp_step. apply Hstep; [cold_tac|apply soft_refl|]. intros r s1 H1 R1.
  destruct (negb (r =? 0)).
  { wp_step. split; [done|]. intros [x Hx]. unfold rd in *. simpl in *. congruence. }
  wp_step. apply Hstep; [cold_tac|done|]. intros p s2 H2 R2.
  destruct (p =? MAP_FAILED); [wp_steps; split; [exact H2|by intros [? ?]]|].
  wp_step. wp_step. wp_step.
  apply (Hstep _ _ _ (wr g_ring (Some ∅) s2)); [cold_tac|exact H2|]. intros rp s3 H3 R3.
  wp_step. wp_step. wp_step; [by apply (Hnone (-1))|].
  wp_step. apply (Hstep _ _ _ (wr g_log_fd (rp_rc rp) s3)); [cold_tac|exact H3|].
  intros now s4 H4 R4. wp_step. apply Hstep; [cold_tac|done|]. intros pid s5 H5 R5. wp_step.
  apply Hstep; [cold_tac|done|]. intros w s6 H6 R6. destruct (negb (w =? 0)).
  - wp_step. apply Hstep; [cold_tac|done|]. intros _ s7 H7 _. wp_step. wp_step.
    by apply (Hnone (-1)).
  - wp_step. split; [done|]. intros _. unfold rd in *. simpl in *.
    rewrite R6, R5, R4. simpl. rewrite R3. simpl. rewrite R2, R1, Hu. unfold RR_LOG_RING_SIZE. lia.
Qed.

(** The threads of a process that has not started its runtime. *)
Record fresh s : Prop := {
  fr_heap : rd heap s = ∅; fr_brk : rd brk s = 1;
  fr_queue : rd g_runq_head s = NULL /\ rd g_runq_tail s = NULL;
  fr_current : rd g_current s = NULL;
  fr_threads : rd g_threads s = v_empty; fr_allocated : rd g_allocated s = v_empty;
  fr_guard : rd g_guard_pages s = v_empty;
  fr_lib : lib_ok (rd world s); fr_cold : cold s
}.
Lemma fresh_soft s s' : fresh s -> soft s s' -> fresh s'.
Proof.
  intros [???????? Hc] Hs. pose proof (soft_cold _ _ Hs Hc).
  destruct Hs as (?&?&[? ?]&?&?&Hu&?&?&?). destruct fr_queue0.
  constructor; [congruence|congruence|split; congruence|congruence|congruence| |congruence|auto|done].
  change (f_allocated (st_uthread s') = v_empty). by rewrite Hu.
Qed.

(** The main thread is set up; the runtime is not marked ready yet. *)
Definition main_ready s : Prop :=
  winv s (Some 1) /\ rec_inv s /\ lib_ok (rd world s) /\ cold s.

Definition main_thread (fs : Z) : uthread :=
  set_tls_block fs (set_state UT_RUNNING (set_id 1 uthread_zero)).

Lemma main_tables fs s :
  rd heap s = {[1 := main_thread fs]} -> rd brk s = 2 -> rd g_current s = 1 ->
  rd g_runq_head s = NULL -> rd g_runq_tail s = NULL -> rd g_threads s = Vec [1] 16 ->
  rd g_allocated s = Vec [1] 16 -> rd g_guard_pages s = v_empty -> winv s (Some 1).
Proof.
  intros Hh Hb Hc Hhd Htl Hth Hal Hgp.
  assert (Hdom : forall q, is_Some (rd heap s !! q) <-> q = 1).
  { intros q. rewrite Hh, lookup_singleton_is_Some. naive_solver. }
  assert (Hval : forall q v, rd heap s !! q = Some v -> q = 1 /\ v = main_thread fs).
  { intros q v. rewrite Hh, lookup_singleton_Some. naive_solver. }
  constructor.
  - rewrite Hb, Hc, Hth, Hal, Hgp. constructor; try done.
    + intros q ->%Hdom. lia.
    + intros q v (-> & ->)%Hval. done.
    + intros q [= <-]. by rewrite Hdom.
    + right. by rewrite Hdom.
    + intros q. rewrite Hdom. simpl. by rewrite list_elem_of_singleton.
    + simpl. apply NoDup_singleton.
    + intros q v (-> & ->)%Hval. by left.
  - exists []. rewrite Hhd, Htl. split; [split; [done|split; [done|constructor]]|].
    intros q. split; [by intros ?%not_elem_of_nil|]. by intros (v & (-> & ->)%Hval & Hv).
Qed.

(** The first element of an empty table. *)
Lemma wp_first_entry (g : glob W (vec ptr)) p s (Q : Z -> rr_state W -> Prop) :
  rd g s = v_empty -> wr g (rd g s) s = s ->
  (forall v s1, rd g (wr g v s1) = v) -> (forall v w s1, wr g v (wr g w s1) = wr g v s1) ->
  lib_ok (rd world s) ->
  (forall s1, env_only s s1 -> lib_ok (rd world s1) -> Q 0 (wr g (Vec [p] 16) s1)) ->
  wp (ok ← grow_if_full g 8; if negb ok then mret (-1) else vec_store g p;; mret 0) Q sane s.
Proof.
  intros Hg Hid Hrw Hww Hl HQ. wp_step. apply wp_grow_lib; [lia|by rewrite Hg|done|done|].
  intros s1 He1 Hl1. rewrite Hg. change (next_cap 8 (@v_empty ptr)) with (Some 16). cbn [negb].
  wp_step. eapply wp_store_grown; [apply Hrw|simpl; lia|]. rewrite Hww. wp_step. by apply HQ.
Qed.

(** While the main thread, now [u], is being set up from [s]. *)
Record booting s (u : uthread) (cur : ptr) (thr al : vec ptr) s' : Prop := {
  bo_heap : rd heap s' = {[1 := u]}; bo_brk : rd brk s' = 2;
  bo_queue : rd g_runq_head s' = NULL /\ rd g_runq_tail s' = NULL;
  bo_current : rd g_current s' = cur;
  bo_threads : rd g_threads s' = thr; bo_allocated : rd g_allocated s' = al;
  bo_guard : rd g_guard_pages s' = v_empty;
  bo_lib : lib_ok (rd world s'); bo_cold : cold s'; bo_rec : rec_inv s';
  bo_running : rd g_sched_running s' = rd g_sched_running s
}.
Lemma booting_env s u cur thr al s1 s2 :
  booting s u cur thr al s1 -> env_only s1 s2 -> lib_ok (rd world s2) -> booting s u cur thr al s2.
Proof. intros [] He Hl. revert Hl. env_simpl. intros Hl. by constructor. Qed.
Lemma wp_booting_os r s u cur thr al s1 (Q : os_resp -> rr_state W -> Prop) :
  booting s u cur thr al s1 -> (forall rp s2, booting s u cur thr al s2 -> Q rp s2) ->
  wp (os r) Q sane s1.
Proof.
  intros Hb HQ. apply wp_os_env; [apply Hb|]. intros rp s2 He Hl. apply HQ. by eapply booting_env.
Qed.
Lemma wp_booting_update f s u cur thr al s1 (Q : () -> rr_state W -> Prop) :
  booting s u cur thr al s1 -> (forall s2, booting s (f u) cur thr al s2 -> Q tt s2) ->
  wp (update 1 f) Q sane s1.
Proof.
  intros [] HQ. apply (wp_update _ _ u); [by rewrite bo_heap0|]. apply HQ.
  constructor; try done. glob_simpl. by rewrite bo_heap0.
Qed.
Lemma wp_booting_free s u cur thr al s1 (P : rr_state W -> Prop) :
  booting s u cur thr al s1 ->
  wp (free_ut 1;; mret (-1)) (fun rc s' => cold s' /\ (rc = 0 -> P s')) sane s1.
Proof. intros []. wp_step. unfold wp at 1, free_ut. by rewrite bo_heap0. Qed.

Lemma booting_calloc s s0 :
  fresh s -> rec_inv s -> env_only s s0 -> lib_ok (rd world s0) ->
  booting s uthread_zero NULL v_empty v_empty
    (wr heap (<[1 := uthread_zero]> ∅) (wr brk (1 + 1) s0)).
Proof.
  intros [] Hr He Hl. revert Hl. env_simpl. intros Hl. destruct fr_queue0. by constructor.
Qed.

Lemma wp_init_main s :
  fresh s -> rec_inv s ->
  wp rr_uthread_init_main (fun rc s' => cold s' /\ (rc = 0 -> main_ready s' /\
    rd g_sched_running s' = rd g_sched_running s)) sane s.
Proof.
  intros Hf Hr.
  unfold rr_uthread_init_main, calloc_ut, rr_get_fs_base, rr_scheduler_set_current,
    rr_set_scheduler_tls_base, rr_scheduler_register_thread, remember_thread, call, os_rc.
  wp_step. wp_step. wp_step. apply wp_os_env; [apply Hf|]. intros rp0 s0 He0 Hl0. wp_step.
  assert (rd brk s0 = 1 /\ rd heap s0 = ∅ /\ cold s0) as (Hb0 & Hh0 & Hc0).
  { destruct Hf. unfold cold. by env_simpl. }
  wp_step; [wp_step; cbn [Z.eqb]; by wp_step|].
  do 9 wp_step. rewrite Hb0, Hh0. cbn [Z.eqb].
  pose proof (booting_calloc s s0 Hf Hr He0 Hl0) as B0. clear Hf He0 Hl0 Hb0 Hh0 Hc0.
  wp_step. eapply wp_booting_update; [exact B0|]. intros s1 B1.
  wp_step. eapply wp_booting_update; [exact B1|]. intros s2 B2.
  wp_step. wp_step. eapply wp_booting_os; [exact B2|]. intros rp1 s3 B3. wp_step.
  destruct (negb _); [by eapply wp_booting_free|].
  wp_step. wp_step. eapply wp_booting_os; [exact B3|]. intros rp2 s4 B4. wp_step.
  destruct (rp_rc rp2 =? 0); [|by eapply wp_booting_free].
  wp_step. eapply wp_booting_update; [exact B4|]. intros s5 B5. do 4 wp_step.
  assert (B6 : booting s (main_thread (rp_out rp2)) 1 v_empty v_empty
    (wr g_scheduler_tls (rp_out rp2) (wr g_current 1 s5))) by (destruct B5; by constructor).
  wp_step. cbn [Z.eqb]. set (s6 := wr g_scheduler_tls _ _) in *.
  apply wp_first_entry; [apply B6|by destruct s6 as [????[]?????]|done|done|apply B6|].
  intros s7 He7 Hl7. cbn [Z.eqb negb].
  assert (B7 : booting s (main_thread (rp_out rp2)) 1 (Vec [1] 16) v_empty
    (wr g_threads (Vec [1] 16) s7)).
  { destruct (booting_env _ _ _ _ _ _ _ B6 He7 Hl7). by constructor. }
  wp_step. set (s8 := wr g_threads _ _) in *.
  apply wp_first_entry; [apply B7|by destruct s8 as [?????[]????]|done|done|apply B7|].
  intros s9 He9 Hl9. cbn [Z.eqb negb]. wp_steps.
  destruct (booting_env _ _ _ _ _ _ _ B7 He9 Hl9) as [].
  split; [done|]. intros _. split; [|done]. destruct bo_queue0.
  split; [|done]. apply (main_tables (rp_out rp2)); done.
Qed.

Lemma rec_inv_same s s' : st_record s' = st_record s -> rec_inv s -> rec_inv s'.
Proof. intros H. unfold rec_inv, rd. simpl. by rewrite H. Qed.

Lemma init_record_side_ok path s0 s G R :
  cold s -> rd g_ring_used s = 0 -> rd g_ring s = None ->
  cwp (init_record_side path s) s0
    (fun _ ok s' => cold s' /\ (ok = true -> soft s s' /\ rec_inv s')) sane G R.
Proof.
  intros Hc Hu Hr. unfold init_record_side.
  assert (Hoff : forall {A} (m : C W A) s0 s1, cinert m -> cold s1 ->
    cwp ((m;; mret false) s1) s0
      (fun _ ok s' => cold s' /\ (ok = true -> soft s s' /\ rec_inv s')) sane G R).
  { intros A m s2 s1 Hm Hc1. apply cwp_bind. eapply cwp_mono; [by apply Hm| |done].
    intros ? ? s' Hc'. by split. }
  assert (Hstep : forall {A} (m : M W A) (Q : A -> rr_state W -> Prop) s1, gentle m ->
    soft s s1 -> rec_inv s1 -> (forall a s2, soft s s2 -> rec_inv s2 -> Q a s2) -> wp m Q sane s1).
  { intros A m Q s1 Hm Hs1 Hr1 HQ. eapply wp_post; [apply Hm; by eapply soft_cold|].
    intros a s2 [H2 H2']. apply HQ; [by eapply soft_trans|by eapply rec_inv_same]. }
  apply cwp_bind, cwp_lift. eapply wp_post; [by apply wp_record_init|]. intros rc s1 [H1 R1].
  destruct (negb _); [split; [by eapply soft_cold|done]|].
  apply cwp_bind, cwp_lift, Hstep; [cold_tac|done..|]. intros rc2 s2 H2 R2.
  destruct (negb _); [apply Hoff; [cinert_tac|by eapply soft_cold]|].
  apply cwp_bind, cwp_lift, Hstep; [cold_tac|done..|]. intros rc3 s3 H3 R3.
  destruct (negb _).
  { apply cinert_bind_then; [apply cinert_signal_shutdown|by eapply soft_cold|].
    intros s4 s5 [] Hc5. apply Hoff; [cinert_tac|done]. }
  apply cwp_bind, cwp_lift. unfold rr_signal_fd. apply wp_get.
  apply cwp_bind, cwp_lift, Hstep; [cold_tac|done..|]. intros rc4 s4 H4 R4.
  destruct (negb _); [apply Hoff; [apply cinert_record_side|by eapply soft_cold]|].
  apply cwp_ret. split; [by eapply soft_cold|done].
Qed.

Definition live s : Prop := cold s \/ exists p, ginv s (Some p).

Lemma sched_init_running s :
  wp rr_scheduler_init (fun rc s' => negb (rc =? 0) = false -> rd g_sched_running s' = true) sane s.
Proof.
  unfold rr_scheduler_init, call, os_rc. wp_steps. apply wp_os. intros w rp s1 _ _ _ _ _ _.
  wp_steps; [done|]. apply wp_os. intros w' rp' s2 _ _ _ _ _ _. wp_steps; [|done].
  apply wp_os. intros. by wp_steps.
Qed.

Lemma init_threads_ok c s0 s G R :
  fresh s -> rec_inv s -> cwp (init_threads c s) s0 (fun _ _ s' => live s') sane G R.
Proof.
  intros Hf Hr. unfold init_threads.
  assert (Hoff : forall (m : C W ()) s0 s1, cinert m -> cold s1 ->
    cwp (m s1) s0 (fun _ _ s' => live s') sane G R).
  { intros m s2 s1 Hm Hc1. eapply cwp_mono; [by apply Hm| |done]. intros ? ? s' Hc'. by left. }
  apply cwp_bind, cwp_lift. eapply wp_post; [apply wp_conj; [apply gentle_sched_init, Hf|
    apply sched_init_running]|]. intros rc s1 [[H1 R1] Hrun].
  pose proof (fresh_soft _ _ Hf H1) as Hf1.
  destruct (negb (rc =? 0)) eqn:Erc; [apply Hoff; [apply cinert_unwind|apply Hf1]|].
  apply cwp_bind, cwp_lift.
  eapply wp_post; [apply wp_init_main; [done|by eapply rec_inv_same]|]. intros rc2 s2 [Hc2 Hm2].
  destruct (negb (rc2 =? 0)) eqn:Erc2.
  { apply Hoff; [|done]. apply cinert_bind; [cinert_tac|intros []; apply cinert_unwind]. }
  bool_prop. destruct (Hm2 Erc2) as [(Hw2 & Hr2 & Hl2 & _) Hrun2].
  assert (rd g_sched_running s2 = true) as Hk2 by (rewrite Hrun2; by apply Hrun).
  assert (Hb2 : base s2). { constructor; [done|done|apply (t_cur _ _ _ _ _ _ _ (w_t _ _ Hw2))]. }
  (* the first event *)
  assert (Hstart : safe (put g_rr_seq 0;; when (mode_record c) (rr_log_sched 0 1);;
    (if mode_replay c then rr_replay_expect_sched 0 1 else mret 0))) by safe_tac.
  apply (cwp_assoc2 (put g_rr_seq 0) (when (mode_record c) (rr_log_sched 0 1))).
  eapply wp_post; [by apply Hstart|]. intros rc3 s3 [Hc3 Hb3].
  assert (winv s3 (Some 1)) as Hw3 by (by eapply winv_core).
  assert (cold s3) as Hcold3.
  { destruct Hc3 as (_&_&_&_&_&Hcf). unfold cold, rd in *. simpl in *. by rewrite Hcf. }
  destruct (negb (rc3 =? 0)).
  { apply cwp_lift. wp_step. apply (wp_uthread_shutdown _ (Some 1)); [done|apply Hw3|].
    intros s4 Hc4. eapply wp_post; [apply (inert_bind rr_scheduler_shutdown (fun _ => rr_replay_shutdown));
      [cold_tac|intros []; cold_tac|done]|]. intros [] s5 Hc5. by left. }
  apply cwp_lift. unfold rr_mark_runtime_ready. wp_step. wp_step.
  assert (ginv (wr g_runtime_ready true s3) (Some 1)) as Hg4.
  { destruct Hb3, Hw3. constructor; try done. destruct Hc3 as (_&_&Hs&_).
    change (f_sched_running (st_sched s3) = true). by rewrite Hs. }
  eapply wp_post; [apply safe_debugf; by eapply ginv_base|]. intros [] s5 [Hc5 Hb5].
  right. exists 1. by eapply ginv_core.
Qed.

Lemma rr_init_ok env m w s0 G R :
  lib_ok w -> cwp (rr_init (boot_state env m w)) s0 (fun _ _ s' => live s') sane G R.
Proof.
  intros Hl. unfold rr_init. set (b := boot_state env m w).
  assert (fresh b) as Hf by (by constructor). assert (rec_inv b) as Hr by (by intros [? ?]).
  apply cwp_bind, cwp_lift. eapply wp_post; [by apply gentle_parse_env|]. intros [] s1 [H1 R1].
  pose proof (fresh_soft _ _ Hf H1) as Hf1. pose proof (rec_inv_same _ _ R1 Hr) as Hr1.
  assert (rd g_ring_used s1 = 0 /\ rd g_ring s1 = None) as [Hu1 Hn1].
  { unfold rd. simpl. by rewrite R1. }
  apply cwp_bind, cwp_lift, wp_get. apply cwp_bind.
  apply (cwp_mono _ _ (fun _ ok s' => cold s' /\ (ok = true -> soft s1 s' /\ rec_inv s')) _ sane);
    [|intros s2 ok s3 [Hc3 Hok]|done].
  { destruct (mode_record _); [apply init_record_side_ok; [apply Hf1|done..]|].
    split; [apply Hf1|]. intros _. split; [apply soft_refl|done]. }
  destruct ok; cbn [negb]; [|by left]. destruct (Hok eq_refl) as [H3 R3].
  apply cwp_bind, cwp_lift.
  assert (gentle (if mode_replay (rd g_rr_config s1) then rr_replay_init (log_path (rd g_rr_config s1))
    else mret 0)) as Hrep by cold_tac.
  eapply wp_post; [by apply Hrep|]. intros rc s4 [H4 R4].
  pose proof (fresh_soft _ _ Hf1 (soft_trans _ _ _ H3 H4)) as Hf4.
  destruct (negb (rc =? 0)); [left; apply Hf4|]. apply init_threads_ok; [done|].
  by eapply rec_inv_same.
Qed.
End LifecycleSafety.
