(* ===== verification/MachineSafety.v ===== *)
(** The invariant of the whole machine: whatever the application does, whatever
    the kernel answers (as long as memory for the tables lasts), every state the
    process reaches satisfies it, and the library never touches memory that is
    not there. *)
From stdpp Require Import gmap strings list pretty.
From coqutil Require Import Byte.
From S2P Require Import Prelude Types State Events Logic Log Scheduler Record Replay Signal IoUring Uthread Wrappers Lifecycle Machine Invariant Safety ThreadSafety SchedSafety ColdSafety LifecycleSafety.

Section MachineSafety.
Context {W : Type} `{!OS W} `{!Libc W}.
Context (app : ptr -> Z -> prog).
Implicit Types s : rr_state W.

Notation context := (rr_state W -> co W ()).

(** A saved context may be resumed as the running thread in any state that still
    has the threads it knew. *)
Definition ctx_ok (h : gmap Z uthread) (p : ptr) (k : context) : Prop :=
  exists s0, later (rd heap s0) h /\
    forall s', R_swap p s0 s' -> cwp (k s') s' (fun _ _ _ => True) sane G_swap R_swap.
Definition ctxs_ok (h : gmap Z uthread) (ctxs : gmap Z context) : Prop :=
  forall p k, ctxs !! p = Some k -> ctx_ok h p k.

Definition minv (m : @machine W) : Prop :=
  match m with
  | Thread c ctxs =>
      exists s0, ctxs_ok (rd heap s0) ctxs /\ cwp c s0 (fun _ _ _ => True) sane G_swap R_swap
  | SchedIn s ctxs | SchedLoop s ctxs => ginv s None /\ ctxs_ok (rd heap s) ctxs
  | Ended h s => sane h s
  end.

Lemma ctxs_later h h' ctxs : ctxs_ok h ctxs -> later h h' -> ctxs_ok h' ctxs.
Proof.
  intros Hc Hl p k Hp. destruct (Hc p k Hp) as (s0 & H0 & Hk). exists s0. split; [|done].
  by eapply later_trans.
Qed.

Lemma minv_boot env m w p : lib_ok w -> minv (mboot env m w p).
Proof.
  intros Hl. exists (boot_state env m w). split; [by intros q k|]. unfold process_main.
  apply cwp_bind. eapply cwp_mono; [apply cwp_no_swap; by apply (rr_init_ok _ _ _ _ _ R_swap)| |done].
  assert (Hend : forall s0 s, cwp (lift (@halted W () (HExit 0)) s) s0 (fun _ _ _ => True) sane
    G_swap R_swap) by (intros; apply cwp_lift; by wp_step).
  intros s1 [] s2 [-> [Hc|[q Hg]]].
  - apply cinert_bind_then; [apply cinert_prog|done|]. intros s3 s4 [] Hc4.
    apply cinert_bind_then; [apply cinert_shutdown|done|]. intros s5 s6 [] _. apply Hend.
  - eapply (cwp_seq _ _ (rd heap s2)); [apply csafe_prog|done|apply later_refl|by intros ? ?|].
    intros s3 [] s4 Hg4 _ _. apply cwp_bind. eapply cwp_mono; [by eapply shutdown_ready| |done].
    intros s5 [] s6 _. apply Hend.
Qed.

Lemma minv_step m : minv m -> minv (mstep app m).
Proof.
  destruct m as [c ctxs|s ctxs|s ctxs|h s]; simpl; [| | |done].
  - intros (s0 & Hx & Hc). destruct c as [a s|h s|cur s k]; simpl in *; [done|done|].
    destruct Hc as [[Hg Hl] Hk]. split; [done|]. intros q k'.
    destruct (decide (cur = q)) as [<-|Hne].
    + rewrite lookup_insert_eq. intros [= <-]. exists s. split; [apply later_refl|done].
    + rewrite lookup_insert_ne by done. by eapply (ctxs_later (rd heap s0)).
  - intros [Hg Hx].
    pose proof (safe_keeps _ safe_enter s None Hg) as Hw. unfold wp in Hw.
    destruct (sched_enter s); [|done]. destruct Hw. split; [done|]. by eapply ctxs_later.
  - intros [Hg Hx]. rewrite (g_sched _ _ Hg). pose proof (wp_sched_iter s Hg) as Hw. unfold wp in Hw.
    destruct (sched_iter s) as [[p|] s'|]; [|destruct Hw; split; [done|by eapply ctxs_later]|done].
    destruct Hw as [Hg' Hl]. exists s'. split; [by eapply ctxs_later|]. unfold resume.
    destruct (ctxs !! p) as [k|] eqn:Ek.
    + destruct (Hx p k Ek) as (s0 & H0 & Hk). apply Hk. split; [done|]. by eapply later_trans.
    + eapply cwp_mono; [by apply csafe_entry; [|apply later_refl]|done..].
Qed.

Lemma minv_run n m : minv m -> minv (mrun app n m).
Proof. intros Hm. induction n; simpl; [done|]. by apply minv_step. Qed.

Lemma minv_reach n env m w p : lib_ok w -> minv (mrun app n (mboot env m w p)).
Proof. intros Hl. by apply minv_run, minv_boot. Qed.
End MachineSafety.
