(* ===== verification/Endings.v ===== *)
(** How a function can end the process: a structural analysis.  Creating a thread has
    no way of ending it but undefined behaviour; start-up has none but that, a call
    through an unresolved pointer, and a log file that is interrupted for ever. *)
From stdpp Require Import gmap strings list pretty.
From coqutil Require Import Byte.
From S2P Require Import Prelude Types State Events Logic Log Scheduler Record Replay Signal IoUring Uthread Wrappers Lifecycle.

Section Ends.
Context {W : Type} `{!OS W} (E : halt -> Prop).
Implicit Types s : rr_state W.

(** If [m] ends the process, it ends it in one of the ways of [E]. *)
Definition ends {A} (m : M W A) : Prop := forall s, wp m (fun _ _ => True) (fun h _ => E h) s.
Definition cends {A} (m : C W A) : Prop := forall s0 s,
  cwp (m s) s0 (fun _ _ _ => True) (fun h _ => E h) (fun _ _ _ => True) (fun _ _ _ => True).

Lemma ends_bind {A B} (m : M W A) (f : A -> M W B) : ends m -> (forall a, ends (f a)) -> ends (m ≫= f).
Proof. intros Hm Hf s. wp_step. eapply wp_post; [apply Hm|]. intros a s' _. apply Hf. Qed.
Lemma ends_ret {A} (a : A) : ends (mret a).
Proof. done. Qed.
Lemma ends_get {T} (g : glob W T) : ends (get g).
Proof. done. Qed.
Lemma ends_put {T} (g : glob W T) v : ends (put g v).
Proof. intros s. by apply wp_put. Qed.
Lemma ends_os r : ends (os r).
Proof. intros s. by apply wp_os. Qed.
Lemma ends_halted {A} h : E h -> ends (halted (A := A) h).
Proof. intros Hh s. by apply wp_halted. Qed.

Context (Hundef : E HUndef).
Lemma ends_deref p : ends (deref p).
Proof. intros s. unfold wp, deref. by destruct (rd heap s !! p). Qed.
Lemma ends_update p f : ends (update p f).
Proof. intros s. unfold wp, update. by destruct (rd heap s !! p). Qed.
Lemma ends_free p : ends (free_ut p).
Proof. intros s. unfold wp, free_ut. by destruct (rd heap s !! p). Qed.
Lemma ends_vec_store {A} (g : glob W (vec A)) x : ends (vec_store g x).
Proof. intros s. unfold wp, vec_store. by destruct (v_store_next (rd g s) x). Qed.

Lemma cends_bind {A B} (m : C W A) (f : A -> C W B) : cends m -> (forall a, cends (f a)) -> cends (m ≫= f).
Proof.
  intros Hm Hf s0 s. apply cwp_bind. eapply cwp_mono; [apply Hm| |done]. intros s1 a s2 _. apply Hf.
Qed.
Lemma cends_ret {A} (a : A) : cends (mret a).
Proof. done. Qed.
Lemma cends_lift {A} (m : M W A) : ends m -> cends (lift m).
Proof. intros Hm s0 s. apply cwp_lift, Hm. Qed.
Lemma cends_swap p : cends (swap_to_sched p).
Proof. done. Qed.
End Ends.

Create HintDb ends.
#[export] Hint Resolve ends_ret ends_get ends_put ends_os ends_halted ends_deref ends_update ends_free
  ends_vec_store cends_ret cends_swap : ends.
Ltac ends_step :=
  lazymatch goal with
  | |- ends _ (_ ≫= _) => apply ends_bind; [|intros ?]
  | |- ends _ (when ?b _) => destruct b; cbn [when]
  | |- ends _ (if _ then _ else _) => case_match
  | |- ends _ (match ?o with _ => _ end) => destruct o
  | |- cends _ (_ ≫= _) => apply cends_bind; [|intros ?]
  | |- cends _ (lift _) => apply cends_lift
  | |- cends _ (if _ then _ else _) => case_match
  | |- cends _ (match ?o with _ => _ end) => destruct o
  | |- _ => solve [auto with ends nocore]
  end.
Ltac ends_tac := cbv zeta; repeat (cbv beta; ends_step).

Section Functions.
Context {W : Type} `{!OS W}.

(** ** Creating a thread *)

Definition undefined_end (h : halt) : Prop := h = HUndef.
#[local] Hint Extern 0 (undefined_end _) => reflexivity : ends.
Lemma uthread_create_ends fn arg : ends (W := W) undefined_end (uthread_create fn arg).
Proof.
  unfold uthread_create, rr_uthread_create, calloc_ut, call, os_rc, create_undo, init_tls_copy,
    rr_get_fs_base, rr_register_guard_page, rr_scheduler_register_thread, remember_thread,
    grow_if_full, call, os_rc, rr_scheduler_enqueue. ends_tac.
Qed.

(** ** Start-up *)

Definition start_end (h : halt) : Prop := h = HUndef \/ h = HNullCall \/ h = HFuel.
#[local] Notation ends := (ends (W := W) start_end).
#[local] Notation cends := (cends (W := W) start_end).
#[local] Hint Extern 0 (start_end _) => unfold start_end; tauto : ends.

Lemma ends_call f args : ends (call f args).
Proof. unfold call, os_rc. ends_tac. Qed.
Lemma ends_os_rc r : ends (os_rc r).
Proof. unfold os_rc. ends_tac. Qed.
Lemma ends_call_real slot r : ends (call_real slot r).
Proof. unfold call_real. ends_tac. Qed.
#[local] Hint Resolve ends_call ends_os_rc ends_call_real : ends.
Lemma ends_debugf t : ends (rr_debugf t).
Proof. unfold rr_debugf. ends_tac. Qed.
Lemma ends_resolve a b : ends (resolve a b).
Proof. unfold resolve. ends_tac. Qed.
Lemma ends_real f args : ends (real f args).
Proof. unfold real. ends_tac. Qed.
Lemma ends_current_id : ends current_id.
Proof. unfold current_id, rr_scheduler_current. ends_tac. Qed.
Lemma ends_write_loop fuel p n : ends (write_loop fuel p n).
Proof. revert n. induction fuel as [|fuel IH]; intros n; simpl; ends_tac; done. Qed.
Lemma ends_read_loop fuel fd len n buf : ends (read_loop fuel fd len n buf).
Proof. revert n buf. induction fuel as [|fuel IH]; intros n buf; simpl; ends_tac; done. Qed.
#[local] Hint Resolve ends_debugf ends_resolve ends_real ends_current_id ends_write_loop
  ends_read_loop : ends.
Lemma ends_append e : ends (rr_record_append e).
Proof. unfold rr_record_append, rr_record_flush, ring_memcpy, rr_write_direct. ends_tac. Qed.
#[local] Hint Resolve ends_append : ends.
Lemma ends_log_syscall nr rv a d n : ends (rr_log_syscall nr rv a d n).
Proof. unfold rr_log_syscall, rr_active, rr_next_seq. ends_tac. Qed.
#[local] Hint Resolve ends_log_syscall : ends.
Lemma ends_next_event o : ends (rr_replay_next_event o).
Proof. unfold rr_replay_next_event, rr_read_full, fail. ends_tac. Qed.
#[local] Hint Resolve ends_next_event : ends.
Lemma ends_get_event nr : ends (replay_get_event nr).
Proof. unfold replay_get_event, rr_replay_next_syscall, fail. ends_tac. Qed.
#[local] Hint Resolve ends_get_event : ends.
Lemma ends_record_shutdown : ends rr_record_shutdown.
Proof. unfold rr_record_shutdown, rr_record_flush, rr_write_direct. ends_tac. Qed.
Lemma ends_replay_shutdown : ends rr_replay_shutdown.
Proof. unfold rr_replay_shutdown. ends_tac. Qed.
Lemma ends_io_shutdown : ends rr_io_shutdown.
Proof. unfold rr_io_shutdown. ends_tac. Qed.
Lemma ends_sched_shutdown : ends rr_scheduler_shutdown.
Proof. unfold rr_scheduler_shutdown, rr_scheduler_unregister_all. ends_tac. Qed.
#[local] Hint Resolve ends_record_shutdown ends_replay_shutdown ends_io_shutdown ends_sched_shutdown : ends.

Lemma cends_close fd : cends (close fd).
Proof.
  unfold close, rr_active, rr_replay_active, replay_result, raw_to_int, rr_io_submit_close_and_wait,
    submit_op, rr_scheduler_current, submit_and_block, rr_scheduler_block_current, finish_logged,
    raw_to_int. ends_tac.
Qed.
#[local] Hint Resolve cends_close : ends.
Lemma cends_record_side : cends record_side_shutdown.
Proof. unfold record_side_shutdown, rr_signal_shutdown. ends_tac. Qed.
#[local] Hint Resolve cends_record_side : ends.
Lemma ends_clock clk tp : ends (clock_gettime clk tp).
Proof.
  unfold clock_gettime, rr_replay_active, copy_data, raw_to_int, record_struct, rr_active, to_log_int.
  ends_tac.
Qed.
Lemma ends_getpid : ends getpid.
Proof. unfold getpid, rr_replay_active, replay_result, raw_to_int, rr_active. ends_tac. Qed.
#[local] Hint Resolve ends_clock ends_getpid : ends.
Lemma ends_record_init path : ends (rr_record_init path).
Proof.
  unfold rr_record_init, rr_resolve_real_io, rr_now_mono_ns, rr_write_direct, unmap_ring. ends_tac.
Qed.
Lemma ends_replay_init path : ends (rr_replay_init path).
Proof.
  unfold rr_replay_init, rr_replay_resolve_real_io, rr_read_full, replay_close_fd. ends_tac.
Qed.
Lemma ends_signal_init : ends rr_signal_init.
Proof. unfold rr_signal_init. ends_tac. Qed.
Lemma ends_init_main : ends rr_uthread_init_main.
Proof.
  unfold rr_uthread_init_main, calloc_ut, rr_get_fs_base, rr_scheduler_set_current,
    rr_set_scheduler_tls_base, rr_scheduler_register_thread, remember_thread, grow_if_full. ends_tac.
Qed.
Lemma ends_sched_init : ends rr_scheduler_init.
Proof. unfold rr_scheduler_init. ends_tac. Qed.
Lemma ends_log_sched f g : ends (rr_log_sched f g).
Proof. unfold rr_log_sched, rr_next_seq. ends_tac. Qed.
Lemma ends_expect_sched f g : ends (rr_replay_expect_sched f g).
Proof. unfold rr_replay_expect_sched. ends_tac. Qed.
Lemma ends_shutdown_loop items : ends (shutdown_loop items).
Proof. induction items as [|p items IH]; simpl; ends_tac; done. Qed.
#[local] Hint Resolve ends_record_init ends_replay_init ends_signal_init ends_init_main ends_sched_init
  ends_log_sched ends_expect_sched ends_shutdown_loop : ends.

Lemma rr_init_ends : cends rr_init.
Proof.
  unfold rr_init, rr_parse_env, getenv, init_record_side, rr_signal_shutdown, rr_io_init, rr_signal_fd,
    rr_io_submit_signal_read, init_threads, unwind_modes, rr_uthread_shutdown, rr_mark_runtime_ready.
  ends_tac.
Qed.
End Functions.
