(* ===== verification/SimOS.v ===== *)
(** A concrete environment: an in-memory log file with short and interrupted
    transfers, an io_uring that completes operations in submission order, a
    ticking clock, and a C library that never runs out of memory.  It is the
    instance the witnesses evaluate, and it satisfies the laws of [LogSink] and
    [LogSource]. *)
From stdpp Require Import gmap strings list.
From coqutil Require Import Byte.
From S2P Require Import Prelude Types State Events Logic Log Scheduler Record Replay Invariant.

Record sim := Sim {
  sim_log : bytes;                     (* content of the log file *)
  sim_pos : nat;                       (* read position *)
  sim_intr : nat;                      (* transfers that will be interrupted *)
  sim_chunk : nat;                     (* longest transfer, minus one *)
  sim_clock : Z;
  sim_sq : list (sqe_op * Z);          (* prepared *)
  sim_cq : list (sqe_op * Z);          (* submitted, not yet completed *)
  sim_input : bytes;                   (* what a read of any descriptor delivers *)
  sim_fail : list string;              (* functions that fail (return NULL or -1) *)
  sim_nosqe : bool;                    (* the submission queue is full *)
  sim_addr : Z;                        (* next mapping *)
  sim_room : option Z                  (* bytes [realloc] can still hand out, if limited *)
}.

Definition sim_init : sim := Sim [] 0 0 63 1000 [] [] (string_bytes "hello, world") [] false 65536 None.

Definition with_log (l : bytes) (x : sim) : sim :=
  Sim l (sim_pos x) (sim_intr x) (sim_chunk x) (sim_clock x) (sim_sq x) (sim_cq x) (sim_input x)
    (sim_fail x) (sim_nosqe x) (sim_addr x) (sim_room x).
Definition with_pos (n : nat) (x : sim) : sim :=
  Sim (sim_log x) n (sim_intr x) (sim_chunk x) (sim_clock x) (sim_sq x) (sim_cq x) (sim_input x)
    (sim_fail x) (sim_nosqe x) (sim_addr x) (sim_room x).
Definition with_intr (n : nat) (x : sim) : sim :=
  Sim (sim_log x) (sim_pos x) n (sim_chunk x) (sim_clock x) (sim_sq x) (sim_cq x) (sim_input x)
    (sim_fail x) (sim_nosqe x) (sim_addr x) (sim_room x).
Definition with_clock (n : Z) (x : sim) : sim :=
  Sim (sim_log x) (sim_pos x) (sim_intr x) (sim_chunk x) n (sim_sq x) (sim_cq x) (sim_input x)
    (sim_fail x) (sim_nosqe x) (sim_addr x) (sim_room x).
Definition with_queues (sq cq : list (sqe_op * Z)) (x : sim) : sim :=
  Sim (sim_log x) (sim_pos x) (sim_intr x) (sim_chunk x) (sim_clock x) sq cq (sim_input x)
    (sim_fail x) (sim_nosqe x) (sim_addr x) (sim_room x).
Definition with_fail (l : list string) (x : sim) : sim :=
  Sim (sim_log x) (sim_pos x) (sim_intr x) (sim_chunk x) (sim_clock x) (sim_sq x) (sim_cq x)
    (sim_input x) l (sim_nosqe x) (sim_addr x) (sim_room x).
Definition with_nosqe (b : bool) (x : sim) : sim :=
  Sim (sim_log x) (sim_pos x) (sim_intr x) (sim_chunk x) (sim_clock x) (sim_sq x) (sim_cq x)
    (sim_input x) (sim_fail x) b (sim_addr x) (sim_room x).
Definition with_addr (n : Z) (x : sim) : sim :=
  Sim (sim_log x) (sim_pos x) (sim_intr x) (sim_chunk x) (sim_clock x) (sim_sq x) (sim_cq x)
    (sim_input x) (sim_fail x) (sim_nosqe x) n (sim_room x).

Definition with_room (n : option Z) (x : sim) : sim :=
  Sim (sim_log x) (sim_pos x) (sim_intr x) (sim_chunk x) (sim_clock x) (sim_sq x) (sim_cq x)
    (sim_input x) (sim_fail x) (sim_nosqe x) (sim_addr x) n.

(** Completing an operation: its result and the memory it writes. *)
Definition complete (op : sqe_op) (x : sim) : Z * list (Z * bytes) :=
  match op with
  | OpRead _ buf n _ | OpRecv _ buf n _ =>
      let d := take (Z.to_nat n) (sim_input x) in (Z.of_nat (length d), [(buf, d)])
  | OpWrite _ _ n _ | OpSend _ _ n _ => (n, [])
  | OpAccept _ _ _ _ | OpOpenat _ _ _ _ => (9, [])
  | OpConnect _ _ _ | OpClose _ => (0, [])
  end.

Definition is_one (f : string) (l : list string) : bool := existsb (String.eqb f) l.

(** Where [clock_gettime] and [gettimeofday] store their result. *)
Definition time_arg (f : string) (args : list Z) : Z :=
  nth (if String.eqb f "clock_gettime" then 1 else 0)%nat args 0.

Definition sim_named (f : string) (args : list Z) (x : sim) : sim * os_resp :=
  if is_one f (sim_fail x) && negb (is_one f ["realloc"]) then
    (x, resp_err (if is_one f ["calloc"] then 0 else -1) 12)
  else if is_one f ["calloc"] then (x, resp_rc 1)
  else if is_one f ["realloc"] then
    let n := nth 0%nat args 0 in
    match sim_room x with
    | None => (x, if n <? 2 ^ 63 then resp_rc 1 else resp_err 0 12)
    | Some r => if n <=? r then (with_room (Some (r - n)) x, resp_rc 1)
                else (x, resp_err 0 12)
    end
  else if is_one f ["mmap"] then (with_addr (sim_addr x + 4194304) x, resp_rc (sim_addr x))
  else if is_one f ["sysconf(_SC_PAGESIZE)"] then (x, resp_rc 4096)
  else if is_one f ["SIGSTKSZ"] then (x, resp_rc 8192)
  else if is_one f ["arch_prctl"] then (x, Resp 0 None [] 77 [] None)
  else if is_one f ["signalfd"] then (x, resp_rc 5)
  else if is_one f ["timerfd_create"] then (x, resp_rc 6)
  else if is_one f ["getpid"] then (x, resp_rc 4242)
  else if is_one f ["getuid"] then (x, resp_rc 1000)
  else if is_one f ["clock_gettime"; "gettimeofday"] then
    (with_clock (sim_clock x + 1) x,
     Resp 0 None [] 0 [(time_arg f args, le 8 (sim_clock x) ++ le 8 7)] None)
  else if is_one f ["read"] then
    let d := take (Z.to_nat (nth 2%nat args 0)) (sim_input x) in
    (x, Resp (Z.of_nat (length d)) None [] 0 [(nth 1%nat args 0, d)] None)
  else (x, resp_rc 0).

(** How much of a transfer of [n] bytes one call does. *)
Definition xfer (x : sim) (n : nat) : nat := Nat.min (S (sim_chunk x)) n.
Arguments xfer : simpl never.

Definition sim_call (r : os_req) (m : memory) (x : sim) : sim * os_resp :=
  match r with
  | Rdlsym _ => (x, resp_rc 1)
  | Rcall f args => sim_named f args x
  | Ropen _ flags _ =>
      if is_one "open" (sim_fail x) then (x, resp_err (-1) 2)
      else (if flags =? O_RDONLY then with_pos 0 x else with_log [] x, resp_rc 3)
  | Rlog_write _ bs =>
      match sim_intr x with
      | S n => (with_intr n x, resp_err (-1) EINTR)
      | O => let k := xfer x (length bs) in
             (with_log (sim_log x ++ take k bs) x, resp_rc (Z.of_nat k))
      end
  | Rlog_read _ n =>
      match sim_intr x with
      | S k => (with_intr k x, resp_err (-1) EINTR)
      | O =>
          let d := take (xfer x (Z.to_nat n)) (drop (sim_pos x) (sim_log x)) in
          (with_pos (sim_pos x + length d) x,
           Resp (Z.of_nat (length d)) None d 0 [] None)
      end
  | Rlog_close _ => (x, resp_rc 0)
  | Rstderr_write bs => (x, resp_rc (Z.of_nat (length bs)))
  | Rtimerfd_settime _ _ => (x, resp_rc 0)
  | Rget_sqe => (x, resp_rc (if sim_nosqe x then 0 else 1))
  | Rprep op ud => (with_queues (sim_sq x ++ [(op, ud)]) (sim_cq x) x, resp_rc 0)
  | Rsubmit =>
      if is_one "submit" (sim_fail x) then (x, resp_rc (-16))
      else (with_queues [] (sim_cq x ++ sim_sq x) x, resp_rc 1)
  | Rwait_cqe =>
      match filter (fun o => o.2 <> RR_SIGNAL_SENTINEL) (sim_cq x) with
      | [] => (x, resp_rc (- EINTR))
      | (op, ud) :: q =>
          let '(res_, ws) := complete op x in
          (with_queues (sim_sq x) q x, Resp 0 None [] 0 ws (Some (ud, res_)))
      end
  | Rcqe_seen => (x, resp_rc 0)
  end.

#[export] Instance sim_os : OS sim := {|
  os_call := sim_call;
  os_patience := sim_intr;
  os_addr := fun x => if String.eqb x "g_signal_info" then 512 else 768
|}.

#[export] Program Instance sim_sink : LogSink sim := {| sink := fun _ x => sim_log x |}.
Next Obligation.
  intros fd bs m w w' rp Hne Hc. simpl in Hc. destruct (sim_intr w) as [|n] eqn:Ei; simplify_eq/=.
  - split; [done|]. right.
    assert (0 < length bs)%nat by (destruct bs; simpl; [done|lia]).
    split; [unfold xfer; lia|]. by rewrite Nat2Z.id.
  - split; [done|]. left. repeat split; lia.
Qed.
Next Obligation. intros fd m w w' rp Hc. simpl in Hc. by simplify_eq/=. Qed.
Next Obligation.
  intros fd args m w w' rp Hc. simpl in Hc. unfold sim_named in Hc. repeat case_match; by simplify_eq/=.
Qed.

#[export] Program Instance sim_source : LogSource sim :=
  {| source := fun _ x => drop (sim_pos x) (sim_log x) |}.
Next Obligation.
  intros fd n m w w' rp Hn Hc. simpl in Hc. destruct (sim_intr w) as [|k] eqn:Ei; simplify_eq/=.
  - split; [done|]. right. rewrite !Nat2Z.id, !length_take.
    split; [unfold xfer; lia|]. split.
    { split; intros H.
      - apply nil_length_inv. unfold xfer in H. lia.
      - rewrite H. simpl. lia. }
    split; [by rewrite take_min_length|]. split; [lia|]. split; [by rewrite drop_drop|lia].
  - split; [done|]. left. repeat split; lia.
Qed.
Next Obligation. intros fd bs m w w' rp Hc. simpl in Hc. by simplify_eq/=. Qed.

(** Memory never runs out while no budget is set. *)
#[export] Program Instance sim_libc : Libc sim := {| lib_ok := fun x => sim_room x = None |}.
Next Obligation.
  intros r m w w' rp Hl Hc. destruct r; simpl in Hc; try (by simplify_eq/=).
  - unfold sim_named in Hc. rewrite Hl in Hc. repeat case_match; by simplify_eq/=.
  - repeat case_match; by simplify_eq/=.
  - repeat case_match; by simplify_eq/=.
  - repeat case_match; by simplify_eq/=.
  - repeat case_match; by simplify_eq/=.
  - repeat case_match; by simplify_eq/=.
Qed.
Next Obligation.
  intros n m w w' rp Hl Hc. simpl in Hc. unfold sim_named in Hc. rewrite Hl in Hc. simpl in Hc.
  rewrite andb_false_r in Hc. simpl in Hc. destruct (n <? 2 ^ 63) eqn:E; simplify_eq/=; bool_prop;
    split; intros; try done; try lia.
Qed.

Lemma sim_lib_ok : lib_ok sim_init.
Proof. reflexivity. Qed.

(** ** Example states *)

(** A process with two threads, the first one running, after [n] events. *)
Definition sim_thread (i : Z) (x : ut_state_t) : uthread :=
  set_state x (set_id i uthread_zero).
Definition sim_state (c : rr_config_t) (n : Z) (rg : record_globals) (pg : replay_globals)
    (m : memory) (w : sim) : rr_state sim :=
  RRState c n rg pg (SchedG 0 0 1 4096 true (Vec [1; 2] 16)) (UthreadG 3 77 (Vec [1; 2] 16))
    (SignalG 0 0 5 v_empty) (IoG true 5)
    (ProcessG 0 {["record:write" := 1; "record:close" := 1; "replay:read" := 1; "replay:close" := 1;
                  "read" := 1; "write" := 1; "clock_gettime" := 1; "getpid" := 1]}
       {[1 := sim_thread 1 UT_RUNNING; 2 := sim_thread 2 UT_BLOCKED]} 3 m [] []) w.
(** Recording, with the log open. *)
Definition sim_recording (n : Z) (m : memory) (w : sim) : rr_state sim :=
  sim_state (Config true false true true false 262144 "rr.log") n (RecordG 3 (Some ∅) 0)
    (ReplayG (-1) 1 false) m w.
(** Replaying, with sequence number [n] expected. *)
Definition sim_replaying (n : Z) (m : memory) (w : sim) : rr_state sim :=
  sim_state (Config false true true true false 262144 "rr.log") 0 (RecordG (-1) None 0)
    (ReplayG 4 n true) m w.

(** They satisfy the invariant of the runtime. *)
Lemma sim_ginv c n rg pg m w :
  runtime_ready c = true -> sim_room w = None ->
  (is_Some (f_ring rg) -> 0 <= f_log_fd rg /\ 0 <= f_ring_used rg <= RR_LOG_RING_SIZE) ->
  ginv (sim_state c n rg pg m w) (Some 1).
Proof.
  intros Hr Hw Hg. set (s := sim_state c n rg pg m w).
  assert (Hval : forall q v, rd heap s !! q = Some v ->
    q = 1 /\ v = sim_thread 1 UT_RUNNING \/ q = 2 /\ v = sim_thread 2 UT_BLOCKED).
  { intros q v Hq. change (rd heap s) with
      ({[1 := sim_thread 1 UT_RUNNING; 2 := sim_thread 2 UT_BLOCKED]} : gmap Z uthread) in Hq.
    apply lookup_insert_Some in Hq as [[<- <-]|[_ [<- <-]%lookup_singleton_Some]]; auto. }
  assert (Hdom : forall q, is_Some (rd heap s !! q) <-> q = 1 \/ q = 2).
  { intros q. split; [intros [v [[-> _]|[-> _]]%Hval]; auto|]. intros [-> | ->]; by eexists. }
  constructor; try done. constructor.
  - constructor; try done.
    + intros q [-> | ->]%Hdom; vm_compute; split; congruence.
    + intros q v [[-> ->]|[-> ->]]%Hval; done.
    + intros q [= <-]. split; [done|]. apply Hdom. by left.
    + right. apply Hdom. by left.
    + intros q. rewrite Hdom. change (v_items (rd g_threads s)) with [1; 2]. set_solver.
    + change (v_items (rd g_threads s)) with [1; 2]. apply NoDup_cons. split; [set_solver|].
      apply NoDup_singleton.
    + intros q v [[-> ->]|[-> ->]]%Hval; by left.
  - exists []. split; [split; [done|split; [done|constructor]]|]. intros q.
    split; [by intros ?%not_elem_of_nil|]. intros (v & [[-> ->]|[-> ->]]%Hval & Hv); done.
Qed.
Lemma sim_recording_ginv n m w : sim_room w = None -> ginv (sim_recording n m w) (Some 1).
Proof.
  intros Hw. apply sim_ginv; [done|done|]. intros _. unfold RR_LOG_RING_SIZE. simpl. lia.
Qed.
Lemma sim_replaying_ginv n m w : sim_room w = None -> ginv (sim_replaying n m w) (Some 1).
Proof. intros Hw. apply sim_ginv; [done|done|]. by intros [? ?]. Qed.
