(* ===== verification/LogTheorems.v ===== *)
(** Theorems about the log: the buffered writer, sequences of logging calls, and reading them back. *)
From stdpp Require Import gmap strings list pretty.
From coqutil Require Import Byte.
From S2P Require Import Prelude Types State Events Logic Log Scheduler Record Replay Signal IoUring Uthread Wrappers Lifecycle Machine Invariant SimOS.

(** ** Sequences of logging calls *)

(** A call of one of the three event writers. *)
Inductive log_op :=
| LSyscall (nr rv arg0 : Z) (data : ptr) (data_len : Z)
| LSignal (signo active : Z)
| LSched (from_id to_id : Z).

Section Ops.
Context {W : Type} `{!OS W}.
Implicit Types s : rr_state W.

Definition log_one (o : log_op) : M W () :=
  match o with
  | LSyscall nr rv arg0 data data_len => rr_log_syscall nr rv arg0 data data_len
  | LSignal signo active => rr_log_signal signo active
  | LSched from_id to_id => rr_log_sched from_id to_id
  end.
Fixpoint log_all (ops : list log_op) : M W () :=
  match ops with
  | [] => mret tt
  | o :: ops => log_one o;; log_all ops
  end.

(** The event such a call records in state [s] under sequence number [sq]. *)
Definition op_event s (sq : Z) (o : log_op) : rr_event_t :=
  match o with
  | LSyscall nr rv arg0 data data_len =>
      syscall_event sq (cur_id s) nr rv arg0 (logged_data s data data_len)
  | LSignal signo active => signal_event sq (cur_id s) signo active
  | LSched from_id to_id => sched_event sq from_id to_id
  end.
(** The events of a sequence of calls after number [sq]. *)
Fixpoint op_events s (sq : Z) (ops : list log_op) : list rr_event_t :=
  match ops with
  | [] => []
  | o :: ops => op_event s (u64 (sq + 1)) o :: op_events s (u64 (sq + 1)) ops
  end.

(** Reading [n] events. *)
Fixpoint next_events (n : nat) : M W (list rr_event_t) :=
  match n with
  | O => mret []
  | S n =>
      r ← rr_replay_next_event true;
      match r with
      | None => mret []
      | Some e => es ← next_events n; mret (e :: es)
      end
  end.
End Ops.

Definition images (es : list rr_event_t) : bytes := concat (encode_event <$> es).

(** Consecutive numbers from [n] on. *)
Fixpoint numbered (n : Z) (es : list rr_event_t) : Prop :=
  match es with
  | [] => True
  | e :: es => seq e = n /\ numbered (u64 (n + 1)) es
  end.

Section Recording.
Context {W : Type} `{!OS W} `{!LogSink W}.
Implicit Types s : rr_state W.

(** A state in which the log is open and recording is on. *)
Definition recording s : Prop :=
  rec_ok s /\ cur_valid s /\ mode_record (rd g_rr_config s) = true /\
  runtime_ready (rd g_rr_config s) = true.

(** A logging call changes nothing the events depend on. *)
Definition same_view s s' : Prop :=
  rd g_current s' = rd g_current s /\ rd heap s' = rd heap s /\ rd mem s' = rd mem s /\
  rd g_rr_config s' = rd g_rr_config s.

Lemma logged_same s e s' :
  logged s e s' -> same_view s s' /\ rd g_rr_seq s' = u64 (rd g_rr_seq s + 1).
Proof.
  intros ((r & u & Hm & He) & _). unfold same_view. rewrite Hm. by env_simpl.
Qed.
Lemma logged_recording s e s' : recording s -> logged s e s' -> recording s'.
Proof.
  intros (Hok & Hv & Hm & Hr) Hl. pose proof Hl as (_ & Hok' & _).
  destruct (logged_same _ _ _ Hl) as ((Hc & Hh & _ & Hcf) & _).
  split; [done|]. unfold cur_valid. by rewrite Hc, Hh, Hcf.
Qed.
Lemma op_event_same s s' sq o : same_view s s' -> op_event s' sq o = op_event s sq o.
Proof.
  intros (Hc & Hh & Hm & _). unfold op_event, cur_id, logged_data. by rewrite Hc, Hh, Hm.
Qed.
Lemma op_events_same s s' sq ops : same_view s s' -> op_events s' sq ops = op_events s sq ops.
Proof.
  intros H. revert sq. induction ops as [|o ops IH]; intros sq; simpl; [done|].
  by rewrite (op_event_same s s'), IH.
Qed.

Lemma wp_log_one o s (Q : () -> rr_state W -> Prop) :
  recording s ->
  (forall s', logged s (op_event s (u64 (rd g_rr_seq s + 1)) o) s' -> Q tt s') ->
  wp (log_one o) Q no_halt s.
Proof.
  intros (Hok & Hv & Hm & Hr) HQ.
  destruct o; [by apply wp_log_syscall|by apply wp_log_signal|by apply wp_log_sched].
Qed.

Lemma wp_log_all ops s (Q : () -> rr_state W -> Prop) :
  recording s ->
  (forall s', recording s' -> same_view s s' ->
     log_view s' = log_view s ++ images (op_events s (rd g_rr_seq s) ops) -> Q tt s') ->
  wp (log_all ops) Q no_halt s.
Proof.
  revert s. induction ops as [|o ops IH]; intros s Hs HQ; simpl.
  - wp_step. apply HQ; [done|done|]. by rewrite app_nil_r.
  - wp_step. apply wp_log_one; [done|]. intros s1 Hl1.
    destruct (logged_same _ _ _ Hl1) as [Hv1 Hq1]. pose proof Hl1 as (_ & _ & _ & Hg1).
    apply IH; [by eapply logged_recording|]. intros s2 Hs2 Hv2 Hg2. apply HQ; [done|..].
    + destruct Hv1 as (?&?&?&?), Hv2 as (?&?&?&?). repeat split; congruence.
    + unfold images in *. simpl. rewrite Hg2, Hg1, Hq1, <-app_assoc.
      by rewrite (op_events_same s s1).
Qed.

End Recording.

Section ReadingBack.
Context {W : Type} `{!OS W} `{!LogSource W}.
Implicit Types s : rr_state W.

Lemma images_cons e es : images (e :: es) = encode_event e ++ images es.
Proof. done. Qed.

Lemma consumed_rep_ok s n r s' : rep_ok s -> consumed s n r s' -> rep_ok s'.
Proof. intros (H1 & H2 & H3) (He & _). unfold rep_ok. by env_simpl. Qed.

Lemma wp_next_events es tl s (Q : list rr_event_t -> rr_state W -> Prop) :
  rep_ok s -> rest s = images es ++ tl -> Forall event_wf es -> numbered (rd g_expected_seq s) es ->
  (forall s', rep_ok s' -> rest s' = tl -> rd mem s' = rd mem s -> Q es s') ->
  wp (next_events (length es)) Q no_halt s.
Proof.
  revert s Q. induction es as [|e es IH]; intros s Q Hok Hr Hwf Hn HQ; simpl.
  - wp_step. by apply HQ.
  - rewrite images_cons, <-app_assoc in Hr. apply Forall_cons in Hwf as [Hwf Hwfs].
    destruct Hn as [Hq Hn]. destruct (front_event s e _ Hwf Hr) as (Hd & Hdr & Hlen).
    wp_step. apply wp_next_event; [done|..]; rewrite ?Hd, ?Hdr; intros Hl; [|congruence|lia].
    intros _ s1 Hc1. wp_step. pose proof (consumed_expected _ _ _ _ Hc1) as Hx1.
    apply IH; [by eapply consumed_rep_ok|by destruct Hc1 as (_ & _ & ->)|done|by rewrite Hx1|].
    intros s2 Hok2 Hr2 Hm2. wp_step. apply HQ; [done..|]. rewrite Hm2. apply Hc1.
Qed.
End ReadingBack.

(** The ids in the arguments of the calls fit their fields. *)
Definition op_ids_ok (o : log_op) : Prop :=
  match o with LSched from_id to_id => in_u64 from_id /\ in_u64 to_id | _ => True end.

Lemma op_events_numbered {W} (s : rr_state W) sq ops : numbered (u64 (sq + 1)) (op_events s sq ops).
Proof.
  revert sq. induction ops as [|o ops IH]; intros sq; simpl; [done|].
  split; [by destruct o|apply IH].
Qed.
Lemma length_op_events {W} (s : rr_state W) sq ops : length (op_events s sq ops) = length ops.
Proof. revert sq. induction ops; intros sq; simpl; [done|]. by f_equal. Qed.
Lemma logged_data_ok {W} (s : rr_state W) d n : data_ok (logged_data s d n).
Proof.
  unfold logged_data. destruct (_ && _) eqn:E; [|done]. bool_prop. simpl. rewrite length_load. lia.
Qed.
Lemma op_events_wf {W} (s : rr_state W) sq ops :
  in_u64 (cur_id s) -> Forall op_ids_ok ops -> Forall event_wf (op_events s sq ops).
Proof.
  intros Hc. revert sq. induction ops as [|o ops IH]; intros sq Hops; simpl; [done|].
  apply Forall_cons in Hops as [Ho Hops]. constructor; [|by apply IH].
  pose proof (u64_range (sq + 1)) as Hu. destruct o; simpl.
  - apply syscall_event_wf; [done|done|apply logged_data_ok].
  - by apply signal_event_wf.
  - by apply sched_event_wf; [|apply Ho].
Qed.

(** ** Claims *)

(** C6 (log_sequence_recorded): on a log file whose writes do not fail, any sequence of
    logging calls made while recording returns, appends exactly the events of the
    calls in order to the log (the file plus the buffer) whatever short or
    interrupted writes the file does, numbers them consecutively, and leaves the
    threads and the application's memory alone. *)
Theorem log_sequence_recorded {W} `{!OS W} `{!LogSink W} (s : rr_state W) (ops : list log_op) :
  recording s ->
  exists s', log_all ops s = Ok tt s' /\ recording s' /\
    log_view s' = log_view s ++ images (op_events s (rd g_rr_seq s) ops) /\
    numbered (u64 (rd g_rr_seq s + 1)) (op_events s (rd g_rr_seq s) ops) /\
    rd mem s' = rd mem s /\ rd heap s' = rd heap s.
Proof.
  intros Hs. destruct (wp_returns (log_all ops) (fun _ s' => recording s' /\ same_view s s' /\
    log_view s' = log_view s ++ images (op_events s (rd g_rr_seq s) ops)) s) as ([] & s' & Hrun & H).
  - apply wp_log_all; auto.
  - destruct H as (Hs' & (_ & Hh & Hm & _) & Hv). exists s'. split; [done|].
    split; [done|]. split; [done|]. split; [apply op_events_numbered|done].
Qed.
Definition demo_ops : list log_op :=
  [LSched 0 1; LSyscall NR_read 5 0 100 5; LSignal 10 1; LSyscall NR_getpid 4242 0 0 0].
Definition demo_start : rr_state sim := sim_recording 0 ∅ (with_intr 3 sim_init).
Lemma demo_recording : recording demo_start.
Proof.
  split; [|split; [right; by eexists|done]]. split; [vm_compute; congruence|].
  split; [by eexists|]. split; [vm_compute; split; congruence|done].
Qed.
Lemma log_sequence_recorded_witness :
  recording demo_start /\
  exists s', log_all demo_ops demo_start = Ok tt s' /\ 
    log_view s' = log_view demo_start ++ images (op_events demo_start 0 demo_ops) /\
    length (op_events demo_start 0 demo_ops) = 4%nat.
Proof.
  split; [exact demo_recording|].
  destruct (log_sequence_recorded demo_start demo_ops demo_recording) as (s' & Hrun & _ & Hv & _).
  exists s'. split; [exact Hrun|]. split; [exact Hv|reflexivity].
Defined.

(** C3 (log_sequence_read_back): what a sequence of logging calls recorded on one
    machine is what the replay side reads on another: with the bytes the calls
    added in front of it and the matching sequence number expected,
    [rr_replay_next_event] returns exactly those events, one per call, and leaves
    the rest of the log and the application's memory alone. *)
Theorem log_sequence_read_back {W1 W2} `{!OS W1} `{!LogSink W1} `{!OS W2} `{!LogSource W2}
    (s s' : rr_state W1) (ops : list log_op) (r : rr_state W2) (tl : bytes) :
  recording s -> in_u64 (cur_id s) -> Forall op_ids_ok ops -> log_all ops s = Ok tt s' ->
  rep_ok r -> rd g_expected_seq r = u64 (rd g_rr_seq s + 1) ->
  log_view s ++ rest r = log_view s' ++ tl ->
  exists r', next_events (length ops) r = Ok (op_events s (rd g_rr_seq s) ops) r' /\
    rest r' = tl /\ rd mem r' = rd mem r.
Proof.
  intros Hs Hc Hops Hrun Hok Hx Hrest.
  assert (log_view s' = log_view s ++ images (op_events s (rd g_rr_seq s) ops)) as Hv.
  { pose proof (wp_log_all ops s (fun _ s' =>
      log_view s' = log_view s ++ images (op_events s (rd g_rr_seq s) ops)) Hs) as Hw.
    unfold wp in Hw. rewrite Hrun in Hw. by apply Hw. }
  rewrite Hv, <-app_assoc in Hrest. apply app_inv_head in Hrest.
  destruct (wp_returns (next_events (length ops)) (fun es r' =>
    es = op_events s (rd g_rr_seq s) ops /\ rest r' = tl /\ rd mem r' = rd mem r) r)
    as (es & r' & Hr & -> & Ht & Hm); [|by exists r'].
  rewrite <-(length_op_events s (rd g_rr_seq s) ops).
  apply (wp_next_events _ tl); try done; [by apply op_events_wf|rewrite Hx; apply op_events_numbered].
Qed.
Definition demo_log : bytes := images (op_events demo_start 0 demo_ops).
Definition demo_reader : rr_state sim :=
  sim_replaying 1 ∅ (with_log demo_log (with_intr 2 sim_init)).
Lemma log_sequence_read_back_witness :
  exists r', next_events 4 demo_reader = Ok (op_events demo_start 0 demo_ops) r' /\ rest r' = [].
Proof.
  destruct (wp_returns (log_all demo_ops) (fun _ s' => log_view s' = log_view demo_start ++ demo_log)
    demo_start) as ([] & s' & Hrun & Hv); [by apply wp_log_all; [exact demo_recording|]|].
  destruct (log_sequence_read_back demo_start s' demo_ops demo_reader []) as (r' & Hr & Ht & _).
  - exact demo_recording.
  - vm_compute. split; congruence.
  - repeat (apply Forall_cons; split; [vm_compute; repeat split; congruence|]). apply Forall_nil_2.
  - exact Hrun.
  - split; [reflexivity|]. split; vm_compute; congruence.
  - reflexivity.
  - rewrite Hv, app_nil_r. reflexivity.
  - exists r'. split; [exact Hr|exact Ht].
Defined.

(** C20 (write_direct_complete): on a log file whose writes do not fail other than by
    being interrupted, boundedly often, [rr_write_direct] returns 0 after a finite number of
    calls, and the file has grown by exactly the bytes given, however short the
    single writes are and however often they are interrupted. *)
Theorem write_direct_complete {W} `{!OS W} `{!LogSink W} (s : rr_state W) (p : bytes) :
  default 0 (rd statics s !! "record:write") <> NULL -> Z.of_nat (length p) < 2 ^ 64 ->
  exists s', rr_write_direct p s = Ok 0 s' /\ rd mem s' = rd mem s /\
    sink (rd g_log_fd s) (rd world s') = sink (rd g_log_fd s) (rd world s) ++ p.
Proof.
  intros Hst Hlen. destruct (wp_returns (rr_write_direct p) (fun rc s' => rc = 0 /\
    rd mem s' = rd mem s /\
    sink (rd g_log_fd s) (rd world s') = sink (rd g_log_fd s) (rd world s) ++ p) s)
    as (rc & s' & Hrun & -> & H); [|by exists s'].
  by apply wp_write_direct.
Qed.
Lemma write_direct_complete_witness :
  exists s', rr_write_direct (replicate 200 Byte.x41) demo_start = Ok 0 s' /\
    sim_log (rd world s') = replicate 200 Byte.x41.
Proof.
  destruct (write_direct_complete demo_start (replicate 200 Byte.x41)) as (s' & Hrun & _ & Hs).
  - vm_compute. congruence.
  - vm_compute. reflexivity.
  - exists s'. split; [exact Hrun|]. exact Hs.
Defined.

(** C19 (append_exact): on a log file whose writes do not fail (they may be short or
    interrupted), an entry of any size is appended to the log exactly once and
    unsplit, behind everything appended before; the copy into the buffer stays inside
    its 4 MB.  Of the whole state only the buffer and its fill level change, and what
    the system calls themselves touch: the file, the list of requests and [errno]
    (an interrupted write sets it); application memory and every other variable of
    the library stay as they are. *)
Theorem append_exact {W} `{!OS W} `{!LogSink W} (s : rr_state W) (entry : bytes) :
  rec_ok s -> Z.of_nat (length entry) < 2 ^ 64 ->
  exists s', rr_record_append entry s = Ok tt s' /\ log_view s' = log_view s ++ entry /\ rec_ok s' /\
    exists ring used e t w,
      s' = wr world w (wr trace t (wr errno e (wr g_ring_used used (wr g_ring ring s)))).
Proof.
  intros Hok Hlen. destruct (wp_returns (rr_record_append entry) (fun _ s' => log_only s s' /\
    rec_ok s' /\ log_view s' = log_view s ++ entry) s)
    as ([] & s' & Hrun & (r & u & Hm & (e & m & t & w & ->)) & Hok' & Hv); [by apply wp_append|].
  eexists. split; [exact Hrun|]. split; [done|]. split; [done|]. exists r, u, e, t, w.
  glob_simpl_in Hm. subst m. by destruct s as [??[]?????[]?].
Qed.
(** A state whose buffer is two bytes from full: the append has to flush first. *)
Definition demo_full : rr_state sim :=
  wr g_ring_used (RR_LOG_RING_SIZE - 2) (sim_recording 0 ∅ (with_intr 1 sim_init)).
Lemma append_exact_witness :
  exists s', rr_record_append [Byte.x01; Byte.x02; Byte.x03] demo_full = Ok tt s' /\
    log_view s' = log_view demo_full ++ [Byte.x01; Byte.x02; Byte.x03] /\ rec_ok s'.
Proof.
  destruct (append_exact demo_full [Byte.x01; Byte.x02; Byte.x03]) as (s' & Hrun & Hv & Hok & _).
  - split; [vm_compute; congruence|]. split; [by eexists|].
    split; [vm_compute; split; congruence|vm_compute; congruence].
  - vm_compute. reflexivity.
  - exists s'. split; [exact Hrun|]. split; [exact Hv|exact Hok].
Defined.

(** C21 (shutdown_persists): on a log file whose writes do not fail (they may be short or
    interrupted), when recording stops the file holds everything that was logged,
    what was in the buffer included; after the last write (or debug message) the file
    is closed, then the buffer is unmapped, and nothing else is asked of the system;
    the descriptor and the buffer are forgotten. *)
Theorem shutdown_persists {W} `{!OS W} `{!LogSink W} (s : rr_state W) :
  rec_ok s -> default 0 (rd statics s !! "record:close") <> NULL ->
  exists s', rr_record_shutdown s = Ok tt s' /\
    sink (rd g_log_fd s) (rd world s') = log_view s /\
    rd g_log_fd s' = -1 /\ rd g_ring s' = None /\
    exists ts, Forall flush_req ts /\ rd trace s' =
      Rcall "munmap" [RR_LOG_RING_SIZE] :: Rlog_close (rd g_log_fd s) :: ts ++ rd trace s.
Proof.
  intros Hok Hcl. destruct (wp_returns rr_record_shutdown (fun _ s' =>
    sink (rd g_log_fd s) (rd world s') = log_view s /\ rd g_log_fd s' = -1 /\ rd g_ring s' = None /\
    exists ts, Forall flush_req ts /\ rd trace s' =
      Rcall "munmap" [RR_LOG_RING_SIZE] :: Rlog_close (rd g_log_fd s) :: ts ++ rd trace s) s)
    as ([] & s' & Hrun & H); [by apply wp_record_shutdown|by exists s'].
Qed.
Definition demo_pending : rr_state sim :=
  wr g_ring (Some (store ∅ 0 (string_bytes "event"))) (wr g_ring_used 5 demo_start).
Lemma shutdown_persists_witness :
  exists s', rr_record_shutdown demo_pending = Ok tt s' /\
    sim_log (rd world s') = string_bytes "event".
Proof.
  destruct (shutdown_persists demo_pending) as (s' & Hrun & Hs & _).
  - split; [vm_compute; congruence|]. split; [by eexists|].
    split; [vm_compute; split; congruence|vm_compute; congruence].
  - vm_compute. congruence.
  - exists s'. split; [exact Hrun|exact Hs].
Defined.
