(* ===== verification/ReplayTheorems.v ===== *)
(** Theorems about reading the log back: what the two checks of replay.c accept,
    what they deliver, and what they do to the application's state. *)
From stdpp Require Import gmap strings list pretty.
From coqutil Require Import Byte.
From S2P Require Import Prelude Types State Events Logic Log Scheduler Record Replay Signal IoUring Uthread Wrappers Lifecycle Machine Invariant SimOS.

(** The event in front of the log, if there is a whole one. *)
Definition front (bs : bytes) : option rr_event_t :=
  if bool_decide (sizeof_event <= length bs)%nat then Some (decode_event (take sizeof_event bs))
  else None.

(** The switch the scheduler is about to make is the one recorded. *)
Definition sched_agrees (bs : bytes) (n from to : Z) : Prop :=
  exists e, front bs = Some e /\ seq e = n /\ type e = EV_SCHED /\
    sd_from_id (payload e) = from /\ sd_to_id (payload e) = to.
(** The call thread [utid] is about to make is the one recorded. *)
Definition syscall_agrees (bs : bytes) (n nr utid : Z) : Prop :=
  exists e, front bs = Some e /\ seq e = n /\ type e = EV_SYSCALL /\
    sc_nr (payload e) = nr /\ uthread_id e = utid.

Lemma front_some bs : (sizeof_event <= length bs)%nat ->
  front bs = Some (decode_event (take sizeof_event bs)).
Proof. intros H. unfold front. by rewrite bool_decide_eq_true_2. Qed.
Lemma front_inv bs e : front bs = Some e ->
  (sizeof_event <= length bs)%nat /\ e = decode_event (take sizeof_event bs).
Proof. unfold front. case_bool_decide; [|done]. by intros [= <-]. Qed.

(** ** Claims *)

(** C8 (expect_sched_exact): in replay the scheduler's switch is accepted exactly
    when the next event of the log is that switch with the expected sequence
    number; every other log (a different event, other ids, a gap in the numbers, a
    truncated file) makes the check return -1, and the scheduler aborts the
    process.  One event is consumed and the application's memory is untouched. *)
Theorem expect_sched_exact {W} `{!OS W} `{!LogSource W} (s : rr_state W) (from to : Z) :
  rep_ok s ->
  exists rc s', rr_replay_expect_sched from to s = Ok rc s' /\
    (rc = 0 <-> sched_agrees (rest s) (rd g_expected_seq s) from to) /\ (rc = 0 \/ rc = -1) /\
    (rc = 0 -> rd g_expected_seq s' = u64 (rd g_expected_seq s + 1)) /\
    rest s' = drop sizeof_event (rest s) /\ rd mem s' = rd mem s.
Proof.
  intros Hok.
  assert (Hag : sched_agrees (rest s) (rd g_expected_seq s) from to <->
    let e := decode_event (take sizeof_event (rest s)) in
    (sizeof_event <= length (rest s))%nat /\ seq e = rd g_expected_seq s /\ type e = EV_SCHED /\
    sd_from_id (payload e) = from /\ sd_to_id (payload e) = to).
  { split; [intros (e & [Hl ->]%front_inv & H); done|]. intros (Hl & H). eexists.
    by split; [apply front_some|]. }
  apply (wp_returns (rr_replay_expect_sched from to) (fun rc s' =>
    (rc = 0 <-> sched_agrees (rest s) (rd g_expected_seq s) from to) /\ (rc = 0 \/ rc = -1) /\
    (rc = 0 -> rd g_expected_seq s' = u64 (rd g_expected_seq s + 1)) /\
    rest s' = drop sizeof_event (rest s) /\ rd mem s' = rd mem s)).
  apply wp_expect_sched; [done|..].
  - intros Hg s' Hc. rewrite Hag. pose proof (consumed_expected _ _ _ _ Hc).
    destruct Hc as (_ & Hm & Hr). split; [by split; [intros _; exact Hg|]|].
    split; [by left|]. done.
  - intros Hg s' n Hc _. rewrite Hag. destruct Hc as (_ & Hm & Hr).
    split; [split; [lia|done]|]. split; [by right|]. split; [lia|done].
Qed.
Definition demo_sched : rr_state sim :=
  sim_replaying 4 ∅ (with_log (encode_event (sched_event 4 1 2)) (with_intr 1 sim_init)).
Lemma expect_sched_exact_witness :
  rep_ok demo_sched /\ exists s', rr_replay_expect_sched 1 2 demo_sched = Ok 0 s' /\ rest s' = [].
Proof.
  assert (Hok : rep_ok demo_sched) by (split; [reflexivity|split; vm_compute; congruence]).
  split; [exact Hok|]. destruct (expect_sched_exact demo_sched 1 2 Hok) as (rc & s' & Hrun & Hrc & _ & _ & Hr & _).
  assert (rc = 0) as ->.
  { apply Hrc. exists (sched_event 4 1 2). vm_compute. repeat split. }
  exists s'. split; [exact Hrun|]. rewrite Hr. vm_compute. reflexivity.
Defined.

(** C9 (next_syscall_exact): in replay a call is answered from the log exactly when
    the next event is that system call of that thread with the expected sequence
    number; on any other log nothing is delivered, [errno] is EPROTO or ENODATA
    (the log does not agree, or it ends), and the call will fail.  Either way the
    application's memory is untouched. *)
Theorem next_syscall_exact {W} `{!OS W} `{!LogSource W} (s : rr_state W) (nr utid : Z) :
  rep_ok s ->
  exists r s', rr_replay_next_syscall nr utid true s = Ok r s' /\ rd mem s' = rd mem s /\
    rest s' = drop sizeof_event (rest s) /\
    match r with
    | Some ev => syscall_agrees (rest s) (rd g_expected_seq s) nr utid /\
        (exists e, front (rest s) = Some e /\ ev = replay_event_of e) /\
        rd g_expected_seq s' = u64 (rd g_expected_seq s + 1)
    | None => ~ syscall_agrees (rest s) (rd g_expected_seq s) nr utid /\
        (rd errno s' = EPROTO \/ rd errno s' = ENODATA)
    end.
Proof.
  intros Hok.
  assert (Hag : syscall_agrees (rest s) (rd g_expected_seq s) nr utid <->
    let e := decode_event (take sizeof_event (rest s)) in
    (sizeof_event <= length (rest s))%nat /\ seq e = rd g_expected_seq s /\ type e = EV_SYSCALL /\
    sc_nr (payload e) = nr /\ uthread_id e = utid).
  { split; [intros (e & [Hl ->]%front_inv & H); done|]. intros (Hl & H). eexists.
    by split; [apply front_some|]. }
  apply (wp_returns (rr_replay_next_syscall nr utid true)).
  apply wp_next_syscall; [done|..].
  - intros Hg s' Hc. pose proof (consumed_expected _ _ _ _ Hc).
    destruct Hc as (_ & Hm & Hr). split; [done|]. split; [done|]. rewrite Hag. split; [done|].
    split; [|done]. eexists. split; [by apply front_some, Hg|done].
  - intros Hg s' n (_ & Hm & Hr) He. split; [done|]. split; [done|]. rewrite Hag. split; [done|].
    set_solver.
Qed.
Definition demo_call : rr_state sim :=
  sim_replaying 9 ∅ (with_log (encode_event
    (syscall_event 9 1 NR_read 3 0 (Some (string_bytes "abc")))) (with_intr 1 sim_init)).
Lemma next_syscall_exact_witness :
  rep_ok demo_call /\ exists r s', rr_replay_next_syscall NR_read 1 true demo_call = Ok r s' /\
    option_map rs_retval r = Some 3.
Proof.
  assert (Hok : rep_ok demo_call) by (split; [reflexivity|split; vm_compute; congruence]).
  split; [exact Hok|].
  destruct (next_syscall_exact demo_call NR_read 1 Hok) as (r & s' & Hrun & _ & _ & Hr).
  exists r, s'. split; [exact Hrun|]. destruct r as [ev|].
  - destruct Hr as (_ & (e & He & ->) & _). vm_compute in He. injection He as <-.
    vm_compute. reflexivity.
  - destruct Hr as [Hn _]. exfalso. apply Hn.
    exists (syscall_event 9 1 NR_read 3 0 (Some (string_bytes "abc"))). vm_compute. repeat split.
Defined.

(** C22 (recorded_call_delivered): the event [rr_log_syscall] writes for a call is
    answered in replay with the recorded result, argument and data: whatever 32-bit
    result and whatever data of at most 64 bytes were recorded. *)
Theorem recorded_call_delivered {W} `{!OS W} `{!LogSource W} (s : rr_state W)
    (utid nr rv arg0 : Z) (d : option bytes) (tl : bytes) :
  rep_ok s -> in_u64 utid -> in_s32 nr -> in_s32 rv -> in_u64 arg0 -> data_ok d ->
  in_u64 (rd g_expected_seq s) ->
  rest s = encode_event (syscall_event (rd g_expected_seq s) utid nr rv arg0 d) ++ tl ->
  exists ev s', rr_replay_next_syscall nr utid true s = Ok (Some ev) s' /\
    rs_retval ev = rv /\ rs_arg0 ev = arg0 /\ rs_data_len ev = Z.of_nat (length (default [] d)) /\
    take (length (default [] d)) (rs_data ev) = default [] d /\
    rest s' = tl /\ rd g_expected_seq s' = u64 (rd g_expected_seq s + 1) /\ rd mem s' = rd mem s.
Proof.
  intros Hok Hu Hn Hrv Ha Hd Hx Hr.
  destruct (wp_returns (rr_replay_next_syscall nr utid true) (fun r s' => exists ev, r = Some ev /\
    rs_retval ev = rv /\ rs_arg0 ev = arg0 /\ rs_data_len ev = Z.of_nat (length (default [] d)) /\
    take (length (default [] d)) (rs_data ev) = default [] d /\
    consumed s (u64 (rd g_expected_seq s + 1)) tl s') s)
    as (r & s' & Hrun & ev & -> & H1 & H2 & H3 & H4 & Hc).
  { apply (wp_call_delivered s utid nr rv arg0 d tl); [done..|]. intros ev s' Hc H1 H2 H3 H4. by exists ev. }
  exists ev, s'. pose proof (consumed_expected _ _ _ _ Hc). by destruct Hc as (_ & Hm & Hrr).
Qed.
Lemma recorded_call_delivered_witness :
  exists ev s', rr_replay_next_syscall NR_read 1 true demo_call = Ok (Some ev) s' /\
    rs_retval ev = 3 /\ take 3 (rs_data ev) = string_bytes "abc".
Proof.
  destruct (recorded_call_delivered demo_call 1 NR_read 3 0 (Some (string_bytes "abc")) [])
    as (ev & s' & Hrun & Hrv & _ & _ & Hd & _).
  - split; [reflexivity|split; vm_compute; congruence].
  - vm_compute; split; congruence.
  - vm_compute; split; congruence.
  - vm_compute; split; congruence.
  - vm_compute; split; congruence.
  - vm_compute. lia.
  - vm_compute; split; congruence.
  - vm_compute. reflexivity.
  - exists ev, s'. split; [exact Hrun|]. split; [exact Hrv|exact Hd].
Defined.
