(* ===== verification/SchedulerTheorems.v ===== *)
(** Theorems about scheduler.c: the run queue implements a FIFO list, the thread
    table, wake-ups, and what the running thread's operations do before they
    leave to the scheduler. *)
From stdpp Require Import gmap strings list pretty.
From coqutil Require Import Byte.
From S2P Require Import Prelude Types State Events Logic Log Scheduler Record Replay Signal IoUring Uthread Wrappers Lifecycle Machine Invariant ThreadSafety SchedSafety SimOS.

(** ** The run queue against a list *)

Inductive queue_op := Enqueue (p : ptr) | PopFront.

(** The specification: a FIFO list.  [None] when the client breaks the contract
    (enqueues NULL or a thread that is queued already). *)
Definition fifo_step (o : queue_op) (l : list ptr) : option (ptr * list ptr) :=
  match o with
  | Enqueue p => if bool_decide (p ∈ l) || (p =? NULL) then None else Some (p, l ++ [p])
  | PopFront => Some (default NULL (head l), tail l)
  end.
Fixpoint fifo_run (ops : list queue_op) (l : list ptr) : option (list ptr * list ptr) :=
  match ops with
  | [] => Some ([], l)
  | o :: ops =>
      match fifo_step o l with
      | None => None
      | Some (r, l1) =>
          match fifo_run ops l1 with
          | None => None
          | Some (rs, l2) => Some (r :: rs, l2)
          end
      end
  end.

Section Queue.
Context {W : Type} `{!OS W}.
Implicit Types s : rr_state W.

Definition queue_step (o : queue_op) : M W ptr :=
  match o with
  | Enqueue p => rr_scheduler_enqueue p;; mret p
  | PopFront => runq_pop_front
  end.
Fixpoint queue_run (ops : list queue_op) : M W (list ptr) :=
  match ops with
  | [] => mret []
  | o :: ops => r ← queue_step o; rs ← queue_run ops; mret (r :: rs)
  end.

(** The threads the operations name are allocated. *)
Definition op_allocated s (o : queue_op) : Prop :=
  match o with Enqueue p => is_Some (rd heap s !! p) | PopFront => True end.

Lemma only_next_trans h1 h2 h3 : only_next h1 h2 -> only_next h2 h3 -> only_next h1 h3.
Proof.
  intros [H1 H2] [H3 H4]. split; [|auto]. intros q u Hq. destruct (H1 q u Hq) as [n Hn].
  destruct (H3 q _ Hn) as [n' Hn']. by exists n'.
Qed.

Lemma wp_queue_step o l r l' s (Q : ptr -> rr_state W -> Prop) :
  runq s l -> op_allocated s o -> fifo_step o l = Some (r, l') ->
  (forall s', runq s' l' -> only_next (rd heap s) (rd heap s') -> Q r s') ->
  wp (queue_step o) Q no_halt s.
Proof.
  intros Hq Ha Hs HQ. destruct o as [p|]; simpl in *.
  - destruct (_ || _) eqn:E; [done|]. simplify_eq. apply orb_false_iff in E as [E1 E2].
    apply bool_decide_eq_false in E1. bool_prop. destruct Ha as [u Hu].
    wp_step. apply (wp_enqueue _ _ _ l u); [done..|]. intros s' Hq' Ho _. wp_step. by apply HQ.
  - destruct l as [|p l]; simplify_eq/=.
    + apply wp_pop_nil; [done|]. apply HQ; [done|apply only_next_refl].
    + eapply wp_pop_cons; [done|]. intros u s' Hu Hq' Heq. apply HQ; [done|].
      rewrite Heq. glob_simpl. apply only_next_insert; [apply only_next_refl|done].
Qed.

Lemma wp_queue_run ops l rs l' s (Q : list ptr -> rr_state W -> Prop) :
  runq s l -> Forall (op_allocated s) ops -> fifo_run ops l = Some (rs, l') ->
  (forall s', runq s' l' -> only_next (rd heap s) (rd heap s') -> Q rs s') ->
  wp (queue_run ops) Q no_halt s.
Proof.
  revert l rs l' s Q. induction ops as [|o ops IH]; intros l rs l' s Q Hq Ha Hf HQ; simpl in *.
  - simplify_eq. wp_step. apply HQ; [done|apply only_next_refl].
  - destruct (fifo_step o l) as [[r l1]|] eqn:E1; [|done].
    destruct (fifo_run ops l1) as [[rs' l2]|] eqn:E2; [|done]. simplify_eq.
    apply Forall_cons in Ha as [Ha Has]. wp_step. apply (wp_queue_step o l r l1); [done..|].
    intros s1 Hq1 Ho1. wp_step. apply (IH l1 rs' l'); [done|..|done|].
    + eapply Forall_impl; [exact Has|]. intros [p|]; [|done]. simpl.
      by rewrite (only_next_dom _ _ _ Ho1).
    + intros s2 Hq2 Ho2. wp_step. apply HQ; [done|]. by eapply only_next_trans.
Qed.
End Queue.

(** ** The thread table *)

(** The first thread of the table with id [i]. *)
Fixpoint first_named (h : gmap Z uthread) (items : list ptr) (i : Z) : option ptr :=
  match items with
  | [] => None
  | p :: items =>
      if bool_decide (option_map id (h !! p) = Some i) then Some p else first_named h items i
  end.

Lemma first_named_spec h items i :
  match first_named h items i with
  | Some p => p ∈ items /\ exists u, h !! p = Some u /\ id u = i
  | None => forall p u, p ∈ items -> h !! p = Some u -> id u <> i
  end.
Proof.
  induction items as [|p items IH]; simpl; [set_solver|]. case_bool_decide as Hp.
  - split; [set_solver|]. destruct (h !! p) as [u|]; simplify_eq/=. by exists u.
  - destruct (first_named h items i) as [q|].
    + destruct IH as [? ?]. split; [set_solver|done].
    + intros q u [->|Hq]%elem_of_cons Hu; [|by eapply IH]. rewrite Hu in Hp. simpl in Hp. congruence.
Qed.

Section Table.
Context {W : Type} `{!OS W} `{!Libc W}.
Implicit Types s : rr_state W.

Lemma find_loop_first s items i :
  (forall p, p ∈ items -> p <> NULL /\ is_Some (rd heap s !! p)) ->
  find_loop items i s = Ok (default NULL (first_named (rd heap s) items i)) s.
Proof.
  induction items as [|p items IH]; intros Hin; simpl; [done|].
  destruct (Hin p) as [Hp [u Hu]]; [set_solver|]. rewrite (proj2 (Z.eqb_neq _ _) Hp).
  unfold mbind, M_bind, deref. rewrite Hu. simpl.
  destruct (id u =? i) eqn:Ei; bool_prop.
  - rewrite bool_decide_eq_true_2 by congruence. done.
  - rewrite bool_decide_eq_false_2 by congruence. apply IH. intros q Hq. apply Hin. set_solver.
Qed.

Lemma find_first s run i :
  winv s run ->
  rr_scheduler_find i s = Ok (default NULL (first_named (rd heap s) (v_items (rd g_threads s)) i)) s.
Proof.
  intros [Ht _]. unfold rr_scheduler_find, mbind, M_bind, get. apply find_loop_first.
  intros p Hp%(t_items _ _ _ _ _ _ _ Ht). split; [|done].
  pose proof (t_heap _ _ _ _ _ _ _ Ht p Hp). lia.
Qed.
End Table.

(** ** Claims *)

(** C11 (runq_refines_fifo): any sequence of enqueue and pop operations on the linked
    run queue in which every enqueued pointer is an allocated thread, not NULL and
    not in the queue at that time, returns what a FIFO list returns and leaves the
    list's content in the queue; the operations touch nothing of the threads but
    their [next] fields. *)
Theorem runq_refines_fifo {W} `{!OS W} (s : rr_state W) (l : list ptr) (ops : list queue_op)
    (rs l' : list ptr) :
  runq s l -> Forall (op_allocated s) ops -> fifo_run ops l = Some (rs, l') ->
  exists s', queue_run ops s = Ok rs s' /\ runq s' l' /\ only_next (rd heap s) (rd heap s').
Proof.
  intros Hq Ha Hf. destruct (wp_returns (queue_run ops) (fun r s' => r = rs /\ runq s' l' /\
    only_next (rd heap s) (rd heap s')) s) as (r & s' & Hrun & -> & H); [|by exists s'].
  by apply (wp_queue_run ops l rs l').
Qed.
Definition demo_queue : rr_state sim := sim_recording 0 ∅ sim_init.
Lemma runq_refines_fifo_witness :
  exists s', queue_run [Enqueue 2; Enqueue 1; PopFront; Enqueue 2; PopFront; PopFront; PopFront]
    demo_queue = Ok [2; 1; 2; 2; 1; 2; 0] s' /\ runq s' [].
Proof.
  destruct (runq_refines_fifo demo_queue []
    [Enqueue 2; Enqueue 1; PopFront; Enqueue 2; PopFront; PopFront; PopFront]
    [2; 1; 2; 2; 1; 2; 0] []) as (s' & Hrun & Hq & _).
  - split; [reflexivity|]. split; [reflexivity|constructor].
  - repeat constructor; by eexists.
  - vm_compute. reflexivity.
  - exists s'. split; [exact Hrun|exact Hq].
Defined.

Section Claims.
Context {W : Type} `{!OS W} `{!Libc W}.
Implicit Types s : rr_state W.

Lemma qinv_runq s run : ginv s run -> exists l, runq s l /\
  forall p, p ∈ l <-> exists u, rd heap s !! p = Some u /\ state u = UT_RUNNABLE.
Proof. intros Hg. apply (w_q _ _ (g_winv _ _ Hg)). Qed.
Lemma ginv_nonnull s run p : ginv s run -> is_Some (rd heap s !! p) -> p <> NULL.
Proof.
  intros Hg Hp. pose proof (t_heap _ _ _ _ _ _ _ (w_t _ _ (g_winv _ _ Hg)) p Hp). lia.
Qed.

(** A thread that is not runnable is rewritten to a runnable one and enqueued. *)
Lemma wp_requeue s run p u u' l (Q : () -> rr_state W -> Prop) E :
  ginv s run -> runq s l ->
  (forall p, p ∈ l <-> exists u, rd heap s !! p = Some u /\ state u = UT_RUNNABLE) ->
  rd heap s !! p = Some u -> state u <> UT_RUNNABLE ->
  (forall s', runq s' (l ++ [p]) -> only_next (<[p := u']> (rd heap s)) (rd heap s') -> Q tt s') ->
  wp (rr_scheduler_enqueue p) Q E (wr heap (<[p := u']> (rd heap s)) s).
Proof.
  intros Hg (Hlk & Htl & Hnd) Hin Hu Hns HQ.
  assert (p ∉ l) as Hpl. { rewrite Hin. intros (v & Hv & Hs). congruence. }
  apply (wp_enqueue _ _ _ l u'); [split; [by apply links_other|done]|done| |apply lookup_insert_eq|].
  - eapply ginv_nonnull; [done|by eexists].
  - intros s' Hq' Ho _. by apply HQ.
Qed.
End Claims.

(** C15 (wake_exact): a completion for thread id [i] makes the first thread of that id
    runnable if it is blocked: its result is stored and it is queued behind every
    runnable thread, and no other thread changes; if there is no such thread or it
    is not blocked, the completion changes nothing at all. *)
Theorem wake_exact {W} `{!OS W} `{!Libc W} (s : rr_state W) (run : option ptr) (i r : Z) :
  ginv s run ->
  match first_named (rd heap s) (v_items (rd g_threads s)) i with
  | Some p => exists u, rd heap s !! p = Some u /\ id u = i /\
      if bool_decide (state u = UT_BLOCKED) then
        exists s' l, rr_scheduler_wake_by_id i r NULL 0 s = Ok tt s' /\
          runq s l /\ runq s' (l ++ [p]) /\
          only_next (<[p := set_state UT_RUNNABLE (set_io r 0 (io_data u) u)]> (rd heap s))
            (rd heap s')
      else rr_scheduler_wake_by_id i r NULL 0 s = Ok tt s
  | None => rr_scheduler_wake_by_id i r NULL 0 s = Ok tt s
  end.
Proof.
  intros Hg. pose proof (find_first s run i (g_winv _ _ Hg)) as Hf.
  pose proof (first_named_spec (rd heap s) (v_items (rd g_threads s)) i) as Hsp.
  unfold rr_scheduler_wake_by_id.
  destruct (first_named _ _ _) as [p|]; simpl in Hf; [|by rewrite (bind_ok _ _ _ _ _ Hf)].
  destruct Hsp as [Hp (u & Hu & Hi)]. exists u. split; [done|]. split; [done|].
  assert (p <> NULL) as Hp0 by (by eapply ginv_nonnull).
  case_bool_decide as Hb.
  - destruct (qinv_runq s run Hg) as (l & Hq & Hin).
    match goal with |- exists s' l, ?m s = _ /\ _ =>
      destruct (wp_returns m (fun _ s' => runq s' (l ++ [p]) /\
        only_next (<[p := set_state UT_RUNNABLE (set_io r 0 (io_data u) u)]> (rd heap s)) (rd heap s')) s)
        as ([] & s' & Hrun & H) end; [|by exists s', l].
    wp_step. apply (wp_ok _ _ _ _ _ _ Hf). rewrite (proj2 (Z.eqb_neq _ _) Hp0).
    wp_step. apply (wp_deref _ u); [done|]. rewrite bool_decide_eq_true_2 by done. cbn [negb].
    wp_step. apply (wp_update _ _ u); [done|]. wp_step. wp_step; [done|intros _]. wp_step.
    eapply wp_update; [glob_simpl; apply lookup_insert_eq|]. glob_simpl. rewrite insert_insert_eq.
    apply (wp_requeue s run p u _ l); try done. congruence.
  - rewrite (bind_ok _ _ _ _ _ Hf), (proj2 (Z.eqb_neq _ _) Hp0).
    rewrite (bind_ok (deref p) _ s u s) by (unfold deref; by rewrite Hu).
    by rewrite bool_decide_eq_false_2.
Qed.
Lemma wake_exact_witness :
  exists s' l, rr_scheduler_wake_by_id 2 5 NULL 0 demo_queue = Ok tt s' /\
    runq demo_queue l /\ runq s' (l ++ [2]).
Proof.
  destruct (wake_exact demo_queue (Some 1) 2 5 (sim_recording_ginv 0 ∅ sim_init eq_refl))
    as (u & Hu & _ & H).
  vm_compute in Hu. injection Hu as <-. destruct H as (s' & l & Hrun & Hq & Hq' & _).
  exists s', l. split; [exact Hrun|]. split; [exact Hq|exact Hq'].
Defined.
