(* ===== verification/ThreadTheorems.v ===== *)
(** Theorems about uthread.c and the operations of the running thread: yield,
    exit, join and create. *)
From stdpp Require Import gmap strings list pretty.
From coqutil Require Import Byte.
From S2P Require Import Prelude Types State Events Logic Log Scheduler Record Replay Signal IoUring Uthread Wrappers Lifecycle Machine Invariant Safety ThreadSafety SchedSafety Endings SimOS SchedulerTheorems.

Section Threads.
Context {W : Type} `{!OS W} `{!Libc W}.
Implicit Types s : rr_state W.

(** The first steps of the three operations: the current thread and the flag. *)
Lemma ready_config s run : ginv s run -> negb (runtime_ready (rd g_rr_config s)) = false.
Proof. intros Hg. by rewrite (g_ready _ _ Hg : runtime_ready (rd g_rr_config s) = true). Qed.
Lemma guard_open s p : ginv s (Some p) -> (rd g_current s =? NULL) || negb (rd g_sched_running s) = false.
Proof.
  intros Hg. destruct (ginv_running _ _ Hg) as (-> & Hp & _).
  by rewrite (g_sched _ _ Hg), (proj2 (Z.eqb_neq _ _) Hp).
Qed.
Lemma ginv_errno s run e : ginv s run -> ginv (wr errno e s) run.
Proof. intros Hg. by apply (safe_keeps (put errno e)); [safe_tac|]. Qed.
End Threads.

(** C16 (yield_requeues): a thread that yields is put behind every runnable thread and
    leaves to the scheduler; nothing else of any thread changes but queue links. *)
Theorem yield_requeues {W} `{!OS W} `{!Libc W} (s : rr_state W) (p : ptr) (u : uthread) (l : list ptr) :
  ginv s (Some p) -> rd heap s !! p = Some u -> runq s l ->
  exists s' k, uthread_yield s = CSwap p s' k /\ runq s' (l ++ [p]) /\
    only_next (<[p := set_state UT_RUNNABLE u]> (rd heap s)) (rd heap s').
Proof.
  intros Hg Hu Hq. pose proof (ginv_running _ _ Hg) as (Hc & Hp & v & Hv & Hst). simplify_eq.
  set (G := fun (_ : rr_state W) cur (s' : rr_state W) => cur = rd g_current s /\ runq s' (l ++ [rd g_current s]) /\
    only_next (<[rd g_current s := set_state UT_RUNNABLE u]> (rd heap s)) (rd heap s')).
  destruct (cwp_switches (uthread_yield s) s G (fun _ _ _ => False)) as (cur & s' & k & Hrun & -> & H);
    [|by exists s', k].
  unfold uthread_yield, rr_scheduler_yield_current. apply cwp_bind, cwp_lift, wp_get.
  rewrite (ready_config _ _ Hg). apply cwp_bind, cwp_lift, wp_get. apply cwp_bind, cwp_lift, wp_get.
  rewrite (guard_open _ _ Hg). apply cwp_bind, cwp_lift. wp_step. apply (wp_update _ _ u); [done|].
  assert (rd g_current s ∉ l) as Hpl.
  { destruct (qinv_runq s _ Hg) as (l' & Hq' & Hin). rewrite (runq_unique _ _ _ Hq Hq'), Hin.
    intros (v & Hv & Hr). congruence. }
  destruct Hq as (Hlk & Htl & Hnd).
  apply (wp_enqueue _ _ _ l (set_state UT_RUNNABLE u)); [split; [by apply links_other|done]|done|done
    |apply lookup_insert_eq|].
  intros s' Hq' Ho _. apply cwp_swap; [done|by intros].
Qed.
Lemma yield_requeues_witness :
  exists s' k, uthread_yield demo_queue = CSwap 1 s' k /\ runq s' [1].
Proof.
  destruct (yield_requeues demo_queue 1 (sim_thread 1 UT_RUNNING) []) as (s' & k & Hrun & Hq & _).
  - exact (sim_recording_ginv 0 ∅ sim_init eq_refl).
  - reflexivity.
  - split; [reflexivity|]. split; [reflexivity|constructor].
  - exists s', k. split; [exact Hrun|exact Hq].
Defined.

(** Marking a thread finished leaves the queue. *)
Lemma runq_finished {W} `{!OS W} (s : rr_state W) p u l v :
  runq s l -> rd heap s !! p = Some u ->
  runq (wr heap (<[p := set_state UT_DONE (set_retval v u)]> (rd heap s)) s) l.
Proof.
  intros (Hlk & Htl & Hnd) Hu. split; [|done].
  by apply (links_update _ _ _ _ (fun _ => set_state UT_DONE (set_retval v u)) u).
Qed.

(** C14 (exit_wakes_joiner): a thread that exits is marked finished with its result and
    leaves to the scheduler; the thread waiting for it, if there is one and it is
    blocked, becomes runnable behind every runnable thread, and no other thread
    changes but for queue links. *)
Theorem exit_wakes_joiner {W} `{!OS W} `{!Libc W} (s : rr_state W) (p : ptr) (u : uthread)
    (l : list ptr) (v : Z) :
  ginv s (Some p) -> rd heap s !! p = Some u -> runq s l ->
  let h1 := <[p := set_state UT_DONE (set_retval v u)]> (rd heap s) in
  exists s' k, uthread_exit v s = CSwap p s' k /\
    match h1 !! join_waiter u with
    | Some w =>
        if bool_decide (state w = UT_BLOCKED) then
          runq s' (l ++ [join_waiter u]) /\
          only_next (<[join_waiter u := set_state UT_RUNNABLE w]> h1) (rd heap s')
        else runq s' l /\ rd heap s' = h1
    | None => runq s' l /\ rd heap s' = h1
    end.
Proof.
  intros Hg Hu Hq h1. pose proof (ginv_running _ _ Hg) as (Hc & Hp & x & Hx & Hst).
  assert (x = u) as -> by congruence.
  set (post := fun s' : rr_state W => match h1 !! join_waiter u with
    | Some w =>
        if bool_decide (state w = UT_BLOCKED) then
          runq s' (l ++ [join_waiter u]) /\
          only_next (<[join_waiter u := set_state UT_RUNNABLE w]> h1) (rd heap s')
        else runq s' l /\ rd heap s' = h1
    | None => runq s' l /\ rd heap s' = h1
    end).
  destruct (cwp_switches (uthread_exit v s) s (fun _ cur s' => cur = p /\ post s')
    (fun _ _ _ => False)) as (cur & s' & k & Hrun & -> & H); [|by exists s', k].
  unfold uthread_exit, rr_scheduler_exit_current. apply cwp_bind, cwp_lift, wp_get.
  rewrite (ready_config _ _ Hg). apply cwp_bind, cwp_bind, cwp_lift, wp_get.
  apply cwp_bind, cwp_lift, wp_get. rewrite (guard_open _ _ Hg), Hc. apply cwp_bind, cwp_lift.
  wp_step. apply (wp_update _ _ u); [done|].
  wp_step. apply (wp_update _ _ (set_retval v u)); [apply lookup_insert_eq|]. glob_simpl.
  rewrite insert_insert_eq. fold h1.
  destruct (ginv_stop s p u (set_state UT_DONE (set_retval v u))) as [Hg1 _]; [done..|].
  fold h1 in Hg1. set (s1 := wr heap h1 s) in *.
  assert (runq s1 l) as Hq1 by (by apply (runq_finished s p u)).
  assert (h1 !! p = Some (set_state UT_DONE (set_retval v u))) as Hp1 by apply lookup_insert_eq.
  assert (Hnone : h1 !! NULL = None).
  { destruct (h1 !! NULL) eqn:E; [|done]. exfalso.
    by apply (ginv_nonnull s1 None NULL Hg1); [eexists|]. }
  unfold wake_join_waiter. wp_step. apply (wp_deref _ (set_state UT_DONE (set_retval v u))); [done|].
  cbn [join_waiter set_state set_retval].
  destruct (join_waiter u =? NULL) eqn:Ej; bool_prop.
  { wp_step. apply cwp_swap; [|by intros]. split; [done|]. unfold post. by rewrite Ej, Hnone. }
  destruct (t_join _ _ _ _ _ _ _ (w_t _ _ (g_winv _ _ Hg1)) _ _ Hp1) as [?|[w Hw]]; [done|].
  change (h1 !! join_waiter u = Some w) in Hw. wp_step. apply (wp_deref _ w); [done|].
  wp_step; intros Hb.
  - wp_step. apply (wp_update _ _ w); [done|].
    destruct (qinv_runq s1 None Hg1) as (l' & Hq' & Hin). rewrite <-(runq_unique _ _ _ Hq1 Hq') in Hin.
    apply (wp_requeue s1 None (join_waiter u) w _ l); try done.
    { apply bool_decide_eq_true in Hb. congruence. }
    intros s2 Hq2 Ho2. apply cwp_swap; [|by intros]. split; [done|]. unfold post. by rewrite Hw, Hb.
  - apply cwp_swap; [|by intros]. split; [done|]. unfold post. by rewrite Hw, Hb.
Qed.
(** Thread 2 waits for thread 1, which runs. *)
Definition demo_joined : rr_state sim :=
  wr heap (<[1 := set_join_waiter 2 (sim_thread 1 UT_RUNNING)]> (rd heap demo_queue)) demo_queue.
Lemma demo_joined_ginv : ginv demo_joined (Some 1).
Proof.
  apply (ginv_set_joiner demo_queue (Some 1) 1 (sim_thread 1 UT_RUNNING) 2).
  - exact (sim_recording_ginv 0 ∅ sim_init eq_refl).
  - reflexivity.
  - right. by eexists.
Qed.
Lemma exit_wakes_joiner_witness :
  exists s' k, uthread_exit 7 demo_joined = CSwap 1 s' k /\ runq s' [2].
Proof.
  destruct (exit_wakes_joiner demo_joined 1 (set_join_waiter 2 (sim_thread 1 UT_RUNNING)) [] 7)
    as (s' & k & Hrun & H).
  - exact demo_joined_ginv.
  - reflexivity.
  - split; [reflexivity|]. split; [reflexivity|constructor].
  - exists s', k. split; [exact Hrun|]. exact (proj1 H).
Defined.

(** C13 (join_outcomes): what [uthread_join] does, by the state of its target: an
    unknown id is ESRCH, joining oneself EDEADLK; a finished target gives 0 and its
    result is stored behind [out]; a target another thread waits for is EBUSY;
    otherwise the caller is registered as the waiter and blocks.  The error cases
    change nothing but [errno]. *)
Theorem join_outcomes {W} `{!OS W} `{!Libc W} (s : rr_state W) (self : ptr) (me : uthread)
    (i : Z) (out : ptr) :
  ginv s (Some self) -> rd heap s !! self = Some me ->
  match first_named (rd heap s) (v_items (rd g_threads s)) i with
  | None => uthread_join i out s = CDone (-1) (wr errno ESRCH s)
  | Some target => exists t, rd heap s !! target = Some t /\ id t = i /\
      if i =? id me then uthread_join i out s = CDone (-1) (wr errno EDEADLK s)
      else if bool_decide (state t = UT_DONE) then
        uthread_join i out s = CDone 0
          (if out =? NULL then s else wr mem (store (rd mem s) out (le 8 (retval t))) s)
      else if negb (join_waiter t =? NULL) && negb (join_waiter t =? self) then
        uthread_join i out s = CDone (-1) (wr errno EBUSY s)
      else exists s' k, uthread_join i out s = CSwap self s' k /\
        rd heap s' = <[self := set_state UT_BLOCKED me]>
          (<[target := set_join_waiter self t]> (rd heap s))
  end.
Proof.
  intros Hg Hme. pose proof (ginv_running _ _ Hg) as (Hc & Hp & x & Hx & Hst).
  assert (x = me) as -> by congruence.
  pose proof (find_first s (Some self) i (g_winv _ _ Hg)) as Hf.
  pose proof (first_named_spec (rd heap s) (v_items (rd g_threads s)) i) as Hsp.
  remember (uthread_join i out s) as res eqn:Hres. unfold uthread_join in Hres.
  rewrite (cbind_ok (get g_rr_config) _ s _ s eq_refl), (ready_config _ _ Hg) in Hres.
  unfold rr_uthread_join in Hres. rewrite (cbind_ok _ _ _ _ _ Hf) in Hres.
  rewrite (cbind_ok rr_scheduler_current _ s _ s eq_refl) in Hres.
  destruct (first_named _ _ _) as [tg|]; simpl in Hres; [|done].
  destruct Hsp as [Htg (t & Ht & Hi)]. exists t. split; [done|]. split; [done|].
  assert (tg <> NULL) as Ht0 by (by eapply ginv_nonnull).
  rewrite (proj2 (Z.eqb_neq _ _) Ht0), (cbind_ok _ _ _ _ _ (deref_ok _ _ _ Ht)), Hc in Hres.
  rewrite (cbind_ok (same_thread self t) _ s (id t =? id me) s), Hi in Hres.
  2:{ unfold same_thread. rewrite (proj2 (Z.eqb_neq _ _) Hp).
      by rewrite (bind_ok _ _ _ _ _ (deref_ok _ _ _ Hme)). }
  destruct (i =? id me) eqn:Eid; [done|]. bool_prop.
  destruct (bool_decide (state t = UT_DONE)).
  { rewrite Hres. unfold lift. rewrite (bind_ok _ _ _ _ _ (deref_ok _ _ _ Ht)).
    by destruct (out =? NULL). }
  rewrite (proj2 (Z.eqb_neq _ _) Hp) in Hres. destruct (negb _ && _); [done|].
  rewrite (cbind_ok _ _ _ _ _ (update_ok tg (set_join_waiter self) t s Ht)) in Hres.
  set (s1 := wr heap _ s) in Hres.
  destruct (ginv_set_joiner s (Some self) tg t self Hg Ht) as [Hg1 _]; [right; by eexists|].
  fold s1 in Hg1. assert (tg <> self) as Hne. { intros ->. simplify_eq. }
  assert (rd heap s1 !! self = Some me) as Hme1 by (unfold s1; glob_simpl; by rewrite lookup_insert_ne).
  pose proof (guard_open _ _ Hg1) as Hop. change (rd g_current s1) with (rd g_current s) in Hop.
  unfold rr_scheduler_block_current, mbind, C_bind, lift, get in Hres. simpl in Hres.
  change (rd g_current s1) with (rd g_current s) in Hres. rewrite Hop, Hc in Hres. simpl in Hres.
  rewrite (update_ok _ _ _ _ Hme1) in Hres. rewrite Hres. simpl. do 2 eexists. split; [done|]. done.
Qed.
Lemma join_outcomes_witness :
  exists s' k, uthread_join 2 0 demo_queue = CSwap 1 s' k /\
    option_map state (rd heap s' !! 1) = Some UT_BLOCKED.
Proof.
  destruct (join_outcomes demo_queue 1 (sim_thread 1 UT_RUNNING) 2 0) as (t & Ht & _ & H).
  - exact (sim_recording_ginv 0 ∅ sim_init eq_refl).
  - reflexivity.
  - vm_compute in Ht. injection Ht as <-. destruct H as (s' & k & Hrun & Hh).
    exists s', k. split; [exact Hrun|]. rewrite Hh. reflexivity.
Defined.

(** C12 (create_outcome): as long as [realloc] of the tables does not fail and the 64-bit
    id counter has not wrapped to 0, [uthread_create] returns, and either it fails (0)
    and there are the same threads as before, or it takes the next id, and then there
    is one thread more: a fresh object, runnable, with the function and argument
    given, at the end of the thread table and behind every runnable thread; the other
    threads change in their queue links only and the next id is used up.  A NULL
    function always fails.  In every case the invariant of the runtime holds again. *)
Theorem create_outcome {W} `{!OS W} `{!Libc W} (s : rr_state W) (run : option ptr) (fn arg : Z) :
  ginv s run -> rd g_next_id s <> 0 ->
  match uthread_create fn arg s with
  | Ok r s' => ginv s' run /\ (fn = NULL -> r = 0) /\
      if r =? 0 then rd heap s' = rd heap s
      else r = rd g_next_id s /\ rd g_next_id s' = u64 (r + 1) /\
        exists p u l, rd heap s !! p = None /\ runq s l /\ runq s' (l ++ [p]) /\
          only_next (<[p := u]> (rd heap s)) (rd heap s') /\
          v_items (rd g_threads s') = v_items (rd g_threads s) ++ [p] /\
          id u = r /\ state u = UT_RUNNABLE /\ start_fn u = fn /\ start_arg u = arg
  | Halted _ _ => False
  end.
Proof.
  intros Hg Hid. pose proof (uthread_create_ends fn arg s) as He. unfold wp in He.
  cut (wp (uthread_create fn arg) (fun r s' => ginv s' run /\ (fn = NULL -> r = 0) /\
      if r =? 0 then rd heap s' = rd heap s
      else r = rd g_next_id s /\ rd g_next_id s' = u64 (r + 1) /\
        exists p u l, rd heap s !! p = None /\ runq s l /\ runq s' (l ++ [p]) /\
          only_next (<[p := u]> (rd heap s)) (rd heap s') /\
          v_items (rd g_threads s') = v_items (rd g_threads s) ++ [p] /\
          id u = r /\ state u = UT_RUNNABLE /\ start_fn u = fn /\ start_arg u = arg) sane s).
  { unfold wp. by destruct (uthread_create fn arg s). }
  clear He. unfold uthread_create. wp_step. wp_step. rewrite (ready_config _ _ Hg). wp_step.
  destruct (decide (fn = NULL)) as [->|Hfn].
  { unfold rr_uthread_create. cbn [Z.eqb orb]. wp_steps. split; [by apply ginv_errno|done]. }
  apply (wp_create fn arg s run); [done..|]. intros s0 r s' (Hh & _ & Hs & _) _ [Hg' Hr]. wp_step.
  split; [done|]. split; [done|]. destruct r as [j|]; simpl; [|by rewrite Hr, Hh].
  destruct Hr as (-> & p & u & l & Hp & Hq & Hq' & Ho & Hi & Hst & Hf & Ha & Hth & Hn).
  rewrite (proj2 (Z.eqb_neq _ _) Hid). split; [done|]. split; [done|]. exists p, u, l.
  change (rd heap (wr g_next_id (u64 (rd g_next_id s + 1)) s0)) with (rd heap s0) in *. rewrite Hh in *.
  split; [done|]. split.
  - unfold runq, rd in *. simpl in *. by rewrite Hs, Hh in Hq.
  - split; [done|]. split; [done|]. split; [|done]. rewrite Hth. unfold rd. simpl. by rewrite Hs.
Qed.
Lemma create_outcome_witness :
  match uthread_create 4096 5 demo_queue with
  | Ok r s' => r = 3 /\ rd g_next_id s' = 4 /\ ginv s' (Some 1)
  | Halted _ _ => False
  end.
Proof.
  assert (H : match uthread_create 4096 5 demo_queue with Ok r _ => r | Halted _ _ => 0 end = 3)
    by (vm_compute; reflexivity).
  pose proof (create_outcome demo_queue (Some 1) 4096 5
    (sim_recording_ginv 0 ∅ sim_init eq_refl) ltac:(vm_compute; congruence)) as Hc.
  destruct (uthread_create 4096 5 demo_queue) as [r s'|h s']; [|discriminate H].
  subst r. destruct Hc as (Hg & _ & _ & Hn & _). split; [reflexivity|]. split; [exact Hn|exact Hg].
Defined.

(** ** Running out of memory *)

(** A system that grants everything a thread creation asks for but memory for tables,
    of which [room] bytes are left. *)
Definition granted (f : string) (rc : Z) : Prop :=
  if String.eqb f "calloc" then rc <> 0
  else if String.eqb f "mmap" then rc <> MAP_FAILED
  else f ∈ ["mprotect"; "arch_prctl"; "getcontext"] -> rc = 0.
Class Scarce (W : Type) `{!OS W} := {
  generous : W -> Prop;
  room : W -> Z;
  scarce_call f args m w w' rp :
    generous w -> f <> "realloc" -> os_call (Rcall f args) m w = (w', rp) ->
    generous w' /\ room w' = room w /\ granted f (rp_rc rp);
  scarce_realloc n m w w' rp :
    generous w -> os_call (Rcall "realloc" [n]) m w = (w', rp) ->
    generous w' /\ if n <=? room w then rp_rc rp <> 0 /\ room w' = room w - n else rp_rc rp = 0
}.

Section OutOfMemory.
Context {W : Type} `{!OS W} `{!Scarce W}.
Implicit Types s : rr_state W.

(** Thread [p], now [u], is being made: it is not in any table yet. *)
Record making s0 (p : ptr) (u : uthread) s : Prop := {
  mk_heap : rd heap s = <[p := u]> (rd heap s0);
  mk_threads : rd g_threads s = rd g_threads s0;
  mk_allocated : rd g_allocated s = rd g_allocated s0;
  mk_guards : v_len (rd g_guard_pages s) < v_cap (rd g_guard_pages s);
  mk_config : st_config s = st_config s0;
  mk_generous : generous (rd world s);
  mk_room : room (rd world s) = room (rd world s0)
}.
Lemma wp_making_os f args s0 p u s (Q : os_resp -> rr_state W -> Prop) :
  f <> "realloc" -> making s0 p u s ->
  (forall rp s', granted f (rp_rc rp) -> making s0 p u s' -> Q rp s') -> wp (os (Rcall f args)) Q no_halt s.
Proof.
  intros Hf Hm HQ. apply wp_os. intros w rp s' Hc He Hw _ _ _.
  destruct (scarce_call f _ _ _ _ _ (mk_generous _ _ _ _ Hm) Hf Hc) as (Hg & Hr & Hgr).
  apply HQ; [done|]. destruct Hm. rewrite <-Hw in Hg, Hr. env_simpl. constructor; try done.
  glob_simpl_in Hr. glob_simpl. congruence.
Qed.
Lemma wp_making_call f args s0 p u s (Q : Z -> rr_state W -> Prop) :
  f <> "realloc" -> making s0 p u s ->
  (forall rc s', granted f rc -> making s0 p u s' -> Q rc s') -> wp (call f args) Q no_halt s.
Proof.
  intros Hf Hm HQ. unfold call, os_rc. wp_step. eapply wp_making_os; [done..|].
  intros rp s' Hg Hm'. wp_step. by apply HQ.
Qed.
Lemma wp_making_update f s0 p u s (Q : () -> rr_state W -> Prop) :
  making s0 p u s -> (forall s', making s0 p (f u) s' -> Q tt s') -> wp (update p f) Q no_halt s.
Proof.
  intros [Hh] HQ. apply (wp_update _ _ u); [rewrite Hh; apply lookup_insert_eq|]. apply HQ.
  constructor; try done. glob_simpl. by rewrite Hh, insert_insert_eq.
Qed.
(** A guard page has a place in its table. *)
Lemma wp_making_guard s0 p u s a b i (Q : Z -> rr_state W -> Prop) :
  making s0 p u s ->
  (forall s', rd heap s' = rd heap s -> rd g_threads s' = rd g_threads s -> rd g_allocated s' = rd g_allocated s ->
     st_config s' = st_config s -> rd world s' = rd world s -> Q 0 s') ->
  wp (rr_register_guard_page a b i) Q no_halt s.
Proof.
  intros Hm HQ. pose proof (mk_guards _ _ _ _ Hm) as Hg. unfold rr_register_guard_page, grow_if_full.
  wp_step. wp_step. wp_step. rewrite (proj2 (Z.eqb_neq _ _)) by lia. wp_step. cbn [negb]. wp_step.
  apply wp_vec_store; [done|]. wp_step. by apply HQ.
Qed.
(** Growing a full table of pointers. *)
Lemma wp_grow_full (g : glob W (vec ptr)) s (Q : bool -> rr_state W -> Prop) :
  generous (rd world s) -> v_len (rd g s) = v_cap (rd g s) -> 0 < v_cap (rd g s) < 2 ^ 58 ->
  (forall s' w, env_only s s' -> rd world s' = w -> generous w ->
     if 16 * v_cap (rd g s) <=? room (rd world s)
     then room w = room (rd world s) - 16 * v_cap (rd g s) ->
       Q true (wr g (Vec (v_items (rd g s)) (2 * v_cap (rd g s))) s')
     else Q false s') ->
  wp (grow_if_full g 8) Q no_halt s.
Proof.
  intros Hg Hf Hc HQ. unfold grow_if_full. wp_step. wp_step. rewrite (proj2 (Z.eqb_eq _ _) Hf).
  rewrite (proj2 (Z.eqb_neq (v_cap (rd g s)) 0)) by lia. rewrite (u64_id (v_cap (rd g s) * 2)) by (unfold in_u64; lia).
  rewrite u64_id by (unfold in_u64; lia). replace (v_cap (rd g s) * 2 * 8) with (16 * v_cap (rd g s)) by lia.
  rewrite (Z.mul_comm _ 2). wp_step. unfold call. apply wp_os_rc. intros w rp s' Hos He Hw _ _ _.
  destruct (scarce_realloc _ _ _ _ _ Hg Hos) as [Hg' Hr]. specialize (HQ s' w He Hw Hg').
  destruct (_ <=? _).
  - destruct Hr as [Hn Hr]. rewrite (proj2 (Z.eqb_neq _ _) Hn). wp_step. wp_step. wp_step. by apply HQ.
  - rewrite Hr. cbn [Z.eqb]. wp_step. done.
Qed.

(** The table of the scheduler grows, the other one cannot. *)
Lemma wp_second_table_fails s0 p u s mem_ sz (ok : M W (option Z)) (Q : option Z -> rr_state W -> Prop) :
  let c := v_cap (rd g_threads s0) in
  rd heap s = <[p := u]> (rd heap s0) -> rd heap s0 !! p = None -> p <> NULL ->
  rd g_threads s = rd g_threads s0 -> rd g_allocated s = rd g_allocated s0 ->
  st_config s = st_config s0 -> generous (rd world s) ->
  v_len (rd g_threads s0) = c -> v_len (rd g_allocated s0) = c -> v_cap (rd g_allocated s0) = c ->
  0 < c < 2 ^ 58 -> 16 * c <= room (rd world s) < 32 * c ->
  (forall s', rd heap s' = rd heap s0 -> v_items (rd g_threads s') = v_items (rd g_threads s0) ++ [p] ->
     st_config s' = st_config s0 -> Q None s') ->
  wp (r2 ← rr_scheduler_register_thread p;
      r3 ← (if negb (r2 =? 0) then mret (-1) else remember_thread p);
      if negb (r3 =? 0) then create_undo mem_ sz p else ok) Q no_halt s.
Proof.
  intros c Hh Hp Hne Ht Ha Hcf Hg Hl Hl2 Hc2 Hc Hr HQ. wp_step. unfold rr_scheduler_register_thread.
  rewrite (proj2 (Z.eqb_neq _ _) Hne). wp_step.
  apply wp_grow_full; rewrite ?Ht; fold c; [done..|]. intros s1 w1 He1 Hw1 Hg1.
  rewrite (proj2 (Z.leb_le _ _)) by lia. intros Hr1. cbn [negb]. wp_step.
  apply wp_vec_store; glob_simpl; [unfold v_len in *; simpl; lia|]. wp_step. cbn [Z.eqb negb].
  wp_step. unfold remember_thread. wp_step. set (s2 := wr g_threads _ _).
  assert (rd g_allocated s2 = rd g_allocated s0) as Ha2 by (rewrite <-Ha; unfold s2; by env_simpl).
  change (rd world s1) with (rd world s2) in Hw1.
  apply wp_grow_full; rewrite ?Ha2, ?Hw1, ?Hc2; [done|by rewrite Hl2|done|]. intros s3 w3 He3 _ _.
  rewrite (proj2 (Z.leb_gt _ _)) by (rewrite Hr1; lia). cbn [negb]. wp_step. cbn [Z.eqb negb].
  unfold create_undo. wp_step. unfold call. apply wp_os_rc. intros w4 rp s4 _ He4 _ _ _ _.
  assert (rd heap s4 = <[p := u]> (rd heap s0) /\
    v_items (rd g_threads s4) = v_items (rd g_threads s0) ++ [p] /\ st_config s4 = st_config s0) as (H1 & H2 & H3).
  { unfold s2 in He3. clearbody s2. rewrite <-Hh, <-Hcf. by env_simpl. }
  wp_step. unfold wp, free_ut. rewrite H1, lookup_insert_eq. apply HQ; try done.
  glob_simpl. by rewrite delete_insert_eq, delete_id.
Qed.

(** A lookup that gets as far as an entry that was freed. *)
Lemma find_dangling s items p i :
  Forall (fun q => q = NULL \/ exists u, rd heap s !! q = Some u /\ id u <> i) items ->
  p <> NULL -> rd heap s !! p = None -> find_loop (items ++ [p]) i s = Halted HUndef s.
Proof.
  intros Hi Hp Hn. induction Hi as [|q items [->|(u & Hu & Hd)] _ IH]; simpl.
  - rewrite (proj2 (Z.eqb_neq _ _) Hp). unfold mbind, M_bind, deref. by rewrite Hn.
  - done.
  - destruct (q =? NULL); [done|]. rewrite (bind_ok _ _ _ _ _ (deref_ok _ _ _ Hu)).
    by rewrite (proj2 (Z.eqb_neq _ _) Hd).
Qed.
(** The whole creation. *)
Lemma wp_create_starved s fn arg (Q : option Z -> rr_state W -> Prop) :
  let c := v_cap (rd g_threads s) in let p := rd brk s in
  generous (rd world s) -> 16 * c <= room (rd world s) < 32 * c -> 0 < c < 2 ^ 58 ->
  v_len (rd g_threads s) = c -> v_len (rd g_allocated s) = c -> v_cap (rd g_allocated s) = c ->
  v_len (rd g_guard_pages s) < v_cap (rd g_guard_pages s) ->
  fn <> NULL -> p <> NULL -> rd heap s !! p = None ->
  (forall s', rd heap s' = rd heap s -> v_items (rd g_threads s') = v_items (rd g_threads s) ++ [p] ->
     st_config s' = st_config s -> Q None s') ->
  wp (rr_uthread_create fn arg true) Q no_halt s.
Proof.
  intros c p Hg Hr Hc Hl Hl2 Hc2 Hgp Hfn Hp Hn HQ. unfold rr_uthread_create, calloc_ut.
  rewrite (proj2 (Z.eqb_neq _ _) Hfn). cbn [orb negb]. wp_step. wp_step.
  unfold call at 1. apply wp_os_rc. intros w rp s1 Hos He Hw _ _ _.
  destruct (scarce_call "calloc" _ _ _ _ _ Hg ltac:(done) Hos) as (Hg1 & Hr1 & Hgr).
  unfold granted in Hgr. cbn in Hgr. rewrite (proj2 (Z.eqb_neq _ _) Hgr). do 9 wp_step.
  replace (rd brk s1) with p by (unfold p; by env_simpl).
  rewrite (proj2 (Z.eqb_neq _ _) Hp). rewrite <-Hw in Hg1, Hr1.
  assert (M0 : making s p uthread_zero (wr heap (<[p := uthread_zero]> (rd heap s1)) (wr brk (p + 1) s1))).
  { env_simpl. by constructor. }
  wp_step. eapply wp_making_call; [done|exact M0|]. intros pagesz s2 _ M2. wp_step. wp_step. wp_step.
  eapply wp_making_call; [done|exact M2|]. intros mem_ s3 H3 M3. cbn in H3.
  rewrite (proj2 (Z.eqb_neq _ _) H3). wp_step.
  eapply wp_making_call; [done|exact M3|]. intros rc s4 H4 M4. rewrite H4 by set_solver. cbn [Z.eqb negb].
  do 5 wp_step.
  assert (M5 : making s p uthread_zero (wr g_next_id (u64 (rd g_next_id s4 + 1)) s4)) by (by destruct M4).
  eapply wp_making_update; [exact M5|]. intros s6 M6. unfold init_tls_copy, rr_get_fs_base. do 3 wp_step.
  eapply wp_making_os; [done|exact M6|]. intros rp7 s7 H7 M7. rewrite H7 by set_solver. wp_step. cbn [Z.eqb].
  wp_step. eapply wp_making_update; [exact M7|]. intros s8 M8. wp_step. cbn [Z.eqb negb]. wp_step.
  eapply wp_making_call; [done|exact M8|]. intros rc9 s9 H9 M9. rewrite H9 by set_solver. cbn [Z.eqb negb].
  wp_step. eapply wp_making_update; [exact M9|]. intros s10 M10. wp_step.
  eapply wp_making_guard; [exact M10|]. intros s11 E1 E2 E3 E4 E5. cbn [Z.eqb negb]. destruct M10.
  eapply (wp_second_table_fails s p); [by rewrite E1, mk_heap0|..]; try congruence; try done.
  by rewrite E5, mk_room0.
Qed.
End OutOfMemory.

(** C28 (out_of_memory_use_after_free): let a thread be created while both tables of
    threads are full and the memory left suffices to double the first of them and not
    the second.  The creation fails and the new thread is freed, but its address
    stays in the scheduler's table: a [uthread_join] of any id that none of the
    other threads has then dereferences the freed thread. *)
Theorem out_of_memory_use_after_free {W} `{!OS W} `{!Scarce W} (s : rr_state W) (fn arg i : Z) (out : ptr) :
  let c := v_cap (rd g_threads s) in let p := rd brk s in
  generous (rd world s) -> 16 * c <= room (rd world s) < 32 * c -> 0 < c < 2 ^ 58 ->
  v_len (rd g_threads s) = c -> v_len (rd g_allocated s) = c -> v_cap (rd g_allocated s) = c ->
  v_len (rd g_guard_pages s) < v_cap (rd g_guard_pages s) ->
  runtime_ready (rd g_rr_config s) = true -> fn <> NULL -> p <> NULL -> rd heap s !! p = None ->
  Forall (fun q => q = NULL \/ exists u, rd heap s !! q = Some u /\ id u <> i) (v_items (rd g_threads s)) ->
  exists s', uthread_create fn arg s = Ok 0 s' /\ rd heap s' = rd heap s /\
    v_items (rd g_threads s') = v_items (rd g_threads s) ++ [p] /\
    uthread_join i out s' = CHalted HUndef s'.
Proof.
  intros c p Hg Hr Hc Hl Hl2 Hc2 Hgp Hy Hfn Hp Hn Hids.
  destruct (wp_returns (uthread_create fn arg) (fun r s' => r = 0 /\ rd heap s' = rd heap s /\
    v_items (rd g_threads s') = v_items (rd g_threads s) ++ [p] /\ st_config s' = st_config s) s)
    as (r & s' & Hrun & -> & Hh & Ht & Hcf).
  2:{ exists s'. split; [done|]. split; [done|]. split; [done|]. unfold uthread_join.
      rewrite (cbind_ok (get g_rr_config) _ s' _ s' eq_refl).
      change (rd g_rr_config s') with (st_config s'). rewrite Hcf. change (st_config s) with (rd g_rr_config s).
      rewrite Hy. cbn [negb]. unfold rr_uthread_join. apply cbind_halted.
      unfold rr_scheduler_find. rewrite (bind_ok (get g_threads) _ s' _ s' eq_refl), Ht.
      apply find_dangling; [by rewrite Hh|done|by rewrite Hh]. }
  unfold uthread_create. wp_step. wp_step. rewrite Hy. cbn [negb]. wp_step.
  apply wp_create_starved; [done..|]. intros s' H1 H2 H3. by wp_step.
Qed.
#[export] Program Instance sim_scarce : Scarce sim := {|
  generous := fun x => sim_fail x = [] /\ 0 <= sim_addr x /\ is_Some (sim_room x);
  room := fun x => default 0 (sim_room x)
|}.
Next Obligation.
  intros f args m w w' rp (Hf & Ha & Hr) Hn Hc. simpl in Hc. unfold sim_named in Hc. rewrite Hf in Hc.
  unfold is_one, granted in *. simpl in Hc. rewrite !orb_false_r in Hc.
  rewrite (proj2 (String.eqb_neq f "realloc") Hn) in Hc.
  destruct (String.eqb_spec f "calloc"); [by simplify_eq/=|].
  destruct (String.eqb_spec f "mmap"); [simplify_eq/=; unfold MAP_FAILED; repeat split; (done || lia)|].
  repeat case_match; simplify_eq/=; repeat split; try done; intros Hin; exfalso;
    repeat (apply elem_of_cons in Hin as [->|Hin]; [done|]); by apply not_elem_of_nil in Hin.
Qed.
Next Obligation.
  intros n m w w' rp (Hf & Ha & [r Hr]) Hc. simpl in Hc. unfold sim_named in Hc. rewrite Hf, Hr in Hc.
  simpl in Hc. rewrite Hr. simpl. destruct (n <=? r); simplify_eq/=; (split; [by rewrite ?Hr|done]).
Qed.
(** Sixteen threads, and memory for one table of 32 more. *)
Definition demo_starved : rr_state sim :=
  let ids := seqZ 1 16 in
  wr heap (list_to_map ((fun i => (i, sim_thread i UT_BLOCKED)) <$> ids))
    (wr brk 17 (wr g_threads (Vec ids 16) (wr g_allocated (Vec ids 16)
      (wr g_guard_pages (Vec [] 16) (sim_recording 0 ∅ (with_room (Some 300) sim_init)))))).
Lemma out_of_memory_use_after_free_witness :
  exists s', uthread_create 4096 0 demo_starved = Ok 0 s' /\ rd heap s' !! 17 = None /\
    17 ∈ v_items (rd g_threads s') /\ uthread_join 999 0 s' = CHalted HUndef s'.
Proof.
  destruct (out_of_memory_use_after_free demo_starved 4096 0 999 0) as (s' & Hrun & Hh & Ht & Hj).
  - split; [reflexivity|]. split; [vm_compute; congruence|by eexists].
  - vm_compute. split; [congruence|reflexivity].
  - vm_compute. split; reflexivity.
  - reflexivity.
  - reflexivity.
  - reflexivity.
  - vm_compute. reflexivity.
  - reflexivity.
  - vm_compute. congruence.
  - vm_compute. congruence.
  - vm_compute. reflexivity.
  - apply Forall_forall. intros q Hq. right.
    assert (Hall : Forall (fun q => match rd heap demo_starved !! q with
      | Some u => id u <> 999 | None => False end) (v_items (rd g_threads demo_starved)))
      by (vm_compute; repeat (constructor; [congruence|]); constructor).
    rewrite Forall_forall in Hall. specialize (Hall q Hq).
    destruct (rd heap demo_starved !! q) as [u|]; [exists u; split; [reflexivity|exact Hall]|destruct Hall].
  - exists s'. split; [exact Hrun|]. split; [rewrite Hh; vm_compute; reflexivity|].
    split; [rewrite Ht; apply elem_of_app; right; apply list_elem_of_singleton; reflexivity|exact Hj].
Defined.
