(* ===== verification/WrapperTheorems.v ===== *)
(** Theorems about the interposed functions: pass-through while the runtime is off,
    isolation and memory bounds in replay, what replay delivers, and what a failed
    submission looks like to the application. *)
From stdpp Require Import gmap strings list pretty.
From coqutil Require Import Byte.
From S2P Require Import Prelude Types State Events Logic Log Scheduler Record Replay Signal IoUring Uthread Wrappers Lifecycle Machine Invariant Safety ThreadSafety SchedSafety ColdSafety LifecycleSafety SimOS.

(** ** Pass-through *)

(** The libc function behind a call of the application, with its arguments. *)
Definition real_call (c : api) : option (string * list Z) :=
  match c with
  | Aread fd buf count => Some ("read", [fd; buf; count])
  | Awrite fd buf count => Some ("write", [fd; buf; count])
  | Arecv fd buf len flags => Some ("recv", [fd; buf; len; flags])
  | Asend fd buf len flags => Some ("send", [fd; buf; len; flags])
  | Aaccept fd addr addrlen => Some ("accept", [fd; addr; addrlen])
  | Aconnect fd addr addrlen => Some ("connect", [fd; addr; addrlen])
  | Aopenat dirfd path flags mode =>
      Some ("openat", if negb (Z.land flags O_CREAT =? 0) then [dirfd; path; flags; u32 mode]
                      else [dirfd; path; flags])
  | Aclose fd => Some ("close", [fd])
  | Ananosleep req rem => Some ("nanosleep", [req; rem])
  | Aclock_gettime clk tp => Some ("clock_gettime", [clk; tp])
  | Agettimeofday tv tz => Some ("gettimeofday", [tv; tz])
  | Agetpid => Some ("getpid", [])
  | Agetuid => Some ("getuid", [])
  | Auname buf => Some ("uname", [buf])
  | Astat path st => Some ("stat", [path; st])
  | Afstat fd st => Some ("fstat", [fd; st])
  | Alstat path st => Some ("lstat", [path; st])
  | Agetcwd buf size => Some ("getcwd", [buf; size])
  | Acreate _ _ | Ayield | Aexit _ | Ajoin _ _ => None
  end.

(** ** Requests and first uses *)

Section Requests.
Context {W : Type} `{!OS W}.
Implicit Types s : rr_state W.

(** The system was asked [r] in [s] and answered [rp]; [s'] is what that leaves. *)
Definition answered (r : os_req) (rp : os_resp) s s' : Prop :=
  os_call r (rd mem s) (rd world s) = (rd world s', rp) /\ env_only s s' /\
  rd mem s' = apply_writes (rp_writes rp) (rd mem s) /\
  rd errno s' = default (rd errno s) (rp_errno rp) /\ rd trace s' = r :: rd trace s.
(** The first call of a function looks its address up; later calls do not. *)
Definition loaded (f : string) s s' : Prop :=
  if default 0 (rd statics s !! f) =? NULL then
    exists rp s1, answered (Rdlsym f) rp s s1 /\
      s' = wr statics (<[f := rp_rc rp]> (rd statics s1)) s1
  else s' = s.

Lemma wp_answered r s (Q : os_resp -> rr_state W -> Prop) E :
  (forall rp s', answered r rp s s' -> Q rp s') -> wp (os r) Q E s.
Proof. intros HQ. apply wp_os. intros w rp s' Hc He <- Hm Hr Ht. apply HQ. by repeat split. Qed.
Lemma wp_loaded f s (Q : Z -> rr_state W -> Prop) E :
  (forall p s', loaded f s s' -> Q p s') -> wp (resolve f f) Q E s.
Proof.
  intros HQ. unfold resolve, loaded in *. wp_step. wp_step.
  destruct (default 0 (rd statics s !! f) =? NULL); [|wp_step; by apply HQ].
  unfold os_rc. wp_step. wp_step. apply wp_answered. intros rp s1 Ha. wp_step. wp_step. wp_step.
  wp_step. wp_step. wp_step. apply HQ. by exists rp, s1.
Qed.
Lemma resolve_resolved slot name s :
  default 0 (rd statics s !! slot) <> NULL ->
  exists p, resolve slot name s = Ok p s.
Proof.
  intros H. unfold resolve, mbind, M_bind, get. rewrite (proj2 (Z.eqb_neq _ _) H). by eexists.
Qed.
(** Looking an address up changes nothing else of the library. *)
Lemma loaded_same f s s' :
  loaded f s s' -> rd g_rr_config s' = rd g_rr_config s /\ rd heap s' = rd heap s /\
  st_sched s' = st_sched s /\ st_replay s' = st_replay s /\
  forall k, k <> f -> rd statics s' !! k = rd statics s !! k.
Proof.
  unfold loaded. destruct (_ =? NULL); [|by intros ->].
  intros (rp & s1 & (_ & He & _) & ->). destruct He as (? & ? & ? & ? & ->). repeat split.
  intros k Hk. glob_simpl. by rewrite lookup_insert_ne.
Qed.
End Requests.

(** ** Pass-through *)

Section Passthrough.
Context {W : Type} `{!OS W}.
Implicit Types s : rr_state W.

(** Neither recording nor replaying: no mode is set, or the runtime is not ready. *)
Definition passive s : Prop :=
  mode_record (rd g_rr_config s) && runtime_ready (rd g_rr_config s) = false /\
  mode_replay (rd g_rr_config s) && runtime_ready (rd g_rr_config s) = false.

Lemma wp_passive_active s (Q : bool -> rr_state W -> Prop) E : passive s -> Q false s -> wp rr_active Q E s.
Proof. intros [H _] HQ. unfold rr_active. wp_steps. by rewrite H. Qed.
Lemma wp_passive_replay s (Q : bool -> rr_state W -> Prop) E :
  passive s -> Q false s -> wp rr_replay_active Q E s.
Proof. intros [_ H] HQ. unfold rr_replay_active. wp_steps. by rewrite H. Qed.
Lemma passive_loaded f s s' : passive s -> loaded f s s' -> passive s'.
Proof. intros Hp Hl. unfold passive. by destruct (loaded_same _ _ _ Hl) as (-> & _). Qed.
Lemma passive_answered r rp s s' : passive s -> answered r rp s s' -> passive s'.
Proof. intros Hp (_ & He & _). unfold passive in *. by env_simpl. Qed.

(** The call went through to the function of libc it stands for. *)
Definition passed (f : string) (args : list Z) s (v : Z) s' : Prop :=
  exists s1 rp, loaded f s s1 /\ default 0 (rd statics s1 !! f) <> NULL /\
    answered (Rcall f args) rp s1 s' /\ v = rp_rc rp.
(** The function was not found, and the call went through a NULL pointer. *)
Definition not_found (f : string) s (h : halt) s' : Prop :=
  h = HNullCall /\ loaded f s s' /\ default 0 (rd statics s' !! f) = NULL.

Lemma wp_pass_real f args s s1 (Q : Z -> rr_state W -> Prop) :
  loaded f s s1 -> (forall v s', passed f args s v s' -> passive s' -> Q v s') -> passive s1 ->
  wp (real f args) Q (not_found f s) s1.
Proof.
  intros Hl HQ Hp. unfold real, call_real. wp_step. wp_step. wp_step.
  destruct (default 0 (rd statics s1 !! f) =? NULL) eqn:E; bool_prop; [by wp_step|].
  apply wp_answered. intros rp s2 Ha. wp_step. apply HQ; [by exists s1, rp|]. by eapply passive_answered.
Qed.
(** The blocking wrappers. *)
Lemma pass_blocking f args (on : C W Z) (rep : M W Z) s :
  passive s ->
  cwp ((lift (resolve f f);;
   act ← lift rr_active;
   if negb act then
     b ← lift rr_replay_active;
     if (b : bool) then lift rep else lift (real f args)
   else on) s) s (fun _ v s' => passed f args s v s') (not_found f s) (fun _ _ _ => False)
   (fun _ _ _ => True).
Proof.
  intros Hp. apply cwp_bind, cwp_lift, wp_loaded. intros p s1 Hl. pose proof (passive_loaded _ _ _ Hp Hl).
  apply cwp_bind, cwp_lift, wp_passive_active; [done|]. cbn [negb].
  apply cwp_bind, cwp_lift, wp_passive_replay; [done|]. apply cwp_lift. by eapply wp_pass_real.
Qed.
(** The others. *)
Lemma pass_direct f args (rep : M W Z) (k : Z -> M W ()) s :
  passive s ->
  wp (resolve f f;;
   b ← rr_replay_active;
   if (b : bool) then rep
   else rc ← real f args; act ← rr_active; when act (k rc);; mret rc)
   (fun v s' => passed f args s v s') (not_found f s) s.
Proof.
  intros Hp. wp_step. apply wp_loaded. intros p s1 Hl. pose proof (passive_loaded _ _ _ Hp Hl).
  wp_step. apply wp_passive_replay; [done|]. cbn iota. wp_step. eapply wp_pass_real; [done| |done].
  intros v s2 Hv Hp2. wp_step. apply wp_passive_active; [done|]. wp_step. cbn [when]. wp_step. wp_step. done.
Qed.
End Passthrough.

(** C17 (off_passthrough): when the library neither records nor replays (RR_MODE unset,
    before start-up, after a failed start-up, during shutdown) every interposed
    function makes exactly the libc call it stands for, with the same arguments,
    preceded on its first use by one [dlsym], and returns its result with the
    [errno] and the memory that call leaves; nothing is logged or read from a log
    and no thread is switched; it ends the process only when [dlsym] finds no such
    function.  While the runtime is not ready the thread functions fail with ENOSYS,
    do nothing, or end the process. *)
Theorem off_passthrough {W} `{!OS W} (c : api) (s : rr_state W) :
  passive s ->
  match real_call c with
  | Some (f, args) =>
      match api_call c s with
      | CDone v s' => exists s1 rp, loaded f s s1 /\ default 0 (rd statics s1 !! f) <> NULL /\
          answered (Rcall f args) rp s1 s' /\ v = rp_rc rp
      | CHalted h s' => h = HNullCall /\ loaded f s s' /\ default 0 (rd statics s' !! f) = NULL
      | CSwap _ _ _ => False
      end
  | None => rd g_runtime_ready s = false -> api_call c s =
      match c with
      | Acreate _ _ => CDone 0 (wr errno ENOSYS s)
      | Ajoin _ _ => CDone (-1) (wr errno ENOSYS s)
      | Aexit _ => CHalted (HExit 0) s
      | _ => CDone 0 s
      end
  end.
Proof.
  intros Hp. destruct (real_call c) as [[f args]|] eqn:Hc.
  - cut (cwp (api_call c s) s (fun _ v s' => passed f args s v s') (not_found f s) (fun _ _ _ => False)
      (fun _ _ _ => True)).
    { by destruct (api_call c s); [..|intros [[] _]]. }
    destruct c; simplify_eq/=; try (by apply pass_blocking); try (by apply cwp_lift, pass_direct).
    unfold openat. destruct (negb (Z.land flags O_CREAT =? 0)); by apply pass_blocking.
  - intros Hr. assert (negb (runtime_ready (rd g_rr_config s)) = true) as Hn.
    { change (negb (rd g_runtime_ready s) = true). by rewrite Hr. }
    destruct c; simplify_eq/=.
    + unfold lift, uthread_create. by rewrite (bind_ok (get g_rr_config) _ s _ s eq_refl), Hn.
    + unfold unit_call, uthread_yield, mbind, C_bind, lift, get. simpl. by rewrite Hn.
    + unfold unit_call, uthread_exit, mbind, C_bind, lift, get. simpl. by rewrite Hn.
    + unfold uthread_join. by rewrite (cbind_ok (get g_rr_config) _ s _ s eq_refl), Hn.
Qed.
(** The runtime is ready and no mode is set: the first [read]. *)
Definition demo_off : rr_state sim := wr g_runtime_ready true (boot_state [] ∅ sim_init).
Lemma off_passthrough_witness :
  passive demo_off /\ runtime_ready (rd g_rr_config demo_off) = true /\
  exists v s' s1 rp, api_call (Aread 0 100 5) demo_off = CDone v s' /\ loaded "read" demo_off s1 /\
    answered (Rcall "read" [0; 100; 5]) rp s1 s' /\ v = rp_rc rp.
Proof.
  assert (Hp : passive demo_off) by (split; vm_compute; reflexivity).
  split; [exact Hp|]. split; [vm_compute; reflexivity|].
  pose proof (off_passthrough (Aread 0 100 5) demo_off Hp) as H. cbv beta iota delta [real_call] in H.
  assert (E : match api_call (Aread 0 100 5) demo_off with CDone v _ => v | _ => 0 end = 5)
    by (vm_compute; reflexivity).
  destruct (api_call (Aread 0 100 5) demo_off) as [v s'|h s'|p s' k]; [|discriminate E|discriminate E].
  destruct H as (s1 & rp & Hl & _ & Ha & Hv). exists v, s', s1, rp.
  split; [reflexivity|]. split; [exact Hl|]. split; [exact Ha|exact Hv].
Defined.

(** ** Replay *)

(** The requests replay makes: it reads the log and may print debug text. *)
Definition log_req (r : os_req) : Prop :=
  match r with Rlog_read _ _ | Rstderr_write _ => True | _ => False end.

(** The number under which a call is recorded. *)
Definition call_nr (c : api) : Z :=
  match c with
  | Aread _ _ _ => NR_read | Awrite _ _ _ => NR_write | Arecv _ _ _ _ => NR_recvfrom
  | Asend _ _ _ _ => NR_sendto | Aaccept _ _ _ => NR_accept | Aconnect _ _ _ => NR_connect
  | Aopenat _ _ _ _ => NR_openat | Aclose _ => NR_close | Ananosleep _ _ => NR_nanosleep
  | Aclock_gettime _ _ => NR_clock_gettime | Agettimeofday _ _ => NR_gettimeofday
  | Agetpid => NR_getpid | Agetuid => NR_getuid | Auname _ => NR_uname | Astat _ _ => NR_stat
  | Afstat _ _ => NR_fstat | Alstat _ _ => NR_lstat | Agetcwd _ _ => NR_getcwd
  | Acreate _ _ | Ayield | Aexit _ | Ajoin _ _ => 0
  end.
(** The calls RR_REPLAY_TIME=real sends to the system. *)
Definition clock_call (c : api) : bool :=
  match c with Aclock_gettime _ _ | Agettimeofday _ _ => true | _ => false end.

Section Replaying.
Context {W : Type} `{!OS W} `{!LogSource W}.
Implicit Types s : rr_state W.

(** The answer in front of the log for call [nr] of the running thread: there is one
    when the next event is that call, of that thread, with the expected number. *)
Definition front_answer (nr : Z) s : option rr_replay_syscall_event_t :=
  let e := decode_event (take sizeof_event (rest s)) in
  if (sizeof_event <=? length (rest s))%nat && (seq e =? rd g_expected_seq s) &&
     (type e =? EV_SYSCALL) && (sc_nr (payload e) =? nr) && (uthread_id e =? cur_id s)
  then Some (replay_event_of e) else None.

Lemma asks_get_event nr : asks log_req (replay_get_event nr).
Proof.
  unfold replay_get_event, current_id, rr_scheduler_current, rr_replay_next_syscall,
    rr_replay_next_event, fail, rr_debugf.
  asks_tac; (eapply asks_mono; [apply asks_read_full|by intros []]).
Qed.

(** Replay is on: the log is open and the runtime ready. *)
Definition replaying s : Prop :=
  rep_ok s /\ cur_valid s /\ mode_record (rd g_rr_config s) = false /\
  mode_replay (rd g_rr_config s) = true /\ runtime_ready (rd g_rr_config s) = true.

Lemma replaying_loaded f s s' : f <> "replay:read" -> replaying s -> loaded f s s' -> replaying s'.
Proof.
  intros Hf ((H1 & H2 & H3) & Hv & Hm) Hl. destruct (loaded_same _ _ _ Hl) as (Hc & Hh & Hs & Hr & Hst).
  assert (rd g_replay_header_ok s' = rd g_replay_header_ok s /\ rd g_replay_fd s' = rd g_replay_fd s /\
    rd g_current s' = rd g_current s) as (E1 & E2 & E3).
  { unfold rd. simpl. by rewrite Hr, Hs. }
  unfold replaying, rep_ok, cur_valid. rewrite E1, E2, E3, Hh, Hc, Hst by congruence. done.
Qed.




Lemma event_data_len e : 0 <= rs_data_len (replay_event_of e) <= 64.
Proof.
  unfold replay_event_of. cbn [rs_data_len]. pose proof (field_bound (payload e) 80 4).
  unfold sc_data_len. destruct (64 <? _) eqn:E; bool_prop; lia.
Qed.

(** The answer from the log. *)
Lemma wp_get_event nr s (Q : option rr_replay_syscall_event_t -> rr_state W -> Prop) :
  replaying s ->
  (forall s' k, consumed s k (drop sizeof_event (rest s)) s' -> asked log_req s s' ->
     match front_answer nr s with Some ev => 0 <= rs_data_len ev <= 64 | None => True end ->
     Q (front_answer nr s) s') ->
  wp (replay_get_event nr) Q no_halt s.
Proof.
  intros (Hok & Hv & _) HQ.
  eapply wp_post with (Q := fun r s' => (r = front_answer nr s /\ exists k, consumed s k (drop sizeof_event (rest s)) s') /\
    asked log_req s s').
  { eapply wp_and; [|apply asks_get_event]. unfold replay_get_event. wp_step.
    apply wp_current_id; [done|]. unfold front_answer. apply wp_next_syscall; [done|..].
    - intros (Hl & Hs & Ht & Hn & Hu) s' Hc. split; [|by eauto].
      rewrite (proj2 (Nat.leb_le _ _) Hl), !(proj2 (Z.eqb_eq _ _)) by done. done.
    - intros Hno s' k Hc _. split; [|by eauto]. destruct (_ && _) eqn:E; [|done].
      rewrite !andb_true_iff, Nat.leb_le, !Z.eqb_eq in E. exfalso. apply Hno. tauto. }
  intros r s' [(-> & k & Hc) Ht]. eapply HQ; [done|done|].
  unfold front_answer. destruct (_ && _); [apply event_data_len|done].
Qed.





End Replaying.


Section Bounded.
Context {W : Type} `{!OS W} `{!LogSource W}.
Implicit Types s : rr_state W.




End Bounded.


(** C18 (real_time_replayed): in replay with RR_REPLAY_TIME=real, [clock_gettime] and
    [gettimeofday] still take their event from the log, so that later events stay
    aligned, and then return the result of the real function (resolved by [dlsym] on
    its first use; they end the process only if it was not found).  If the next
    event is not this call they fail without asking for the time.  They never switch
    threads. *)
Theorem real_time_replayed {W} `{!OS W} `{!LogSource W} (c : api) (s : rr_state W) (f : string)
    (args : list Z) :
  replaying s -> real_call c = Some (f, args) -> clock_call c = true ->
  replay_time_virtual (rd g_rr_config s) = false ->
  exists s0 s1 k, loaded f s s0 /\ consumed s0 k (drop sizeof_event (rest s0)) s1 /\ asked log_req s0 s1 /\
    match front_answer (call_nr c) s0 with
    | None => api_call c s = CDone (-1) s1
    | Some _ =>
        if default 0 (rd statics s1 !! f) =? NULL then api_call c s = CHalted HNullCall s1
        else exists rp s', answered (Rcall f args) rp s1 s' /\ api_call c s = CDone (rp_rc rp) s'
    end.
Proof.
  intros Hs Hc Hk Hv.
  assert (Hrun : exists s0 s1 k r, loaded f s s0 /\ consumed s0 k (drop sizeof_event (rest s0)) s1 /\
    asked log_req s0 s1 /\ front_answer (call_nr c) s0 = r /\
    api_call c s = match r with None => CDone (-1) s1 | Some _ => lift (real f args) s1 end).
  { assert (f <> "replay:read") as Hf by (by destruct c; simplify_eq/=).
    destruct (wp_returns (resolve f f) (fun _ s0 => loaded f s s0) s) as (p & s0 & Hp & Hl); [by apply wp_loaded|].
    pose proof (replaying_loaded f s s0 Hf Hs Hl) as H0.
    destruct (wp_returns (replay_get_event (call_nr c)) (fun r s1 => r = front_answer (call_nr c) s0 /\
      exists k, consumed s0 k (drop sizeof_event (rest s0)) s1 /\ asked log_req s0 s1) s0)
      as (r & s1 & Hr & Hr' & k & Hcs & Ha); [by apply wp_get_event; eauto|].
    assert (rr_replay_active s0 = Ok true s0) as Hon.
    { destruct H0 as (_ & _ & _ & Hm & Hy). unfold rr_replay_active, mbind, M_bind, get, mret, M_ret.
      by rewrite Hm, Hy. }
    assert (replay_time_virtual (rd g_rr_config s1) = false) as Hv1.
    { rewrite <-Hv, <-(proj1 (loaded_same _ _ _ Hl)). destruct Hcs as (He & _). by env_simpl. }
    exists s0, s1, k, r. split; [done|]. split; [done|]. split; [done|]. split; [done|].
    destruct c; simplify_eq/=; unfold lift, clock_gettime, gettimeofday;
      rewrite (bind_ok _ _ _ _ _ Hp), (bind_ok _ _ _ _ _ Hon), (bind_ok _ _ _ _ _ Hr);
      (destruct (front_answer _ s0); [|done]);
      by rewrite (bind_ok (get g_rr_config) _ s1 _ s1 eq_refl), Hv1. }
  destruct Hrun as (s0 & s1 & k & r & Hl & Hcs & Ha & <- & Hrun). exists s0, s1, k.
  split; [done|]. split; [done|]. split; [done|]. rewrite Hrun.
  destruct (front_answer (call_nr c) s0); [|done]. unfold lift, real, call_real, mbind, M_bind, get.
  destruct (default 0 (rd statics s1 !! f) =? NULL); [done|].
  destruct (wp_returns (os (Rcall f args)) (fun rp s' => answered (Rcall f args) rp s1 s') s1)
    as (rp & s' & Hos & Has); [by apply wp_answered|]. exists rp, s'. by rewrite Hos.
Qed.
Definition demo_real_time : rr_state sim :=
  let s := sim_replaying 1 ∅ (with_log (encode_event
    (syscall_event 1 1 NR_clock_gettime 0 1 (Some (replicate 16 Byte.x2a)))) sim_init) in
  wr g_rr_config (Config false true false true false 262144 "rr.log") s.
Lemma real_time_replayed_witness :
  exists rp s1 s', answered (Rcall "clock_gettime" [1; 100]) rp s1 s' /\
    api_call (Aclock_gettime 1 100) demo_real_time = CDone (rp_rc rp) s'.
Proof.
  destruct (real_time_replayed (Aclock_gettime 1 100) demo_real_time "clock_gettime" [1; 100])
    as (s0 & s1 & k & Hl & Hc & _ & H).
  - split; [split; [reflexivity|split; vm_compute; congruence]|].
    split; [right; by eexists|]. repeat split.
  - reflexivity.
  - reflexivity.
  - reflexivity.
  - change (s0 = demo_real_time) in Hl. subst s0.
    assert (E : front_answer NR_clock_gettime demo_real_time <> None) by (vm_compute; congruence).
    simpl in H. destruct (front_answer NR_clock_gettime demo_real_time); [|congruence].
    assert (E2 : default 0 (rd statics s1 !! "clock_gettime") =? NULL = false).
    { destruct Hc as (He & _). destruct He as (? & ? & ? & ? & ->). reflexivity. }
    rewrite E2 in H. destruct H as (rp & s' & Ha & Hrun). exists rp, s1, s'. split; [exact Ha|exact Hrun].
Defined.

(** C29 (full_ring_logged_as_EPERM): when the submission queue is full a recorded
    [read] fails at once, and although [submit_op] sets EAGAIN its -1 is taken for a
    kernel result: what is recorded, and what a replay will report, is error 1
    (EPERM). *)
Theorem full_ring_logged_as_EPERM {W} `{!OS W} `{!LogSink W} (s : rr_state W) (fd buf count : Z)
    (w : W) (rp : os_resp) :
  rec_ok s -> cur_valid s -> rd g_current s <> NULL ->
  mode_record (rd g_rr_config s) = true -> runtime_ready (rd g_rr_config s) = true ->
  default 0 (rd statics s !! "read") <> NULL -> count <> 0 ->
  os_call Rget_sqe (rd mem s) (rd world s) = (w, rp) -> rp_rc rp = 0 -> rp_writes rp = [] ->
  sink (rd g_log_fd s) w = sink (rd g_log_fd s) (rd world s) ->
  exists s', read fd buf count s = CDone (-1) s' /\ rd mem s' = rd mem s /\
    log_view s' = log_view s ++ encode_event
      (syscall_event (u64 (rd g_rr_seq s + 1)) (cur_id s) NR_read (- EPERM) (u64 fd) None).
Proof.
  intros Hok Hv Hcur Hr Hy Hst Hn Hcall Hrc Hwr Hsk.
  destruct (cwp_returns (read fd buf count s) s (fun _ v s' => v = -1 /\ rd mem s' = rd mem s /\
    log_view s' = log_view s ++ encode_event
      (syscall_event (u64 (rd g_rr_seq s + 1)) (cur_id s) NR_read (- EPERM) (u64 fd) None))
    (fun _ _ _ => True)) as (v & s' & Hrun & -> & H); [|by exists s'].
  destruct (resolve_resolved "read" "read" s Hst) as [q Hq]. unfold read.
  apply cwp_bind, cwp_lift, (wp_ok _ _ _ _ _ _ Hq). apply cwp_bind, cwp_lift.
  unfold rr_active. wp_steps. rewrite Hr, Hy. cbn [andb negb]. rewrite (proj2 (Z.eqb_neq _ _) Hn).
  unfold rr_io_submit_read_and_wait, submit_op, rr_scheduler_current.
  apply cwp_bind, cwp_bind, cwp_lift, wp_get. apply cwp_bind, cwp_lift, wp_os_rc.
  intros w' rp' s1 Hc1 He1 Hw1 Hm1 _ _. rewrite Hcall in Hc1. simplify_eq. rewrite Hrc, orb_true_r.
  rewrite Hwr in Hm1. simpl in Hm1. apply cwp_lift. wp_steps. apply cwp_lift.
  unfold finish_logged, raw_to_int. wp_steps; [|lia].
  set (s2 := wr errno _ _).
  assert (Hv2 : log_view s2 = log_view s).
  { unfold log_view, pending, s2. glob_simpl. rewrite <-Hsk. by env_simpl. }
  assert (Hs2 : rec_ok s2 /\ cur_valid s2 /\ cur_id s2 = cur_id s /\ rd g_rr_seq s2 = rd g_rr_seq s /\
    rd g_rr_config s2 = rd g_rr_config s /\ rd mem s2 = rd mem s).
  { split; [|unfold cur_valid, cur_id, s2; glob_simpl; rewrite Hm1; by env_simpl].
    unfold rec_ok, s2. glob_simpl. by env_simpl. }
  destruct Hs2 as (Hok2 & Hcv2 & Hci2 & Hsq2 & Hcf2 & Hm2).
  apply (wp_mono _ (fun _ s' => logged s2 (syscall_event (u64 (rd g_rr_seq s2 + 1)) (cur_id s2) NR_read
    (-1) (u64 fd) (logged_data s2 buf 0)) s') _ no_halt); [|intros [] s3 Hl|done].
  { apply wp_log_syscall; [done|done|by rewrite Hcf2|by rewrite Hcf2|done]. }
  wp_steps. destruct Hl as ((? & ? & Hm3 & _) & _ & _ & Hv3). split; [done|].
  split; [rewrite Hm3; exact Hm2|]. rewrite Hv3, Hv2, Hci2, Hsq2. unfold logged_data.
  by rewrite andb_false_r.
Qed.
Definition demo_full_ring : rr_state sim := sim_recording 0 ∅ (with_nosqe true sim_init).
Lemma full_ring_logged_as_EPERM_witness :
  exists s', read 0 100 5 demo_full_ring = CDone (-1) s' /\ rd errno s' = EPERM /\
    log_view s' = encode_event (syscall_event 1 1 NR_read (- EPERM) 0 None).
Proof.
  destruct (full_ring_logged_as_EPERM demo_full_ring 0 100 5 (with_nosqe true sim_init) (resp_rc 0))
    as (s' & Hrun & _ & Hv).
  - split; [vm_compute; congruence|]. split; [by eexists|].
    split; [vm_compute; split; congruence|vm_compute; congruence].
  - right. by eexists.
  - vm_compute. congruence.
  - reflexivity.
  - reflexivity.
  - vm_compute. congruence.
  - congruence.
  - reflexivity.
  - reflexivity.
  - reflexivity.
  - reflexivity.
  - exists s'. split; [exact Hrun|]. split; [|exact Hv].
    assert (H : match read 0 100 5 demo_full_ring with CDone _ s => rd errno s | _ => 0 end = EPERM)
      by (vm_compute; reflexivity).
    rewrite Hrun in H. exact H.
Defined.
