(* ===== verification/LifecycleTheorems.v ===== *)
(** Theorems about start-up, the environment variables, the log header, signals and
    stack overflows. *)
From Stdlib Require Import Ascii.
From stdpp Require Import gmap strings list pretty.
From coqutil Require Import Byte.
From S2P Require Import Prelude Types State Events Logic Log Scheduler Record Replay Signal IoUring Uthread Wrappers Lifecycle Machine Invariant Safety ThreadSafety SchedSafety ColdSafety LifecycleSafety Endings SimOS LogTheorems.

(** ** Decimal numbers *)

Lemma digit_pretty_char x : (x < 10)%N -> digit (pretty_N_char x) = Some (Z.of_N x).
Proof.
  intros H. destruct x as [|p]; [done|].
  do 4 (destruct p as [p|p|]; try done; try lia).
Qed.

Lemma digits_pretty_go x rest any :
  (0 < x)%N -> digits (pretty_N_go x rest) 0 any = digits rest (Z.of_N x) true.
Proof.
  revert rest any. induction (N.lt_wf_0 x) as [x _ IH]. intros rest any Hx.
  rewrite pretty_N_go_step by lia.
  assert (Hm : (x `mod` 10 < 10)%N) by (apply N.mod_lt; lia).
  assert (Hd : Z.of_N (x `div` 10) * 10 + Z.of_N (x `mod` 10) = Z.of_N x).
  { rewrite N2Z.inj_div, N2Z.inj_mod. pose proof (Z.div_mod (Z.of_N x) (Z.of_N 10)). lia. }
  destruct (decide (x `div` 10 = 0)%N) as [Hz|Hz].
  - rewrite Hz, pretty_N_go_0. simpl. rewrite digit_pretty_char by done. f_equal. lia.
  - rewrite IH; [|apply N.div_lt; lia|lia]. simpl. rewrite digit_pretty_char by done. by rewrite Hd.
Qed.

Lemma digits_any x acc : (digits x acc true).1.2 = true.
Proof. revert acc. induction x as [|c x IH]; intros acc; simpl; [done|]. by destruct (digit c). Qed.
Lemma pretty_go_app x rest sfx : pretty_N_go x rest +:+ sfx = pretty_N_go x (rest +:+ sfx).
Proof.
  revert rest. induction (N.lt_wf_0 x) as [x _ IH]. intros rest.
  destruct (decide (x = 0)%N) as [->|Hx]; [by rewrite !pretty_N_go_0|].
  rewrite !(pretty_N_go_step x) by lia. rewrite IH by (apply N.div_lt; lia). done.
Qed.
Lemma pretty_go_head x rest : (0 < x)%N ->
  exists c r d, pretty_N_go x rest = String c r /\ digit c = Some d.
Proof.
  revert rest. induction (N.lt_wf_0 x) as [x _ IH]. intros rest Hx.
  rewrite pretty_N_go_step by lia. destruct (decide (x `div` 10 = 0)%N) as [Hz|Hz].
  - rewrite Hz, pretty_N_go_0. do 3 eexists. split; [done|]. apply digit_pretty_char, N.mod_lt. lia.
  - apply IH; [apply N.div_lt; lia|by apply N.neq_0_lt_0].
Qed.
Lemma digit_plain c d : digit c = Some d ->
  is_space c = false /\ Ascii.eqb c "-"%char = false /\ Ascii.eqb c "+"%char = false.
Proof.
  destruct c as [[] [] [] [] [] [] [] []]; intros H; vm_compute in H; try done; by repeat split.
Qed.
Lemma strtoul_digits x rest :
  (0 < x)%N ->
  strtoul (pretty_N_go x rest) =
    let '(v, _, r) := digits rest (Z.of_N x) true in
    if ULONG_MAX <? v then StrtoulResult ULONG_MAX true r true else StrtoulResult v true r false.
Proof.
  intros Hx. destruct (pretty_go_head x rest Hx) as (c & r & d & Hc & Hd).
  destruct (digit_plain c d Hd) as (H1 & H2 & H3). unfold strtoul.
  rewrite Hc. cbn [skip_spaces]. rewrite H1. cbn beta iota. rewrite H2, H3. rewrite <-Hc.
  rewrite digits_pretty_go by done. pose proof (digits_any rest (Z.of_N x)) as Ha.
  destruct (digits rest (Z.of_N x) true) as [[v any] r']. simpl in Ha. rewrite Ha. done.
Qed.
Lemma digits_nonneg x acc b : 0 <= acc -> 0 <= (digits x acc b).1.1.
Proof.
  revert acc b. induction x as [|c x IH]; intros acc b Ha; simpl; [done|].
  destruct (digit c) as [d|] eqn:Ed; [|done]. apply IH. unfold digit in Ed.
  destruct (_ && _) eqn:E; [|done]. simplify_eq. bool_prop. lia.
Qed.
Lemma strtoul_bound x : sr_value (strtoul x) < 2 ^ 64.
Proof.
  unfold strtoul, ULONG_MAX. destruct (match skip_spaces x with EmptyString => _ | _ => _ end) as [neg z].
  destruct (digits z 0 false) as [[v any] r]. destruct any; simpl; [|lia].
  destruct (2 ^ 64 - 1 <? v) eqn:E; simpl; [lia|]. bool_prop. destruct neg; [|lia].
  apply u64_range.
Qed.

(** C26 (stack_size_parsed): RR_STACK_SIZE set to a positive decimal number that fits 64
    bits is used as it is; a number with anything but digits behind it, or a number
    that does not fit, is ignored for the default of 2 MB; and whatever the variable
    holds, the stack size is positive and fits 64 bits. *)
Theorem stack_size_parsed (n : N) (c : ascii) (sfx : string) (v : option string) :
  (0 < n)%N -> digit c = None ->
  parse_stack_size (Some (pretty n)) =
    (if bool_decide (Z.of_N n < 2 ^ 64) then Z.of_N n else RR_DEFAULT_STACK_SIZE) /\
  parse_stack_size (Some (pretty n +:+ String c sfx)) = RR_DEFAULT_STACK_SIZE /\
  0 < parse_stack_size v < 2 ^ 64.
Proof.
  intros Hn Hc. unfold pretty, pretty_N. rewrite decide_False by lia. split; [|split].
  - destruct (pretty_go_head n "" Hn) as (d & r & x & Hd & _). unfold parse_stack_size.
    rewrite Hd. cbn [String.eqb]. rewrite <-Hd. rewrite strtoul_digits by done. cbn [digits].
    unfold ULONG_MAX. case_bool_decide as Hb.
    + rewrite (proj2 (Z.ltb_ge _ _)) by lia. cbn. by rewrite (proj2 (Z.ltb_lt 0 _)) by lia.
    + by rewrite (proj2 (Z.ltb_lt _ _)) by lia.
  - rewrite pretty_go_app. change ("" +:+ String c sfx) with (String c sfx).
    destruct (pretty_go_head n (String c sfx) Hn) as (d & r & x & Hd & _).
    unfold parse_stack_size. rewrite Hd. cbn [String.eqb]. rewrite <-Hd, strtoul_digits by done.
    cbn [digits]. rewrite Hc. by destruct (ULONG_MAX <? Z.of_N n).
  - unfold parse_stack_size. destruct v as [x|]; [|done]. destruct (String.eqb x ""); [done|].
    destruct (_ && _) eqn:E; [|done]. bool_prop. split; [done|]. apply strtoul_bound.
Qed.
Lemma stack_size_parsed_witness :
  parse_stack_size (Some "262144") = 262144 /\ parse_stack_size (Some "262144k") = 2097152.
Proof.
  destruct (stack_size_parsed 262144 "k"%char "" None) as (H1 & H2 & _).
  - reflexivity.
  - reflexivity.
  - split; [exact H1|exact H2].
Defined.

(** ** The header *)

Section Header.
Context {W : Type} `{!OS W} `{!LogSource W}.
Implicit Types s : rr_state W.

Definition replay_slots s : Prop :=
  default 0 (rd statics s !! "replay:read") <> NULL /\
  default 0 (rd statics s !! "replay:open") <> NULL /\
  default 0 (rd statics s !! "replay:close") <> NULL.

Lemma resolve_slot slot name s :
  default 0 (rd statics s !! slot) <> NULL ->
  resolve slot name s = Ok (default 0 (rd statics s !! slot)) s.
Proof. intros H. unfold resolve, mbind, M_bind, get. by rewrite (proj2 (Z.eqb_neq _ _) H). Qed.
Lemma wp_call_real slot r s (Q : os_resp -> rr_state W -> Prop) E :
  default 0 (rd statics s !! slot) <> NULL -> wp (os r) Q E s -> wp (call_real slot r) Q E s.
Proof. intros H HQ. unfold call_real. wp_step. wp_step. by rewrite (proj2 (Z.eqb_neq _ _) H). Qed.

Definition header_good (content : bytes) : Prop :=
  (sizeof_header <= length content)%nat /\
  magic (decode_header (take sizeof_header content)) = RR_LOG_MAGIC /\
  version (decode_header (take sizeof_header content)) = RR_LOG_VERSION.

(** What start-up of replay leaves when it fails, and the requests [ts] it made. *)
Definition refused s (ts : list os_req) s' : Prop :=
  rd g_replay_fd s' < 0 /\ rd g_replay_header_ok s' = rd g_replay_header_ok s /\
  rd trace s' = ts ++ rd trace s.

(** Refusing the file: it is closed again. *)
Lemma wp_close_again s s0 ts (Q : () -> rr_state W -> Prop) :
  replay_slots s0 -> rd statics s = rd statics s0 ->
  rd g_replay_header_ok s = rd g_replay_header_ok s0 -> rd trace s = ts ++ rd trace s0 ->
  (forall s', refused s0 (Rlog_close (rd g_replay_fd s) :: ts) s' -> Q tt s') ->
  wp replay_close_fd Q no_halt s.
Proof.
  intros (_ & _ & Hc) Hs Hh Ht HQ. unfold replay_close_fd. wp_step. wp_step. wp_step.
  apply wp_call_real; [by rewrite Hs|]. apply wp_os. intros w rp s1 _ He _ _ _ Ht1. wp_step. apply HQ.
  split; [by glob_simpl|]. split; [|glob_simpl; by rewrite Ht1, Ht]. rewrite <-Hh. by env_simpl.
Qed.

(** The header of an open file. *)
Lemma wp_read_header fd s (Q : Z * bytes -> rr_state W -> Prop) :
  default 0 (rd statics s !! "replay:read") <> NULL ->
  let content := source fd (rd world s) in
  (forall h s', env_only s s' -> asked read_req s s' ->
     (if (sizeof_header <=? length content)%nat then h = (0, take sizeof_header content) /\
        source fd (rd world s') = drop sizeof_header content else h.1 = -1) -> Q h s') ->
  wp (rr_read_full fd (Z.of_nat sizeof_header)) Q no_halt s.
Proof.
  intros Hsl content HQ. eapply wp_post with (Q := fun h s' => (env_only s s' /\
    if (sizeof_header <=? length content)%nat then h = (0, take sizeof_header content) /\
      source fd (rd world s') = drop sizeof_header content else h.1 = -1) /\ asked read_req s s');
    [|intros h s' [[? ?] ?]; by apply HQ].
  eapply wp_and; [|apply asks_read_full]. apply wp_read_full; [done|done|].
  intros s' He _ k Hs. unfold k in *. clear k.
  change (Z.to_nat (Z.of_nat sizeof_header)) with sizeof_header in Hs |- *.
  fold content in Hs |- *.
  by destruct (_ <=? _)%nat.
Qed.

(** From the open descriptor on. *)
Lemma wp_check_header fd s s0 open (Q : Z -> rr_state W -> Prop) :
  replay_slots s0 -> rd statics s = rd statics s0 ->
  rd g_replay_header_ok s = rd g_replay_header_ok s0 -> rd trace s = open :: rd trace s0 ->
  rd g_replay_fd s = fd -> 0 <= fd ->
  let content := source fd (rd world s) in
  (header_good content -> forall s' ts, rep_ok s' -> rest s' = drop sizeof_header content ->
     rd g_expected_seq s' = 1 -> Forall read_req ts -> rd trace s' = ts ++ open :: rd trace s0 -> Q 0 s') ->
  (~ header_good content -> forall s' ts, Forall read_req ts ->
     refused s0 (Rlog_close fd :: ts ++ [open]) s' -> Q (-1) s') ->
  wp (h ← rr_read_full fd (Z.of_nat sizeof_header);
      if negb (h.1 =? 0) then replay_close_fd;; mret (-1)
      else
        let header := decode_header h.2 in
        if negb (magic header =? RR_LOG_MAGIC) || negb (version header =? RR_LOG_VERSION) then
          replay_close_fd;; put errno EINVAL;; mret (-1)
        else put g_expected_seq 1;; put g_replay_header_ok true;; mret 0) Q no_halt s.
Proof.
  intros Hsl Hst Hok Htr Hfd Hge content Hyes Hno. wp_step.
  apply wp_read_header; [rewrite Hst; apply Hsl|]. fold content. intros h s3 He3 (ts & Ht3 & Hts) Hh.
  assert (rd statics s3 = rd statics s0 /\ rd g_replay_fd s3 = fd /\
    rd g_replay_header_ok s3 = rd g_replay_header_ok s0) as (Hst3 & Hfd3 & Hok3).
  { rewrite <-Hst, <-Hok, <-Hfd. by env_simpl. }
  assert (rd trace s3 = (ts ++ [open]) ++ rd trace s0) as Ht by (by rewrite Ht3, <-app_assoc, Htr).
  assert (Hclose : ~ header_good content -> forall m : M W Z,
    (m = mret (-1) \/ m = (put errno EINVAL;; mret (-1))) -> wp (replay_close_fd;; m) Q no_halt s3).
  { intros Hg m Hm. wp_step. eapply wp_close_again; [done..|]. rewrite Hfd3. intros s4 H4.
    destruct Hm as [->| ->]; wp_steps; by eapply Hno. }
  destruct (_ <=? _)%nat eqn:El.
  - apply Nat.leb_le in El. destruct Hh as [-> Hs3]. simpl. destruct (negb _ || negb _) eqn:Eb.
    + apply Hclose; [|by right]. intros (_ & Hm & Hv). simpl in Hm, Hv. by rewrite Hm, Hv in Eb.
    + bool_prop. wp_steps. eapply Hyes; [done| |unfold rest; glob_simpl; by rewrite Hfd3|done|done|].
      * split; [done|]. split; [glob_simpl; by rewrite Hfd3|]. glob_simpl. rewrite Hst3. apply Hsl.
      * glob_simpl. by rewrite Ht, <-app_assoc.
  - apply Nat.leb_gt in El. rewrite Hh. apply Hclose; [intros (? & _); lia|by left].
Qed.

Lemma wp_replay_init path s w rp (Q : Z -> rr_state W -> Prop) :
  replay_slots s -> os_call (Ropen path O_RDONLY 0) (rd mem s) (rd world s) = (w, rp) ->
  let fd := rp_rc rp in let content := source fd w in let open := Ropen path O_RDONLY 0 in
  (fd < 0 -> forall s', refused s [open] s' -> Q (-1) s') ->
  (0 <= fd -> header_good content -> forall s' ts, rep_ok s' -> rest s' = drop sizeof_header content ->
     rd g_expected_seq s' = 1 -> Forall read_req ts -> rd trace s' = ts ++ open :: rd trace s -> Q 0 s') ->
  (0 <= fd -> ~ header_good content -> forall s' ts, Forall read_req ts ->
     refused s (Rlog_close fd :: ts ++ [open]) s' -> Q (-1) s') ->
  wp (rr_replay_init path) Q no_halt s.
Proof.
  intros Hsl Hopen fd content open Hbad Hyes Hno. pose proof Hsl as (Hr & Ho & Hc).
  unfold rr_replay_init, rr_replay_resolve_real_io. wp_step. wp_step.
  apply (wp_ok _ _ _ _ _ _ (resolve_slot _ _ s Hr)). wp_step.
  apply (wp_ok _ _ _ _ _ _ (resolve_slot _ _ s Ho)). wp_step.
  apply (wp_ok _ _ _ _ _ _ (resolve_slot _ _ s Hc)). wp_step.
  rewrite (proj2 (Z.eqb_neq _ _) Hr), (proj2 (Z.eqb_neq _ _) Ho), (proj2 (Z.eqb_neq _ _) Hc).
  cbn [negb andb Z.eqb]. wp_step. apply wp_call_real; [done|]. apply wp_os.
  intros w' rp' s1 Hc1 He1 Hw1 _ _ Ht1. rewrite Hopen in Hc1. injection Hc1 as Ha Hb.
  rewrite <-Hb. rewrite <-Ha in Hw1. clear Ha Hb w' rp'. fold fd. wp_step. wp_step.
  set (s2 := wr g_replay_fd _ _).
  assert (rd statics s2 = rd statics s /\ rd g_replay_header_ok s2 = rd g_replay_header_ok s) as [Hst2 Hh2].
  { unfold s2. glob_simpl. by env_simpl. }
  destruct (fd <? 0) eqn:Ef; bool_prop; [wp_step; by apply Hbad|].
  apply (wp_check_header fd s2 s open); try done; change (rd world s2) with (rd world s1); rewrite Hw1; [exact (Hyes Ef)|exact (Hno Ef)].
Qed.
End Header.

(** C23 (replay_init_exact): once [open], [read] and [close] are resolved, opening a log
    for replay asks the system to open the file and, if that succeeded, to read from
    it; it succeeds exactly when the file could be opened and starts with 24 bytes
    whose magic number and version are the library's; then the file stays open and
    the events behind the header are read next, numbered from 1.  If the header is
    not good the last request closes the file again; in both failure cases the
    descriptor is forgotten and the flag that lets events be read is not set. *)
Theorem replay_init_exact {W} `{!OS W} `{!LogSource W} (s : rr_state W) (path : string) (w : W)
    (rp : os_resp) :
  replay_slots s -> os_call (Ropen path O_RDONLY 0) (rd mem s) (rd world s) = (w, rp) ->
  exists rc s' ts, rr_replay_init path s = Ok rc s' /\ Forall read_req ts /\
    (rc = 0 <-> 0 <= rp_rc rp /\ header_good (source (rp_rc rp) w)) /\
    if rc =? 0 then rep_ok s' /\ rd g_expected_seq s' = 1 /\
      rest s' = drop sizeof_header (source (rp_rc rp) w) /\
      rd trace s' = ts ++ Ropen path O_RDONLY 0 :: rd trace s
    else rd g_replay_fd s' < 0 /\ rd g_replay_header_ok s' = rd g_replay_header_ok s /\
      rd trace s' = (if rp_rc rp <? 0 then [] else Rlog_close (rp_rc rp) :: ts) ++
        Ropen path O_RDONLY 0 :: rd trace s.
Proof.
  intros Hsl Hopen. destruct (wp_returns (rr_replay_init path) (fun rc s' => exists ts,
    Forall read_req ts /\ (rc = 0 <-> 0 <= rp_rc rp /\ header_good (source (rp_rc rp) w)) /\
    if rc =? 0 then rep_ok s' /\ rd g_expected_seq s' = 1 /\
      rest s' = drop sizeof_header (source (rp_rc rp) w) /\
      rd trace s' = ts ++ Ropen path O_RDONLY 0 :: rd trace s
    else rd g_replay_fd s' < 0 /\ rd g_replay_header_ok s' = rd g_replay_header_ok s /\
      rd trace s' = (if rp_rc rp <? 0 then [] else Rlog_close (rp_rc rp) :: ts) ++
        Ropen path O_RDONLY 0 :: rd trace s) s) as (rc & s' & Hrun & ts & H); [|by exists rc, s', ts].
  eapply wp_replay_init; [done..| | |].
  - intros Hfd s' (H1 & H2 & H3). exists []. rewrite (proj2 (Z.ltb_lt _ _) Hfd).
    split; [done|]. split; [split; [lia|intros [? _]; lia]|done].
  - intros Hfd Hg s' ts H1 H2 H3 H4 H5. by exists ts.
  - intros Hfd Hg s' ts Hts (H1 & H2 & H3). exists ts. rewrite (proj2 (Z.ltb_ge _ _) Hfd).
    split; [done|]. split; [split; [lia|by intros [_ ?]]|]. simpl in H3. rewrite <-app_assoc in H3. done.
Qed.
Definition demo_header : bytes := encode_header (Header RR_LOG_MAGIC RR_LOG_VERSION 5 42 0).
Definition demo_opening : rr_state sim :=
  wr statics {["replay:read" := 1; "replay:open" := 1; "replay:close" := 1]}
    (boot_state [] ∅ (with_log (demo_header ++ [Byte.x01; Byte.x02]) sim_init)).
Lemma replay_init_exact_witness :
  exists s', rr_replay_init "rr.log" demo_opening = Ok 0 s' /\ rest s' = [Byte.x01; Byte.x02].
Proof.
  destruct (replay_init_exact demo_opening "rr.log"
    (with_log (demo_header ++ [Byte.x01; Byte.x02]) sim_init) (resp_rc 3))
    as (rc & s' & ts & Hrun & _ & Hiff & H).
  - split; [vm_compute; congruence|split; vm_compute; congruence].
  - reflexivity.
  - assert (rc = 0) as ->.
    { apply Hiff. split; [vm_compute; congruence|]. split; [vm_compute; lia|].
      split; vm_compute; reflexivity. }
    exists s'. split; [exact Hrun|]. destruct H as (_ & _ & -> & _). vm_compute. reflexivity.
Defined.

(** C10 (start_up_sound): as long as [realloc] of the tables does not fail, start-up
    never switches threads and never touches memory that is not there, whichever of
    its steps fail; if it returns, the runtime is either off, or ready with the whole
    invariant of the runtime holding (queue, tables, log buffer) and one running
    thread.  The only ways it does not return are a call through a pointer [dlsym]
    could not resolve and a log file whose transfers are interrupted beyond the
    assumed bound; it never aborts or exits. *)
Theorem start_up_sound {W} `{!OS W} `{!Libc W} (env : list (string * string)) (m : memory) (w : W) :
  lib_ok w ->
  match rr_init (boot_state env m w) with
  | CDone _ s => rd g_runtime_ready s = false \/ exists p, ginv s (Some p)
  | CHalted h _ => h = HNullCall \/ h = HFuel
  | CSwap _ _ _ => False
  end.
Proof.
  intros Hl. pose proof (rr_init_ok env m w (boot_state env m w) (fun _ _ _ => False)
    (fun _ _ _ => True) Hl) as H. pose proof (rr_init_ends (boot_state env m w) (boot_state env m w)) as He.
  destruct (rr_init (boot_state env m w)); [done| |by destruct H].
  simpl in H, He. by destruct He as [->|?].
Qed.
Lemma start_up_sound_witness :
  match rr_init (boot_state [("RR_MODE", "record")] ∅ sim_init) with
  | CDone _ s => exists p, ginv s (Some p)
  | _ => False
  end.
Proof.
  pose proof (start_up_sound [("RR_MODE", "record")] ∅ sim_init eq_refl) as H.
  assert (E : match rr_init (boot_state [("RR_MODE", "record")] ∅ sim_init) with
    | CDone _ s => rd g_runtime_ready s | _ => false end = true) by (vm_compute; reflexivity).
  destruct (rr_init _) as [a s|h s|c s k]; [|discriminate E|discriminate E].
  destruct H as [H|H]; [congruence|exact H].
Defined.

(** ** Signals *)

(** C24 (signals_logged_and_fatal_ones_flush): on a log file whose writes do not fail, a
    signal delivered while recording is appended to the log; if it is SIGINT or
    SIGTERM the process exits with status 0, and by then the file holds everything
    logged before and the signal itself. *)
Theorem signals_logged_and_fatal_ones_flush {W} `{!OS W} `{!LogSink W} (s : rr_state W) (info : ptr) :
  recording s -> default 0 (rd statics s !! "record:close") <> NULL -> info <> NULL ->
  let signo := field (load (rd mem s) info 4) 0 4 in
  let log := log_view s ++
    encode_event (signal_event (u64 (rd g_rr_seq s + 1)) (cur_id s) signo (u32 (cur_id s))) in
  match rr_signal_process info s with
  | Ok _ s' => signo <> SIGINT /\ signo <> SIGTERM /\ log_view s' = log /\ recording s'
  | Halted h s' => h = HExit 0 /\ (signo = SIGINT \/ signo = SIGTERM) /\
      sink (rd g_log_fd s) (rd world s') = log
  end.
Proof.
  intros Hs Hcl Hi signo log. pose proof Hs as (Hok & Hv & Hm & Hr).
  cut (wp (rr_signal_process info)
    (fun _ s' => signo <> SIGINT /\ signo <> SIGTERM /\ log_view s' = log /\ recording s')
    (fun h s' => h = HExit 0 /\ (signo = SIGINT \/ signo = SIGTERM) /\
       sink (rd g_log_fd s) (rd world s') = log) s).
  { unfold wp. by destruct (rr_signal_process info s). }
  unfold rr_signal_process. rewrite (proj2 (Z.eqb_neq _ _) Hi). wp_step.
  apply wp_current_id; [done|]. wp_step. wp_step. cbv zeta. fold signo. wp_step.
  apply (wp_mono _ (fun _ s' => logged s (signal_event (u64 (rd g_rr_seq s + 1)) (cur_id s) signo
    (u32 (cur_id s))) s') _ no_halt); [by apply wp_log_signal|intros [] s1 Hl1|done].
  pose proof Hl1 as (Hlo & Hok1 & _ & Hv1).
  assert (rd g_log_fd s1 = rd g_log_fd s /\ rd statics s1 = rd statics s) as [Hf1 Hst1].
  { destruct Hlo as (? & ? & _ & He). by env_simpl. }
  destruct (_ || _) eqn:E.
  - apply orb_true_iff in E. wp_step.
    apply (wp_mono _ (fun _ s' => sink (rd g_log_fd s1) (rd world s') = log_view s1) _ no_halt);
      [|intros [] s2 Hs2|done].
    { apply wp_record_shutdown; [done|by rewrite Hst1|done]. }
    wp_step. split; [done|]. rewrite Hf1 in Hs2. split; [|by rewrite Hs2].
    destruct E; bool_prop; auto.
  - apply orb_false_iff in E as [E1 E2]. bool_prop. wp_step. split; [done|]. split; [done|].
    split; [done|]. by eapply logged_recording.
Qed.
Definition demo_sigint : rr_state sim := sim_recording 5 (store ∅ 512 (le 4 SIGINT)) sim_init.
Lemma signals_logged_and_fatal_ones_flush_witness :
  exists s', rr_signal_process 512 demo_sigint = Halted (HExit 0) s' /\
    sim_log (rd world s') = encode_event (signal_event 6 1 SIGINT 1).
Proof.
  assert (Hrec : recording demo_sigint).
  { split; [|split; [right; by eexists|done]]. split; [vm_compute; congruence|].
    split; [by eexists|]. split; [vm_compute; split; congruence|vm_compute; congruence]. }
  pose proof (signals_logged_and_fatal_ones_flush demo_sigint 512 Hrec
    ltac:(vm_compute; congruence) ltac:(congruence)) as H. cbv zeta in H.
  destruct (rr_signal_process 512 demo_sigint) as [a s'|h s'].
  - destruct H as [H _]. exfalso. apply H. vm_compute. reflexivity.
  - destruct H as (-> & _ & H). exists s'. split; [reflexivity|]. exact H.
Defined.

(** ** Stack overflows *)

(** C25 (guard_fault_aborts): the SIGSEGV handler aborts the process with the message
    naming a thread exactly when the faulting address is in a registered guard page,
    and then it names the thread of the first such page; any other fault is raised
    again with the default action. *)
Theorem guard_fault_aborts {W} `{!OS W} (s : rr_state W) (a : Z) :
  let inside g := gp_start g <= a < u64 (gp_start g + gp_size g) in
  match segv_handler a s with
  | Halted h s' => h = HAbort /\ exists i g,
      v_items (rd g_guard_pages s) !! i = Some g /\ inside g /\
      (forall j g', (j < i)%nat -> v_items (rd g_guard_pages s) !! j = Some g' -> ~ inside g') /\
      rd trace s' = Rstderr_write (string_bytes
        ("[rr] stack overflow detected in uthread " +:+ pretty (gp_utid g) +:+ nl)) :: rd trace s
  | Ok _ s' => (forall i g, v_items (rd g_guard_pages s) !! i = Some g -> ~ inside g) /\
      rd trace s' = Rcall "raise" [SIGSEGV] :: Rcall "signal" [SIGSEGV; 0] :: rd trace s
  end.
Proof.
  intros inside. unfold segv_handler, rr_is_guard_page_fault.
  destruct (guard_scan (v_items (rd g_guard_pages s)) a) as [utid|] eqn:E.
  - apply guard_scan_spec in E as (i & g & Hg & <- & Hin & Hmin).
    cut (wp (r ← (v ← get g_guard_pages; mret (guard_scan (v_items v) a));
      match r with
      | Some utid => os (Rstderr_write (string_bytes
          ("[rr] stack overflow detected in uthread " +:+ pretty utid +:+ nl)));; @abort W ()
      | None => call "signal" [SIGSEGV; 0];; call "raise" [SIGSEGV];; mret tt
      end) (fun _ _ => False) (fun h s' => h = HAbort /\
        rd trace s' = Rstderr_write (string_bytes
        ("[rr] stack overflow detected in uthread " +:+ pretty (gp_utid g) +:+ nl)) :: rd trace s) s).
    { unfold wp. match goal with |- match ?m s with _ => _ end -> _ => destruct (m s) end; [done|].
      intros [-> Ht]. split; [done|]. by exists i, g. }
    wp_steps. replace (guard_scan _ a) with (Some (gp_utid g)).
    2:{ symmetry. apply guard_scan_spec. by exists i, g. }
    wp_step. apply wp_os. intros w rp s' _ _ _ _ _ Ht. unfold abort. by wp_step.
  - assert (Hno : forall i g, v_items (rd g_guard_pages s) !! i = Some g -> ~ inside g).
    { intros i g Hi Hin. destruct (guard_scan_first (v_items (rd g_guard_pages s)) a i g Hi Hin)
        as [utid Hu]. congruence. }
    cut (wp (r ← (v ← get g_guard_pages; mret (guard_scan (v_items v) a));
      match r with
      | Some utid => os (Rstderr_write (string_bytes
          ("[rr] stack overflow detected in uthread " +:+ pretty utid +:+ nl)));; @abort W ()
      | None => call "signal" [SIGSEGV; 0];; call "raise" [SIGSEGV];; mret tt
      end) (fun _ s' => rd trace s' = Rcall "raise" [SIGSEGV] :: Rcall "signal" [SIGSEGV; 0]
        :: rd trace s) (fun _ _ => False) s).
    { unfold wp. match goal with |- match ?m s with _ => _ end -> _ => destruct (m s) end; [|done].
      intros Ht. by split. }
    wp_steps. rewrite E. unfold call. wp_step. apply wp_os_rc. intros w rp s1 _ _ _ _ _ Ht1.
    wp_step. apply wp_os_rc. intros w2 rp2 s2 _ _ _ _ _ Ht2. wp_step. by rewrite Ht2, Ht1.
Qed.
