(* ===== verification/MachineTheorems.v ===== *)
(** Theorems about the whole process: memory safety, the run queue, dispatch, and
    what becomes of a blocking call in replay. *)
From stdpp Require Import gmap strings list pretty.
From coqutil Require Import Byte.
From S2P Require Import Prelude Types State Events Logic Log Scheduler Record Replay Signal IoUring Uthread Wrappers Lifecycle Machine Invariant Safety ThreadSafety SchedSafety ColdSafety LifecycleSafety MachineSafety SimOS LogTheorems WrapperTheorems.

(** ** Example programs *)

Definition then_ (c : api) (k : Z -> prog) : prog := PCall c (fun v _ => k v).

(** Create a writer and a reader thread and join both, in the shape of
    test/test_runtime.c. *)
Definition writer : prog :=
  then_ (Awrite 1 100 10) (fun n => PStore 400 (le 8 n) (then_ (Aexit 1) (fun _ => PReturn))).
Definition reader : prog :=
  then_ (Aread 0 100 10) (fun n => PStore 408 (le 8 n) (then_ (Aexit 2) (fun _ => PReturn))).
Definition rw_threads (fn arg : Z) : prog := if fn =? 11 then writer else reader.
Definition rw_main : prog :=
  then_ (Acreate 11 0) (fun w => then_ (Acreate 12 0) (fun r =>
  then_ (Ajoin w 200) (fun _ => then_ (Ajoin r 208) (fun _ => PReturn)))).

Definition outcome (m : @machine sim) : option halt :=
  match m with Ended h _ => Some h | _ => None end.

Definition recorded (fuel : nat) (app : ptr -> Z -> prog) (p : prog) : @machine sim :=
  mrun app fuel (mboot [("RR_MODE", "record")] ∅ sim_init p).

(** ** Blocking calls while recording *)

(** Only opening the log and writing to it change it. *)
Definition off_log (r : os_req) : bool :=
  match r with Ropen _ _ _ | Rlog_write _ _ => false | _ => true end.
Class StillSink (W : Type) `{!OS W} `{!LogSink W} :=
  still_sink fd r m w w' rp : off_log r = true -> os_call r m w = (w', rp) -> sink fd w' = sink fd w.

Section Blocking.
Context {W : Type} `{!OS W} `{!LogSink W} `{!StillSink W}.
Implicit Types s : rr_state W.






(** ** The switch that follows *)



End Blocking.

(** ** Claims *)

(** C2 (process_memory_safe): whatever the application does (any threads, any calls,
    any arguments), in every mode, whatever the kernel answers, and however the
    process ends, the library never dereferences a NULL or freed thread, never
    frees twice, never stores outside a table or the log buffer, and never returns
    from a thread's exit; the only assumption is that [realloc] of the tables does
    not fail for lack of memory. *)
Theorem process_memory_safe {W} `{!OS W} `{!Libc W} (app : ptr -> Z -> prog) (p : prog)
    (env : list (string * string)) (m : memory) (w : W) (n : nat) (h : halt) (s : rr_state W) :
  lib_ok w -> mrun app n (mboot env m w p) = Ended h s -> h <> HUndef.
Proof. intros Hl Hrun. pose proof (minv_reach app n env m w p Hl) as H. by rewrite Hrun in H. Qed.
Lemma process_memory_safe_witness :
  exists s, recorded 60 rw_threads rw_main = Ended (HExit 0) s /\ HExit 0 <> HUndef.
Proof.
  assert (E : outcome (recorded 60 rw_threads rw_main) = Some (HExit 0)) by (vm_compute; reflexivity).
  destruct (recorded 60 rw_threads rw_main) as [c x|s x|s x|h s] eqn:Hr;
    [discriminate E|discriminate E|discriminate E|]. injection E as ->.
  exists s. split; [reflexivity|]. unfold recorded in Hr.
  exact (process_memory_safe (W := sim) rw_threads rw_main [("RR_MODE", "record")] ∅ sim_init 60 (HExit 0) s
    sim_lib_ok Hr).
Defined.

(** C4 (run_queue_exact): as long as [realloc] of the tables does not fail (which
    [out_of_memory_use_after_free] shows is needed), whenever the scheduler is at the
    head of its loop the run queue holds exactly the runnable threads, each once, no
    thread is marked running, and the thread table lists exactly the allocated
    threads. *)
Theorem run_queue_exact {W} `{!OS W} `{!Libc W} (app : ptr -> Z -> prog) (p : prog)
    (env : list (string * string)) (m : memory) (w : W) (n : nat) (s : rr_state W) ctxs :
  lib_ok w -> mrun app n (mboot env m w p) = SchedLoop s ctxs ->
  (exists l, runq s l /\ NoDup l /\
     forall q, q ∈ l <-> exists u, rd heap s !! q = Some u /\ state u = UT_RUNNABLE) /\
  (forall q u, rd heap s !! q = Some u -> state u <> UT_RUNNING) /\
  (forall q, q ∈ v_items (rd g_threads s) <-> is_Some (rd heap s !! q)).
Proof.
  intros Hl Hrun. pose proof (minv_reach app n env m w p Hl) as H. rewrite Hrun in H.
  destruct H as [[[Ht (l & Hq & Hin)] _ _ _ _] _]. split; [exists l; split; [done|split; [apply Hq|done]]|].
  split; [|apply (t_items _ _ _ _ _ _ _ Ht)].
  intros q u Hu Hs. by apply (t_running _ _ _ _ _ _ _ Ht q u Hu) in Hs.
Qed.

(** The first time the scheduler's loop is entered. *)
Lemma run_queue_exact_witness :
  exists s ctxs, recorded 2 rw_threads rw_main = SchedLoop s ctxs /\ exists l, runq s l.
Proof.
  assert (E : match recorded 2 rw_threads rw_main with SchedLoop _ _ => true | _ => false end = true)
    by (vm_compute; reflexivity).
  destruct (recorded 2 rw_threads rw_main) as [c x|s x|s x|h s] eqn:Hr;
    [discriminate E|discriminate E| |discriminate E].
  exists s, x. split; [reflexivity|]. unfold recorded in Hr.
  destruct (run_queue_exact (W := sim) rw_threads rw_main [("RR_MODE", "record")] ∅ sim_init 2 s x sim_lib_ok Hr)
    as [(l & Hq & _) _].
  exists l. exact Hq.
Defined.

(** C7 (dispatch_fifo): as long as [realloc] of the tables does not fail, the thread the
    scheduler switches to is the one at the head of the run queue; it becomes the
    current and the only running thread, and the queue goes on with the rest. *)
Theorem dispatch_fifo {W} `{!OS W} `{!Libc W} (app : ptr -> Z -> prog) (p : prog)
    (env : list (string * string)) (m : memory) (w : W) (n : nat) (s s' : rr_state W) ctxs q l :
  lib_ok w -> mrun app n (mboot env m w p) = SchedLoop s ctxs -> runq s l ->
  sched_iter s = Ok (Some q) s' ->
  head l = Some q /\ runq s' (tail l) /\ rd g_current s' = q /\
  forall r u, rd heap s' !! r = Some u -> (state u = UT_RUNNING <-> r = q).
Proof.
  intros Hl Hrun Hq Hit. pose proof (minv_reach app n env m w p Hl) as H. rewrite Hrun in H.
  destruct H as [Hg _]. pose proof (wp_sched_iter s Hg) as Hw. unfold wp in Hw. rewrite Hit in Hw.
  destruct Hw as [Hg' _]. destruct (sched_iter_head s s' q l Hg Hq Hit) as [Hh Hq'].
  split; [done|]. split; [done|]. destruct Hg' as [[Ht _] _ _ _ _].
  split; [by apply (t_run _ _ _ _ _ _ _ Ht)|].
  intros r u Hu. rewrite (t_running _ _ _ _ _ _ _ Ht r u Hu). naive_solver.
Qed.
Lemma dispatch_fifo_witness :
  exists s ctxs s' q l, recorded 2 rw_threads rw_main = SchedLoop s ctxs /\
    sched_iter s = Ok (Some q) s' /\ head l = Some q /\ rd g_current s' = q.
Proof.
  assert (E : match recorded 2 rw_threads rw_main with
    | SchedLoop s _ => match sched_iter s with Ok (Some _) _ => true | _ => false end
    | _ => false end = true) by (vm_compute; reflexivity).
  destruct (recorded 2 rw_threads rw_main) as [c x|s x|s x|h s] eqn:Hr;
    [discriminate E|discriminate E| |discriminate E].
  destruct (sched_iter s) as [[q|] s'|h s'] eqn:Hit; [|discriminate E|discriminate E].
  pose proof (minv_reach rw_threads 2 [("RR_MODE", "record")] ∅ sim_init rw_main sim_lib_ok) as Hm.
  unfold recorded in Hr. rewrite Hr in Hm. destruct Hm as [[[_ (l & Hq & _)] _ _ _ _] _].
  destruct (dispatch_fifo (W := sim) rw_threads rw_main [("RR_MODE", "record")] ∅ sim_init 2 s s' x q l
    sim_lib_ok Hr Hq Hit) as (Hh & _ & Hc & _).
  exists s, x, s', q, l. split; [reflexivity|]. split; [exact Hit|]. split; [exact Hh|exact Hc].
Defined.


#[export] Instance sim_still_sink : StillSink sim.
Proof.
  intros fd r m w w' rp Hr Hc. destruct r; try done; simpl in Hc; unfold sim_named in Hc;
    repeat case_match; by simplify_eq/=.
Qed.
