(* ===== verification/Twin.v ===== *)
(** Recording a program and replaying it, side by side: the two kernels' laws, the
    relation [twin] between a recording and a replaying process, and functions that
    preserve it ([mirror]). *)
From stdpp Require Import gmap strings list.
From coqutil Require Import Byte.
From S2P Require Import Prelude Types State Events Logic Log Scheduler Record Replay.

(** ** The kernel of a program that does not block *)

(** Calls that do not store to the application's memory. *)
Definition silent_calls : list string :=
  ["calloc"; "realloc"; "mmap"; "munmap"; "mprotect"; "getcontext"; "arch_prctl";
   "sysconf(_SC_PAGESIZE)"; "getpid"; "getuid"; "close"; "SIGSTKSZ"; "sigaltstack"; "sigaction";
   "sigprocmask"; "signalfd"; "io_uring_queue_init"; "io_uring_queue_exit"].
Definition one_of (l : list string) (f : string) : bool := existsb (String.eqb f) l.
Definition silent (r : os_req) : bool :=
  match r with
  | Rdlsym _ | Rlog_close _ | Rstderr_write _ | Rget_sqe | Rsubmit | Rwait_cqe => true
  | Rprep _ user_data => user_data =? RR_SIGNAL_SENTINEL
  | Rcall f _ => one_of silent_calls f
  | _ => false
  end.
Definition time_call (r : os_req) : bool :=
  match r with
  | Rcall f _ => one_of ["clock_gettime"; "gettimeofday"] f
  | _ => false
  end.
Definition log_io (r : os_req) : bool :=
  match r with
  | Rlog_write _ _ | Rlog_read _ _ => true
  | _ => false
  end.

(** Memory, mappings and descriptors are there when asked for, symbols are found,
    files can be opened, and no signal arrives and no completion is pending. *)
Class Steady (W : Type) `{!OS W} := {
  steady : W -> Prop;
  steady_keep r m w w' rp :
    steady w -> silent r || time_call r || log_io r = true -> os_call r m w = (w', rp) -> steady w';
  steady_writes r m w w' rp :
    steady w -> silent r || log_io r = true -> os_call r m w = (w', rp) -> rp_writes rp = [];
  steady_dlsym f m w w' rp : steady w -> os_call (Rdlsym f) m w = (w', rp) -> rp_rc rp <> NULL;
  steady_calloc args m w w' rp :
    steady w -> os_call (Rcall "calloc" args) m w = (w', rp) -> rp_rc rp <> 0;
  steady_mmap args m w w' rp :
    steady w -> os_call (Rcall "mmap" args) m w = (w', rp) -> rp_rc rp <> MAP_FAILED;
  steady_zero f args m w w' rp :
    one_of ["mprotect"; "getcontext"; "arch_prctl"; "sigaltstack"; "sigaction"; "sigprocmask"] f = true ->
    steady w -> os_call (Rcall f args) m w = (w', rp) -> rp_rc rp = 0;
  steady_nonneg f args m w w' rp :
    one_of ["signalfd"; "io_uring_queue_init"] f = true ->
    steady w -> os_call (Rcall f args) m w = (w', rp) -> 0 <= rp_rc rp;
  steady_sqe m w w' rp : steady w -> os_call Rget_sqe m w = (w', rp) -> rp_rc rp <> NULL;
  steady_submit m w w' rp : steady w -> os_call Rsubmit m w = (w', rp) -> 0 <= rp_rc rp;
  steady_open path flags mode m w w' rp :
    steady w -> os_call (Ropen path flags mode) m w = (w', rp) ->
    steady w' /\ rp_writes rp = [] /\ 0 <= rp_rc rp;
  steady_realloc n m w w' rp :
    steady w -> os_call (Rcall "realloc" [n]) m w = (w', rp) -> (rp_rc rp <> 0 <-> n < 2 ^ 63);
  steady_wait m w w' rp : steady w -> os_call Rwait_cqe m w = (w', rp) -> rp_cqe rp = None
}.

(** The log file is empty when it is opened with O_TRUNC and changed by writing to it
    only; the clock calls return 0 and fill the 16 bytes they are given, or fail and
    store nothing; process and user ids are small. *)
Class RecordKernel (W : Type) `{!OS W} `{!LogSink W} `{!Steady W} := {
  rk_sink fd r m w w' rp :
    steady w -> silent r || time_call r = true -> os_call r m w = (w', rp) -> sink fd w' = sink fd w;
  rk_open path m w w' rp :
    steady w -> os_call (Ropen path (Z.lor (Z.lor O_WRONLY O_CREAT) O_TRUNC) 420) m w = (w', rp) ->
    sink (rp_rc rp) w' = [];
  rk_clock clk tp m w w' rp :
    steady w -> tp <> NULL -> os_call (Rcall "clock_gettime" [clk; tp]) m w = (w', rp) ->
    (rp_rc rp = 0 /\ exists d, rp_writes rp = [(tp, d)] /\ length d = 16%nat) \/
    (rp_rc rp = -1 /\ rp_writes rp = [] /\ exists e, rp_errno rp = Some e /\ 0 < e < 2 ^ 31);
  rk_timeofday tv m w w' rp :
    steady w -> tv <> NULL -> os_call (Rcall "gettimeofday" [tv; NULL]) m w = (w', rp) ->
    (rp_rc rp = 0 /\ exists d, rp_writes rp = [(tv, d)] /\ length d = 16%nat) \/
    (rp_rc rp = -1 /\ rp_writes rp = [] /\ exists e, rp_errno rp = Some e /\ 0 < e < 2 ^ 31);
  rk_ids f m w w' rp :
    one_of ["getpid"; "getuid"] f = true ->
    steady w -> os_call (Rcall f []) m w = (w', rp) -> 0 <= rp_rc rp < 2 ^ 31
}.

(** An open log is read from the beginning of the file and is changed by reading only. *)
Class ReplayKernel (W : Type) `{!OS W} `{!LogSource W} `{!Steady W} := {
  logfile : W -> string -> bytes;
  pk_open path m w w' rp :
    steady w -> os_call (Ropen path O_RDONLY 0) m w = (w', rp) -> source (rp_rc rp) w' = logfile w path;
  pk_file r m w w' rp :
    steady w -> silent r = true -> os_call r m w = (w', rp) -> logfile w' = logfile w;
  pk_source fd r m w w' rp :
    steady w -> silent r = true -> os_call r m w = (w', rp) -> source fd w' = source fd w
}.

(** ** Functions that leave everything but the environment alone *)

Section Idle.
Context {W : Type} `{!OS W} `{!Steady W}.
(** The log, as this process sees it. *)
Context (T : W -> bytes).
Implicit Types s : rr_state W.

Definition slots_kept s s' : Prop := forall k,
  default 0 (rd statics s !! k) <> NULL -> default 0 (rd statics s' !! k) <> NULL.

Record idle s s' : Prop := {
  il_config : st_config s' = st_config s;
  il_seq : st_seq s' = st_seq s;
  il_record : st_record s' = st_record s;
  il_replay : st_replay s' = st_replay s;
  il_head : rd g_runq_head s' = rd g_runq_head s;
  il_tail : rd g_runq_tail s' = rd g_runq_tail s;
  il_current : rd g_current s' = rd g_current s;
  il_running : rd g_sched_running s' = rd g_sched_running s;
  il_threads : rd g_threads s' = rd g_threads s;
  il_uthread : st_uthread s' = st_uthread s;
  il_guard : rd g_guard_pages s' = rd g_guard_pages s;
  il_heap : rd heap s' = rd heap s;
  il_brk : rd brk s' = rd brk s;
  il_mem : rd mem s' = rd mem s;
  il_slots : slots_kept s s';
  il_steady : steady (rd world s) -> steady (rd world s');
  il_tape : T (rd world s') = T (rd world s)
}.
Lemma idle_refl s : idle s s.
Proof. constructor; try done. by intros k. Qed.
Lemma idle_trans s1 s2 s3 : idle s1 s2 -> idle s2 s3 -> idle s1 s3.
Proof. intros [] []. constructor; try congruence; [intros k Hk; auto|auto]. Qed.
Lemma idle_env s s' :
  env_only s s' -> rd mem s' = rd mem s -> (steady (rd world s) -> steady (rd world s')) ->
  T (rd world s') = T (rd world s) -> idle s s'.
Proof. intros (e & m & t & w & ->) Hm Hs HT. constructor; try done. by intros k. Qed.

Definition idles {A} (m : M W A) (Q : A -> Prop) : Prop := forall s,
  steady (rd world s) -> wp m (fun a s' => Q a /\ idle s s') no_halt s.

Lemma idles_bind {A B} (m : M W A) (f : A -> M W B) P Q :
  idles m P -> (forall a, P a -> idles (f a) Q) -> idles (m ≫= f) Q.
Proof.
  intros Hm Hf s Hs. apply wp_bind. eapply wp_post; [by apply Hm|]. intros a s1 [Ha H1].
  eapply wp_post; [by apply Hf; [|apply H1]|]. intros b s2 [Hb H2]. split; [done|].
  by eapply idle_trans.
Qed.
Lemma idles_ret {A} (a : A) (Q : A -> Prop) : Q a -> idles (mret a) Q.
Proof. intros Ha s Hs. apply wp_ret. split; [done|apply idle_refl]. Qed.
Lemma idles_get {X} (g : glob W X) : idles (get g) (fun _ => True).
Proof. intros s Hs. apply wp_get. split; [done|apply idle_refl]. Qed.
Lemma idles_mono {A} (m : M W A) (P Q : A -> Prop) : idles m P -> (forall a, P a -> Q a) -> idles m Q.
Proof. intros Hm H s Hs. eapply wp_post; [by apply Hm|]. intros a s' [Ha ?]. auto. Qed.
Lemma idles_if {A} (b : bool) (m1 m2 : M W A) Q : idles m1 Q -> idles m2 Q -> idles (if b then m1 else m2) Q.
Proof. by destruct b. Qed.
Lemma idles_when b (m : M W ()) : idles m (fun _ => True) -> idles (when b m) (fun _ => True).
Proof. intros Hm. apply idles_if; [done|by apply idles_ret]. Qed.
Lemma idles_errno e : idles (put errno e) (fun _ => True).
Proof. intros s Hs. apply wp_put. split; [done|]. constructor; try done. by intros k. Qed.

Context (HT : forall r m w w' rp, steady w -> silent r = true -> os_call r m w = (w', rp) -> T w' = T w).

Lemma idles_os r (Q : os_resp -> Prop) :
  silent r = true ->
  (forall m w w' rp, steady w -> os_call r m w = (w', rp) -> Q rp) -> idles (os r) Q.
Proof.
  intros Hr HQ s Hs. apply wp_os. intros w rp s' Hc He Hw Hm _ _.
  split; [by eapply HQ|].
  rewrite (steady_writes r _ _ _ _ Hs ltac:(by rewrite Hr) Hc) in Hm.
  apply idle_env; [done|done| |rewrite Hw; by eapply HT]. intros _. rewrite Hw.
  eapply steady_keep; [done| |done]. by rewrite Hr.
Qed.
Lemma idles_os_rc r (Q : Z -> Prop) :
  silent r = true ->
  (forall m w w' rp, steady w -> os_call r m w = (w', rp) -> Q (rp_rc rp)) -> idles (os_rc r) Q.
Proof.
  intros Hr HQ. unfold os_rc. eapply idles_bind; [apply (idles_os r (fun rp => Q (rp_rc rp)) Hr HQ)|].
  intros rp Hq. by apply idles_ret.
Qed.
Lemma idles_call f args : one_of silent_calls f = true -> idles (call f args) (fun _ => True).
Proof. intros Hf. by apply idles_os_rc. Qed.
Lemma idles_debugf text : idles (rr_debugf text) (fun _ => True).
Proof.
  unfold rr_debugf. eapply idles_bind; [apply idles_get|]. intros c _. apply idles_if; [by apply idles_ret|].
  apply idles_if; [by apply idles_ret|]. cbv zeta.
  eapply idles_bind; [by apply (idles_os _ (fun _ => True))|]. intros rp _. by apply idles_ret.
Qed.
Lemma wp_resolve_value slot name s :
  steady (rd world s) -> wp (resolve slot name) (fun p s' => idle s s' /\ p <> NULL /\
    default 0 (rd statics s' !! slot) <> NULL) no_halt s.
Proof.
  intros Hs. unfold resolve. apply wp_bind, wp_get.
  destruct (default 0 (rd statics s !! slot) =? NULL) eqn:E; bool_prop.
  - apply wp_bind. unfold os_rc. apply wp_bind.
    eapply wp_post; [apply (idles_os (Rdlsym name) (fun rp => rp_rc rp <> NULL)); [done| |done]|].
    { intros. by eapply steady_dlsym. }
    intros rp s1 [Hp H1]. apply wp_ret. apply wp_bind, wp_get. apply wp_bind, wp_put, wp_ret.
    split; [|glob_simpl; by rewrite lookup_insert_eq]. destruct H1. constructor; try done.
    intros k Hk. glob_simpl. destruct (decide (slot = k)) as [<-|Hne]; [by rewrite lookup_insert_eq|].
    rewrite lookup_insert_ne by done. by apply il_slots0.
  - apply wp_ret. split; [apply idle_refl|done].
Qed.
Lemma wp_resolve slot name s :
  steady (rd world s) -> wp (resolve slot name) (fun _ s' => idle s s' /\
    default 0 (rd statics s' !! slot) <> NULL) no_halt s.
Proof. intros Hs. eapply wp_post; [by apply wp_resolve_value|]. by intros p s' (? & _ & ?). Qed.
Lemma idles_resolve slot name : idles (resolve slot name) (fun _ => True).
Proof. intros s Hs. eapply wp_post; [by apply wp_resolve|]. by intros ? ? [? _]. Qed.
End Idle.

(** ** Functions that leave the application's memory alone *)

Section Calm.
Context {W : Type} `{!OS W} `{!Steady W}.
Implicit Types s : rr_state W.

Definition calmly {A} (m : M W A) : Prop := forall s, steady (rd world s) ->
  wp m (fun _ s' => steady (rd world s') /\ rd mem s' = rd mem s) (fun _ _ => True) s.

Lemma calmly_bind {A B} (m : M W A) (f : A -> M W B) :
  calmly m -> (forall a, calmly (f a)) -> calmly (m ≫= f).
Proof.
  intros Hm Hf s Hs. apply wp_bind. eapply wp_post; [by apply Hm|]. intros a s1 [H1 M1].
  eapply wp_post; [by apply Hf|]. intros c s2 [H2 M2]. split; [done|congruence].
Qed.
Lemma calmly_ret {A} (a : A) : calmly (mret a).
Proof. done. Qed.
Lemma calmly_get {X} (g : glob W X) : calmly (get g).
Proof. done. Qed.
Lemma calmly_halted {A} h : calmly (halted (A := A) h).
Proof. done. Qed.
Lemma calmly_when b (m : M W ()) : calmly m -> calmly (when b m).
Proof. by destruct b. Qed.
Lemma calmly_deref p : calmly (deref p).
Proof. intros s Hs. unfold wp, deref. by destruct (rd heap s !! p). Qed.
Lemma calmly_put {X} (g : glob W X) v :
  (forall s, rd world (wr g v s) = rd world s /\ rd mem (wr g v s) = rd mem s) -> calmly (put g v).
Proof. intros H s Hs. apply wp_put. by destruct (H s) as [-> ->]. Qed.
Lemma calmly_os r : silent r || log_io r = true -> calmly (os r).
Proof.
  intros Hr s Hs. apply wp_os. intros w rp s' Hc _ Hw Hm _ _. rewrite Hw, Hm.
  rewrite (steady_writes r _ _ _ _ Hs Hr Hc). split; [|done].
  eapply steady_keep; [done| |done]. destruct (silent r), (log_io r); try done. by rewrite orb_true_r.
Qed.
Lemma calmly_call_real slot r : silent r || log_io r = true -> calmly (call_real slot r).
Proof.
  intros Hr. unfold call_real. apply calmly_bind; [apply calmly_get|]. intros m.
  destruct (_ =? _); [apply calmly_halted|by apply calmly_os].
Qed.
Lemma calmly_os_rc r : silent r || log_io r = true -> calmly (os_rc r).
Proof. intros Hr. apply calmly_bind; [by apply calmly_os|]. intros a. apply calmly_ret. Qed.
End Calm.

Create HintDb calm.
#[export] Hint Resolve calmly_ret calmly_get calmly_halted calmly_deref calmly_os calmly_os_rc
  calmly_call_real : calm.
#[export] Hint Extern 0 (_ || _ = true) => reflexivity : calm.
Ltac calm_step :=
  lazymatch goal with
  | |- calmly (_ ≫= _) => apply calmly_bind; [|intros ?]
  | |- calmly (when _ _) => apply calmly_when
  | |- calmly (if _ then _ else _) => case_match
  | |- calmly (match _ with _ => _ end) => case_match
  | |- calmly (put _ _) => apply calmly_put; done
  | |- _ => solve [auto with calm nocore]
  end.
Ltac calm_tac := cbv zeta; repeat (cbv beta; calm_step).

Section CalmFunctions.
Context {W : Type} `{!OS W} `{!Steady W}.

Lemma calmly_debugf text : calmly (rr_debugf (W := W) text).
Proof. unfold rr_debugf. calm_tac. Qed.
Lemma calmly_current_id : calmly (current_id (W := W)).
Proof. unfold current_id, rr_scheduler_current. calm_tac. Qed.
Lemma calmly_write_loop fuel p n : calmly (write_loop (W := W) fuel p n).
Proof. revert n. induction fuel as [|fuel IH]; intros n; simpl; calm_tac; done. Qed.
Lemma calmly_read_loop fuel fd len n buf : calmly (read_loop (W := W) fuel fd len n buf).
Proof. revert n buf. induction fuel as [|fuel IH]; intros n buf; simpl; calm_tac; done. Qed.
End CalmFunctions.
#[export] Hint Resolve calmly_debugf calmly_current_id calmly_write_loop calmly_read_loop : calm.

Section CalmLog.
Context {W : Type} `{!OS W} `{!Steady W}.
Lemma calmly_flush : calmly (rr_record_flush (W := W)).
Proof. unfold rr_record_flush, rr_write_direct. calm_tac. Qed.
#[local] Hint Resolve calmly_flush : calm.
Lemma calmly_append e : calmly (rr_record_append (W := W) e).
Proof. unfold rr_record_append, ring_memcpy, rr_write_direct. calm_tac. Qed.
#[local] Hint Resolve calmly_append : calm.
Lemma calmly_log_syscall nr rv a d n : calmly (rr_log_syscall (W := W) nr rv a d n).
Proof. unfold rr_log_syscall, rr_active, rr_next_seq. calm_tac. Qed.
Lemma calmly_log_sched f g : calmly (rr_log_sched (W := W) f g).
Proof. unfold rr_log_sched, rr_next_seq. calm_tac. Qed.
Lemma calmly_record_shutdown : calmly (rr_record_shutdown (W := W)).
Proof. unfold rr_record_shutdown, call. calm_tac. Qed.
Lemma calmly_next_event o : calmly (rr_replay_next_event (W := W) o).
Proof. unfold rr_replay_next_event, rr_read_full, fail. calm_tac. Qed.
#[local] Hint Resolve calmly_next_event : calm.
Lemma calmly_expect_sched f g : calmly (rr_replay_expect_sched (W := W) f g).
Proof. unfold rr_replay_expect_sched. calm_tac. Qed.
Lemma calmly_next_syscall nr u o : calmly (rr_replay_next_syscall (W := W) nr u o).
Proof. unfold rr_replay_next_syscall, fail. calm_tac. Qed.
End CalmLog.

(** ** Twins *)

(** What of a thread the two processes have in common: everything but its stack,
    its TLS base, its saved context and its last I/O result. *)
Record thread_eq (u v : uthread) : Prop := {
  te_id : id v = id u; te_state : state v = state u; te_join : join_waiter v = join_waiter u;
  te_retval : retval v = retval u; te_next : next v = next u;
  te_fn : start_fn v = start_fn u; te_arg : start_arg v = start_arg u
}.
Definition heap_eq (h h' : gmap Z uthread) : Prop :=
  forall p, option_Forall2 thread_eq (h !! p) (h' !! p).
(** Tables of the same size. *)
Definition same_shape {A} (v v' : vec A) : Prop :=
  length (v_items v') = length (v_items v) /\ v_cap v' = v_cap v.

Section Twin.
Context {W1 W2 : Type} `{!OS W1} `{!LogSink W1} `{!Steady W1} `{!RecordKernel W1}
  `{!OS W2} `{!LogSource W2} `{!Steady W2} `{!ReplayKernel W2}.
(** The descriptor of the log being recorded, the events that recording will have
    written in the end, and the addresses where the memories may differ. *)
Context (fd0 : Z) (full : bytes) (scratch : Z -> Prop).
Implicit Types (s : rr_state W1) (r : rr_state W2).

Definition mem_eq (m m' : memory) : Prop := forall a, ~ scratch a -> m !! a = m' !! a.

(** A recording process; [b] is whether the runtime is ready. *)
Record recs (b : bool) s : Prop := {
  rc_ok : rec_ok s;
  rc_fd : rd g_log_fd s = fd0;
  rc_close : default 0 (rd statics s !! "record:close") <> NULL;
  rc_steady : steady (rd world s);
  rc_record : mode_record (rd g_rr_config s) = true;
  rc_replay : mode_replay (rd g_rr_config s) = false;
  rc_ready : rd g_runtime_ready s = b;
  rc_ids : forall p u, rd heap s !! p = Some u -> in_u64 (id u);
  rc_next : in_u64 (rd g_next_id s);
  rc_running : b = true -> rd g_sched_running s = true
}.
(** A replaying process. *)
Record reps (b : bool) r : Prop := {
  rp_ok : rep_ok r;
  rp_steady : steady (rd world r);
  rp_record : mode_record (rd g_rr_config r) = false;
  rp_replay : mode_replay (rd g_rr_config r) = true;
  rp_virtual : replay_time_virtual (rd g_rr_config r) = true;
  rp_ready : rd g_runtime_ready r = b
}.

(** The threads of the two processes. *)
Record threads_eq s r : Prop := {
  tq_heap : heap_eq (rd heap s) (rd heap r);
  tq_brk : rd brk r = rd brk s;
  tq_head : rd g_runq_head r = rd g_runq_head s;
  tq_tail : rd g_runq_tail r = rd g_runq_tail s;
  tq_current : rd g_current r = rd g_current s;
  tq_running : rd g_sched_running r = rd g_sched_running s;
  tq_threads : rd g_threads r = rd g_threads s;
  tq_next : rd g_next_id r = rd g_next_id s;
  tq_allocated : rd g_allocated r = rd g_allocated s;
  tq_guard : same_shape (rd g_guard_pages s) (rd g_guard_pages r)
}.

(** The same point of the same program: what was recorded so far followed by what
    is left to replay is the whole log. *)
Record twin (b : bool) s r : Prop := {
  tw_recs : recs b s;
  tw_reps : reps b r;
  tw_log : log_view s ++ rest r = full;
  tw_seq : rd g_expected_seq r = u64 (rd g_rr_seq s + 1);
  tw_threads : threads_eq s r;
  tw_mem : mem_eq (rd mem s) (rd mem r)
}.

(** Running [m1] while recording only adds to the log; and if what it added is what
    the whole log holds there, [m2] goes the same way while replaying. *)
Definition mirror (b : bool) {A B} (P : A -> B -> Prop) (m1 : M W1 A) (m2 : M W2 B) : Prop :=
  (forall s, recs b s -> wp m1 (fun a s' =>
     (exists a', P a a') /\ recs b s' /\ log_view s `prefix_of` log_view s')
     (fun h _ => h <> HExit 0) s) /\
  (forall s r, twin b s r ->
     wp m1 (fun a s' => log_view s' `prefix_of` full ->
              exists a' r', m2 r = Ok a' r' /\ P a a' /\ twin b s' r') (fun _ _ => True) s).

Lemma mirror_bind b {A A' B B'} (P : A -> A' -> Prop) (Q : B -> B' -> Prop) m1 m2 f g :
  mirror b P m1 m2 -> (forall a a', P a a' -> mirror b Q (f a) (g a')) ->
  mirror b Q (m1 ≫= f) (m2 ≫= g).
Proof.
  intros [Hg1 Hr1] Hf. split.
  - intros s Hs. apply wp_bind. eapply wp_post; [by apply Hg1|]. intros a s1 ([a' Ha] & H1 & Hv1).
    eapply wp_post; [by apply (Hf a a' Ha)|]. intros c s2 (Hc & H2 & Hv2).
    split; [done|]. split; [done|]. by etransitivity.
  - intros s r Ht. specialize (Hg1 s (tw_recs _ _ _ Ht)). specialize (Hr1 s r Ht).
    apply wp_bind. unfold wp in *. destruct (m1 s) as [a s1|h s1]; [|done].
    destruct Hg1 as ([a0 Ha0] & H1 & _).
    pose proof (proj1 (Hf a a0 Ha0) s1 H1) as Hgf. unfold wp in Hgf.
    destruct (decide (log_view s1 `prefix_of` full)) as [Hpre|Hpre].
    + destruct (Hr1 Hpre) as (a' & r1 & Hm2 & Ha & Ht1).
      pose proof (proj2 (Hf a a' Ha) s1 r1 Ht1) as Hrf. unfold wp in Hrf.
      destruct (f a s1); [|done]. intros H. unfold mbind, M_bind. rewrite Hm2. by apply Hrf.
    + destruct (f a s1) as [c s2|]; [|done]. destruct Hgf as (_ & _ & Hv2). intros H.
      exfalso. apply Hpre. by etransitivity.
Qed.

(** Nothing is logged: the two parts in one. *)
Lemma mirror_plain b {A B} (P : A -> B -> Prop) m1 m2 :
  (forall s, recs b s -> wp m1 (fun a s' => (exists a', P a a') /\ recs b s' /\ log_view s' = log_view s)
     (fun h _ => h <> HExit 0) s) ->
  (forall s r, twin b s r ->
     wp m1 (fun a s' => exists a' r', m2 r = Ok a' r' /\ P a a' /\ twin b s' r') (fun _ _ => True) s) ->
  mirror b P m1 m2.
Proof.
  intros Hg Hr. split.
  - intros s Hs. eapply wp_post; [by apply Hg|]. intros a s' (? & ? & ->). done.
  - intros s r Ht. eapply wp_post; [by apply Hr|]. done.
Qed.
Lemma mirror_ret b {A B} (P : A -> B -> Prop) a a' : P a a' -> mirror b P (mret a) (mret a').
Proof.
  intros Hp. apply mirror_plain; [intros s Hs; apply wp_ret; by eauto|].
  intros s r Ht. apply wp_ret. by exists a', r.
Qed.
Lemma mirror_halted b {A B} (P : A -> B -> Prop) h m2 : h <> HExit 0 -> mirror b P (halted h) m2.
Proof. intros Hh. by apply mirror_plain. Qed.
Lemma mirror_get b {X} (P : X -> X -> Prop) (g1 : glob W1 X) (g2 : glob W2 X) :
  (forall s, recs b s -> exists x, P (rd g1 s) x) ->
  (forall s r, twin b s r -> P (rd g1 s) (rd g2 r)) -> mirror b P (get g1) (get g2).
Proof.
  intros Ht Hp. apply mirror_plain; [intros s Hs; apply wp_get; by auto|].
  intros s r Hw. apply wp_get. eexists _, r. eauto.
Qed.
Lemma mirror_when b (c : bool) (m1 : M W1 ()) (m2 : M W2 ()) :
  (c = true -> mirror b eq m1 m2) -> mirror b eq (when c m1) (when c m2).
Proof. intros H. destruct c; [by apply H|by apply mirror_ret]. Qed.
Lemma mirror_if b {A B} (P : A -> B -> Prop) (c : bool) m1 m1' m2 m2' :
  (c = true -> mirror b P m1 m2) -> (c = false -> mirror b P m1' m2') ->
  mirror b P (if c then m1 else m1') (if c then m2 else m2').
Proof. destruct c; auto. Qed.

(** *** Steps on one side *)

Lemma recs_idle b s s' :
  recs b s -> idle (sink fd0) s s' -> recs b s' /\ log_view s' = log_view s.
Proof.
  intros [(Hfd & Hring & Hused & Hst) ? ? ? ? ? ? ? ? ?] [].
  assert (rd g_log_fd s' = rd g_log_fd s /\ rd g_ring s' = rd g_ring s /\
    rd g_ring_used s' = rd g_ring_used s /\ rd g_rr_config s' = rd g_rr_config s /\
    rd g_runtime_ready s' = rd g_runtime_ready s) as (E1 & E2 & E3 & E4 & E5).
  { unfold rd. simpl. by rewrite il_record0, il_config0. }
  split.
  - constructor; rewrite ?E4, ?E5; try congruence; [|by apply il_slots0|by auto|by rewrite il_heap0| |by rewrite il_running0].
    + split; [by rewrite E1|]. split; [by rewrite E2|]. split; [by rewrite E3|by apply il_slots0].
    + unfold rd in *. simpl in *. by rewrite il_uthread0.
  - unfold log_view, pending. rewrite E1, E2, E3, rc_fd0. by rewrite il_tape0.
Qed.
Lemma threads_eq_idle_l T s s' r : threads_eq s r -> idle T s s' -> threads_eq s' r.
Proof.
  intros [] [].
  assert (rd g_next_id s' = rd g_next_id s /\ rd g_allocated s' = rd g_allocated s) as [E1 E2].
  { unfold rd. simpl. by rewrite il_uthread0. }
  constructor; rewrite ?il_heap0, ?il_brk0, ?il_guard0; first [assumption|congruence].
Qed.
Lemma threads_eq_idle_r T s r r' : threads_eq s r -> idle T r r' -> threads_eq s r'.
Proof.
  intros [] [].
  assert (rd g_next_id r' = rd g_next_id r /\ rd g_allocated r' = rd g_allocated r) as [E1 E2].
  { unfold rd. simpl. by rewrite il_uthread0. }
  constructor; rewrite ?il_heap0, ?il_brk0, ?il_guard0; first [assumption|congruence].
Qed.
Lemma twin_idle_l b s s' r : twin b s r -> idle (sink fd0) s s' -> twin b s' r.
Proof.
  intros [] Hi. destruct (recs_idle b s s' tw_recs0 Hi) as [Hr Hv].
  assert (rd g_rr_seq s' = rd g_rr_seq s) as E.
  { destruct Hi. unfold rd. simpl. by rewrite il_seq0. }
  constructor; try done; rewrite ?Hv, ?E; try done; [by eapply threads_eq_idle_l|].
  by rewrite (il_mem _ _ _ Hi).
Qed.
Lemma reps_idle b T r r' : reps b r -> idle T r r' -> reps b r'.
Proof.
  intros [(Hh & Hfd & Hst) ? ? ? ? ?] [].
  assert (rd g_replay_fd r' = rd g_replay_fd r /\ rd g_replay_header_ok r' = rd g_replay_header_ok r /\
    rd g_rr_config r' = rd g_rr_config r /\
    rd g_runtime_ready r' = rd g_runtime_ready r) as (E1 & E2 & E4 & E5).
  { unfold rd. simpl. by rewrite il_replay0, il_config0. }
  constructor; rewrite ?E4, ?E5; try congruence; [|by auto].
  split; [by rewrite E2|]. split; [by rewrite E1|by apply il_slots0].
Qed.
Lemma twin_idle_r b s r r' : twin b s r -> idle (source (rd g_replay_fd r)) r r' -> twin b s r'.
Proof.
  intros [] Hi. pose proof (reps_idle b _ r r' tw_reps0 Hi) as Hp.
  assert (rd g_replay_fd r' = rd g_replay_fd r /\ rd g_expected_seq r' = rd g_expected_seq r) as [E1 E2].
  { destruct Hi. unfold rd. simpl. by rewrite il_replay0. }
  constructor; try done; rewrite ?E2; try done; [| |].
  - unfold rest. by rewrite E1, (il_tape _ _ _ Hi).
  - by eapply threads_eq_idle_r.
  - by rewrite (il_mem _ _ _ Hi).
Qed.

(** Two functions that only make requests. *)
Lemma mirror_idles b {A B} (P1 : A -> Prop) (P2 : B -> Prop) (P : A -> B -> Prop) m1 m2 :
  idles (sink fd0) m1 P1 -> (forall fd, idles (source fd) m2 P2) ->
  (forall a, P1 a -> exists a', P a a') ->
  (forall a a', P1 a -> P2 a' -> P a a') -> mirror b P m1 m2.
Proof.
  intros H1 H2 Htot HP. apply mirror_plain.
  - intros s Hs. eapply wp_mono; [by apply H1, Hs| |done]. intros a s' [Ha Hi].
    split; [by apply Htot|]. by apply recs_idle.
  - intros s r Ht. eapply wp_mono; [by apply H1, Ht| |done]. intros a s' [Ha Hi].
    destruct (wp_returns m2 (fun a r' => P2 a /\ idle (source (rd g_replay_fd r)) r r') r)
      as (a' & r' & Hm & Ha' & Hi'); [apply H2, Ht|].
    exists a', r'. split; [done|]. split; [by apply HP|].
    apply (twin_idle_r b s' r r'); [|done]. by eapply twin_idle_l.
Qed.
Lemma rk_silent q m (w w' : W1) rp :
  steady w -> silent q = true -> os_call q m w = (w', rp) -> sink fd0 w' = sink fd0 w.
Proof. intros Hs Hr. apply rk_sink; [done|]. by rewrite Hr. Qed.

Lemma mirror_os b q1 q2 (Q1 Q2 : os_resp -> Prop) (P : os_resp -> os_resp -> Prop) :
  silent q1 = true -> silent q2 = true ->
  (forall m (w w' : W1) rp, steady w -> os_call q1 m w = (w', rp) -> Q1 rp) ->
  (forall m (w w' : W2) rp, steady w -> os_call q2 m w = (w', rp) -> Q2 rp) ->
  (forall a, Q1 a -> exists a', P a a') ->
  (forall a a', Q1 a -> Q2 a' -> P a a') -> mirror b P (os q1) (os q2).
Proof.
  intros Hq1 Hq2 H1 H2 Htot HP. eapply mirror_idles; [| |exact Htot|exact HP].
  - apply idles_os; [apply rk_silent|done|done].
  - intros fd. apply idles_os; [apply pk_source|done|done].
Qed.
End Twin.
