(* ===== verification/TwinOps.v ===== *)
(** The functions of the library that keep a recording and a replaying process
    twins: threads, tables, the scheduler's queue, the logged calls and the log. *)
From stdpp Require Import gmap strings list.
From coqutil Require Import Byte.
From S2P Require Import Prelude Types State Events Logic Log Scheduler Record Replay Signal IoUring Uthread Wrappers Lifecycle Machine Twin.

Lemma thread_eq_refl u : thread_eq u u.
Proof. by constructor. Qed.
Lemma heap_eq_lookup h h' p u :
  heap_eq h h' -> h !! p = Some u -> exists v, h' !! p = Some v /\ thread_eq u v.
Proof. intros He Hu. specialize (He p). rewrite Hu in He. inversion He. eauto. Qed.
Lemma heap_eq_insert h h' p u v :
  heap_eq h h' -> thread_eq u v -> heap_eq (<[p := u]> h) (<[p := v]> h').
Proof.
  intros He Hu q. destruct (decide (p = q)) as [<-|Hne].
  - rewrite !lookup_insert_eq. by constructor.
  - by rewrite !lookup_insert_ne.
Qed.
Lemma heap_eq_delete h h' p : heap_eq h h' -> heap_eq (delete p h) (delete p h').
Proof.
  intros He q. destruct (decide (p = q)) as [<-|Hne].
  - rewrite !lookup_delete_eq. constructor.
  - by rewrite !lookup_delete_ne.
Qed.

Section TwinOps.
Context {W1 W2 : Type} `{!OS W1} `{!LogSink W1} `{!Steady W1} `{!RecordKernel W1}
  `{!OS W2} `{!LogSource W2} `{!Steady W2} `{!ReplayKernel W2}.
Context (fd0 : Z) (full : bytes) (scratch : Z -> Prop).
Implicit Types (s : rr_state W1) (r : rr_state W2).
#[local] Notation recs := (recs fd0).
#[local] Notation twin := (twin fd0 full scratch).
#[local] Notation mirror := (mirror fd0 full scratch).

(** ** Threads *)

#[local] Ltac twin_split := constructor; try done; constructor; done.

(** A change of the heaps alone. *)
Lemma twin_heap b s r h h' :
  twin b s r -> heap_eq h h' -> (forall p u, h !! p = Some u -> in_u64 (id u)) ->
  twin b (wr heap h s) (wr heap h' r).
Proof. intros [[] [] ? ? [] ?] Hh Hi. twin_split. Qed.
Lemma recs_heap b s h :
  recs b s -> (forall p u, h !! p = Some u -> in_u64 (id u)) ->
  recs b (wr heap h s) /\ log_view (wr heap h s) = log_view s.
Proof. intros [] Hi. split; [by constructor|done]. Qed.

(** The same object, seen from both sides. *)
Definition thread_rel (u v : uthread) : Prop := thread_eq u v /\ in_u64 (id u).

Lemma mirror_deref b p : mirror b thread_rel (deref p) (deref p).
Proof.
  apply mirror_plain.
  - intros s Hs. unfold wp, deref. destruct (rd heap s !! p) as [u|] eqn:Hu; [|done].
    split; [|done]. exists u. split; [apply thread_eq_refl|]. by eapply (rc_ids _ _ _ Hs).
  - intros s r Ht. unfold wp, deref. destruct (rd heap s !! p) as [u|] eqn:Hu; [|done].
    destruct (heap_eq_lookup _ _ _ _ (tq_heap _ _ (tw_threads _ _ _ _ _ _ Ht)) Hu) as (v & Hv & He).
    rewrite Hv. exists v, r. split; [done|]. split; [|done]. split; [done|].
    by eapply (rc_ids _ _ _ (tw_recs _ _ _ _ _ _ Ht)).
Qed.
Lemma ids_insert (h : gmap Z uthread) p u :
  (forall q v, h !! q = Some v -> in_u64 (id v)) -> in_u64 (id u) ->
  forall q v, <[p := u]> h !! q = Some v -> in_u64 (id v).
Proof. intros Hh Hu q v Hv. apply lookup_insert_Some in Hv as [[<- <-]|[_ Hv]]; eauto. Qed.
Lemma ids_delete (h : gmap Z uthread) p :
  (forall q v, h !! q = Some v -> in_u64 (id v)) ->
  forall q v, delete p h !! q = Some v -> in_u64 (id v).
Proof. intros Hh q v Hv. apply lookup_delete_Some in Hv as [_ Hv]. eauto. Qed.

Lemma mirror_update b p f f' :
  (forall u v, thread_eq u v -> thread_eq (f u) (f' v)) ->
  (forall u, in_u64 (id u) -> in_u64 (id (f u))) ->
  mirror b eq (update p f) (update p f').
Proof.
  intros Hf Hi. apply mirror_plain.
  - intros s Hs. unfold wp, update. destruct (rd heap s !! p) as [u|] eqn:Hu; [|done].
    split; [eauto|]. apply recs_heap; [done|]. pose proof (rc_ids _ _ _ Hs).
    apply ids_insert; eauto.
  - intros s r Ht. unfold wp, update. destruct (rd heap s !! p) as [u|] eqn:Hu; [|done].
    pose proof (rc_ids _ _ _ (tw_recs _ _ _ _ _ _ Ht)).
    pose proof (tq_heap _ _ (tw_threads _ _ _ _ _ _ Ht)) as He.
    destruct (heap_eq_lookup _ _ _ _ He Hu) as (v & Hv & Huv).
    rewrite Hv. exists tt. eexists. split; [done|]. split; [done|].
    apply twin_heap; [done|by apply heap_eq_insert; auto|]. apply ids_insert; eauto.
Qed.
Lemma mirror_free b p : mirror b eq (free_ut p) (free_ut p).
Proof.
  apply mirror_plain.
  - intros s Hs. unfold wp, free_ut. destruct (rd heap s !! p); [|done]. split; [eauto|].
    apply recs_heap; [done|]. apply ids_delete, Hs.
  - intros s r Ht. unfold wp, free_ut. destruct (rd heap s !! p) as [u|] eqn:Hu; [|done].
    pose proof (tq_heap _ _ (tw_threads _ _ _ _ _ _ Ht)) as He.
    destruct (heap_eq_lookup _ _ _ _ He Hu) as (v & Hv & _).
    rewrite Hv. exists tt. eexists. split; [done|]. split; [done|].
    apply twin_heap; [done|by apply heap_eq_delete|]. apply ids_delete, Ht.
Qed.

(** ** Variables *)

Lemma mirror_put b {X Y} (g1 : glob W1 X) (g2 : glob W2 Y) v1 v2 :
  (forall s, recs b s -> recs b (wr g1 v1 s) /\ log_view (wr g1 v1 s) = log_view s) ->
  (forall s r, twin b s r -> twin b (wr g1 v1 s) (wr g2 v2 r)) ->
  mirror b eq (put g1 v1) (put g2 v2).
Proof.
  intros H1 H2. apply mirror_plain; [intros s Hs; apply wp_put; split; [by eauto|by apply H1]|].
  intros s r Ht. apply wp_put. exists tt. eexists. split; [done|]. split; [done|]. by apply H2.
Qed.

#[local] Ltac put_tac :=
  apply mirror_put; [intros s []; split; [by constructor|done]|];
  intros s r [[] [] ? ? [] ?]; twin_split.

Lemma mirror_put_head b p : mirror b eq (put g_runq_head p) (put g_runq_head p).
Proof. put_tac. Qed.
Lemma mirror_put_tail b p : mirror b eq (put g_runq_tail p) (put g_runq_tail p).
Proof. put_tac. Qed.
Lemma mirror_put_current b p : mirror b eq (put g_current p) (put g_current p).
Proof. put_tac. Qed.
Lemma mirror_put_next b i : in_u64 i -> mirror b eq (put g_next_id i) (put g_next_id i).
Proof. intros Hi. put_tac. Qed.
Lemma mirror_put_threads b v : mirror b eq (put g_threads v) (put g_threads v).
Proof. put_tac. Qed.
Lemma mirror_put_allocated b v : mirror b eq (put g_allocated v) (put g_allocated v).
Proof. put_tac. Qed.
Lemma mirror_put_errno b e e' : mirror b eq (put errno e) (put errno e').
Proof. put_tac. Qed.

(** ** Requests *)

Lemma mirror_call_any b f a1 a2 :
  one_of silent_calls f = true -> mirror b (fun _ _ => True) (call f a1) (call f a2).
Proof.
  intros Hf. apply (mirror_idles _ _ _ _ (fun _ => True) (fun _ => True)); [| |by exists 0|done].
  - apply idles_os_rc; [apply rk_silent|done|done].
  - intros fd. apply idles_os_rc; [apply pk_source|done|done].
Qed.
(** A test on the result that comes out the same on both sides. *)
Lemma mirror_call b f a1 a2 (c : Z -> bool) v :
  one_of silent_calls f = true ->
  (forall m (w w' : W1) rp, steady w -> os_call (Rcall f a1) m w = (w', rp) -> c (rp_rc rp) = v) ->
  (forall m (w w' : W2) rp, steady w -> os_call (Rcall f a2) m w = (w', rp) -> c (rp_rc rp) = v) ->
  mirror b (fun x y => c x = c y) (call f a1) (call f a2).
Proof.
  intros Hf H1 H2.
  apply (mirror_idles _ _ _ _ (fun x => c x = v) (fun x => c x = v)); [| |by eauto|congruence].
  - apply idles_os_rc; [apply rk_silent|done|done].
  - intros fd. apply idles_os_rc; [apply pk_source|done|done].
Qed.
Lemma mirror_calloc_ut b : mirror b eq calloc_ut calloc_ut.
Proof.
  unfold calloc_ut. apply (mirror_bind _ _ _ b (fun x y : Z => (x =? 0) = (y =? 0))).
  { apply (mirror_call b "calloc" [1] [1] (fun x => x =? 0) false); [done|..];
      intros ???? Hs Hc; apply Z.eqb_neq; exact (steady_calloc _ _ _ _ _ Hs Hc). }
  intros ok ok' Hk. rewrite <-Hk. apply mirror_if; intros _; [by apply mirror_ret|].
  assert (in_u64 (id uthread_zero)) by (by vm_compute).
  apply mirror_plain.
  { intros s []. wp_steps. split; [eauto|]. split; [|done]. constructor; try done. by apply ids_insert. }
  intros s r [[] [] ? ? [] ?]. wp_steps. exists (rd brk r). eexists. split; [done|].
  split; [done|]. glob_simpl. rewrite tq_brk. constructor; try done; constructor; try done.
  - by apply ids_insert.
  - glob_simpl. by apply heap_eq_insert, thread_eq_refl.
Qed.

(** ** Tables *)

Section Table.
Context {A : Type} (g1 : glob W1 (vec A)) (g2 : glob W2 (vec A)) (b : bool).
Context (Hshape : forall s r, twin b s r -> same_shape (rd g1 s) (rd g2 r)).
Context (Hrecs : forall s v, recs b s -> recs b (wr g1 v s) /\ log_view (wr g1 v s) = log_view s).
Context (Hid1 : forall T s s', idle T s s' -> rd g1 s' = rd g1 s).
Context (Hid2 : forall T r r', idle T r r' -> rd g2 r' = rd g2 r).

Lemma mirror_grow n :
  (forall s r c, twin b s r ->
     twin b (wr g1 (Vec (v_items (rd g1 s)) c) s) (wr g2 (Vec (v_items (rd g2 r)) c) r)) ->
  mirror b eq (grow_if_full g1 n) (grow_if_full g2 n).
Proof.
  intros Hput. unfold grow_if_full. apply mirror_plain.
  - intros s Hs. apply wp_bind, wp_get. destruct (_ =? _); [|apply wp_ret; by eauto].
    cbv zeta. apply wp_bind. eapply wp_mono; [apply (idles_os_rc (sink fd0) (rk_silent fd0) _ (fun _ => True)); [done|done|apply Hs]| |done].
    intros p s1 [_ H1]. destruct (recs_idle fd0 _ _ _ Hs H1) as [Hs1 Hv1].
    destruct (p =? NULL); [apply wp_ret; by eauto|]. apply wp_bind, wp_put, wp_ret. split; [eauto|].
    destruct (Hrecs s1 (Vec (v_items (rd g1 s)) (if v_cap (rd g1 s) =? 0 then 16
      else u64 (v_cap (rd g1 s) * 2))) Hs1) as [? ->]. done.
  - intros s r Ht. destruct (Hshape s r Ht) as [Hl Hc]. apply wp_bind, wp_get.
    rewrite (bind_ok (get g2) _ r _ _ eq_refl). unfold v_len. rewrite Hl, Hc.
    destruct (_ =? _); [|apply wp_ret; by exists true, r].
    cbv zeta. set (c := if _ =? 0 then _ else _). set (k := u64 (c * n)).
    apply wp_bind. eapply wp_mono; [apply (idles_os_rc (sink fd0) (rk_silent fd0) _
      (fun x => x <> 0 <-> k < 2 ^ 63)); [done| |apply Ht]| |done].
    { intros ???? Hs Hcall. exact (steady_realloc _ _ _ _ _ Hs Hcall). }
    intros p s1 [Hp H1].
    destruct (wp_returns (os_rc (Rcall "realloc" [k])) (fun x r' => (x <> 0 <-> k < 2 ^ 63) /\
      idle (source (rd g_replay_fd r)) r r') r) as (p' & r1 & Hm & Hp' & H1').
    { apply (idles_os_rc (source (rd g_replay_fd r)) (pk_source _)); [done| |apply Ht].
      intros ???? Hs Hcall. exact (steady_realloc _ _ _ _ _ Hs Hcall). }
    assert (twin b s1 r1) as Ht1.
    { apply (twin_idle_r _ _ _ _ _ r); [|done]. by eapply twin_idle_l. }
    assert ((p =? NULL) = (p' =? NULL)) as E.
    { destruct (p =? NULL) eqn:E1, (p' =? NULL) eqn:E2; bool_prop; try done; exfalso; lia. }
    rewrite (bind_ok (call "realloc" [k]) _ r _ _ Hm), <-E. destruct (p =? NULL).
    + apply wp_ret. by exists false, r1.
    + apply wp_bind, wp_put, wp_ret. exists true. eexists. split; [done|]. split; [done|].
      rewrite <-(Hid1 _ _ _ H1), <-(Hid2 _ _ _ H1'). by apply Hput.
Qed.
Lemma mirror_vec_store x y :
  (forall s r, twin b s r ->
     twin b (wr g1 (Vec (v_items (rd g1 s) ++ [x]) (v_cap (rd g1 s))) s)
       (wr g2 (Vec (v_items (rd g2 r) ++ [y]) (v_cap (rd g2 r))) r)) ->
  mirror b eq (vec_store g1 x) (vec_store g2 y).
Proof.
  intros Hput. apply mirror_plain.
  - intros s Hs. unfold wp, vec_store, v_store_next. destruct (_ <? _); [|done].
    split; [eauto|]. by apply Hrecs.
  - intros s r Ht. destruct (Hshape s r Ht) as [Hl Hc].
    unfold wp, vec_store, v_store_next, v_len. rewrite Hl, Hc. destruct (_ <? _); [|done].
    exists tt. eexists. split; [done|]. split; [done|].
    specialize (Hput s r Ht). by rewrite Hc in Hput.
Qed.
End Table.

Lemma same_shape_refl {A} (v : vec A) : same_shape v v.
Proof. done. Qed.

#[local] Ltac shape_tac :=
  intros s r [? ? ? ? [] ?]; first
    [assumption | match goal with H : rd ?g ?x = _ |- same_shape _ (rd ?g ?x) => rewrite H; apply same_shape_refl end].
#[local] Ltac recs_tac := intros s v []; split; [by constructor|done].
#[local] Ltac idle_tac := intros T s s' []; first [done|unfold rd; simpl; congruence].

Lemma mirror_register_thread b p :
  mirror b eq (rr_scheduler_register_thread p) (rr_scheduler_register_thread p).
Proof.
  unfold rr_scheduler_register_thread. apply mirror_if; intros _; [by apply mirror_ret|].
  apply (mirror_bind _ _ _ b eq).
  { apply mirror_grow; [shape_tac|recs_tac|idle_tac|idle_tac|]. intros s r c [[] [] ? ? [] ?]. rewrite tq_threads. twin_split. }
  intros ok ? <-. apply mirror_if; intros _; [by apply mirror_ret|].
  apply (mirror_bind _ _ _ b eq); [|intros; by apply mirror_ret].
  apply mirror_vec_store; [shape_tac|recs_tac|]. intros s r [[] [] ? ? [] ?]. rewrite tq_threads. twin_split.
Qed.
Lemma mirror_remember b p : mirror b eq (remember_thread p) (remember_thread p).
Proof.
  unfold remember_thread. apply (mirror_bind _ _ _ b eq).
  { apply mirror_grow; [shape_tac|recs_tac|idle_tac|idle_tac|]. intros s r c [[] [] ? ? [] ?]. rewrite tq_allocated. twin_split. }
  intros ok ? <-. apply mirror_if; intros _; [by apply mirror_ret|].
  apply (mirror_bind _ _ _ b eq); [|intros; by apply mirror_ret].
  apply mirror_vec_store; [shape_tac|recs_tac|]. intros s r [[] [] ? ? [] ?]. rewrite tq_allocated. twin_split.
Qed.
Lemma mirror_guard_page b a n i a' n' i' :
  mirror b eq (rr_register_guard_page a n i) (rr_register_guard_page a' n' i').
Proof.
  unfold rr_register_guard_page. apply (mirror_bind _ _ _ b eq).
  { apply mirror_grow; [shape_tac|recs_tac|idle_tac|idle_tac|]. intros s r c [[] [] ? ? [] ?].
    constructor; try done; constructor; try done. by destruct tq_guard. }
  intros ok ? <-. apply mirror_if; intros _; [by apply mirror_ret|].
  apply (mirror_bind _ _ _ b eq); [|intros; by apply mirror_ret].
  apply mirror_vec_store; [shape_tac|recs_tac|]. intros s r [[] [] ? ? [] ?].
  constructor; try done; constructor; try done. destruct tq_guard as [Hl Hc].
  split; [|done]. glob_simpl. simpl. rewrite !length_app, Hl. done.
Qed.

(** ** Automation *)

Lemma mirror_get_head b : mirror b eq (get g_runq_head) (get g_runq_head).
Proof. apply mirror_get; [eauto|]. intros s r Ht. symmetry. apply Ht. Qed.
Lemma mirror_get_tail b : mirror b eq (get g_runq_tail) (get g_runq_tail).
Proof. apply mirror_get; [eauto|]. intros s r Ht. symmetry. apply Ht. Qed.
Lemma mirror_get_current b : mirror b eq (get g_current) (get g_current).
Proof. apply mirror_get; [eauto|]. intros s r Ht. symmetry. apply Ht. Qed.
Lemma mirror_get_running b : mirror b eq (get g_sched_running) (get g_sched_running).
Proof. apply mirror_get; [eauto|]. intros s r Ht. symmetry. apply Ht. Qed.
Lemma mirror_get_threads b : mirror b eq (get g_threads) (get g_threads).
Proof. apply mirror_get; [eauto|]. intros s r Ht. symmetry. apply Ht. Qed.
Lemma mirror_get_allocated b : mirror b eq (get g_allocated) (get g_allocated).
Proof. apply mirror_get; [eauto|]. intros s r Ht. symmetry. apply Ht. Qed.
Lemma mirror_get_next b : mirror b (fun i i' => i = i' /\ in_u64 i) (get g_next_id) (get g_next_id).
Proof.
  apply mirror_get; [intros s []; eauto|]. intros s r Ht. split; [symmetry; apply Ht|]. apply Ht.
Qed.
Lemma mirror_get_ready b :
  mirror b (fun c c' => runtime_ready c = runtime_ready c') (get g_rr_config) (get g_rr_config).
Proof. apply mirror_get; [eauto|]. intros s r [[] [] ? ? ? ?]. unfold rd in *. simpl in *. congruence. Qed.

Lemma mirror_set_next b p q : mirror b eq (update p (set_next q)) (update p (set_next q)).
Proof. apply mirror_update; [|done]. intros u v []. by constructor. Qed.
Lemma mirror_set_state b p x : mirror b eq (update p (set_state x)) (update p (set_state x)).
Proof. apply mirror_update; [|done]. intros u v []. by constructor. Qed.
Lemma mirror_set_joiner b p q :
  mirror b eq (update p (set_join_waiter q)) (update p (set_join_waiter q)).
Proof. apply mirror_update; [|done]. intros u v []. by constructor. Qed.
Lemma mirror_set_retval b p x : mirror b eq (update p (set_retval x)) (update p (set_retval x)).
Proof. apply mirror_update; [|done]. intros u v []. by constructor. Qed.
Lemma mirror_set_tls b p x y : mirror b eq (update p (set_tls_block x)) (update p (set_tls_block y)).
Proof. apply mirror_update; [|done]. intros u v []. by constructor. Qed.
Lemma mirror_set_ctx b p x y : mirror b eq (update p (set_ctx x)) (update p (set_ctx y)).
Proof. apply mirror_update; [|done]. intros u v []. by constructor. Qed.

End TwinOps.

Create HintDb mirror.
#[export] Hint Resolve mirror_get_head mirror_get_tail mirror_get_current mirror_get_running
  mirror_get_threads mirror_get_allocated mirror_put_head mirror_put_tail mirror_put_current
  mirror_put_threads mirror_put_allocated mirror_put_errno mirror_set_next mirror_set_state
  mirror_set_joiner mirror_set_retval mirror_set_tls mirror_set_ctx mirror_free mirror_calloc_ut
  mirror_register_thread mirror_remember mirror_guard_page : mirror.

(** One step through a pair of functions of the same shape. *)
Ltac same_thread_fields H :=
  rewrite ?(te_id _ _ H), ?(te_state _ _ H), ?(te_join _ _ H), ?(te_retval _ _ H), ?(te_next _ _ H),
    ?(te_fn _ _ H), ?(te_arg _ _ H).
Ltac mirror_step :=
  lazymatch goal with
  | |- Twin.mirror _ _ _ _ _ (if _ then _ else _) _ => apply mirror_if; intros _
  | |- Twin.mirror _ _ _ _ _ (when _ _) _ => apply mirror_when; intros _
  | |- Twin.mirror _ _ _ _ _ (mret _) _ => apply mirror_ret; try done
  | |- Twin.mirror _ _ _ _ _ (deref _ ≫= _) _ =>
      apply (mirror_bind _ _ _ _ thread_rel); [apply mirror_deref|];
      let u := fresh "u" in let v := fresh "v" in let H := fresh "Hu" in
      intros u v [H ?]; same_thread_fields H
  | |- Twin.mirror _ _ _ _ _ (_ ≫= _) _ =>
      apply (mirror_bind _ _ _ _ eq); [auto with mirror nocore|intros ? ? <-]
  | |- _ => solve [auto with mirror nocore]
  end.

Section TwinOps2.
Context {W1 W2 : Type} `{!OS W1} `{!LogSink W1} `{!Steady W1} `{!RecordKernel W1}
  `{!OS W2} `{!LogSource W2} `{!Steady W2} `{!ReplayKernel W2}.
Context (fd0 : Z) (full : bytes) (scratch : Z -> Prop).
#[local] Notation mirror := (mirror fd0 full scratch).

(** ** The scheduler's queue and table *)

Lemma mirror_find_loop b items i : mirror b eq (find_loop items i) (find_loop items i).
Proof. induction items as [|p items IH]; simpl; repeat mirror_step; done. Qed.
Lemma mirror_find b i : mirror b eq (rr_scheduler_find i) (rr_scheduler_find i).
Proof. unfold rr_scheduler_find. mirror_step. apply mirror_find_loop. Qed.
Lemma mirror_enqueue b p : mirror b eq (rr_scheduler_enqueue p) (rr_scheduler_enqueue p).
Proof. unfold rr_scheduler_enqueue. repeat mirror_step. Qed.
#[local] Hint Resolve mirror_find mirror_enqueue : mirror.
Lemma mirror_pop b : mirror b eq runq_pop_front runq_pop_front.
Proof. unfold runq_pop_front. repeat mirror_step. Qed.
Lemma mirror_wake_join b p : mirror b eq (wake_join_waiter p) (wake_join_waiter p).
Proof. unfold wake_join_waiter. repeat mirror_step. Qed.
#[local] Hint Resolve mirror_pop mirror_wake_join : mirror.

(** ** Threads of the runtime *)

Lemma mirror_set_fs b x y : mirror b (fun _ _ => True) (rr_set_fs_base x) (rr_set_fs_base y).
Proof. by apply mirror_call_any. Qed.
Lemma mirror_fs_base b :
  mirror b (fun x y => is_Some x <-> is_Some y) rr_get_fs_base rr_get_fs_base.
Proof.
  unfold rr_get_fs_base. apply (mirror_bind _ _ _ b (fun x y => (rp_rc x =? 0) = (rp_rc y =? 0))).
  - apply (mirror_os _ _ _ _ _ _ (fun rp => rp_rc rp = 0) (fun rp => rp_rc rp = 0)); try done;
      [intros m w w' rp Hs Hc..|by eauto|by intros ?? -> ->];
      by apply (steady_zero "arch_prctl" _ _ _ _ _ eq_refl Hs Hc).
  - intros x y E. apply mirror_ret. rewrite E.
    destruct (rp_rc y =? 0); [split; intros _; by eexists|done].
Qed.
Lemma mirror_init_tls b p : mirror b eq (init_tls_copy p) (init_tls_copy p).
Proof.
  unfold init_tls_copy.
  apply (mirror_bind _ _ _ b (fun x y => is_Some x <-> is_Some y)); [apply mirror_fs_base|].
  intros [x|] [y|] E.
  - mirror_step. by mirror_step.
  - by destruct (proj1 E (ex_intro _ x eq_refl)).
  - by destruct (proj2 E (ex_intro _ y eq_refl)).
  - by mirror_step.
Qed.
Lemma mirror_create_undo b a n a' n' p : mirror b eq (create_undo a n p) (create_undo a' n' p).
Proof.
  unfold create_undo. apply (mirror_bind _ _ _ b (fun _ _ => True)); [by apply mirror_call_any|].
  intros _ _ _. repeat mirror_step.
Qed.
#[local] Hint Resolve mirror_init_tls mirror_create_undo : mirror.

(** A call that succeeds on both sides. *)
Lemma mirror_zero_call b f a1 a2 :
  one_of ["mprotect"; "getcontext"; "arch_prctl"; "sigaltstack"; "sigaction"; "sigprocmask"] f = true ->
  one_of silent_calls f = true ->
  mirror b (fun x y => (x =? 0) = (y =? 0)) (call f a1) (call f a2).
Proof.
  intros Hf Hs. apply (mirror_call _ _ _ b f a1 a2 (fun x => x =? 0) true); [done|..];
    intros ???? Hw Hc; apply Z.eqb_eq; exact (steady_zero f _ _ _ _ _ Hf Hw Hc).
Qed.

Lemma mirror_create b fn arg : mirror b eq (rr_uthread_create fn arg true) (rr_uthread_create fn arg true).
Proof.
  unfold rr_uthread_create. mirror_step; [mirror_step; by mirror_step|].
  mirror_step. mirror_step; [by mirror_step|].
  apply (mirror_bind _ _ _ b (fun _ _ => True)); [by apply mirror_call_any|]. intros pg pg' _.
  apply (mirror_bind _ _ _ b (fun _ _ => True)); [apply mirror_get; [by exists g_rr_config_init|done]|]. intros c c' _. cbv zeta.
  apply (mirror_bind _ _ _ b (fun x y => (x =? MAP_FAILED) = (y =? MAP_FAILED))).
  { apply (mirror_call _ _ _ b "mmap" _ _ (fun x => x =? MAP_FAILED) false); [done|..];
      intros ???? Hs Hc; apply Z.eqb_neq; exact (steady_mmap _ _ _ _ _ Hs Hc). }
  intros x x' E. rewrite <-E. clear E. mirror_step; [mirror_step; by mirror_step|].
  apply (mirror_bind _ _ _ b (fun x y => (x =? 0) = (y =? 0))); [by apply mirror_zero_call|].
  intros rc rc' E. rewrite <-E. clear E rc'. mirror_step; [mirror_step|].
  apply (mirror_bind _ _ _ b (fun i i' => i = i' /\ in_u64 i)); [apply mirror_get_next|].
  intros i ? [<- Hi].
  apply (mirror_bind _ _ _ b eq); [apply mirror_put_next, u64_range|]. intros _ _ _.
  apply (mirror_bind _ _ _ b eq); [by apply mirror_update|]. intros _ _ _.
  mirror_step. mirror_step; [mirror_step|].
  apply (mirror_bind _ _ _ b (fun x y => (x =? 0) = (y =? 0))); [by apply mirror_zero_call|].
  intros rc' rc'' E. rewrite <-E. clear E rc''. mirror_step; [mirror_step|].
  mirror_step. mirror_step. mirror_step; [mirror_step; [by mirror_step|mirror_step]|].
  mirror_step; [mirror_step; [by mirror_step|mirror_step]|].
  repeat mirror_step.
Qed.
End TwinOps2.
#[export] Hint Resolve mirror_find mirror_enqueue mirror_pop mirror_wake_join mirror_create : mirror.
