(* ===== verification/TwinCalls.v ===== *)
(** The logged calls and the scheduler's decisions keep a recording and a replaying
    process twins: the event the one writes is the event the other reads next. *)
From stdpp Require Import gmap strings list.
From coqutil Require Import Byte.
From S2P Require Import Prelude Types State Events Logic Log Scheduler Record Replay Signal IoUring Uthread Wrappers Lifecycle Machine Twin TwinOps.

Section TwinCalls.
Context {W1 W2 : Type} `{!OS W1} `{!LogSink W1} `{!Steady W1} `{!RecordKernel W1}
  `{!OS W2} `{!LogSource W2} `{!Steady W2} `{!ReplayKernel W2}.
Context (fd0 : Z) (full : bytes) (scratch : Z -> Prop).
Implicit Types (s : rr_state W1) (r : rr_state W2).
#[local] Notation recs := (recs fd0).
#[local] Notation twin := (twin fd0 full scratch).
#[local] Notation mirror := (mirror fd0 full scratch).

(** ** After an event *)

Lemma recs_logged b s e s' : recs b s -> logged s e s' -> steady (rd world s') -> recs b s'.
Proof.
  intros [] ((x & y & Hm & He) & Hok & _) Hs. destruct He as (? & ? & ? & ? & ->).
  by constructor.
Qed.
Lemma recs_env b s s' :
  recs b s -> env_only s s' -> steady (rd world s') -> sink fd0 (rd world s') = sink fd0 (rd world s) ->
  recs b s' /\ log_view s' = log_view s.
Proof.
  intros [Hok Hfd] He Hs Hk. destruct He as (? & ? & ? & ? & ->). split; [by constructor|].
  unfold log_view. glob_simpl. rewrite Hfd. glob_simpl_in Hk. by rewrite Hk.
Qed.

(** What the two processes have in common besides the log and memory. *)
Lemma twin_logged s s1 s2 e r r1 m1 tl :
  twin true s r -> env_only s s1 -> logged s1 e s2 -> recs true s2 ->
  consumed r (u64 (rd g_expected_seq r + 1)) tl r1 -> steady (rd world r1) ->
  log_view s2 ++ tl = full -> mem_eq scratch (rd mem s2) m1 -> twin true s2 (wr mem m1 r1).
Proof.
  intros [? [] ? ? [] ?] (?&?&?&?&->) ((ring & used & _ & (?&?&?&?&->)) & _) Hr2 (He & _ & Ht) Hs Hl Hm.
  rewrite <-Ht in Hl. destruct He as (?&?&?&?&->). constructor; try done.
  glob_simpl. by rewrite tw_seq.
Qed.

Lemma twin_cur_id s r : twin true s r -> cur_id r = cur_id s /\ in_u64 (cur_id s).
Proof.
  intros [[] _ _ _ [] _]. unfold cur_id. rewrite tq_current.
  destruct (rd g_current s =? NULL); [by vm_compute|]. specialize (tq_heap (rd g_current s)).
  destruct (rd heap s !! rd g_current s) as [u|] eqn:Hu; inversion tq_heap as [? v Hv|]; subst; simpl.
  - split; [apply Hv|by eapply rc_ids].
  - by vm_compute.
Qed.
Lemma twin_cur_valid s r : twin true s r -> cur_valid s -> cur_valid r.
Proof.
  intros [_ _ _ _ [] _] [H|[u Hu]]; [left; congruence|right]. rewrite tq_current.
  destruct (heap_eq_lookup _ _ _ _ tq_heap Hu) as (v & Hv & _). eauto.
Qed.

(** The call is answered with what was recorded. *)
Lemma replay_answer s r nr rv arg0 d v' :
  twin true s r -> cur_valid s -> in_s32 nr -> in_s32 rv -> in_u64 arg0 -> data_ok d ->
  v' = log_view s ++ encode_event (syscall_event (u64 (rd g_rr_seq s + 1)) (cur_id s) nr rv arg0 d) ->
  v' `prefix_of` full ->
  exists ev r1 tl, replay_get_event nr r = Ok (Some ev) r1 /\
    consumed r (u64 (rd g_expected_seq r + 1)) tl r1 /\ steady (rd world r1) /\ v' ++ tl = full /\
    rs_retval ev = rv /\ rs_data_len ev = Z.of_nat (length (default [] d)) /\
    take (length (default [] d)) (rs_data ev) = default [] d.
Proof.
  intros Ht Hc Hn Hrv Ha Hd Hv [tl Htl]. destruct (twin_cur_id s r Ht) as [Hi Hu].
  assert (rest r = encode_event (syscall_event (rd g_expected_seq r) (cur_id r) nr rv arg0 d) ++ tl) as Hr.
  { pose proof (tw_log _ _ _ _ _ _ Ht) as Hl. rewrite Htl, Hv, <-app_assoc in Hl.
    apply app_inv_head in Hl. by rewrite Hi, (tw_seq _ _ _ _ _ _ Ht). }
  destruct (wp_returns (replay_get_event nr) (fun x r1 => (exists ev, x = Some ev /\
      consumed r (u64 (rd g_expected_seq r + 1)) tl r1 /\ rs_retval ev = rv /\
      rs_data_len ev = Z.of_nat (length (default [] d)) /\
      take (length (default [] d)) (rs_data ev) = default [] d) /\ steady (rd world r1)) r)
    as (x & r1 & Hrun & (ev & -> & Hcs & H1 & H2 & H3) & Hs).
  - unfold replay_get_event. apply wp_bind, wp_current_id; [by apply (twin_cur_valid s)|].
    eapply wp_mono; [eapply wp_and; [|apply calmly_next_syscall, Ht]| |done].
    + apply (wp_call_delivered r (cur_id r) nr rv arg0 d tl (fun x r1 => exists ev, x = Some ev /\
        consumed r (u64 (rd g_expected_seq r + 1)) tl r1 /\ rs_retval ev = rv /\
        rs_data_len ev = Z.of_nat (length (default [] d)) /\
        take (length (default [] d)) (rs_data ev) = default [] d)); try done; [apply Ht|congruence| |].
      * rewrite (tw_seq _ _ _ _ _ _ Ht). apply u64_range.
      * intros ev r1 H1 H2 _ H3 H4. by exists ev.
    + intros x r1 [(ev & ?) [? _]]. split; [by exists ev|done].
  - exists ev, r1, tl. split; [done|]. split; [done|]. split; [done|]. by rewrite <-Htl.
Qed.

(** ** Recording an event *)

(** The event [rr_log_syscall] writes, if it returns. *)
Lemma wp_record_call nr rv a d n s :
  recs true s ->
  wp (rr_log_syscall nr rv a d n) (fun _ s' => cur_valid s /\
    logged s (syscall_event (u64 (rd g_rr_seq s + 1)) (cur_id s) nr rv a (logged_data s d n)) s' /\
    recs true s' /\ rd mem s' = rd mem s) (fun h _ => h <> HExit 0) s.
Proof.
  intros Hs. set (e := syscall_event _ _ _ _ _ _).
  assert (Hlog : cur_valid s -> wp (rr_log_syscall nr rv a d n) (fun _ s' => cur_valid s /\
    logged s e s' /\ recs true s' /\ rd mem s' = rd mem s) (fun h _ => h <> HExit 0) s).
  { intros Hv. apply (wp_mono _ (fun _ s' => logged s e s' /\ steady (rd world s') /\
      rd mem s' = rd mem s) _ no_halt); [|intros [] s' (Hl & Hst & Hm)|done].
    - eapply wp_and; [|apply calmly_log_syscall, Hs]. apply wp_log_syscall; first [apply Hs|done].
    - split; [done|]. split; [done|]. split; [by eapply recs_logged|done]. }
  destruct (decide (rd g_current s = NULL)) as [Hc|Hc]; [apply Hlog; by left|].
  destruct (rd heap s !! rd g_current s) eqn:Hh; [apply Hlog; right; by eexists|].
  unfold rr_log_syscall, rr_active. apply wp_bind, wp_bind, wp_get, wp_ret.
  assert (runtime_ready (rd g_rr_config s) = true) as -> by apply Hs.
  rewrite (rc_record _ _ _ Hs). simpl. unfold rr_next_seq. wp_steps.
  unfold current_id, rr_scheduler_current. wp_steps; [by bool_prop|].
  unfold wp, deref. glob_simpl. by rewrite Hh.
Qed.
Lemma logged_prefix s e s' : logged s e s' -> log_view s `prefix_of` log_view s'.
Proof. intros (_ & _ & _ & ->). by eexists. Qed.

(** A logged call of the real function [f] that stores to memory only what its event
    carries, and the way its result is read back. *)
Lemma mirror_modes :
  mirror true (fun a a' => a = false /\ a' = true) rr_replay_active rr_replay_active.
Proof.
  unfold rr_replay_active.
  apply (mirror_bind _ _ _ true (fun c c' => mode_replay c && runtime_ready c = false /\
    mode_replay c' && runtime_ready c' = true)).
  - apply mirror_get.
    + intros s []. exists (Config false true true true false 0 ""). by rewrite rc_replay.
    + intros s r [[] [] _ _ _ _]. rewrite rc_replay, rp_replay. split; [done|]. exact rp_ready.
  - intros c c' H. by apply mirror_ret.
Qed.
Lemma mirror_resolve b slot name : mirror b (fun _ _ => True) (resolve slot name) (resolve slot name).
Proof.
  apply (mirror_idles _ _ _ b (fun _ => True) (fun _ => True)); [|intros fd|by exists 0|done].
  - apply idles_resolve, rk_silent.
  - apply idles_resolve, pk_source.
Qed.

(** Calling the real function while recording. *)
Lemma wp_real_recs b f args s :
  recs b s -> silent (Rcall f args) || time_call (Rcall f args) = true ->
  wp (real f args) (fun rc s1 => exists w rp, os_call (Rcall f args) (rd mem s) (rd world s) = (w, rp) /\
    rc = rp_rc rp /\ env_only s s1 /\ rd mem s1 = apply_writes (rp_writes rp) (rd mem s) /\
    rd errno s1 = default (rd errno s) (rp_errno rp) /\ recs b s1 /\ log_view s1 = log_view s)
    (fun h _ => h <> HExit 0) s.
Proof.
  intros Hs Hf. unfold real, call_real. apply wp_bind, wp_bind, wp_get. destruct (_ =? _); [done|].
  apply wp_os. intros w rp s1 Hc He Hw Hm Herr _. apply wp_ret. exists w, rp.
  do 5 (split; [done|]). apply (recs_env b s s1); [done|done| |]; rewrite Hw.
  - eapply steady_keep; [apply Hs| |done]. by rewrite Hf.
  - eapply rk_sink; [apply Hs|done|done].
Qed.
Lemma recs_active s : recs true s -> rr_active s = Ok true s.
Proof.
  intros []. unfold rr_active, mbind, M_bind, get. rewrite rc_record.
  change (Ok (rd g_runtime_ready s) s = Ok true s). by rewrite rc_ready.
Qed.
Lemma wp_rr_active s (Q : bool -> rr_state W1 -> Prop) E : recs true s -> Q true s -> wp rr_active Q E s.
Proof. intros Hs HQ. unfold wp. by rewrite recs_active. Qed.

(** ** The clock *)

(** The kernel's answer to a clock call. *)
Definition time_answer (tp : ptr) (rp : os_resp) : Prop :=
  (rp_rc rp = 0 /\ exists d, rp_writes rp = [(tp, d)] /\ length d = 16%nat) \/
  (rp_rc rp = -1 /\ rp_writes rp = [] /\ exists e, rp_errno rp = Some e /\ 0 < e < 2 ^ 31).

(** The replay of a clock call with virtual time. *)
Definition replay_time (nr : Z) (f : string) (args : list Z) (tp : ptr) : M W2 Z :=
  x ← replay_get_event nr;
  match x with
  | None => mret (-1)
  | Some ev =>
      c ← get g_rr_config;
      if negb (replay_time_virtual c) then real f args
      else
        when (0 <=? rs_retval ev) (copy_data tp ev (clamp (rs_data_len ev) 16));;
        raw_to_int (rs_retval ev)
  end.

(** What a clock call records: result and data. *)
Lemma wp_record_time nr f args arg0 tp s :
  recs true s -> time_call (Rcall f args) = true ->
  (forall m (w w' : W1) rp, steady w -> os_call (Rcall f args) m w = (w', rp) -> time_answer tp rp) ->
  tp <> NULL ->
  wp (record_struct nr f args arg0 tp 16) (fun rc s2 => recs true s2 /\
    exists s1 rv d, env_only s s1 /\ log_view s1 = log_view s /\ cur_valid s1 /\
      logged s1 (syscall_event (u64 (rd g_rr_seq s + 1)) (cur_id s) nr rv arg0 d) s2 /\
      (rc = 0 /\ rv = 0 /\ (exists dd, d = Some dd /\ length dd = 16%nat /\
         rd mem s2 = store (rd mem s) tp dd) \/
       rc = -1 /\ - 2 ^ 31 <= rv < 0 /\ d = None /\ rd mem s2 = rd mem s))
    (fun h _ => h <> HExit 0) s.
Proof.
  intros Hs Hf Hlaw Htp. unfold record_struct. apply wp_bind.
  eapply wp_post; [apply (wp_real_recs true); [done|by rewrite Hf, orb_true_r]|].
  intros rc s1 (w & rp & Hc & -> & He & Hm & Herr & Hs1 & Hv1).
  apply wp_bind, wp_rr_active; [done|]. apply wp_bind. simpl. apply wp_bind.
  assert (rd g_rr_seq s1 = rd g_rr_seq s /\ cur_id s1 = cur_id s) as [E1 E2].
  { unfold cur_id. by env_simpl. }
  destruct (Hlaw _ _ _ _ (rc_steady _ _ _ Hs) Hc) as [(Hrc & d & Hw & Hd)|(Hrc & Hw & e & Hee & He')];
    rewrite Hrc, Hw in *; simpl in Hm; unfold to_log_int; simpl.
  - apply wp_ret. eapply wp_post; [by apply wp_record_call|]. intros [] s2 (Hcv & Hl & Hs2 & Hm2).
    apply wp_ret. split; [done|]. exists s1, 0, (Some d). do 3 (split; [done|]).
    rewrite E1, E2 in Hl. replace (logged_data s1 tp 16) with (Some d) in Hl.
    2:{ unfold logged_data. rewrite (proj2 (Z.eqb_neq _ _) Htp). cbn [negb andb Z.ltb Z.compare].
        rewrite Hm. f_equal. change (Z.to_nat (Z.min 64 16)) with 16%nat.
        by rewrite <-Hd, load_store_same. }
    split; [done|]. left. do 2 (split; [done|]). exists d. rewrite Hm2. done.
  - apply wp_bind, wp_get, wp_ret. eapply wp_post; [by apply wp_record_call|].
    intros [] s2 (Hcv & Hl & Hs2 & Hm2). apply wp_ret. split; [done|].
    rewrite E1, E2, Herr, Hee in Hl. simpl in Hl.
    exists s1, (- e), None. do 3 (split; [done|]).
    replace (logged_data s1 tp 0) with (@None bytes) in Hl by (unfold logged_data; by rewrite andb_false_r).
    split; [done|]. right. split; [done|]. split; [lia|]. split; [done|]. congruence.
Qed.

Lemma mem_eq_store m m' a d : mem_eq scratch m m' -> mem_eq scratch (store m a d) (store m' a d).
Proof.
  revert m m' a. induction d as [|x d IH]; intros m m' a H; [done|]. simpl. apply IH.
  intros y Hy. destruct (decide (a = y)) as [->|Hne]; [by rewrite !lookup_insert_eq|].
  rewrite !lookup_insert_ne by done. by apply H.
Qed.
Lemma twin_errno b s r e : twin b s r -> twin b s (wr errno e r).
Proof. intros [? [] ? ? [] ?]. by constructor. Qed.
Lemma wr_mem_same {W} (r : rr_state W) : wr mem (rd mem r) r = r.
Proof. by destruct r as [???????? [] ?]. Qed.
Lemma consumed_config r n tl r1 : consumed r n tl r1 -> rd g_rr_config r1 = rd g_rr_config r.
Proof. intros (He & _). by env_simpl. Qed.

Lemma mirror_time nr f args arg0 tp :
  in_s32 nr -> in_u64 arg0 -> time_call (Rcall f args) = true -> tp <> NULL ->
  (forall m (w w' : W1) rp, steady w -> os_call (Rcall f args) m w = (w', rp) -> time_answer tp rp) ->
  mirror true eq (record_struct nr f args arg0 tp 16) (replay_time nr f args tp).
Proof.
  intros Hn Ha Hf Htp Hlaw. split.
  { intros s Hs. eapply wp_post; [by apply wp_record_time|].
    intros rc s2 (Hs2 & s1 & rv & d & _ & Hv1 & _ & Hl & _). split; [eauto|]. split; [done|].
    rewrite <-Hv1. by eapply logged_prefix. }
  intros s r Ht. eapply wp_mono; [apply wp_record_time; [apply Ht|done..]| |done].
  intros rc s2 (Hs2 & s1 & rv & d & He & Hv1 & Hcv & Hl & Hd) Hpre.
  assert (cur_valid s) as Hcv' by (unfold cur_valid in *; by env_simpl).
  assert (Hans : exists ev r1 tl, replay_get_event nr r = Ok (Some ev) r1 /\
    consumed r (u64 (rd g_expected_seq r + 1)) tl r1 /\ steady (rd world r1) /\
    log_view s2 ++ tl = full /\ rs_retval ev = rv /\
    rs_data_len ev = Z.of_nat (length (default [] d)) /\
    take (length (default [] d)) (rs_data ev) = default [] d).
  { apply (replay_answer s r nr rv arg0 d); try done.
    - destruct Hd as [(_ & -> & _)|(_ & ? & _)]; [by vm_compute|unfold in_s32; lia].
    - destruct Hd as [(_ & _ & dd & -> & Hdd & _)|(_ & _ & -> & _)]; [simpl; lia|done].
    - destruct Hl as (_ & _ & _ & ->). by rewrite Hv1. }
  destruct Hans as (ev & r1 & tl & Hev & Hcs & Hst & Hfull & Hrv & Hdl & Hdt).
  unfold replay_time. rewrite (bind_ok _ _ _ _ _ Hev). rewrite (bind_ok (get _) _ _ _ _ eq_refl).
  rewrite (consumed_config _ _ _ _ Hcs), (rp_virtual _ _ (tw_reps _ _ _ _ _ _ Ht)), Hrv. cbn [negb].
  pose proof (proj1 (proj2 Hcs)) as Hmr. rewrite Hdl.
  destruct Hd as [(-> & -> & dd & -> & Hdd & Hm2)|(-> & Hneg & -> & Hm2)].
  - exists 0. eexists. split; [reflexivity|]. split; [done|]. simpl in Hdl, Hdt. simpl default.
    rewrite Hdd in *. change (Z.to_nat (clamp (Z.of_nat 16) 16)) with 16%nat. rewrite Hdt.
    eapply twin_logged; try done. rewrite Hm2, Hmr. by apply mem_eq_store, Ht.
  - rewrite (proj2 (Z.leb_gt _ _)) by lia. unfold raw_to_int. rewrite (proj2 (Z.ltb_lt _ _)) by lia.
    exists (-1). eexists. split; [reflexivity|]. split; [done|]. apply twin_errno.
    rewrite <-(wr_mem_same r1). eapply twin_logged; try done. rewrite Hm2, Hmr. apply Ht.
Qed.

Lemma mirror_clock clk tp :
  tp <> NULL -> mirror true eq (clock_gettime clk tp) (clock_gettime clk tp).
Proof.
  intros Htp. unfold clock_gettime.
  apply (mirror_bind _ _ _ true (fun _ _ => True)); [apply mirror_resolve|]. intros _ _ _.
  apply (mirror_bind _ _ _ true (fun a a' => a = false /\ a' = true)); [apply mirror_modes|].
  intros ? ? [-> ->]. apply mirror_time; [by vm_compute|apply u64_range|done|done|].
  intros m w w' rp Hs Hc. by apply (rk_clock clk tp _ _ _ _ Hs Htp Hc).
Qed.
Lemma mirror_timeofday tv :
  tv <> NULL -> mirror true eq (gettimeofday tv NULL) (gettimeofday tv NULL).
Proof.
  intros Htv. unfold gettimeofday.
  apply (mirror_bind _ _ _ true (fun _ _ => True)); [apply mirror_resolve|]. intros _ _ _.
  apply (mirror_bind _ _ _ true (fun a a' => a = false /\ a' = true)); [apply mirror_modes|].
  intros ? ? [-> ->]. apply mirror_time; [by vm_compute|by vm_compute|done|done|].
  intros m w w' rp Hs Hc. by apply (rk_timeofday tv _ _ _ _ Hs Htv Hc).
Qed.

(** ** Process and user id *)

Definition small_eq (a a' : Z) : Prop := a = a' /\ 0 <= a < 2 ^ 31.

Definition record_ident (nr : Z) (f : string) : M W1 Z :=
  rc ← real f []; act ← rr_active; when act (rr_log_syscall nr (s32 rc) 0 NULL 0);; mret rc.

Lemma wp_record_ident nr f s :
  one_of ["getpid"; "getuid"] f = true -> recs true s ->
  wp (record_ident nr f)
    (fun rc s2 => 0 <= rc < 2 ^ 31 /\ recs true s2 /\ exists s1, env_only s s1 /\
       log_view s1 = log_view s /\ cur_valid s1 /\ rd mem s2 = rd mem s /\
       logged s1 (syscall_event (u64 (rd g_rr_seq s + 1)) (cur_id s) nr rc 0 None) s2)
    (fun h _ => h <> HExit 0) s.
Proof.
  intros Hf Hs.
  assert (Hsil : silent (Rcall f []) = true).
  { unfold one_of in Hf. simpl in Hf. unfold silent, one_of, silent_calls. simpl.
    destruct (String.eqb f "getpid"), (String.eqb f "getuid"); simpl in *; rewrite ?orb_true_r; done. }
  apply wp_bind. eapply wp_post; [apply (wp_real_recs true); [done|by rewrite Hsil]|].
  intros rc s1 (w & rp & Hc & -> & He & Hm & _ & Hs1 & Hv1).
  apply wp_bind, wp_rr_active; [done|]. apply wp_bind.
  pose proof (rk_ids f _ _ _ _ Hf (rc_steady _ _ _ Hs) Hc) as Hrange.
  rewrite (steady_writes _ _ _ _ _ (rc_steady _ _ _ Hs) ltac:(by rewrite Hsil) Hc) in Hm.
  eapply wp_post; [by apply wp_record_call|]. intros [] s2 (Hcv & Hl & Hs2 & Hm2). apply wp_ret.
  split; [done|]. split; [done|]. exists s1. do 3 (split; [done|]). split; [by rewrite Hm2, Hm|].
  assert (rd g_rr_seq s1 = rd g_rr_seq s /\ cur_id s1 = cur_id s) as [E1 E2].
  { unfold cur_id. by env_simpl. }
  rewrite E1, E2, s32_id in Hl by (unfold in_s32; lia). done.
Qed.

Lemma mirror_ident nr f :
  in_s32 nr -> one_of ["getpid"; "getuid"] f = true ->
  mirror true small_eq (record_ident nr f) (replay_result nr).
Proof.
  intros Hn Hf. split.
  { intros s Hs. eapply wp_post; [by apply wp_record_ident|].
    intros rc s2 (Hr & Hs2 & s1 & _ & Hv1 & _ & _ & Hl).
    split; [by exists rc|]. split; [done|]. rewrite <-Hv1. by eapply logged_prefix. }
  intros s r Ht. eapply wp_mono; [by apply wp_record_ident, Ht| |done].
  intros rc s2 (Hr & Hs2 & s1 & He & Hv1 & Hcv & Hm2 & Hl) Hpre.
  assert (cur_valid s) as Hcv' by (unfold cur_valid in *; by env_simpl).
  destruct (replay_answer s r nr rc 0 None (log_view s2)) as
    (ev & r1 & tl & Hev & Hcs & Hst & Hfull & Hrv & _); try done.
  { unfold in_s32. lia. }
  { destruct Hl as (_ & _ & _ & ->). by rewrite Hv1. }
  unfold replay_result. rewrite (bind_ok _ _ _ _ _ Hev), Hrv. unfold raw_to_int.
  rewrite (proj2 (Z.ltb_ge _ _)) by lia. exists rc, r1. split; [done|]. split; [done|].
  rewrite <-(wr_mem_same r1). eapply twin_logged; try done. rewrite Hm2, (proj1 (proj2 Hcs)). apply Ht.
Qed.

Lemma mirror_map_r b {A B B'} (P : A -> B -> Prop) (Q : A -> B' -> Prop) m1 m2 g :
  mirror b P m1 m2 -> (forall a a', P a a' -> Q a (g a')) -> mirror b Q m1 (x ← m2; mret (g x)).
Proof.
  intros [Hg Hr] H. split.
  - intros s Hs. eapply wp_post; [by apply Hg|]. intros a s' ([a' Ha] & ?). split; [eauto|done].
  - intros s r Ht. eapply wp_post; [by apply Hr|]. intros a s' Hp Hpre.
    destruct (Hp Hpre) as (a' & r' & Hm & ? & ?). exists (g a'), r'. rewrite (bind_ok _ _ _ _ _ Hm). auto.
Qed.
Lemma mirror_map b {A B} (P Q : A -> B -> Prop) m1 m2 :
  mirror b P m1 m2 -> (forall a a', P a a' -> Q a a') -> mirror b Q m1 m2.
Proof.
  intros [Hg Hr] H. split.
  - intros s Hs. eapply wp_post; [by apply Hg|]. intros a s' ([a' Ha] & ?). split; [eauto|done].
  - intros s r Ht. eapply wp_post; [by apply Hr|]. intros a s' Hp Hpre.
    destruct (Hp Hpre) as (a' & r' & Hm & ? & ?). exists a', r'. auto.
Qed.

Lemma mirror_getpid : mirror true eq getpid getpid.
Proof.
  unfold getpid. apply (mirror_bind _ _ _ true (fun _ _ => True)); [apply mirror_resolve|]. intros _ _ _.
  apply (mirror_bind _ _ _ true (fun a a' => a = false /\ a' = true)); [apply mirror_modes|].
  intros ? ? [-> ->]. eapply mirror_map; [by apply mirror_ident|]. by intros a a' [-> _].
Qed.
Lemma mirror_getuid : mirror true eq getuid getuid.
Proof.
  unfold getuid. apply (mirror_bind _ _ _ true (fun _ _ => True)); [apply mirror_resolve|]. intros _ _ _.
  apply (mirror_bind _ _ _ true (fun a a' => a = false /\ a' = true)); [apply mirror_modes|].
  intros ? ? [-> ->]. apply (mirror_map_r true small_eq); [by apply mirror_ident|].
  intros a a' [-> Hr]. symmetry. apply u32_id. unfold in_u32. lia.
Qed.

(** ** The scheduler's decisions *)

Lemma mirror_decision from to :
  in_u64 from -> in_u64 to -> mirror true eq (sched_decision from to) (sched_decision from to).
Proof.
  intros Hf Ht. unfold sched_decision. apply mirror_when. intros _.
  apply (mirror_bind _ _ _ true (fun a a' => a = false /\ a' = true)); [apply mirror_modes|].
  intros ? ? [-> ->].
  assert (Hrec : forall s, recs true s -> wp (rr_log_sched from to) (fun _ s' =>
    (logged s (sched_event (u64 (rd g_rr_seq s + 1)) from to) s' /\ recs true s') /\
    rd mem s' = rd mem s) no_halt s).
  { intros s Hs. eapply wp_mono; [eapply wp_and; [|apply calmly_log_sched, Hs]| |done].
    - apply (wp_log_sched from to s (fun _ s' =>
        logged s (sched_event (u64 (rd g_rr_seq s + 1)) from to) s')); [apply Hs|apply Hs|done].
    - intros [] s' (Hl & Hst & Hm). split; [|done]. split; [done|by eapply recs_logged]. }
  split.
  { intros s Hs. eapply wp_mono; [by apply Hrec| |done]. intros [] s' [[Hl Hs'] _].
    split; [eauto|]. split; [done|]. by eapply logged_prefix. }
  intros s r Hw. eapply wp_mono; [apply Hrec, Hw| |done]. intros [] s' [[Hl Hs'] Hm] [tl Htl].
  assert (rest r = encode_event (sched_event (rd g_expected_seq r) from to) ++ tl) as Hr.
  { pose proof (tw_log _ _ _ _ _ _ Hw) as Hlog. destruct Hl as (_ & _ & _ & Hv).
    rewrite Htl, Hv, <-app_assoc in Hlog. apply app_inv_head in Hlog.
    by rewrite (tw_seq _ _ _ _ _ _ Hw). }
  destruct (wp_returns (rr_replay_expect_sched from to) (fun rc r1 => (rc = 0 /\
    consumed r (u64 (rd g_expected_seq r + 1)) tl r1) /\ steady (rd world r1) /\ rd mem r1 = rd mem r) r)
    as (rc & r1 & Hrun & [-> Hcs] & Hst & Hmr).
  { eapply wp_and; [|apply calmly_expect_sched, Hw].
    apply (wp_switch_delivered r from to tl (fun rc r1 => rc = 0 /\
      consumed r (u64 (rd g_expected_seq r + 1)) tl r1)); try done; [apply Hw|].
    rewrite (tw_seq _ _ _ _ _ _ Hw). apply u64_range. }
  rewrite (bind_ok _ _ _ _ _ Hrun). exists tt, r1. split; [done|]. split; [done|].
  rewrite <-(wr_mem_same r1). eapply twin_logged; [done|apply env_only_refl|done..| |].
  - by rewrite Htl.
  - rewrite Hm, Hmr. apply Hw.
Qed.
End TwinCalls.
