(* ===== verification/TwinMachine.v ===== *)
(** Two whole processes side by side: coroutines that stay twins across their
    switches, programs whose calls are replayable, shutdown, and the machines. *)
From stdpp Require Import gmap strings list.
From coqutil Require Import Byte.
From S2P Require Import Prelude Types State Events Logic Log Scheduler Record Replay Signal IoUring Uthread Wrappers Lifecycle Machine Twin TwinOps TwinCalls.

Section TwinMachine.
Context {W1 W2 : Type} `{!OS W1} `{!LogSink W1} `{!Steady W1} `{!RecordKernel W1}
  `{!OS W2} `{!LogSource W2} `{!Steady W2} `{!ReplayKernel W2}.
Context (fd0 : Z) (full : bytes) (scratch : Z -> Prop).
Implicit Types (s : rr_state W1) (r : rr_state W2).
#[local] Notation recs := (recs fd0).
#[local] Notation twin := (twin fd0 full scratch).
#[local] Notation mirror := (mirror fd0 full scratch).
#[local] Notation mem_eq := (mem_eq scratch).

(** ** Coroutines *)

(** Whatever the other threads record in between, this one only adds to the log; a
    process that ends with status 0 has all of it in the file. *)
Fixpoint cgrow {A} (U : A -> Prop) (c : co W1 A) (v0 : bytes) : Prop :=
  match c with
  | CDone a s => U a /\ recs true s /\ v0 `prefix_of` log_view s
  | CHalted h s => h = HExit 0 -> v0 `prefix_of` sink fd0 (rd world s)
  | CSwap _ s k => recs true s /\ v0 `prefix_of` log_view s /\
      forall s', recs true s' -> cgrow U (k s') (log_view s')
  end.

(** [d] does in replay what [c] did in recording, as long as the log agrees. *)
Fixpoint csim {A B} (P : A -> B -> Prop) (c : co W1 A) (d : co W2 B) : Prop :=
  match c with
  | CDone a s => log_view s `prefix_of` full ->
      exists b r, d = CDone b r /\ P a b /\ twin true s r
  | CHalted h s => h = HExit 0 -> sink fd0 (rd world s) = full ->
      exists r, d = CHalted (HExit 0) r /\ mem_eq (rd mem s) (rd mem r)
  | CSwap p s k => log_view s `prefix_of` full ->
      exists r k', d = CSwap p r k' /\ twin true s r /\
        forall s' r', twin true s' r' -> csim P (k s') (k' r')
  end.

Definition cmirror {A B} (P : A -> B -> Prop) (m1 : C W1 A) (m2 : C W2 B) : Prop :=
  (forall s, recs true s -> cgrow (fun a => exists b, P a b) (m1 s) (log_view s)) /\
  (forall s r, twin true s r -> csim P (m1 s) (m2 r)).

Lemma cgrow_weaken {A} U (c : co W1 A) v0 v1 : cgrow U c v1 -> v0 `prefix_of` v1 -> cgrow U c v0.
Proof.
  destruct c as [a s|h s|p s k]; simpl.
  - intros (? & ? & ?) ?. do 2 (split; [done|]). by etransitivity.
  - intros H ? Hh. etransitivity; [done|by apply H].
  - intros (? & ? & ?) ?. split; [done|]. split; [by etransitivity|done].
Qed.
Lemma cgrow_bind {A B} U V (c : co W1 A) (f : A -> rr_state W1 -> co W1 B) v0 :
  cgrow U c v0 -> (forall a s, U a -> recs true s -> cgrow V (f a s) (log_view s)) ->
  cgrow V (co_bind f c) v0.
Proof.
  revert v0. induction c as [a s|h s|p s k IH]; simpl; intros v0 Hc Hf.
  - destruct Hc as (Ha & Hs & Hv). eapply cgrow_weaken; [by apply Hf|done].
  - done.
  - destruct Hc as (Hs & Hv & Hk). split; [done|]. split; [done|]. intros s' Hs'. by apply IH; [apply Hk|].
Qed.
(** Beyond the log nothing is claimed. *)
Lemma csim_beyond {A B} U (P : A -> B -> Prop) c d v0 :
  cgrow U c v0 -> ~ v0 `prefix_of` full -> csim P c d.
Proof.
  destruct c as [a s|h s|p s k]; simpl.
  - intros (_ & _ & Hv) Hn Hpre. exfalso. apply Hn. by etransitivity.
  - intros H Hn Hh Hf. exfalso. apply Hn. rewrite <-Hf. by apply H.
  - intros (_ & Hv & _) Hn Hpre. exfalso. apply Hn. by etransitivity.
Qed.
Lemma csim_bind {A A' B B'} U V (P : A -> A' -> Prop) (Q : B -> B' -> Prop) c d f g v0 :
  cgrow U c v0 -> csim P c d ->
  (forall a s, U a -> recs true s -> cgrow V (f a s) (log_view s)) ->
  (forall a a' s r, P a a' -> twin true s r -> csim Q (f a s) (g a' r)) ->
  csim Q (co_bind f c) (co_bind g d).
Proof.
  intros Hc Hd Hf Hfg. revert v0 d Hc Hd. induction c as [a s|h s|p s k IH]; simpl; intros v0 d Hc Hd.
  - destruct Hc as (Ha & Hs & _). destruct (decide (log_view s `prefix_of` full)) as [Hpre|Hpre].
    + destruct (Hd Hpre) as (b & r & -> & Hp & Ht). by apply Hfg.
    + eapply csim_beyond; [by apply Hf|done].
  - intros Hh Hfull. destruct (Hd Hh Hfull) as (r & -> & Hm). by exists r.
  - intros Hpre. destruct (Hd Hpre) as (r & k' & -> & Ht & Hk). destruct Hc as (Hs & _ & Hg).
    exists r. eexists. split; [done|]. split; [done|]. intros s' r' Ht'.
    eapply IH; [apply Hg, Ht'|by apply Hk].
Qed.
Lemma cmirror_bind {A A' B B'} (P : A -> A' -> Prop) (Q : B -> B' -> Prop) m1 m2 f g :
  cmirror P m1 m2 -> (forall a a', P a a' -> cmirror Q (f a) (g a')) ->
  cmirror Q (m1 ≫= f) (m2 ≫= g).
Proof.
  intros [Hg Hr] Hf.
  assert (Hgf : forall a s, (exists a', P a a') -> recs true s ->
    cgrow (fun b => exists b', Q b b') (f a s) (log_view s)).
  { intros a s [a' Ha] Hs. by apply (Hf a a' Ha). }
  split.
  - intros s Hs. eapply cgrow_bind; [by apply Hg|done].
  - intros s r Ht. eapply csim_bind; [apply Hg, Ht|by apply Hr|done|].
    intros a a' s' r' Hp Ht'. by apply (Hf a a' Hp).
Qed.
Lemma cmirror_lift {A B} (P : A -> B -> Prop) m1 m2 : mirror true P m1 m2 -> cmirror P (lift m1) (lift m2).
Proof.
  intros [Hg Hr]. split.
  - intros s Hs. specialize (Hg s Hs). unfold wp, lift in *. destruct (m1 s); [done|by intros ?].
  - intros s r Ht. specialize (Hr s r Ht). specialize (Hg s (tw_recs _ _ _ _ _ _ Ht)).
    unfold wp, lift in *. destruct (m1 s) as [a s'|h s']; simpl; [|done].
    intros Hpre. destruct (Hr Hpre) as (b & r' & -> & ? & ?). by exists b, r'.
Qed.
Lemma cmirror_ret {A B} (P : A -> B -> Prop) a b : P a b -> cmirror P (mret a) (mret b).
Proof. intros Hp. split; [intros s Hs; simpl; by eauto|]. intros s r Ht Hpre. by exists b, r. Qed.
Lemma cmirror_swap p : cmirror eq (swap_to_sched p) (swap_to_sched p).
Proof.
  split.
  - intros s Hs. simpl. split; [done|]. split; [done|]. intros s' Hs'. by eauto.
  - intros s r Ht Hpre. exists r. eexists. split; [done|]. split; [done|]. intros s' r' Ht' _. by exists tt, r'.
Qed.
Lemma cmirror_if {A B} (P : A -> B -> Prop) (c : bool) m1 m1' m2 m2' :
  cmirror P m1 m2 -> cmirror P m1' m2' -> cmirror P (if c then m1 else m1') (if c then m2 else m2').
Proof. by destruct c. Qed.
(** A call that does not return. *)
Lemma cmirror_halt {A B} (P : A -> B -> Prop) h m2 : h <> HExit 0 -> cmirror P (lift (halted h)) m2.
Proof. intros Hh. split; [by intros s Hs ?|by intros s r Ht ?]. Qed.

#[local] Ltac cbind_eq := apply (cmirror_bind eq); [|intros ? ? <-].
#[local] Ltac clift := apply cmirror_lift; repeat mirror_step.

(** ** The thread functions *)

Lemma cmirror_ready {A B} (P : A -> B -> Prop) (m1 m1' : C W1 A) (m2 m2' : C W2 B) :
  cmirror P m1 m2 -> cmirror P m1' m2' ->
  cmirror P (c ← lift (get g_rr_config); if negb (runtime_ready c) then m1 else m1')
    (c ← lift (get g_rr_config); if negb (runtime_ready c) then m2 else m2').
Proof.
  intros H1 H2. apply (cmirror_bind (fun c c' => runtime_ready c = runtime_ready c')).
  - apply cmirror_lift, mirror_get_ready.
  - intros c c' E. rewrite E. by apply cmirror_if.
Qed.
Lemma cmirror_current {A B} (P : A -> B -> Prop) (m1 : C W1 A) (m2 : C W2 B) f g :
  cmirror P m1 m2 -> (forall cur, cmirror P (f cur) (g cur)) ->
  cmirror P (cur ← lift (get g_current); running ← lift (get g_sched_running);
             if (cur =? NULL) || negb running then m1 else f cur)
    (cur ← lift (get g_current); running ← lift (get g_sched_running);
             if (cur =? NULL) || negb running then m2 else g cur).
Proof. intros H1 H2. cbind_eq; [clift|]. cbind_eq; [clift|]. by apply cmirror_if. Qed.

Lemma cmirror_yield : cmirror eq uthread_yield uthread_yield.
Proof.
  apply cmirror_ready; [by apply cmirror_ret|]. apply cmirror_current; [by apply cmirror_ret|].
  intros cur. cbind_eq; [clift|]. apply cmirror_swap.
Qed.
Lemma cmirror_block : cmirror eq rr_scheduler_block_current rr_scheduler_block_current.
Proof.
  apply cmirror_current; [by apply cmirror_ret|]. intros cur. cbind_eq; [clift|]. apply cmirror_swap.
Qed.
(** [uthread_exit] does not return, so it mirrors whatever is expected of it.  While
    the runtime is ready it does not end the process. *)
Lemma cmirror_exit (P : () -> () -> Prop) v : cmirror P (uthread_exit v) (uthread_exit v).
Proof.
  assert (H : cmirror P
    (rr_scheduler_exit_current v;; lift (halted HUndef)) (rr_scheduler_exit_current v;; lift (halted HUndef))).
  { cbind_eq; [|by apply cmirror_halt]. apply cmirror_current; [by apply cmirror_ret|].
    intros cur. cbind_eq; [clift|]. apply cmirror_swap. }
  destruct H as [Hg Hr]. split.
  - intros s Hs. unfold uthread_exit. rewrite (cbind_ok (get g_rr_config) _ s _ _ eq_refl).
    rewrite (rc_ready _ _ _ Hs : runtime_ready (rd g_rr_config s) = true). by apply Hg.
  - intros s r Ht. unfold uthread_exit. rewrite (cbind_ok (get g_rr_config) _ s _ _ eq_refl).
    rewrite (cbind_ok (get g_rr_config) _ r _ _ eq_refl).
    rewrite (rc_ready _ _ _ (tw_recs _ _ _ _ _ _ Ht) : runtime_ready (rd g_rr_config s) = true).
    rewrite (rp_ready _ _ (tw_reps _ _ _ _ _ _ Ht) : runtime_ready (rd g_rr_config r) = true). by apply Hr.
Qed.

(** Storing the same bytes. *)
Lemma mirror_store b a d :
  mirror b eq (m ← get mem; put mem (store m a d)) (m ← get mem; put mem (store m a d)).
Proof.
  apply mirror_plain; [intros s []; wp_steps; split; [by eauto|split; [by constructor|done]]|].
  intros s r [[] [] ? ? [] ?]. wp_steps. exists tt. eexists. split; [done|]. split; [done|].
  constructor; try done. glob_simpl. by apply mem_eq_store.
Qed.

Lemma cmirror_join i out : cmirror eq (uthread_join i out) (uthread_join i out).
Proof.
  apply cmirror_ready; [clift|]. unfold rr_uthread_join. cbind_eq; [clift|]. cbind_eq; [clift|].
  apply cmirror_if; [unfold fail_int; clift|].
  apply (cmirror_bind thread_eq).
  { apply cmirror_lift. eapply mirror_map; [apply mirror_deref|]. by intros u v [? _]. }
  intros u v Hu. cbind_eq.
  { apply cmirror_lift. unfold same_thread. mirror_step; [by mirror_step|]. mirror_step.
    by apply mirror_ret; rewrite (te_id _ _ Hu). }
  apply cmirror_if; [unfold fail_int; clift|].
  rewrite (te_state _ _ Hu), (te_join _ _ Hu). cbv zeta.
  assert (Hfin : forall p, cmirror eq
    (lift (t ← deref p; when (negb (out =? NULL))
       (m ← get mem; put mem (store m out (le 8 (retval t))));; mret 0))
    (lift (t ← deref p; when (negb (out =? NULL))
       (m ← get mem; put mem (store m out (le 8 (retval t))));; mret 0))).
  { intros p. apply cmirror_lift. mirror_step. apply (mirror_bind _ _ _ _ eq); [|by intros; apply mirror_ret].
    apply mirror_when. intros _. apply mirror_store. }
  apply cmirror_if; [done|]. apply cmirror_if; [unfold fail_int; clift|].
  apply cmirror_if; [unfold fail_int; clift|].
  cbind_eq; [clift|]. cbind_eq; [apply cmirror_block|done].
Qed.

Lemma cmirror_create fn arg : cmirror eq (lift (uthread_create fn arg)) (lift (uthread_create fn arg)).
Proof.
  apply cmirror_lift. unfold uthread_create.
  apply (mirror_bind _ _ _ _ (fun c c' => runtime_ready c = runtime_ready c')); [apply mirror_get_ready|].
  intros c c' E. rewrite E. repeat mirror_step.
Qed.

(** ** Replayable programs *)

(** The calls that do not block and whose effects an event can carry. *)
Definition replayable_call (c : api) : Prop :=
  match c with
  | Aclock_gettime _ tp => tp <> NULL
  | Agettimeofday tv tz => tv <> NULL /\ tz = NULL
  | Agetpid | Agetuid | Acreate _ _ | Ayield | Aexit _ | Ajoin _ _ => True
  | _ => False
  end.
(** A program that makes such calls only and does not look at [errno] or at the
    scratch memory of the library. *)
Fixpoint replayable (p : prog) : Prop :=
  match p with
  | PReturn => True
  | PStore _ _ p => replayable p
  | PErrno _ => False
  | PCall c k => replayable_call c /\
      (forall v m m', mem_eq m m' -> k v m = k v m') /\ forall v m, replayable (k v m)
  end.

Lemma cmirror_api c : replayable_call c -> cmirror eq (api_call c) (api_call c).
Proof.
  destruct c; simpl; try done; intros H.
  - by apply cmirror_lift, mirror_clock.
  - destruct H as [? ->]. by apply cmirror_lift, mirror_timeofday.
  - by apply cmirror_lift, mirror_getpid.
  - by apply cmirror_lift, mirror_getuid.
  - apply cmirror_create.
  - cbind_eq; [apply cmirror_yield|by apply cmirror_ret].
  - cbind_eq; [apply cmirror_exit|by apply cmirror_ret].
  - apply cmirror_join.
Qed.
Lemma cmirror_prog p : replayable p -> cmirror eq (run_prog p) (run_prog p).
Proof.
  induction p as [|a bs p IH|k IH|c k IH]; simpl; intros Hp.
  - by apply cmirror_ret.
  - destruct (IH Hp) as [Hg Hr]. split.
    + intros s Hs. apply (Hg (wr mem _ s)). destruct Hs. by constructor.
    + intros s r Ht. apply (Hr (wr mem _ s) (wr mem _ r)). destruct Ht as [[] [] ? ? [] ?].
      constructor; try done. glob_simpl. by apply mem_eq_store.
  - done.
  - destruct Hp as (Hc & Hk & Hp). destruct (cmirror_api c Hc) as [Hg Hr]. split.
    + intros s Hs. eapply cgrow_bind; [by apply Hg|]. intros v s' _ Hs'. by apply (IH v (rd mem s')).
    + intros s r Ht. eapply csim_bind; [apply Hg, Ht|by apply Hr| |].
      * intros v s' _ Hs'. by apply (IH v (rd mem s')).
      * intros v ? s' r' <- Ht'. rewrite <-(Hk v (rd mem s') (rd mem r')) by apply Ht'.
        by apply (IH v (rd mem s')).
Qed.

Context (app : ptr -> Z -> prog) (Happ : forall fn arg, replayable (app fn arg)).

Lemma cmirror_entry p : cmirror (fun _ _ => False) (uthread_entry app p) (uthread_entry app p).
Proof.
  unfold uthread_entry. cbind_eq; [|apply cmirror_exit].
  apply cmirror_if; [by apply cmirror_ret|].
  apply (cmirror_bind thread_eq).
  { apply cmirror_lift. eapply mirror_map; [apply mirror_deref|]. by intros u v [? _]. }
  intros u v Hu. rewrite (te_fn _ _ Hu), (te_arg _ _ Hu).
  apply cmirror_if; [by apply cmirror_ret|]. by apply cmirror_prog.
Qed.

(** ** Shutdown *)

Lemma mirror_shutdown_loop b items : mirror b eq (shutdown_loop items) (shutdown_loop items).
Proof.
  induction items as [|p items IH]; simpl; [by apply mirror_ret|]. mirror_step; [done|].
  apply (mirror_bind _ _ _ _ thread_rel); [apply mirror_deref|]. intros u v _.
  apply (mirror_bind _ _ _ _ (fun _ _ => True)).
  { apply (mirror_idles _ _ _ b (fun _ => True) (fun _ => True)); [|intros fd|by exists tt|done];
      apply idles_when; (eapply idles_bind; [|intros ? _; by apply idles_ret]).
    - by apply idles_call; [apply rk_silent|].
    - by apply idles_call; [apply pk_source|]. }
  intros _ _ _. mirror_step. done.
Qed.
Lemma mirror_uthread_shutdown b : mirror b eq rr_uthread_shutdown rr_uthread_shutdown.
Proof.
  unfold rr_uthread_shutdown. mirror_step. apply (mirror_bind _ _ _ _ eq); [apply mirror_shutdown_loop|].
  intros _ _ _. mirror_step.
Qed.
Lemma mirror_put_running v : mirror false eq (put g_sched_running v) (put g_sched_running v).
Proof.
  apply mirror_put; [intros s []; split; [by constructor|done]|].
  intros s r [[] [] ? ? [] ?]. by constructor.
Qed.
Lemma idles_put_stack {W} `{!OS W} `{!Steady W} T v : idles T (put (W := W) g_sched_stack v) (fun _ => True).
Proof. intros s Hs. apply wp_put. split; [done|]. constructor; try done. by intros k. Qed.
Lemma mirror_sched_shutdown : mirror false eq rr_scheduler_shutdown rr_scheduler_shutdown.
Proof.
  unfold rr_scheduler_shutdown, rr_scheduler_unregister_all.
  apply (mirror_bind _ _ _ _ eq); [apply mirror_put_running|]. intros _ _ _. do 2 mirror_step.
  apply (mirror_bind _ _ _ _ (fun _ _ => True)); [by apply mirror_get; [exists 0|]|]. intros p p' _.
  apply (mirror_bind _ _ _ _ (fun _ _ => True)); [|intros _ _ _; mirror_step].
  apply (mirror_idles _ _ _ false (fun _ => True) (fun _ => True)); [|intros fd|by exists tt|done];
    apply idles_when; (eapply idles_bind; [|intros ? _; apply idles_put_stack]).
  - by apply idles_call; [apply rk_silent|].
  - by apply idles_call; [apply pk_source|].
Qed.

(** The rest of a recording process's shutdown, before the log is closed. *)
Definition hush {A} (m : M W1 A) : Prop := forall s, recs false s ->
  wp m (fun _ s' => recs false s' /\ log_view s' = log_view s /\ rd mem s' = rd mem s)
    (fun h _ => h <> HExit 0) s.
Lemma hush_bind {A B} (m : M W1 A) (f : A -> M W1 B) : hush m -> (forall a, hush (f a)) -> hush (m ≫= f).
Proof.
  intros Hm Hf s Hs. apply wp_bind. eapply wp_post; [by apply Hm|]. intros a s1 (H1 & V1 & M1).
  eapply wp_post; [by apply Hf|]. intros b s2 (H2 & V2 & M2). split; [done|]. split; congruence.
Qed.
Lemma hush_idles {A} (m : M W1 A) Q : idles (sink fd0) m Q -> hush m.
Proof.
  intros Hm s Hs. eapply wp_mono; [apply Hm, Hs| |done]. intros a s' [_ Hi].
  destruct (recs_idle fd0 _ _ _ Hs Hi). split; [done|]. split; [done|]. apply Hi.
Qed.
Lemma hush_put {X} (g : glob W1 X) v :
  (forall s, recs false s -> recs false (wr g v s) /\ log_view (wr g v s) = log_view s /\
     rd mem (wr g v s) = rd mem s) -> hush (put g v).
Proof. intros H s Hs. apply wp_put. by apply H. Qed.
Lemma hush_when b (m : M W1 ()) : hush m -> hush (when b m).
Proof. intros Hm. destruct b; [done|]. by intros s Hs. Qed.
Lemma hush_call f args : one_of silent_calls f = true -> hush (call f args).
Proof. intros Hf. eapply hush_idles. by apply idles_call; [apply rk_silent|]. Qed.
Lemma hush_get {X} (g : glob W1 X) : hush (get g).
Proof. by intros s Hs. Qed.
#[local] Ltac hush_put_tac := apply hush_put; intros s []; split; [by constructor|done].
Lemma hush_io_shutdown : hush rr_io_shutdown.
Proof.
  unfold rr_io_shutdown. apply hush_bind; [apply hush_get|]. intros c. apply hush_when.
  apply hush_bind; [by apply hush_call|]. intros _. hush_put_tac.
Qed.
Lemma hush_real f args : silent (Rcall f args) = true -> hush (real f args).
Proof.
  intros Hf s Hs. eapply wp_post; [apply (wp_real_recs fd0 false); [done|by rewrite Hf]|].
  intros rc s1 (w & rp & Hc & _ & _ & Hm & _ & Hs1 & Hv1). split; [done|]. split; [done|].
  by rewrite (steady_writes _ _ _ _ _ (rc_steady _ _ _ Hs) ltac:(by rewrite Hf) Hc) in Hm.
Qed.

(** Functions in [C] that neither switch nor disturb the log. *)
Definition chush {A} (m : C W1 A) : Prop := forall s, recs false s ->
  match m s with
  | CDone _ s' => recs false s' /\ log_view s' = log_view s /\ rd mem s' = rd mem s
  | CHalted h _ => h <> HExit 0
  | CSwap _ _ _ => False
  end.
Lemma chush_lift {A} (m : M W1 A) : hush m -> chush (lift m).
Proof. intros Hm s Hs. specialize (Hm s Hs). unfold wp, lift in *. by destruct (m s). Qed.
Lemma chush_bind {A B} (m : C W1 A) (f : A -> C W1 B) : chush m -> (forall a, chush (f a)) -> chush (m ≫= f).
Proof.
  intros Hm Hf s Hs. specialize (Hm s Hs). unfold mbind, C_bind. destruct (m s) as [a s1| |]; simpl; [|done..].
  destruct Hm as (H1 & V1 & M1). specialize (Hf a s1 H1).
  destruct (f a s1) as [b s2| |]; [|done..]. destruct Hf as (H2 & V2 & M2).
  split; [done|]. split; congruence.
Qed.
Lemma chush_if {A} (b : bool) (m m' : C W1 A) : chush m -> chush m' -> chush (if b then m else m').
Proof. by destruct b. Qed.
Lemma recs_off s : recs false s -> rr_active s = Ok false s /\ rr_replay_active s = Ok false s.
Proof.
  intros []. unfold rr_active, rr_replay_active, mbind, M_bind, get.
  assert (runtime_ready (rd g_rr_config s) = false) as -> by done. by rewrite !andb_false_r.
Qed.
Lemma chush_close fd : chush (close fd).
Proof.
  apply chush_bind; [eapply chush_lift, hush_idles, idles_resolve, rk_silent|]. intros _ s Hs.
  destruct (recs_off s Hs) as [E1 E2]. rewrite (cbind_ok _ _ _ _ _ E1). simpl.
  rewrite (cbind_ok _ _ _ _ _ E2). by apply chush_lift, Hs; apply hush_real.
Qed.
Lemma chush_signal_shutdown : chush rr_signal_shutdown.
Proof.
  unfold rr_signal_shutdown. apply chush_bind; [apply chush_lift, hush_get|]. intros fd.
  apply chush_bind.
  - apply chush_if; [|by intros s Hs]. apply chush_bind; [apply chush_close|]. intros _.
    apply chush_lift. hush_put_tac.
  - intros _. apply chush_lift. apply hush_bind; [apply hush_get|]. intros sp.
    apply hush_bind; [apply hush_get|]. intros sz. apply hush_bind; [|intros _; hush_put_tac].
    apply hush_when, hush_bind; [by apply hush_call|]. intros _. hush_put_tac.
Qed.

(** In the end the file holds the whole log. *)
Lemma record_side_closes s :
  recs false s ->
  match record_side_shutdown s with
  | CDone _ s' => sink fd0 (rd world s') = log_view s /\ rd mem s' = rd mem s
  | CHalted h _ => h <> HExit 0
  | CSwap _ _ _ => False
  end.
Proof.
  intros Hs. unfold record_side_shutdown.
  assert (Hpre : chush (lift rr_io_shutdown;; rr_signal_shutdown)).
  { apply chush_bind; [apply chush_lift, hush_io_shutdown|]. intros _. apply chush_signal_shutdown. }
  specialize (Hpre s Hs). unfold mbind, C_bind in *. destruct (lift rr_io_shutdown s) as [[] s1| |]; simpl in *; [|done..].
  destruct (rr_signal_shutdown s1) as [[] s2| |]; simpl in *; [|done..].
  destruct Hpre as (H2 & V2 & M2).
  assert (Hend : wp rr_record_shutdown (fun _ s' => sink fd0 (rd world s') = log_view s2 /\
    steady (rd world s') /\ rd mem s' = rd mem s2) no_halt s2).
  { eapply wp_and; [|apply calmly_record_shutdown, H2].
    apply wp_record_shutdown; [apply H2|apply H2|]. intros s' Hk _ _.
    by rewrite (rc_fd _ _ _ H2) in Hk. }
  unfold wp, lift in *. destruct (rr_record_shutdown s2) as [[] s3|]; [|done].
  destruct Hend as (? & _ & ?). split; congruence.
Qed.

(** Closing the replayed log leaves memory alone. *)
Lemma replay_shutdown_ok r :
  steady (rd world r) -> exists r', rr_replay_shutdown r = Ok tt r' /\ rd mem r' = rd mem r.
Proof.
  intros Hs. destruct (wp_returns rr_replay_shutdown (fun _ r' => rd mem r' = rd mem r) r)
    as ([] & r' & ? & ?); [|by exists r'].
  unfold rr_replay_shutdown. apply wp_bind, wp_get. apply wp_bind, wp_get. apply wp_bind.
  apply wp_when.
  - intros Hb. bool_prop. apply wp_bind. unfold call_real. apply wp_bind, wp_get.
    rewrite (proj2 (Z.eqb_neq _ _) H0). apply wp_os. intros w rp r1 Hc _ _ Hm _ _.
    rewrite (steady_writes (Rlog_close _) _ _ _ _ Hs eq_refl Hc) in Hm.
    apply wp_ret. by wp_steps.
  - intros _. by wp_steps.
Qed.

(** What [main] does after it returns: the library's destructor, then exit. *)
Definition finish {W} `{!OS W} : C W () := rr_shutdown;; lift (halted (HExit 0)).

Lemma mirror_tables_down :
  mirror false eq (rr_uthread_shutdown;; rr_scheduler_shutdown) (rr_uthread_shutdown;; rr_scheduler_shutdown).
Proof.
  apply (mirror_bind _ _ _ _ eq); [apply mirror_uthread_shutdown|]. intros _ _ _.
  apply mirror_sched_shutdown.
Qed.
Lemma recs_unready s : recs true s -> recs false (wr g_runtime_ready false s).
Proof. intros []. by constructor. Qed.
Lemma twin_unready s r : twin true s r -> twin false (wr g_runtime_ready false s) (wr g_runtime_ready false r).
Proof. intros [[] [] ? ? [] ?]. constructor; try done; by constructor. Qed.

(** The shape of [finish] on either side. *)
Lemma finish_record s :
  recs true s ->
  match (rr_uthread_shutdown;; rr_scheduler_shutdown) (wr g_runtime_ready false s) with
  | Ok _ s1 => match record_side_shutdown s1 with
               | CDone _ s2 => finish s = CHalted (HExit 0) s2
               | CHalted h s2 => finish s = CHalted h s2
               | CSwap _ _ _ => True
               end
  | Halted h s1 => finish s = CHalted h s1
  end.
Proof.
  intros Hs. unfold finish, rr_shutdown.
  assert (runtime_ready (rd g_rr_config s) = true) as Hr by apply Hs.
  unfold mbind, C_bind, M_bind, lift, get, put, mret, C_ret. cbn [co_bind].
  rewrite Hr, (rc_record _ _ _ Hs), (rc_replay _ _ _ Hs). cbn [negb co_bind].
  destruct (rr_uthread_shutdown _) as [[] s1|h s1]; cbn [co_bind]; [|done].
  destruct (rr_scheduler_shutdown s1) as [[] s2|h s2]; cbn [co_bind]; [|done].
  by destruct (record_side_shutdown s2) as [[] s3|h s3|p s3 k].
Qed.
Lemma finish_replay r r1 :
  reps true r ->
  (rr_uthread_shutdown;; rr_scheduler_shutdown) (wr g_runtime_ready false r) = Ok tt r1 ->
  steady (rd world r1) -> exists r2, finish r = CHalted (HExit 0) r2 /\ rd mem r2 = rd mem r1.
Proof.
  intros Hr. unfold finish, rr_shutdown.
  assert (runtime_ready (rd g_rr_config r) = true) as Hy by apply Hr.
  unfold mbind, C_bind, M_bind, lift, get, put, mret, C_ret. cbn [co_bind].
  rewrite Hy, (rp_record _ _ Hr), (rp_replay _ _ Hr). cbn [negb co_bind].
  destruct (rr_uthread_shutdown _) as [[] r3|]; cbn [co_bind]; [|done]. intros ->. cbn [co_bind].
  intros Hs. destruct (replay_shutdown_ok r1 Hs) as (r2 & -> & Hm). by exists r2.
Qed.

Lemma cmirror_finish : cmirror (fun _ _ => False) finish finish.
Proof.
  split.
  - intros s Hs. pose proof (finish_record s Hs) as Hf.
    pose proof (proj1 mirror_tables_down _ (recs_unready s Hs)) as Hg. unfold wp in Hg.
    destruct ((rr_uthread_shutdown;; rr_scheduler_shutdown) _) as [[] s1|h s1]; [|rewrite Hf; by intros ?].
    destruct Hg as (_ & H1 & Hv). pose proof (record_side_closes s1 H1) as Hc.
    destruct (record_side_shutdown s1) as [[] s2|h s2|]; [|rewrite Hf; by intros ?|done].
    rewrite Hf. simpl. intros _. destruct Hc as [-> _]. exact Hv.
  - intros s r Ht. pose proof (finish_record s (tw_recs _ _ _ _ _ _ Ht)) as Hf.
    pose proof (proj1 mirror_tables_down _ (recs_unready s (tw_recs _ _ _ _ _ _ Ht))) as Hg.
    pose proof (proj2 mirror_tables_down _ _ (twin_unready s r Ht)) as Hr. unfold wp in Hg, Hr.
    destruct ((rr_uthread_shutdown;; rr_scheduler_shutdown) (wr g_runtime_ready false s))
      as [[] s1|h s1]; [|rewrite Hf; by intros ?].
    destruct Hg as (_ & H1 & _). pose proof (record_side_closes s1 H1) as Hc.
    destruct (record_side_shutdown s1) as [[] s2|h s2|]; [|rewrite Hf; by intros ?|done].
    destruct Hc as [Hk Hm]. rewrite Hf. intros _ Hfull. rewrite Hk in Hfull.
    destruct Hr as ([] & r1 & Hrun & _ & Ht1); [by rewrite Hfull|].
    destruct (finish_replay r r1 (tw_reps _ _ _ _ _ _ Ht) Hrun) as (r2 & Hr2 & Hm2); [apply Ht1|].
    exists r2. split; [done|]. rewrite Hm, Hm2. apply Ht1.
Qed.

(** The main thread's program up to the end of the process. *)
Lemma cmirror_main p :
  replayable p -> cmirror (fun _ _ => False) (run_prog p;; finish) (run_prog p;; finish).
Proof.
  intros Hp. cbind_eq; [by apply cmirror_prog|]. apply cmirror_finish.
Qed.

(** ** The scheduler's loop *)

(** [scheduler_loop] with a thread at hand. *)
Definition dispatch {W} `{!OS W} (nxt : ptr) : M W (option ptr) :=
  u ← deref nxt;
  if negb (bool_decide (state u = UT_RUNNABLE)) then mret None
  else
    from_id ← current_id;
    sched_decision from_id (id u);;
    put g_current nxt;;
    update nxt (set_state UT_RUNNING);;
    u ← deref nxt;
    rr_set_fs_base (tls_block u);;
    mret (Some nxt).

Lemma sched_iter_idle {W} `{!OS W} (s : rr_state W) :
  rd g_runq_head s = NULL -> sched_iter s = (rr_io_wait;; mret None) s.
Proof.
  intros H. unfold sched_iter, runq_pop_front. unfold mbind, M_bind, get. by rewrite H.
Qed.
Lemma sched_iter_busy {W} `{!OS W} (s : rr_state W) :
  rd g_runq_head s <> NULL -> sched_iter s = (nxt ← runq_pop_front; dispatch nxt) s.
Proof.
  intros H%Z.eqb_neq. unfold sched_iter, runq_pop_front. unfold mbind, M_bind, get, deref, put, update, when, mret, M_ret.
  rewrite H. destruct (rd heap s !! _) as [u|]; [|done].
  destruct (rd g_runq_head (wr g_runq_head (next u) s) =? NULL); glob_simpl;
    (destruct (rd heap s !! rd g_runq_head s); [|done]); by rewrite H.
Qed.
Lemma mirror_current_id b :
  mirror b (fun a a' => a = a' /\ in_u64 a) current_id current_id.
Proof.
  unfold current_id, rr_scheduler_current. mirror_step. mirror_step; [by apply mirror_ret; vm_compute|].
  mirror_step. by apply mirror_ret.
Qed.
Lemma mirror_dispatch p : mirror true eq (dispatch p) (dispatch p).
Proof.
  unfold dispatch. apply (mirror_bind _ _ _ _ thread_rel); [apply mirror_deref|]. intros u v [Hu Hi].
  rewrite (te_state _ _ Hu), (te_id _ _ Hu). mirror_step; [by mirror_step|].
  apply (mirror_bind _ _ _ _ (fun a a' => a = a' /\ in_u64 a)); [apply mirror_current_id|].
  intros from ? [<- Hf]. apply (mirror_bind _ _ _ _ eq); [by apply mirror_decision|]. intros _ _ _.
  do 2 mirror_step. apply (mirror_bind _ _ _ _ thread_rel); [apply mirror_deref|]. intros u2 v2 _.
  apply (mirror_bind _ _ _ _ (fun _ _ => True)); [apply mirror_set_fs|]. intros _ _ _. by mirror_step.
Qed.
Lemma mirror_busy : mirror true eq (nxt ← runq_pop_front; dispatch nxt) (nxt ← runq_pop_front; dispatch nxt).
Proof. mirror_step. apply mirror_dispatch. Qed.
Lemma idles_io_wait : idles (sink fd0) rr_io_wait (fun _ => True).
Proof.
  unfold rr_io_wait. eapply idles_bind; [apply idles_get|]. intros c _.
  apply idles_if; [eapply idles_bind; [apply idles_errno|]; intros _ _; by apply idles_ret|].
  eapply idles_bind; [apply (idles_os (sink fd0) (rk_silent fd0) Rwait_cqe (fun rp => rp_cqe rp = None)); [done|]|].
  { intros m w w' rp Hs Hc. exact (steady_wait _ _ _ _ Hs Hc). }
  intros rp ->. eapply idles_bind; [apply idles_errno|]. intros _ _. by apply idles_ret.
Qed.

Lemma iter_grows s :
  recs true s -> wp sched_iter (fun _ s' => recs true s' /\ log_view s `prefix_of` log_view s')
    (fun h _ => h <> HExit 0) s.
Proof.
  intros Hs. unfold wp. destruct (decide (rd g_runq_head s = NULL)) as [Hh|Hh].
  - rewrite sched_iter_idle by done. fold (wp (rr_io_wait;; mret None) (fun (_ : option ptr) s' =>
      recs true s' /\ log_view s `prefix_of` log_view s') (fun h _ => h <> HExit 0) s).
    apply wp_bind. eapply wp_mono; [apply idles_io_wait, Hs| |done]. intros rc s1 [_ Hi]. apply wp_ret.
    destruct (recs_idle fd0 _ _ _ Hs Hi) as [? ->]. done.
  - rewrite sched_iter_busy by done.
    pose proof (proj1 mirror_busy s Hs) as Hg. unfold wp in Hg. destruct ((nxt ← runq_pop_front; dispatch nxt) s); [|done]. by destruct Hg.
Qed.
(** An iteration is repeated in replay, or it was one that waited. *)
Lemma iter_twin s r o s' :
  twin true s r -> sched_iter s = Ok o s' -> log_view s' `prefix_of` full ->
  (o = None /\ twin true s' r) \/ exists r', sched_iter r = Ok o r' /\ twin true s' r'.
Proof.
  intros Ht Hit Hpre. destruct (decide (rd g_runq_head s = NULL)) as [Hh|Hh].
  - left. rewrite sched_iter_idle in Hit by done. unfold mbind, M_bind in Hit.
    pose proof (idles_io_wait s ltac:(apply Ht)) as Hw. unfold wp in Hw.
    destruct (rr_io_wait s) as [rc s1|]; [|done]. destruct Hw as [_ Hi]. unfold mret, M_ret in Hit.
    simplify_eq. split; [done|]. by eapply twin_idle_l.
  - right. rewrite sched_iter_busy in Hit by done.
    assert (rd g_runq_head r <> NULL) as Hh'. { by rewrite (tq_head _ _ (tw_threads _ _ _ _ _ _ Ht)). }
    rewrite sched_iter_busy by done.
    pose proof (proj2 mirror_busy s r Ht) as Hr. unfold wp in Hr. rewrite Hit in Hr.
    destruct (Hr Hpre) as (o' & r' & Hrun & <- & Ht'). eauto.
Qed.

Lemma mirror_enter : mirror true eq sched_enter sched_enter.
Proof.
  unfold sched_enter, rr_scheduler_tls_base.
  apply (mirror_bind _ _ _ _ (fun _ _ => True)); [by apply mirror_get; [exists 0|]|]. intros x y _.
  apply (mirror_bind _ _ _ _ (fun _ _ => True)); [apply mirror_set_fs|]. intros _ _ _. by mirror_step.
Qed.

(** ** The machines *)

#[local] Notation ctx1 := (rr_state W1 -> co W1 ()).
#[local] Notation ctx2 := (rr_state W2 -> co W2 ()).
(** A thread's function and [main] do not return to the machine. *)
#[local] Notation cgrow' := (cgrow (fun _ : () => exists _ : (), False)).
#[local] Notation csim' := (csim (fun _ _ : () => False)).

Definition ctxs_grow (ctxs : gmap Z ctx1) : Prop :=
  forall p k, ctxs !! p = Some k -> forall s, recs true s -> cgrow' (k s) (log_view s).
Definition ctxs_sim (ctxs : gmap Z ctx1) (dtxs : gmap Z ctx2) : Prop :=
  forall p, option_Forall2 (fun k k' => forall s r, twin true s r -> csim' (k s) (k' r))
    (ctxs !! p) (dtxs !! p).

(** A recording machine only adds to the log, and at its normal end the file holds it. *)
Definition mgrow (v0 : bytes) (m : @machine W1) : Prop :=
  match m with
  | Thread c ctxs => cgrow' c v0 /\ ctxs_grow ctxs
  | SchedIn s ctxs | SchedLoop s ctxs => recs true s /\ v0 `prefix_of` log_view s /\ ctxs_grow ctxs
  | Ended h s => h = HExit 0 -> v0 `prefix_of` sink fd0 (rd world s)
  end.
Definition msim (m : @machine W1) (d : @machine W2) : Prop :=
  match m, d with
  | Thread c ctxs, Thread c' dtxs => csim' c c' /\ ctxs_sim ctxs dtxs
  | SchedIn s ctxs, SchedIn r dtxs | SchedLoop s ctxs, SchedLoop r dtxs =>
      twin true s r /\ ctxs_sim ctxs dtxs
  | _, _ => False
  end.

Lemma ctxs_grow_insert p k ctxs :
  ctxs_grow ctxs -> (forall s, recs true s -> cgrow' (k s) (log_view s)) -> ctxs_grow (<[p := k]> ctxs).
Proof. intros Hc Hk q k' Hq. apply lookup_insert_Some in Hq as [[_ <-]|[_ Hq]]; eauto. Qed.
Lemma ctxs_sim_insert p k k' ctxs dtxs :
  ctxs_sim ctxs dtxs -> (forall s r, twin true s r -> csim' (k s) (k' r)) ->
  ctxs_sim (<[p := k]> ctxs) (<[p := k']> dtxs).
Proof.
  intros Hc Hk q. destruct (decide (p = q)) as [<-|Hne].
  - rewrite !lookup_insert_eq. by constructor.
  - rewrite !lookup_insert_ne by done. apply Hc.
Qed.
Lemma resume_grow ctxs p s : ctxs_grow ctxs -> recs true s -> cgrow' (resume app ctxs p s) (log_view s).
Proof.
  intros Hc Hs. unfold resume. destruct (ctxs !! p) as [k|] eqn:Hk; [by eapply Hc|].
  by apply (proj1 (cmirror_entry p)).
Qed.
Lemma resume_sim ctxs dtxs p s r :
  ctxs_sim ctxs dtxs -> twin true s r -> csim' (resume app ctxs p s) (resume app dtxs p r).
Proof.
  intros Hc Ht. unfold resume. specialize (Hc p).
  destruct (ctxs !! p) as [k|], (dtxs !! p) as [k'|]; inversion Hc; subst; [by auto|].
  by apply (proj2 (cmirror_entry p)).
Qed.

Lemma mgrow_step v0 m : mgrow v0 m -> mgrow v0 (mstep app m).
Proof.
  destruct m as [[a s|h s|p s k] ctxs|s ctxs|s ctxs|h s]; simpl.
  - by intros [[[_ []] _] _].
  - by intros [? _].
  - intros [(Hs & Hv & Hk) Hc]. split; [done|]. split; [done|]. by apply ctxs_grow_insert.
  - intros (Hs & Hv & Hc). pose proof (proj1 mirror_enter s Hs) as H. unfold wp in H.
    destruct (sched_enter s) as [[] s'|h s']; simpl; [|by intros ?]. destruct H as (_ & H1 & H2).
    split; [done|]. split; [by etransitivity|done].
  - intros (Hs & Hv & Hc). rewrite (rc_running _ _ _ Hs eq_refl).
    pose proof (iter_grows s Hs) as H. unfold wp in H.
    destruct (sched_iter s) as [[p|] s'|h s']; simpl; [| |by intros ?]; destruct H as (H1 & H2).
    + split; [|done]. eapply cgrow_weaken; [by apply resume_grow|by etransitivity].
    + split; [done|]. split; [by etransitivity|done].
  - done.
Qed.
Lemma mrun_S {W} `{!OS W} n (m : @machine W) : mrun app (S n) m = mrun app n (mstep app m).
Proof. apply Nat.iter_succ_r. Qed.
Lemma mgrow_run v0 n m s :
  mgrow v0 m -> mrun app n m = Ended (HExit 0) s -> v0 `prefix_of` sink fd0 (rd world s).
Proof.
  intros Hm Hrun. assert (mgrow v0 (mrun app n m)) as H.
  { clear Hrun. induction n; simpl; [done|]. by apply mgrow_step. }
  rewrite Hrun in H. by apply H.
Qed.
Lemma ended_stays {W} `{!OS W} n h (s : rr_state W) : mrun app n (Ended h s) = Ended h s.
Proof. induction n as [|n IH]; [done|]. by rewrite mrun_S. Qed.

(** The replaying machine has a run of the same end. *)
Lemma msim_run n m d s v :
  mgrow v m -> msim m d -> mrun app n m = Ended (HExit 0) s -> sink fd0 (rd world s) = full ->
  exists n' r, mrun app n' d = Ended (HExit 0) r /\ mem_eq (rd mem s) (rd mem r).
Proof.
  revert m d v. induction n as [|n IH]; intros m d v Hg Hsim Hrun Hfull.
  { unfold mrun in Hrun. simpl in Hrun. by subst m. }
  rewrite mrun_S in Hrun. pose proof (mgrow_step v m Hg) as Hg1.
  assert (Hpre : forall v', mgrow v' (mstep app m) -> v' `prefix_of` full).
  { intros v' Hv'. rewrite <-Hfull. by eapply mgrow_run. }
  assert (Hgo : forall d', msim (mstep app m) d' -> mstep app d = d' ->
    exists n' r, mrun app n' d = Ended (HExit 0) r /\ mem_eq (rd mem s) (rd mem r)).
  { intros d' Hd' <-. destruct (IH _ _ v Hg1 Hd' Hrun Hfull) as (n' & r & Hr & Hm).
    exists (S n'), r. by rewrite mrun_S. }
  destruct m as [[a s1|h s1|p s1 k] ctxs|s1 ctxs|s1 ctxs|h s1], d as [c' dtxs|r dtxs|r dtxs|h' r];
    try done; destruct Hsim as [Hsim Hcs].
  - by destruct Hg as [[[_ []] _] _].
  - simpl in Hrun. rewrite ended_stays in Hrun. simplify_eq.
    destruct (Hsim eq_refl Hfull) as (r & -> & Hm). by exists 1%nat, r.
  - destruct Hg as [(Hs & Hv & Hk) Hc]. destruct Hsim as (r & k' & -> & Ht & Hk').
    { apply Hpre. simpl. split; [done|]. split; [done|]. by apply ctxs_grow_insert. }
    eapply Hgo; [|done]. split; [done|]. by apply ctxs_sim_insert.
  - destruct Hg as (Hs & Hv & Hc). simpl in Hrun, Hg1, Hpre, Hgo.
    pose proof (proj1 mirror_enter s1 Hs) as H. pose proof (proj2 mirror_enter s1 r Hsim) as H'.
    unfold wp in H, H'. destruct (sched_enter s1) as [[] s2|h s2]; [|].
    + destruct H as (_ & H1 & H2). destruct H' as ([] & r2 & Hr2 & _ & Ht2); [by apply Hpre|].
      eapply Hgo; [|by rewrite Hr2]. done.
    + rewrite ended_stays in Hrun. by simplify_eq.
  - destruct Hg as (Hs & Hv & Hc). simpl in Hrun, Hg1, Hpre, Hgo.
    rewrite (rc_running _ _ _ Hs eq_refl) in Hrun, Hg1, Hpre, Hgo.
    assert (rd g_sched_running r = true) as Hrr.
    { rewrite (tq_running _ _ (tw_threads _ _ _ _ _ _ Hsim)). by apply Hs. }
    rewrite Hrr in Hgo. pose proof (iter_grows s1 Hs) as H. unfold wp in H.
    destruct (sched_iter s1) as [[p|] s2|h s2] eqn:Hit; [| |rewrite ended_stays in Hrun; by simplify_eq];
      destruct H as (H1 & H2).
    + destruct (iter_twin s1 r (Some p) s2 Hsim Hit) as [[? _]|(r2 & Hr2 & Ht2)]; [|done|].
      { apply Hpre. split; [by apply resume_grow|done]. }
      eapply Hgo; [|by rewrite Hr2]. split; [by apply resume_sim|done].
    + destruct (iter_twin s1 r None s2 Hsim Hit) as [[_ Ht2]|(r2 & Hr2 & Ht2)]; [by apply Hpre| |].
      * by apply (IH (SchedLoop s2 ctxs) (SchedLoop r dtxs) v).
      * eapply Hgo; [|by rewrite Hr2]. done.
Qed.

(** *** From a pair of started processes *)

Lemma twin_run n p s0 r0 s :
  twin true s0 r0 -> replayable p ->
  mrun app n (Thread ((run_prog p;; finish) s0) ∅) = Ended (HExit 0) s ->
  sink fd0 (rd world s) = full ->
  exists n' r, mrun app n' (Thread ((run_prog p;; finish) r0) ∅) = Ended (HExit 0) r /\
    mem_eq (rd mem s) (rd mem r).
Proof.
  intros Ht Hp Hrun Hfull. destruct (cmirror_main p Hp) as [Hg Hr].
  eapply (msim_run n _ _ s (log_view s0)); [| |done|done].
  - split; [apply Hg, Ht|]. intros q k Hq. by rewrite lookup_empty in Hq.
  - split; [by apply Hr|]. intros q. rewrite !lookup_empty. constructor.
Qed.
End TwinMachine.
