(* ===== verification/TwinStart.v ===== *)
(** Start-up of a recording and of a replaying process on steady kernels: both end
    with the runtime ready and one thread running, as twins. *)
From stdpp Require Import gmap strings list.
From coqutil Require Import Byte.
From S2P Require Import Prelude Types State Events Logic Log Scheduler Record Replay Signal IoUring Uthread Wrappers Lifecycle Machine LifecycleSafety Twin TwinOps TwinCalls.

(** ** What start-up does not touch *)

Section Start.
Context {W : Type} `{!OS W} `{!Steady W} (T : W -> bytes).
Context (HT : forall r m w w' rp, steady w -> silent r = true -> os_call r m w = (w', rp) -> T w' = T w).
Implicit Types s : rr_state W.

(** Everything but the threads. *)
Record logside s s' : Prop := {
  ls_config : st_config s' = st_config s;
  ls_seq : st_seq s' = st_seq s;
  ls_record : st_record s' = st_record s;
  ls_replay : st_replay s' = st_replay s;
  ls_mem : rd mem s' = rd mem s;
  ls_slots : slots_kept s s';
  ls_steady : steady (rd world s');
  ls_tape : T (rd world s') = T (rd world s)
}.
Lemma logside_idle s s' : steady (rd world s) -> idle T s s' -> logside s s'.
Proof. intros Hs []. constructor; auto. Qed.
Lemma logside_trans s1 s2 s3 : logside s1 s2 -> logside s2 s3 -> logside s1 s3.
Proof. intros [] []. constructor; try congruence. intros k Hk. auto. Qed.

(** The threads before start-up. *)
Record pristine s : Prop := {
  ps_heap : rd heap s = ∅; ps_brk : rd brk s = 1;
  ps_queue : rd g_runq_head s = NULL /\ rd g_runq_tail s = NULL;
  ps_threads : rd g_threads s = v_empty; ps_allocated : rd g_allocated s = v_empty;
  ps_guard : rd g_guard_pages s = v_empty
}.
Lemma pristine_idle s s' : pristine s -> idle T s s' -> pristine s'.
Proof.
  intros [] []. destruct ps_queue0. constructor; try congruence; [split; congruence|].
  unfold rd in *. simpl in *. congruence.
Qed.

(** The main thread alone, running. *)
Record main_only s : Prop := {
  mo_heap : exists fs, rd heap s = {[1 := main_thread fs]}; mo_brk : rd brk s = 2;
  mo_queue : rd g_runq_head s = NULL /\ rd g_runq_tail s = NULL;
  mo_current : rd g_current s = 1;
  mo_threads : rd g_threads s = Vec [1] 16; mo_allocated : rd g_allocated s = Vec [1] 16;
  mo_guard : rd g_guard_pages s = v_empty; mo_next : rd g_next_id s = 2
}.
Lemma main_only_idle s s' : main_only s -> idle T s s' -> main_only s'.
Proof.
  intros [[fs ?] ? [? ?]] Hi. assert (rd g_next_id s' = rd g_next_id s /\
    rd g_allocated s' = rd g_allocated s) as [? ?].
  { unfold rd. simpl. by rewrite (il_uthread _ _ _ Hi). }
  destruct Hi.
  constructor; try congruence; [exists fs; congruence|split; congruence].
Qed.

Lemma idles_zero f args :
  one_of ["mprotect"; "getcontext"; "arch_prctl"; "sigaltstack"; "sigaction"; "sigprocmask"] f = true ->
  one_of silent_calls f = true -> idles T (call f args) (fun rc => rc = 0).
Proof.
  intros Hf Hs. apply idles_os_rc; [done|done|]. intros m w w' rp Hw Hc.
  exact (steady_zero f _ _ _ _ _ Hf Hw Hc).
Qed.
Lemma idles_mmap args : idles T (call "mmap" args) (fun rc => rc <> MAP_FAILED).
Proof. apply idles_os_rc; [done|done|]. intros m w w' rp Hw Hc. exact (steady_mmap _ _ _ _ _ Hw Hc). Qed.
Lemma idles_put {X} (g : glob W X) v :
  (forall s, idle T s (wr g v s)) -> idles T (put g v) (fun _ => True).
Proof. intros H s Hs. by apply wp_put. Qed.

Lemma wp_sched_init s :
  steady (rd world s) -> pristine s ->
  wp rr_scheduler_init (fun rc s' => rc = 0 /\ logside s s' /\ pristine s' /\
    rd g_sched_running s' = true) no_halt s.
Proof.
  intros Hs Hp. unfold rr_scheduler_init. apply wp_bind.
  eapply wp_post; [by apply idles_mmap|]. intros p s1 [Hf H1].
  apply wp_bind, wp_put. rewrite (proj2 (Z.eqb_neq _ _) Hf).
  assert (idle T s (wr g_sched_stack p s1)) as H1'.
  { eapply idle_trans; [exact H1|]. constructor; try done. by intros k. }
  apply wp_bind. eapply wp_post; [by apply idles_zero; [..|apply H1']|]. intros rc s2 [-> H2].
  assert (idle T s s2) as H2' by (by eapply idle_trans). simpl. apply wp_bind, wp_put, wp_ret.
  split; [done|]. pose proof (pristine_idle _ _ Hp H2') as []. pose proof (logside_idle _ _ Hs H2') as [].
  split; [by constructor|]. split; [by constructor|done].
Qed.

(** While the main thread, now [u], is being set up. *)
Record raising s (u : uthread) (cur : ptr) (thr al : vec ptr) s' : Prop := {
  ra_log : logside s s';
  ra_heap : rd heap s' = {[1 := u]}; ra_brk : rd brk s' = 2;
  ra_queue : rd g_runq_head s' = NULL /\ rd g_runq_tail s' = NULL;
  ra_current : rd g_current s' = cur;
  ra_threads : rd g_threads s' = thr; ra_allocated : rd g_allocated s' = al;
  ra_guard : rd g_guard_pages s' = v_empty;
  ra_running : rd g_sched_running s' = rd g_sched_running s
}.
Lemma raising_idle s u cur thr al s1 s2 :
  raising s u cur thr al s1 -> idle T s1 s2 -> raising s u cur thr al s2.
Proof.
  intros [Hl ? ? [? ?]] Hi. assert (rd g_allocated s2 = rd g_allocated s1) as Ha.
  { unfold rd. simpl. by rewrite (il_uthread _ _ _ Hi). }
  pose proof (logside_trans _ _ _ Hl (logside_idle _ _ (ls_steady _ _ Hl) Hi)).
  destruct Hi. constructor; try congruence. split; congruence.
Qed.
Lemma wp_raising {A} (m : M W A) P s u cur thr al s1 (Q : A -> rr_state W -> Prop) :
  idles T m P -> raising s u cur thr al s1 ->
  (forall a s2, P a -> raising s u cur thr al s2 -> Q a s2) -> wp m Q no_halt s1.
Proof.
  intros Hm Hr HQ. eapply wp_post; [apply Hm, Hr|]. intros a s2 [Ha Hi].
  apply HQ; [done|]. by eapply raising_idle.
Qed.
Lemma wp_raising_update f s u cur thr al s1 (Q : () -> rr_state W -> Prop) :
  raising s u cur thr al s1 -> (forall s2, raising s (f u) cur thr al s2 -> Q tt s2) ->
  wp (update 1 f) Q no_halt s1.
Proof.
  intros [[]] HQ. apply (wp_update _ _ u); [by rewrite ra_heap0|]. apply HQ.
  constructor; try done. glob_simpl. by rewrite ra_heap0.
Qed.
(** The first element of an empty table. *)
Lemma wp_first_slot (g : glob W (vec ptr)) s u cur thr al s1 (Q : Z -> rr_state W -> Prop) :
  raising s u cur thr al s1 -> rd g s1 = v_empty -> (forall v s2, rd g (wr g v s2) = v) ->
  (forall s2, raising s u cur thr al s2 -> rd g s2 = rd g s1 ->
     Q 0 (wr g (Vec [1] 16) (wr g (Vec [] 16) s2))) ->
  (forall s2, idle T s1 s2 -> rd g s2 = rd g s1) ->
  wp (ok ← grow_if_full g 8; if negb ok then mret (-1) else vec_store g 1;; mret 0) Q no_halt s1.
Proof.
  intros Hr Hg Hrw HQ Hid. apply wp_bind. unfold grow_if_full. apply wp_bind, wp_get. rewrite Hg. simpl.
  apply wp_bind. eapply wp_post; [apply (idles_os_rc T HT (Rcall "realloc" [128]) (fun x => x <> 0)); [done| |apply Hr]|].
  { intros m w w' rp Hw Hc. apply (steady_realloc _ _ _ _ _ Hw Hc). lia. }
  intros p s2 [Hp Hi]. rewrite (proj2 (Z.eqb_neq _ _) Hp). apply wp_bind, wp_put, wp_ret. simpl.
  apply wp_bind. apply wp_vec_store; rewrite Hrw; [done|]. apply wp_ret.
  apply HQ; [by eapply raising_idle|by apply Hid].
Qed.

Lemma wp_main_thread s :
  steady (rd world s) -> pristine s ->
  wp rr_uthread_init_main (fun rc s' => rc = 0 /\ logside s s' /\ main_only s' /\
    rd g_sched_running s' = rd g_sched_running s) no_halt s.
Proof.
  intros Hs Hp. unfold rr_uthread_init_main, calloc_ut. apply wp_bind, wp_bind.
  eapply wp_post; [apply (idles_os_rc T HT (Rcall "calloc" [1]) (fun x => x <> 0)); [done| |done]|].
  { intros m w w' rp Hw Hc. exact (steady_calloc _ _ _ _ _ Hw Hc). }
  intros p s1 [Hne H1]. rewrite (proj2 (Z.eqb_neq _ _) Hne). do 9 wp_step.
  pose proof (pristine_idle _ _ Hp H1) as []. rewrite ps_brk0, ps_heap0. cbn [Z.eqb].
  assert (R0 : raising s uthread_zero (rd g_current s) v_empty v_empty
    (wr heap (<[1 := uthread_zero]> ∅) (wr brk (1 + 1) s1))).
  { pose proof (logside_idle _ _ Hs H1) as []. destruct H1. by constructor. }
  wp_step. eapply wp_raising_update; [exact R0|]. intros s2 R2.
  wp_step. eapply wp_raising_update; [exact R2|]. intros s3 R3.
  wp_step. eapply wp_raising; [by apply (idles_zero "getcontext")|exact R3|]. intros rc s4 -> R4. simpl.
  wp_step. unfold rr_get_fs_base. wp_step.
  eapply wp_raising; [apply (idles_os T HT (Rcall "arch_prctl" [ARCH_GET_FS]) (fun rp => rp_rc rp = 0)); [done|]|exact R4|].
  { intros m w w' rp Hw Hc. exact (steady_zero "arch_prctl" _ _ _ _ _ eq_refl Hw Hc). }
  intros rp s5 Hrp R5. rewrite Hrp. wp_step. cbn [Z.eqb]. wp_step. eapply wp_raising_update; [exact R5|]. intros s6 R6.
  unfold rr_scheduler_set_current, rr_set_scheduler_tls_base. do 4 wp_step.
  assert (R7 : raising s (main_thread (rp_out rp)) 1 v_empty v_empty
    (wr g_scheduler_tls (rp_out rp) (wr g_current 1 s6))).
  { destruct R6 as [[]]. by constructor. }
  wp_step. unfold rr_scheduler_register_thread. cbn [Z.eqb].
  eapply wp_first_slot; [exact R7|by apply R7|done| |intros s8 Hi; apply (il_threads T _ _ Hi)].
  intros s8 R8 _. cbn [Z.eqb negb].
  assert (R9 : raising s (main_thread (rp_out rp)) 1 (Vec [1] 16) v_empty
    (wr g_threads (Vec [1] 16) (wr g_threads (Vec [] 16) s8))).
  { destruct R8 as [[]]. by constructor. }
  wp_step. unfold remember_thread.
  eapply wp_first_slot; [exact R9|by apply R9|done| |].
  2:{ intros s10 Hi. unfold rd. simpl. by rewrite (il_uthread _ _ _ Hi). }
  intros s10 [[] ? ? ? ? ? ? ? ?] _. cbn [Z.eqb negb]. wp_steps. split; [done|].
  split; [by constructor|]. split; [|done]. constructor; try done. by exists (rp_out rp).
Qed.
End Start.
