(* ===== verification/TwinBoot.v ===== *)
(** The start-up of a recording process on a steady kernel: it ends with an open log
    that holds the header and the switch to the main thread. *)
From stdpp Require Import gmap strings list.
From coqutil Require Import Byte.
From S2P Require Import Prelude Types State Events Logic Log Scheduler Record Replay Signal IoUring Uthread Wrappers Lifecycle Machine LifecycleSafety Twin TwinOps TwinCalls TwinStart.

(** ** Before the threads exist *)

Section Early.
Context {W : Type} `{!OS W} `{!Steady W} (scratch : Z -> Prop).
Implicit Types s : rr_state W.

(** Configuration [c] is read, the runtime is not ready, and memory is [m] but for
    the library's scratch space. *)
Record early (c : rr_config_t) (m : memory) s : Prop := {
  ey_config : rd g_rr_config s = c;
  ey_cold : runtime_ready c = false;
  ey_pristine : pristine s;
  ey_steady : steady (rd world s);
  ey_mem : mem_eq scratch m (rd mem s)
}.
Lemma early_idle T c m s s' : early c m s -> idle T s s' -> early c m s'.
Proof.
  intros [Hc Hr Hp Hs Hm] Hi. pose proof (pristine_idle T _ _ Hp Hi). destruct Hi.
  constructor; auto; [|by rewrite il_mem]. rewrite <-Hc. unfold rd. simpl. exact il_config.
Qed.
Lemma early_env c m s s' :
  early c m s -> env_only s s' -> steady (rd world s') -> mem_eq scratch m (rd mem s') -> early c m s'.
Proof. intros [Hc Hr [] Hs Hm] (? & ? & ? & ? & ->) Hs' Hm'. by constructor. Qed.

Lemma wp_cold_active c m s (Q : bool -> rr_state W -> Prop) E :
  early c m s -> Q false s -> wp rr_active Q E s.
Proof. intros [Hc Hr _ _ _] HQ. unfold rr_active. wp_steps. by rewrite Hc, Hr, andb_false_r. Qed.
Lemma wp_cold_replay c m s (Q : bool -> rr_state W -> Prop) E :
  early c m s -> Q false s -> wp rr_replay_active Q E s.
Proof. intros [Hc Hr _ _ _] HQ. unfold rr_replay_active. wp_steps. by rewrite Hc, Hr, andb_false_r. Qed.
Lemma wp_through slot q s (Q : os_resp -> rr_state W -> Prop) E :
  default 0 (rd statics s !! slot) <> NULL -> wp (os q) Q E s -> wp (call_real slot q) Q E s.
Proof. intros H HQ. unfold call_real. wp_step. wp_step. by rewrite (proj2 (Z.eqb_neq _ _) H). Qed.

(** Reading the environment variables. *)
Definition env_config (env : list (string * string)) : rr_config_t :=
  Config (env_is (getenv_in env "RR_MODE") "record") (env_is (getenv_in env "RR_MODE") "replay")
    (negb (env_is (getenv_in env "RR_REPLAY_TIME") "real")) false
    (env_is (getenv_in env "RR_DEBUG") "1") (parse_stack_size (getenv_in env "RR_STACK_SIZE"))
    (match getenv_in env "RR_LOG" with
     | Some p => if String.eqb p "" then "rr.log" else p
     | None => "rr.log"
     end).
Lemma wp_parse_env env m w :
  steady w -> wp rr_parse_env (fun _ s' => early (env_config env) m s' /\
    rd g_ring_used s' = 0) no_halt (boot_state env m w).
Proof.
  intros Hs. unfold rr_parse_env, getenv. wp_steps.
  change (rd environ (boot_state env m w)) with env. unfold env_config.
  destruct (getenv_in env "RR_STACK_SIZE") as [x|]; [destruct (String.eqb x "")|].
  all: wp_steps; split; [by constructor|done].
Qed.
Lemma wp_parse_world env m (w : W) :
  wp rr_parse_env (fun _ s' => rd world s' = w) no_halt (boot_state env m w).
Proof.
  unfold rr_parse_env, getenv. wp_steps. change (rd environ (boot_state env m w)) with env.
  destruct (getenv_in env "RR_STACK_SIZE") as [x|]; [destruct (String.eqb x "")|]; by wp_steps.
Qed.
End Early.

(** ** A recording process *)

Section RecordBoot.
Context {W : Type} `{!OS W} `{!LogSink W} `{!Steady W} `{!RecordKernel W} (scratch : Z -> Prop).
(** The library's own [struct timespec] is scratch. *)
Context (Hts : os_addr "ts" <> NULL)
  (Hscratch : forall a, os_addr "ts" <= a < os_addr "ts" + 16 -> scratch a).
Implicit Types s : rr_state W.
#[local] Notation early := (early scratch).

(** The log is open at [fd] and holds [bs]; its buffer is empty. *)
Record holding (c : rr_config_t) (m : memory) (fd : Z) (bs : bytes) s : Prop := {
  ho_early : early c m s;
  ho_fd : rd g_log_fd s = fd; ho_open : 0 <= fd;
  ho_ring : rd g_ring s = Some ∅; ho_used : rd g_ring_used s = 0;
  ho_write : default 0 (rd statics s !! "record:write") <> NULL;
  ho_close : default 0 (rd statics s !! "record:close") <> NULL;
  ho_sink : sink fd (rd world s) = bs
}.
Lemma holding_idle c m fd bs s s' : holding c m fd bs s -> idle (sink fd) s s' -> holding c m fd bs s'.
Proof.
  intros [He] Hi. pose proof (early_idle scratch _ _ _ _ _ He Hi).
  assert (rd g_log_fd s' = rd g_log_fd s /\ rd g_ring s' = rd g_ring s /\
    rd g_ring_used s' = rd g_ring_used s) as (E1 & E2 & E3).
  { unfold rd. simpl. by rewrite (il_record _ _ _ Hi). }
  destruct Hi. constructor; try congruence; by apply il_slots.
Qed.
Lemma wp_holding {A} (x : M W A) P c m fd bs s (Q : A -> rr_state W -> Prop) :
  idles (sink fd) x P -> holding c m fd bs s ->
  (forall a s', P a -> holding c m fd bs s' -> Q a s') -> wp x Q no_halt s.
Proof.
  intros Hx Hh HQ. eapply wp_post; [apply Hx, (ey_steady _ _ _ _ (ho_early _ _ _ _ _ Hh))|].
  intros a s' [Ha Hi]. apply HQ; [done|]. by eapply holding_idle.
Qed.
Lemma mem_eq_scratch m m' d :
  mem_eq scratch m m' -> length d = 16%nat -> mem_eq scratch m (store m' (os_addr "ts") d).
Proof.
  intros Hm Hd a Ha. rewrite Hm by done. symmetry. apply store_lookup_out.
  destruct (decide (os_addr "ts" <= a < os_addr "ts" + 16)) as [Hin|Hin]; [|lia].
  exfalso. by apply Ha, Hscratch.
Qed.
(** Two of the interposed functions, used by start-up itself. *)
Lemma wp_early_clock c m fd bs s clk (Q : Z -> rr_state W -> Prop) :
  holding c m fd bs s -> (forall rc s', holding c m fd bs s' -> Q rc s') ->
  wp (clock_gettime clk (os_addr "ts")) Q no_halt s.
Proof.
  intros Hh HQ. unfold clock_gettime, record_struct, real. wp_step.
  eapply wp_post; [eapply (wp_resolve (sink fd) (rk_silent fd)), Hh|]. intros p s1 [Hi Hsl].
  pose proof (holding_idle _ _ _ _ _ _ Hh Hi) as H1. clear Hi Hh. wp_step.
  eapply wp_cold_replay; [apply H1|]. cbn iota. wp_step. wp_step. apply wp_through; [done|].
  apply wp_os. intros w rp s2 Hc He Hw Hm _ _. wp_step. wp_step.
  assert (holding c m fd bs s2) as H2.
  { assert (mem_eq scratch m (rd mem s2)) as Hms.
    { rewrite Hm. pose proof (ey_mem _ _ _ _ (ho_early _ _ _ _ _ H1)) as Hm1.
      destruct (rk_clock _ _ _ _ _ _ (ey_steady _ _ _ _ (ho_early _ _ _ _ _ H1)) Hts Hc)
        as [(_ & d & -> & Hd)|(_ & -> & _)]; [by apply mem_eq_scratch|done]. }
    assert (steady (rd world s2) /\ sink fd (rd world s2) = bs) as [Hs2 Hk2].
    { rewrite Hw, <-(ho_sink _ _ _ _ _ H1).
      pose proof (ey_steady _ _ _ _ (ho_early _ _ _ _ _ H1)) as Hs1.
      split; [refine (steady_keep _ _ _ _ _ Hs1 _ Hc)|refine (rk_sink fd _ _ _ _ _ Hs1 _ Hc)]; done. }
    destruct H1 as [H1]. pose proof (early_env scratch _ _ _ _ H1 He Hs2 Hms).
    destruct He as (? & ? & ? & ? & ->). by constructor. }
  eapply wp_cold_active; [apply H2|]. wp_step.
  apply wp_when; [done|]. intros _. wp_step. by apply HQ.
Qed.
Lemma wp_early_pid c m fd bs s (Q : Z -> rr_state W -> Prop) :
  holding c m fd bs s -> (forall rc s', holding c m fd bs s' -> Q rc s') -> wp getpid Q no_halt s.
Proof.
  intros Hh HQ. unfold getpid, real. wp_step.
  eapply wp_post; [eapply (wp_resolve (sink fd) (rk_silent fd)), Hh|]. intros p s1 [Hi Hsl].
  pose proof (holding_idle _ _ _ _ _ _ Hh Hi) as H1. clear Hi Hh. wp_step.
  eapply wp_cold_replay; [apply H1|]. cbn iota. wp_step. wp_step. apply wp_through; [done|].
  eapply wp_holding; [by apply (idles_os (sink fd) (rk_silent fd) _ (fun _ => True))|exact H1|].
  intros rp s2 _ H2. wp_step. wp_step. eapply wp_cold_active; [apply H2|]. wp_step.
  apply wp_when; [done|]. intros _. wp_step. by apply HQ.
Qed.

Lemma wp_early_now c m fd bs s (Q : Z -> rr_state W -> Prop) :
  holding c m fd bs s -> (forall now s', in_u64 now -> holding c m fd bs s' -> Q now s') ->
  wp rr_now_mono_ns Q no_halt s.
Proof.
  intros Hh HQ. unfold rr_now_mono_ns. wp_step. eapply wp_early_clock; [exact Hh|].
  intros rc s1 H1. wp_steps; apply HQ; try done. apply u64_range.
Qed.

(** The header of a recording. *)
Definition log_header (h : rr_log_header_t) : Prop :=
  header_wf h /\ magic h = RR_LOG_MAGIC /\ version h = RR_LOG_VERSION.

Lemma wp_header c m fd s now pid (Q : Z -> rr_state W -> Prop) :
  holding c m fd [] s -> in_u64 now ->
  (forall h s', log_header h -> holding c m fd (encode_header h) s' -> Q 0 s') ->
  wp (rr_write_direct (encode_header (Header RR_LOG_MAGIC RR_LOG_VERSION now (u32 pid) 0))) Q no_halt s.
Proof.
  intros Hh Hn HQ. set (h := Header _ _ _ _ _).
  assert (log_header h) as Hl.
  { split; [|done]. repeat split; try done; first [apply Hn|apply u32_range]. }
  eapply wp_post with (Q := fun rc s' => (rc = 0 /\ env_only s s' /\
    sink (rd g_log_fd s) (rd world s') = sink (rd g_log_fd s) (rd world s) ++ encode_header h) /\
    steady (rd world s') /\ rd mem s' = rd mem s).
  - eapply wp_and.
    + apply wp_write_direct; [apply Hh|by rewrite length_encode_header|]. intros s' He _ Hk. done.
    + assert (calmly (rr_write_direct (W := W) (encode_header h))) as Hc by (unfold rr_write_direct; calm_tac).
      apply Hc, Hh.
  - intros rc s' [(-> & He & Hk) [Hs Hm]]. eapply HQ; [exact Hl|]. destruct Hh as [Hy Hfd Ho Hr Hu Hw Hc Hb].
    rewrite Hfd, Hb in Hk. assert (early c m s') as Hy'.
    { eapply early_env; [done..|]. rewrite Hm. apply Hy. }
    destruct He as (? & ? & ? & ? & ->). by constructor.
Qed.

Lemma wp_record_open path c m s (Q : Z -> rr_state W -> Prop) :
  early c m s -> rd g_ring_used s = 0 ->
  (forall fd h s', log_header h -> holding c m fd (encode_header h) s' -> Q 0 s') ->
  wp (rr_record_init path) Q no_halt s.
Proof.
  intros Hy Hu HQ. set (T := fun _ : W => @nil Byte.byte).
  assert (HT : forall r m w w' rp, steady w -> silent r = true -> os_call r m w = (w', rp) -> T w' = T w) by done.
  unfold rr_record_init, rr_resolve_real_io. wp_step. wp_step.
  eapply wp_post; [apply (wp_resolve_value T HT), Hy|]. intros p1 s1 (H1 & Hp1 & Hw1). wp_step.
  eapply wp_post; [apply (wp_resolve_value T HT), H1, Hy|]. intros p2 s2 (H2 & Hp2 & Hw2). wp_step.
  eapply wp_post; [apply (wp_resolve_value T HT), H2, H1, Hy|]. intros p3 s3 (H3 & Hp3 & Hw3). wp_step.
  rewrite (proj2 (Z.eqb_neq _ _) Hp1), (proj2 (Z.eqb_neq _ _) Hp2), (proj2 (Z.eqb_neq _ _) Hp3).
  cbn [negb andb Z.eqb].
  assert (default 0 (rd statics s3 !! "record:write") <> NULL) as Hwr by (by apply H3, H2).
  assert (default 0 (rd statics s3 !! "record:open") <> NULL) as Hop by (by apply H3).
  pose proof (idle_trans _ _ _ _ (idle_trans _ _ _ _ H1 H2) H3) as Hi. clear H1 H2 H3 Hw1 Hw2.
  wp_step. eapply wp_post; [apply (idles_mmap T HT), Hi, Hy|]. intros p4 s4 [Hf Hi4].
  rewrite (proj2 (Z.eqb_neq _ _) Hf). wp_step. wp_step. wp_step.
  pose proof (idle_trans _ _ _ _ Hi Hi4) as Hi'. apply Hi4 in Hwr, Hop, Hw3.
  pose proof (early_idle scratch _ _ _ _ _ Hy Hi') as Hy4. clear Hi Hi4 Hy.
  apply wp_through; [done|]. apply wp_os. intros w rp s5 Hc He Hw Hm _ _.
  destruct (steady_open _ _ _ _ _ _ _ (ey_steady _ _ _ _ Hy4) Hc) as (Hs5 & Hn & Hfd).
  pose proof (rk_open _ _ _ _ _ (ey_steady _ _ _ _ Hy4) Hc) as Hk. rewrite Hn in Hm. simpl in Hm. wp_step. wp_step.
  rewrite (proj2 (Z.ltb_ge _ _) Hfd). rewrite <-Hw in Hs5, Hk.
  assert (holding c m (rp_rc rp) [] (wr g_log_fd (rp_rc rp) s5)) as H5.
  { assert (rd g_ring_used s4 = 0) as Hu4.
    { rewrite <-Hu. unfold rd. simpl. by rewrite (il_record _ _ _ Hi'). }
    assert (early c m (wr g_log_fd (rp_rc rp) s5)) as Hy5.
    { destruct Hy4 as [? ? [] ? Hm4]. destruct He as (? & ? & ? & ? & ->). constructor; try done.
      glob_simpl_in Hm. glob_simpl. by rewrite Hm. }
    destruct He as (? & ? & ? & ? & ->). by constructor. }
  wp_step. eapply wp_early_now; [exact H5|]. intros now s6 Hnow H6.
  wp_step. eapply wp_early_pid; [exact H6|]. intros pid s7 H7.
  wp_step. eapply wp_header; [exact H7|done|]. intros h s8 Hh H8. cbn [Z.eqb negb]. wp_step. by eapply HQ.
Qed.

(** *** The rest of the recording side *)

Lemma idles_signal_init fd : idles (sink fd) rr_signal_init (fun rc => rc = 0).
Proof.
  pose proof (rk_silent fd) as HT. unfold rr_signal_init.
  eapply idles_bind; [by apply (idles_call _ HT)|]. intros sz _.
  eapply idles_bind; [apply idles_put; intros s; constructor; try done; by intros k|]. intros _ _.
  eapply idles_bind; [apply (idles_mmap _ HT)|]. intros sp Hsp. cbv beta in Hsp.
  eapply idles_bind; [apply idles_put; intros s; constructor; try done; by intros k|]. intros _ _.
  rewrite (proj2 (Z.eqb_neq _ _) Hsp).
  eapply idles_bind; [by apply (idles_zero _ HT "sigaltstack")|]. intros rc ->. cbn [Z.eqb negb].
  eapply idles_bind; [by apply (idles_zero _ HT "sigaction")|]. intros rc ->. cbn [Z.eqb negb].
  eapply idles_bind; [by apply (idles_zero _ HT "sigprocmask")|]. intros rc ->. cbn [Z.eqb negb].
  eapply idles_bind; [apply (idles_os_rc _ HT _ (fun rc => 0 <= rc)); [done|]|].
  { intros x w w' rp Hw Hc. exact (steady_nonneg "signalfd" _ _ _ _ _ eq_refl Hw Hc). }
  intros d Hd. eapply idles_bind; [apply idles_put; intros s; constructor; try done; by intros k|]. intros _ _.
  rewrite (proj2 (Z.ltb_ge _ _)) by done. by apply idles_ret.
Qed.
Lemma wp_io_up c m fd bs s (Q : Z -> rr_state W -> Prop) :
  holding c m fd bs s -> (forall s', holding c m fd bs s' -> rd g_ring_ready s' = true -> Q 0 s') ->
  wp (rr_io_init 256) Q no_halt s.
Proof.
  intros Hh HQ. unfold rr_io_init. wp_step.
  eapply wp_holding; [apply (idles_os_rc _ (rk_silent fd) _ (fun rc => 0 <= rc)); [done|]|exact Hh|].
  { intros x w w' rp Hw Hc. exact (steady_nonneg "io_uring_queue_init" _ _ _ _ _ eq_refl Hw Hc). }
  intros rc s1 Hrc [[? ? []]]. rewrite (proj2 (Z.ltb_ge _ _)) by done. wp_steps. apply HQ; [|done].
  by constructor.
Qed.
Lemma wp_signal_read c m fd bs s sfd (Q : Z -> rr_state W -> Prop) :
  holding c m fd bs s -> rd g_ring_ready s = true -> (forall s', holding c m fd bs s' -> Q 0 s') ->
  wp (rr_io_submit_signal_read sfd) Q no_halt s.
Proof.
  intros Hh Hr HQ. pose proof (rk_silent fd) as HT. unfold rr_io_submit_signal_read. wp_step. wp_step.
  rewrite Hr. cbn [negb]. wp_step.
  eapply wp_holding; [apply idles_put; intros x; constructor; try done; by intros k|exact Hh|].
  intros _ s1 _ H1. wp_step.
  eapply wp_holding; [apply (idles_os_rc _ HT _ (fun p => p <> NULL)); [done|]|exact H1|].
  { intros x w w' rp Hw Hc. exact (steady_sqe _ _ _ _ Hw Hc). }
  intros p s2 Hp H2. rewrite (proj2 (Z.eqb_neq _ _) Hp). wp_step.
  eapply wp_holding; [by apply (idles_os _ HT _ (fun _ => True))|exact H2|]. intros _ s3 _ H3. wp_step.
  eapply wp_holding; [apply (idles_os_rc _ HT _ (fun rc => 0 <= rc)); [done|]|exact H3|].
  { intros x w w' rp Hw Hc. exact (steady_submit _ _ _ _ Hw Hc). }
  intros rc s4 Hrc H4. wp_step. rewrite (proj2 (Z.ltb_ge _ _)) by done. by apply HQ.
Qed.

Lemma record_side_up path c m s s0 R (Q : rr_state W -> bool -> rr_state W -> Prop) :
  early c m s -> rd g_ring_used s = 0 ->
  (forall fd h s', log_header h -> holding c m fd (encode_header h) s' -> Q s0 true s') ->
  cwp (init_record_side path s) s0 Q no_halt (fun _ _ _ => False) R.
Proof.
  intros Hy Hu HQ. unfold init_record_side. apply cwp_bind, cwp_lift.
  eapply wp_record_open; [done|done|]. intros fd h s1 Hh H1. cbn [Z.eqb negb]. apply cwp_bind, cwp_lift.
  eapply wp_holding; [apply idles_signal_init|exact H1|]. intros rc s2 -> H2. cbn [Z.eqb negb].
  apply cwp_bind, cwp_lift. eapply wp_io_up; [exact H2|]. intros s3 H3 Hr. cbn [Z.eqb negb].
  apply cwp_bind, cwp_lift. unfold rr_signal_fd. wp_step. apply cwp_bind, cwp_lift.
  eapply wp_signal_read; [exact H3|done|]. intros s4 H4. cbn [Z.eqb negb]. apply cwp_ret. by eapply HQ.
Qed.
(** *** The recording process, started *)

Record rec_started (m : memory) (fd : Z) (h : rr_log_header_t) s : Prop := {
  rst_recs : recs fd true s;
  rst_log : log_view s = encode_header h ++ encode_event (sched_event 1 0 1);
  rst_seq : rd g_rr_seq s = 1;
  rst_main : main_only s;
  rst_mem : mem_eq scratch m (rd mem s)
}.
Lemma rec_started_idle m fd h s s' : rec_started m fd h s -> idle (sink fd) s s' -> rec_started m fd h s'.
Proof.
  intros [Hr Hl Hq Hm He] Hi. destruct (recs_idle fd _ _ _ Hr Hi) as [Hr' Hl'].
  pose proof (main_only_idle _ _ _ Hm Hi). destruct Hi. constructor; try done; [congruence| |by rewrite il_mem].
  rewrite <-Hq. unfold rd. simpl. exact il_seq.
Qed.

(** The threads are up; the switch to the main thread is the first event. *)
Lemma wp_first_switch c m fd h s4 s :
  holding c m fd (encode_header h) s -> mode_record c = true -> mode_replay c = false ->
  logside (sink fd) s s4 -> main_only s4 -> rd g_sched_running s4 = true ->
  wp (rr_log_sched 0 1) (fun _ s' => rec_started m fd h (wr g_runtime_ready true s')) no_halt
    (wr g_rr_seq 0 s4).
Proof.
  intros [[Hc Hcold _ _ Hm] Hfd Ho Hr Hu Hw Hcl Hk] Hmr Hmp [] Hmo Hrun.
  assert (rd g_log_fd s4 = fd /\ rd g_ring s4 = Some ∅ /\ rd g_ring_used s4 = 0 /\
    rd g_rr_config s4 = c) as (E1 & E2 & E3 & E4).
  { rewrite <-Hfd, <-Hr, <-Hu, <-Hc. unfold rd. simpl. by rewrite ls_record, ls_config. }
  apply ls_slots in Hw, Hcl. rewrite Hk in ls_tape.
  set (s5 := wr g_rr_seq 0 s4).
  assert (rec_ok s5) as Hok.
  { split; [by rewrite <-E1 in Ho|]. split; [by exists ∅|]. split; [|done].
    change (rd g_ring_used s5) with (rd g_ring_used s4). rewrite E3. by vm_compute. }
  assert (log_view s5 = encode_header h) as Hv.
  { unfold log_view, pending. change (rd g_log_fd s5) with (rd g_log_fd s4).
    change (rd g_ring s5) with (rd g_ring s4). change (rd g_ring_used s5) with (rd g_ring_used s4).
    change (rd world s5) with (rd world s4). rewrite E1, E2, E3. simpl. rewrite app_nil_r. exact ls_tape. }
  eapply wp_post with (Q := fun _ s' => logged s5 (sched_event (u64 (rd g_rr_seq s5 + 1)) 0 1) s' /\
    steady (rd world s') /\ rd mem s' = rd mem s5).
  { eapply wp_and; [|apply calmly_log_sched; exact ls_steady].
    apply wp_log_sched; [done|by change (rd g_rr_config s5) with (rd g_rr_config s4); rewrite E4|done]. }
  intros [] s6 [(Hlo & Hok6 & _ & Hv6) [Hs6 Hm6]]. rewrite Hv in Hv6.
  destruct Hlo as (ring & used & _ & (? & ? & ? & ? & ->)). glob_simpl_in Hm6.
  destruct Hmo as [[fs Hh]]. constructor; [constructor| | | |]; try done.
  - by rewrite <-E4 in Hmr.
  - by rewrite <-E4 in Hmp.
  - unfold s5. glob_simpl. rewrite Hh. intros p u [_ <-]%lookup_singleton_Some. by vm_compute.
  - unfold s5. glob_simpl. by rewrite mo_next.
  - constructor; try done. by exists fs.
  - glob_simpl. rewrite Hm6. change (rd mem s5) with (rd mem s4). by rewrite ls_mem.
Qed.

Lemma record_threads_up c m fd h s s0 R :
  holding c m fd (encode_header h) s -> mode_record c = true -> mode_replay c = false ->
  cwp (init_threads c s) s0 (fun _ _ s' => rec_started m fd h s') no_halt (fun _ _ _ => False) R.
Proof.
  intros Hh Hmr Hmp. pose proof (rk_silent fd) as HT. unfold init_threads. rewrite Hmr, Hmp.
  apply cwp_bind, cwp_lift. eapply wp_post; [apply (wp_sched_init (sink fd) HT); apply Hh|].
  intros rc s1 (-> & H1 & P1 & Hrun1). cbn [Z.eqb negb]. apply cwp_bind, cwp_lift.
  eapply wp_post; [apply (wp_main_thread (sink fd) HT); [apply H1|done]|].
  intros rc s2 (-> & H2 & M2 & Hrun2). cbn [Z.eqb negb]. apply cwp_bind, cwp_lift, wp_put.
  apply cwp_bind, cwp_lift. cbn [when]. eapply wp_post.
  { eapply (wp_first_switch c m fd h s2 s); [done..|by eapply logside_trans|done|congruence]. }
  intros [] s3 H3. apply cwp_bind, cwp_lift. wp_step. cbn [Z.eqb negb]. apply cwp_lift.
  unfold rr_mark_runtime_ready. wp_step. wp_step.
  eapply wp_post; [apply (idles_debugf (sink fd) HT); apply H3|]. intros [] s4 [_ H4].
  by eapply rec_started_idle.
Qed.

Lemma record_start env m w :
  steady w -> getenv_in env "RR_MODE" = Some "record" ->
  exists fd h s, rr_init (boot_state env m w) = CDone tt s /\ log_header h /\ rec_started m fd h s.
Proof.
  intros Hs Hmode. destruct (cwp_returns (rr_init (boot_state env m w)) (boot_state env m w)
    (fun _ _ s => exists fd h, log_header h /\ rec_started m fd h s) (fun _ _ _ => True))
    as ([] & s & Hrun & fd & h & Hh & Hst); [|by exists fd, h, s].
  unfold rr_init. apply cwp_bind, cwp_lift. eapply wp_post.
  { by apply (wp_parse_env scratch). }
  intros [] s1 [H1 Hu]. apply cwp_bind, cwp_lift, wp_get. rewrite (ey_config _ _ _ _ H1).
  assert (mode_record (env_config env) = true /\ mode_replay (env_config env) = false) as [Hr Hp].
  { unfold env_config. simpl. by rewrite Hmode. }
  rewrite Hr, Hp. apply cwp_bind. eapply record_side_up; [done|done|]. intros fd h s2 Hh H2. cbn [negb].
  apply cwp_bind, cwp_lift, wp_ret. cbn [Z.eqb negb].
  eapply cwp_mono; [by eapply record_threads_up| |done]. intros s3 [] s4 H4. by exists fd, h.
Qed.
End RecordBoot.
