(* ===== verification/TwinReplay.v ===== *)
(** The start-up of a replaying process on a steady kernel, reading a log that begins
    with a header and the switch to the main thread. *)
From stdpp Require Import gmap strings list.
From coqutil Require Import Byte.
From S2P Require Import Prelude Types State Events Logic Log Scheduler Record Replay Signal IoUring Uthread Wrappers Lifecycle Machine LifecycleSafety Twin TwinOps TwinCalls TwinStart TwinBoot.

(** ** A replaying process *)

Section ReplayBoot.
Context {W : Type} `{!OS W} `{!LogSource W} `{!Steady W} `{!ReplayKernel W} (scratch : Z -> Prop).
Implicit Types r : rr_state W.
#[local] Notation early := (early scratch).

(** The log is open at [fd], its header was accepted, and [bs] is left to read. *)
Record reading (c : rr_config_t) (m : memory) (fd : Z) (bs : bytes) r : Prop := {
  re_early : early c m r;
  re_header : rd g_replay_header_ok r = true;
  re_fd : rd g_replay_fd r = fd; re_open : 0 <= fd;
  re_read : default 0 (rd statics r !! "replay:read") <> NULL;
  re_seq : rd g_expected_seq r = 1;
  re_rest : source fd (rd world r) = bs
}.

Lemma wp_replay_open c m path r h tl (Q : Z -> rr_state W -> Prop) :
  early c m r -> log_header h -> logfile (rd world r) path = encode_header h ++ tl ->
  (forall fd r', reading c m fd tl r' -> Q 0 r') -> wp (rr_replay_init path) Q no_halt r.
Proof.
  intros Hy Hh Hfile HQ. set (T := fun w : W => logfile w path).
  assert (HT : forall q m w w' rp, steady w -> silent q = true -> os_call q m w = (w', rp) -> T w' = T w).
  { intros q x w w' rp Hs Hq Hc. unfold T. by rewrite (pk_file _ _ _ _ _ Hs Hq Hc). }
  unfold rr_replay_init, rr_replay_resolve_real_io. wp_step. wp_step.
  eapply wp_post; [apply (wp_resolve_value T HT), Hy|]. intros p1 r1 (H1 & Hp1 & Hw1). wp_step.
  eapply wp_post; [apply (wp_resolve_value T HT), H1, Hy|]. intros p2 r2 (H2 & Hp2 & Hw2). wp_step.
  eapply wp_post; [apply (wp_resolve_value T HT), H2, H1, Hy|]. intros p3 r3 (H3 & Hp3 & Hw3). wp_step.
  rewrite (proj2 (Z.eqb_neq _ _) Hp1), (proj2 (Z.eqb_neq _ _) Hp2), (proj2 (Z.eqb_neq _ _) Hp3).
  cbn [negb andb Z.eqb].
  assert (default 0 (rd statics r3 !! "replay:read") <> NULL) as Hrd by (by apply H3, H2).
  assert (default 0 (rd statics r3 !! "replay:open") <> NULL) as Hop by (by apply H3).
  pose proof (idle_trans _ _ _ _ (idle_trans _ _ _ _ H1 H2) H3) as Hi. clear H1 H2 H3 Hw1 Hw2 Hw3.
  pose proof (early_idle scratch _ _ _ _ _ Hy Hi) as Hy3. pose proof (il_tape _ _ _ Hi) as Ht.
  unfold T in Ht. rewrite Hfile in Ht. clear Hi Hy.
  wp_step. apply wp_through; [done|]. apply wp_os. intros w rp r4 Hc He Hw Hm _ _.
  destruct (steady_open _ _ _ _ _ _ _ (ey_steady _ _ _ _ Hy3) Hc) as (Hs4 & Hn & Hfd).
  pose proof (pk_open _ _ _ _ _ (ey_steady _ _ _ _ Hy3) Hc) as Hk. rewrite Hn in Hm. simpl in Hm. wp_step. wp_step.
  rewrite (proj2 (Z.ltb_ge _ _) Hfd). rewrite <-Hw in Hs4, Hk. rewrite Ht in Hk.
  assert (early c m (wr g_replay_fd (rp_rc rp) r4) /\
    default 0 (rd statics (wr g_replay_fd (rp_rc rp) r4) !! "replay:read") <> NULL) as [Hy5 Hrd5].
  { destruct Hy3 as [? ? [] ? Hm3]. destruct He as (? & ? & ? & ? & ->). split; [|done]. constructor; try done.
    glob_simpl_in Hm. glob_simpl. by rewrite Hm. }
  set (r5 := wr g_replay_fd _ _) in *. wp_step. pose proof (length_encode_header h) as Hlen.
  eapply wp_post with (Q := fun x r' => (x = (0, encode_header h) /\ env_only r5 r' /\
    source (rp_rc rp) (rd world r') = tl) /\ steady (rd world r') /\ rd mem r' = rd mem r5).
  { eapply wp_and.
    - apply wp_read_full; [done|done|]. change (Z.to_nat (Z.of_nat sizeof_header)) with sizeof_header.
      change (rd world r5) with (rd world r4). rewrite Hk. intros r6 He6 _ k. unfold k. clear k.
      rewrite drop_app_length' by done. rewrite take_app_length' by done. intros Hs6.
      rewrite (proj2 (Nat.leb_le _ _)) by (rewrite length_app; lia). done.
    - assert (calmly (rr_read_full (W := W) (rp_rc rp) (Z.of_nat sizeof_header))) as Hcm
        by (unfold rr_read_full; calm_tac). by apply Hcm. }
  intros x r6 [(-> & He6 & Hs6) [Hst6 Hm6]]. cbn [fst snd Z.eqb negb]. destruct Hh as (Hwf & Hmg & Hvr).
  rewrite decode_encode_header, Hmg, Hvr by done. cbn [Z.eqb negb orb].
  replace (negb _ || negb _) with false by done. wp_steps. apply (HQ (rp_rc rp)).
  assert (early c m r6) as Hy6. { eapply early_env; [done..|]. rewrite Hm6. apply Hy5. }
  destruct Hy6 as [? ? []]. destruct He6 as (? & ? & ? & ? & ->). by constructor.
Qed.

(** *** The replaying process, started *)

Record rep_started (m : memory) (tl : bytes) r : Prop := {
  pst_reps : reps true r;
  pst_rest : rest r = tl;
  pst_seq : rd g_expected_seq r = 2;
  pst_main : main_only r;
  pst_running : rd g_sched_running r = true;
  pst_mem : mem_eq scratch m (rd mem r)
}.
Lemma rep_started_idle m tl r r' :
  rep_started m tl r -> idle (source (rd g_replay_fd r)) r r' -> rep_started m tl r'.
Proof.
  intros [Hr Hl Hq Hm Hn He] Hi. pose proof (reps_idle _ _ _ _ Hr Hi) as Hr'.
  pose proof (main_only_idle _ _ _ Hm Hi). destruct Hi.
  assert (rd g_replay_fd r' = rd g_replay_fd r /\ rd g_expected_seq r' = rd g_expected_seq r) as [E1 E2].
  { unfold rd. simpl. by rewrite il_replay. }
  constructor; try done; [|congruence..|by rewrite il_mem].
  unfold rest. rewrite E1, il_tape. exact Hl.
Qed.
(** The threads are up; the first event is the switch to the main thread. *)
Lemma wp_first_check c m fd tl r4 r :
  reading c m fd (encode_event (sched_event 1 0 1) ++ tl) r -> mode_record c = false ->
  mode_replay c = true -> replay_time_virtual c = true ->
  logside (source fd) r r4 -> main_only r4 -> rd g_sched_running r4 = true ->
  wp (rr_replay_expect_sched 0 1)
    (fun rc r' => rc = 0 /\ rep_started m tl (wr g_runtime_ready true r')) no_halt (wr g_rr_seq 0 r4).
Proof.
  intros [[Hc Hcold _ _ Hm] Hh Hfd Ho Hw Hx Hk] Hmr Hmp Hv [] Hmo Hrun.
  assert (rd g_replay_fd r4 = fd /\ rd g_replay_header_ok r4 = true /\ rd g_expected_seq r4 = 1 /\
    rd g_rr_config r4 = c) as (E1 & E2 & E3 & E4).
  { rewrite <-Hfd, <-Hh, <-Hx, <-Hc. unfold rd. simpl. by rewrite ls_replay, ls_config. }
  apply ls_slots in Hw. rewrite Hk in ls_tape. set (r5 := wr g_rr_seq 0 r4).
  eapply wp_post with (Q := fun rc r' => (rc = 0 /\ consumed r5 2 tl r') /\
    steady (rd world r') /\ rd mem r' = rd mem r5).
  { eapply wp_and; [|apply calmly_expect_sched; exact ls_steady].
    apply (wp_switch_delivered r5 0 1 tl).
    - split; [done|]. split; [by rewrite <-E1 in Ho|done].
    - by vm_compute.
    - by vm_compute.
    - change (rd g_expected_seq r5) with (rd g_expected_seq r4). rewrite E3. by vm_compute.
    - change (rd g_expected_seq r5) with (rd g_expected_seq r4). rewrite E3.
      unfold rest. change (rd g_replay_fd r5) with (rd g_replay_fd r4). rewrite E1. exact ls_tape.
    - change (rd g_expected_seq r5) with (rd g_expected_seq r4). rewrite E3. done. }
  intros rc r6 [[-> (He & _ & Hr6)] [Hs6 Hm6]]. split; [done|].
  destruct He as (? & ? & ? & ? & ->). glob_simpl_in Hm6.
  destruct Hmo as [[fs Hhp]]. constructor; [constructor| | | | |]; try done.
  - split; [done|]. split; [by rewrite <-E1 in Ho|done].
  - by rewrite <-E4 in Hmr.
  - by rewrite <-E4 in Hmp.
  - by rewrite <-E4 in Hv.
  - constructor; try done. by exists fs.
  - unfold r5 in *. glob_simpl. glob_simpl_in Hm6. rewrite Hm6. by rewrite ls_mem.
Qed.

Lemma replay_threads_up c m fd tl r s0 R :
  reading c m fd (encode_event (sched_event 1 0 1) ++ tl) r -> mode_record c = false ->
  mode_replay c = true -> replay_time_virtual c = true ->
  cwp (init_threads c r) s0 (fun _ _ r' => rep_started m tl r') no_halt (fun _ _ _ => False) R.
Proof.
  intros Hh Hmr Hmp Hv. pose proof (pk_source fd) as HT. unfold init_threads. rewrite Hmr, Hmp.
  apply cwp_bind, cwp_lift. eapply wp_post; [apply (wp_sched_init (source fd) HT); apply Hh|].
  intros rc s1 (-> & H1 & P1 & Hrun1). cbn [Z.eqb negb]. apply cwp_bind, cwp_lift.
  eapply wp_post; [apply (wp_main_thread (source fd) HT); [apply H1|done]|].
  intros rc s2 (-> & H2 & M2 & Hrun2). cbn [Z.eqb negb]. apply cwp_bind, cwp_lift, wp_put.
  apply cwp_bind, cwp_lift. cbn [when]. wp_step. apply cwp_bind, cwp_lift. eapply wp_post.
  { eapply (wp_first_check c m fd tl s2 r); [done..|by eapply logside_trans|done|congruence]. }
  intros rc s3 [-> H3]. cbn [Z.eqb negb]. apply cwp_lift.
  unfold rr_mark_runtime_ready. wp_step. wp_step.
  eapply wp_post; [apply (idles_debugf _ (pk_source (rd g_replay_fd s3))); apply H3|]. intros [] s4 [_ H4].
  by eapply rep_started_idle.
Qed.

Lemma replay_start env m w h tl :
  steady w -> getenv_in env "RR_MODE" = Some "replay" ->
  getenv_in env "RR_REPLAY_TIME" <> Some "real" -> log_header h ->
  logfile w (log_path (env_config env)) = encode_header h ++ encode_event (sched_event 1 0 1) ++ tl ->
  exists r, rr_init (boot_state env m w) = CDone tt r /\ rep_started m tl r.
Proof.
  intros Hs Hmode Htime Hh Hfile. destruct (cwp_returns (rr_init (boot_state env m w)) (boot_state env m w)
    (fun _ _ r => rep_started m tl r) (fun _ _ _ => True)) as ([] & r & Hrun & Hst); [|by exists r].
  unfold rr_init. apply cwp_bind, cwp_lift. eapply wp_post.
  { eapply wp_and; [by apply (wp_parse_env scratch)|by apply wp_parse_world]. }
  intros [] r1 [[H1 _] Hw]. apply cwp_bind, cwp_lift, wp_get. rewrite (ey_config _ _ _ _ H1).
  assert (mode_record (env_config env) = false /\ mode_replay (env_config env) = true /\
    replay_time_virtual (env_config env) = true) as (Hr & Hp & Hv).
  { unfold env_config. simpl. rewrite Hmode. split; [done|]. split; [done|].
    destruct (getenv_in env "RR_REPLAY_TIME") as [x|]; [|done]. simpl.
    destruct (String.eqb_spec x "real") as [->|]; [by destruct Htime|done]. }
  rewrite Hr, Hp. apply cwp_bind, cwp_ret. cbn [negb]. apply cwp_bind, cwp_lift.
  eapply wp_replay_open; [done|exact Hh|rewrite Hw; exact Hfile|]. intros fd r2 H2. cbn [Z.eqb negb].
  by eapply replay_threads_up.
Qed.
End ReplayBoot.
