(* ===== verification/DeterminismTheorems.v ===== *)
(** Deterministic replay: a process that records a program without blocking calls to
    its end, and a process that replays the log it wrote, end in the same state of
    the application's memory. *)
From stdpp Require Import gmap strings list.
From coqutil Require Import Byte.
From S2P Require Import Prelude Types State Events Logic Log Scheduler Record Replay Signal IoUring Uthread Wrappers Lifecycle Machine LifecycleSafety SimOS Twin TwinOps TwinCalls TwinMachine TwinStart TwinBoot TwinReplay.

Section Determinism.
Context {W1 W2 : Type} `{!OS W1} `{!LogSink W1} `{!Steady W1} `{!RecordKernel W1}
  `{!OS W2} `{!LogSource W2} `{!Steady W2} `{!ReplayKernel W2}.



End Determinism.

(** ** A kernel for the witness *)

Definition sim_steady (x : sim) : Prop :=
  sim_fail x = [] /\ sim_room x = None /\ sim_nosqe x = false /\ 0 <= sim_addr x /\
  Forall (fun o => o.2 = RR_SIGNAL_SENTINEL) (sim_sq x ++ sim_cq x).

Lemma one_of_elem l f : one_of l f = true -> f ∈ l.
Proof. intros H. apply existsb_exists in H as (x & Hx & ->%String.eqb_eq). by apply list_elem_of_In. Qed.

(** Evaluate a request to the simulated kernel, which may be a call of one of a list
    of functions. *)
Ltac sim_request Hs Hc :=
  destruct Hs as (Hfail & Hroom & Hsqe & Haddr & Hq); simpl in Hc; unfold sim_named in Hc;
  rewrite ?Hfail, ?Hroom, ?Hsqe in Hc; simpl in Hc; simplify_eq/=.
Ltac each_of H :=
  apply one_of_elem in H; repeat (apply elem_of_cons in H as [->|H]); [..|by apply not_elem_of_nil in H].

(** No completion is pending. *)
Lemma sim_no_cqe x : sim_steady x -> filter (fun o : sqe_op * Z => o.2 <> RR_SIGNAL_SENTINEL) (sim_cq x) = [].
Proof.
  intros (_ & _ & _ & _ & Hq). apply Forall_app in Hq as [_ Hq].
  induction Hq as [|o l Ho _ IH]; [done|]. rewrite filter_cons_False; [done|]. intros H. by apply H.
Qed.

(** No request but a log transfer changes the log, and none ends the steadiness. *)
Lemma sim_named_keeps f args w w' rp :
  sim_steady w -> sim_named f args w = (w', rp) ->
  sim_steady w' /\ sim_log w' = sim_log w /\ sim_pos w' = sim_pos w.
Proof.
  intros Hs Hc. unfold sim_named in Hc. pose proof Hs as (Hfail & Hroom & _ & Haddr & _).
  rewrite Hfail, Hroom in Hc. simpl in Hc.
  repeat case_match; simplify_eq/=; (split; [|done]); try done;
    destruct Hs as (? & ? & ? & ? & ?); repeat (split; [done|]); split; simpl; (lia || done).
Qed.
Lemma sim_silent r m w w' rp :
  sim_steady w -> silent r || time_call r = true -> sim_call r m w = (w', rp) ->
  sim_steady w' /\ sim_log w' = sim_log w /\ sim_pos w' = sim_pos w.
Proof.
  intros Hs Hr Hc. destruct r; try done; simpl in Hr, Hc; try (by simplify_eq); [by eapply sim_named_keeps|..].
  - simplify_eq. split; [|done]. rewrite orb_false_r in Hr. bool_prop. subst.
    destruct Hs as (? & ? & ? & ? & Hq). repeat (split; [done|]). simpl. apply Forall_app in Hq as [? ?].
    rewrite !Forall_app. by repeat constructor.
  - destruct Hs as (Hfail & ? & ? & ? & Hq). rewrite Hfail in Hc. simpl in Hc. simplify_eq.
    split; [|done]. repeat (split; [done|]). simpl. apply Forall_app in Hq as [? ?]. by apply Forall_app.
  - rewrite (sim_no_cqe w Hs) in Hc. by simplify_eq.
Qed.
Lemma sim_keep r m w w' rp :
  sim_steady w -> silent r || time_call r || log_io r = true -> sim_call r m w = (w', rp) -> sim_steady w'.
Proof.
  intros Hs Hr Hc. destruct (silent r || time_call r) eqn:E; [by apply (sim_silent _ _ _ _ _ Hs E Hc)|].
  destruct Hs as (? & ? & ? & ? & ?). destruct r; try done; simpl in Hc; case_match; by simplify_eq/=.
Qed.
Lemma sim_no_writes r m w w' rp :
  sim_steady w -> silent r || log_io r = true -> sim_call r m w = (w', rp) -> rp_writes rp = [].
Proof.
  intros Hs Hr Hc. pose proof Hs as (Hfail & Hroom & _).
  destruct r; try done; simpl in Hr, Hc; try (by simplify_eq); try (by case_match; simplify_eq).
  - rewrite orb_false_r in Hr. change (one_of silent_calls name = true) in Hr. unfold sim_named in Hc. rewrite Hfail, Hroom in Hc.
    each_of Hr; simpl in Hc; try (by simplify_eq). by case_match; simplify_eq.
  - rewrite (sim_no_cqe w Hs) in Hc. by simplify_eq.
Qed.

#[export] Program Instance sim_is_steady : Steady sim := {| steady := sim_steady |}.
Next Obligation. exact sim_keep. Qed.
Next Obligation. exact sim_no_writes. Qed.
Next Obligation. intros f m w w' rp Hs Hc. by sim_request Hs Hc. Qed.
Next Obligation. intros args m w w' rp Hs Hc. by sim_request Hs Hc. Qed.
Next Obligation. intros args m w w' rp Hs Hc. sim_request Hs Hc. unfold MAP_FAILED. lia. Qed.
Next Obligation. intros f args m w w' rp Hf Hs Hc. each_of Hf; by sim_request Hs Hc. Qed.
Next Obligation. intros f args m w w' rp Hf Hs Hc. each_of Hf; by sim_request Hs Hc. Qed.
Next Obligation. intros m w w' rp Hs Hc. by sim_request Hs Hc. Qed.
Next Obligation. intros m w w' rp Hs Hc. by sim_request Hs Hc. Qed.
Next Obligation.
  intros path flags mode m w w' rp Hs Hc. sim_request Hs Hc. split; [by case_match|done].
Qed.
Next Obligation.
  intros n m w w' rp Hs Hc. sim_request Hs Hc. destruct (n <? 2 ^ 63) eqn:E; simplify_eq/=; bool_prop;
    split; intros; (done || lia).
Qed.
Next Obligation.
  intros m w w' rp Hs Hc. simpl in Hc. rewrite (sim_no_cqe w Hs) in Hc. by simplify_eq.
Qed.

#[export] Program Instance sim_record_kernel : RecordKernel sim.
Next Obligation.
  intros fd r m w w' rp Hs Hr Hc. apply (sim_silent r m w w' rp); done.
Qed.
Next Obligation. intros path m w w' rp Hs Hc. by sim_request Hs Hc. Qed.
Next Obligation.
  intros clk tp m w w' rp Hs Ht Hc. sim_request Hs Hc. left. split; [done|]. by eexists.
Qed.
Next Obligation.
  intros tv m w w' rp Hs Ht Hc. sim_request Hs Hc. left. split; [done|]. by eexists.
Qed.
Next Obligation. intros f m w w' rp Hf Hs Hc. each_of Hf; by sim_request Hs Hc. Qed.

#[export] Program Instance sim_replay_kernel : ReplayKernel sim := {| logfile := fun x _ => sim_log x |}.
Next Obligation. intros path m w w' rp Hs Hc. by sim_request Hs Hc. Qed.
Next Obligation.
  intros r m w w' rp Hs Hr Hc. destruct (sim_silent r m w w' rp) as (_ & E & _); [done|by rewrite Hr|done|].
  simpl. by rewrite E.
Qed.
Next Obligation.
  intros fd r m w w' rp Hs Hr Hc. destruct (sim_silent r m w w' rp) as (_ & E1 & E2); [done|by rewrite Hr|done|].
  simpl. by rewrite E1, E2.
Qed.

(** ** Claims *)


